(* ===== verification/_CoqProject ===== *)
-Q . S2P
Prelude.v
Globals.v
Gzip.v
Logger.v
LoggerProps.v
Base64.v
Url.v
Common.v
Message.v
Parser.v
ParserLaws.v
ParserProps.v
Chunked.v
Multipart.v
Rest.v
Connection.v
Workers.v
Server.v
ServerSpec.v
ServerLive.v
Client.v
GzipContent.v
Sockets.v
SocketsProps.v
Double.v
JsonText.v
JsonUtf8.v
JsonValue.v
JsonWriter.v
JsonWriters.v
JsonReader.v
JsonOldReader.v
JsonLaws.v
JsonTypes.v
JsonOrder.v
JsonConvert.v
JsonMemory.v
JsonMemoryLaws.v
JsonMemoryProps.v
JsonIterator.v
JsonPath.v
JsonReaderLaws.v
JsonOldReaderLaws.v
JsonGrammar.v
JsonLexis.v
JsonAccepts.v
JsonQuote.v
JsonNumber.v
JsonReal.v
JsonWritten.v
JsonPrinter.v
JsonWriterLaws.v
JsonWritersLaws.v
JsonProps.v
JsonArrays.v
FaceDetection.v
FaceProps.v
EndToEnd.v
Facedetector.v
ServiceTests.v
