(* ===== verification/Prelude.v ===== *)
(** * The face-detection service: a verification library

    The program (directory [src/facedetection_va]) is an HTTP service in C++: a
    client posts a JSON object with an identifier and an image in base64, the
    service finds the faces in the image with OpenCV and answers with their
    rectangles as JSON.  It brings its own HTTP library ([webcc]), a copy of JsonCpp
    ([json/jsoncpp.cpp]), a base64 codec and a command-line mode that writes
    what it found to a database.

    ** Parts of the program and files of the library

    Every file models the sources named in its own first comment; a definition keeps the
    name of the function, method or type it translates, with a suffix where Rocq
    reserves the name ([Client.Request_], [Hdr.Set_]) or overloads need one
    ([index_ref], [index_const]).

    - Foundations.  [Prelude]: byte strings, the string functions of the C++ library
      that the sources call, numbers as text, tactics and hints.  [Globals]
      ([webcc/globals.*]): constants, status codes, exceptions, and [outcome],
      the result of code that may throw or run out of fuel.
    - Texts.  [Base64] ([base64/base64.cpp], [webcc/base64.cc]), [Url]
      ([webcc/url.*]), [Gzip] ([webcc/gzip.*]) over zlib, a class of operations with the laws
      of its manual.
    - Logging.  [Logger] ([webcc/logger.*]): a call as its actions on mutex and streams, and
      a step relation of several threads; [LoggerProps] its properties.
    - HTTP messages.  [Common] ([webcc/common.*], [utility.*]): headers, content
      types, form parts.  [Message] ([message.*], [request.*],
      [response.*]).  [Parser] ([parser.*], [request_parser.*],
      [response_parser.*]): the incremental parsers, with the virtual
      functions as the class [Virtuals].  [ParserLaws] has the interface [Lawful]
      that a derived parser discharges and the theorems proved against it;
      [ParserProps] has the properties, [Chunked] those of chunked content that arrives in
      pieces, [Multipart] those of forms.
    - The server.  [Rest] ([rest_*]): services and their dispatch.
      [Connection] ([connection.*], [connection_pool.*]): the handlers of one
      connection.  [Workers] ([queue.h], [request_handler.*]): the queue and
      the worker threads.  [Server] ([server.*], [rest_server.h]): the
      step relation of the whole server, over all interleavings.  [ServerSpec]:
      the abstract specification, sequential sessions, and the refinement.
      [ServerLive]: infinite runs, fairness, and liveness.
    - The client.  [Client] ([client.*], [client_pool.*],
      [request_builder.*], [client_session.*]), over a network that is an argument.
      [Sockets] ([socket.*]): the interface [SocketBase], both its implementations as calls
      of Asio and OpenSSL, and the client over them; [SocketsProps] shows that they do to the
      members of the client what such a network does, and what HTTPS sends.  [GzipContent]: the code of parsers, client and builder that a build with
      gzip has.
    - JSON ([json/jsoncpp.cpp]).  [Double]: the type [double] and the C
      functions applied to it.  [JsonText]: scalars as text.
      [JsonValue]: [class Value], with its order in [JsonOrder], its conversions in
      [JsonConvert], its iterators in [JsonIterator] and paths in [JsonPath].
      [JsonMemory]: the same class with its strings, keys and maps on a heap, and programs
      over variables; [JsonMemoryLaws], [JsonMemoryProps]: they refine the values.
      [JsonWriter], [JsonReader]: the writer and the reader that the service uses;
      [JsonWriters], [JsonOldReader]: the deprecated classes.  The specification,
      independent of all of them: [JsonUtf8] and [JsonGrammar], the texts and what they
      denote.  The proofs: [JsonLaws], [JsonTypes] on values; [JsonReaderLaws], [JsonLexis],
      [JsonAccepts], [JsonOldReaderLaws] on readers; [JsonQuote], [JsonNumber], [JsonReal] on
      scalars; [JsonWritten] says what a value is as JSON, [JsonPrinter] has the interface
      [LawfulPrinter] that a writer discharges and the proof against it,
      [JsonWriterLaws] and [JsonWritersLaws] its instances.  The properties of the two
      classes the service uses: [JsonProps]; arrays as lists: [JsonArrays].
    - The application.  [FaceDetection] ([FaceDetectionService.*]),
      [FaceProps] its properties, [Facedetector] the program around it
      ([facedetector.cpp], [DB.*]), whose calls to the outside are a sequence, [EndToEnd]
      the way of a request through all parts, and [ServiceTests] the unit tests
      ([test/TestFaceDetectionService.cpp]), which pass.

    ** How the parts interact

    Asio runs [Connection.OnRead] for every read that completes; it feeds the
    request parser, which writes into the request of the connection.  A complete request
    puts the connection into the queue; a worker takes it out, calls
    [Rest.HandleConnection], which asks the bound service ([FaceDetection.Post]
    for [/images]), and has the connection send the response.  [OnWrite] then
    closes the connection or waits for the next request.  In [Server.sstep] all of
    these interleave, with new connections, failures of the network and the stop signal.  A handler
    returns the calls it makes on its socket, the pool and the queue, the pool those it makes on
    its connections, and the step carries them out ([Server.act], [Server.use_pool]): a connection
    has any number of reads and writes in flight, a write with the bytes it was given, and a
    completion is possible only of an operation in flight.
    The service parses the body with [JsonReader] and writes the response
    with [JsonWriter].

    ** Groups of theorems

    - Server: [ServerSpec.server_refines_sessions] (the server is its
      specification), [Server.connection_exclusive], [Server.no_connection_leaks],
      [ServerSpec.answers_match_requests], [Workers.workers_fifo],
      [Workers.stop_terminates]; in fair runs every request is answered
      ([ServerLive.requests_get_answered]).
    - HTTP: what one side writes the other reads, however it is cut
      ([ParserProps.request_roundtrip], [Multipart.multipart_roundtrip],
      [Client.client_gets_response],
      [ParserProps.reads_may_be_cut_anywhere]; for chunks [Chunked.chunked_reads] says where
      a cut matters); the parsers return
      ([ParserProps.parser_returns]); keep-alive
      ([Connection.keep_alive_announced]); how a request of the client ends and what it leaves in
      the pool ([Client.client_request_result], [Client.send_keeps_pool]); what HTTPS sends is inside
      TLS ([SocketsProps.https_request_inside_tls]); what is compressed is decompressed to the same
      ([Gzip.gzip_roundtrip]).
    - Logging: entries stay whole and in order ([LoggerProps.log_entries_stay_whole]).
    - JSON: the reader accepts the grammar and computes what a text denotes, the
      writers write the grammar, round trips, termination; members form a map
      ([JsonProps.members_form_a_map]) and elements a list ([JsonArrays.arrays_are_lists]), the order
      of values, checked conversions, paths; the deprecated classes
      compute what the others do ([JsonOldReaderLaws.older_reader_agrees],
      [JsonWritersLaws.older_writers_agree]); programs with values neither leak nor free
      twice ([JsonMemoryProps.programs_keep_memory]).
    - Application: what the service answers on every branch
      ([FaceProps.server_answers], [FaceProps.post_throws]), the whole way of a
      request ([EndToEnd.faces_over_the_wire]) and, with the other connections, the
      queue and the workers around it, that it is gone to its end
      ([EndToEnd.faces_served]), the calls of the program, on the command line
      ([Facedetector.command_line_run]) and as a server ([Facedetector.main_as_server]).
    - Defects that the model shows, each as a theorem about the code as it is:
      [FaceProps.bad_body_ends_server], [FaceProps.post_accepts_cut_off],
      [JsonProps.deep_nesting_throws], [JsonProps.quote_starts_comment],
      [ParserProps.chunk_size_line_cut_throws],
      [Connection.keep_alive_after_multipart], [Base64.webcc_decode_overrun],
      [JsonPath.path_with_nul_hangs], [JsonReader.pushError_undefined],
      [JsonMemoryProps.copy_to_itself], [LoggerProps.log_line_forged],
      [Server.bind_failure_runs], [Client.two_servers_undefined],
      [Client.exception_keeps_connection], [Client.timeout_may_succeed],
      [Gzip.compress_calls_behind_end].

    ** Representation

    A [std::string] is a list of bytes.  Integers are [Z] or [N], and the width is
    written out where the code can overflow ([chunk_size_] of the parser,
    [ArrayIndex], the conversions of [Value]).  Objects are records, member functions
    take and return them; code that throws returns [outcome], whose exception
    [UndefinedBehaviour] stands for what the C++ standard leaves open.  What an
    uninitialised variable holds, and what the network, the clock, the file
    system, [std::regex], OpenCV and MySQL do, are arguments.

    ** Fuel

    Loops that are not structural have fuel, and the value [OutOfFuel] when it ends.
    The loops of the HTTP parsers get one more than the bytes pending
    ([Parser.Parse]); [ParserProps.parser_returns] shows that this is enough, and
    [Connection.keep_alive_after_multipart] that in one state of a parser used again no
    fuel is.  The reader of JSON gets fuel for the characters left and, in
    [readValue], for the 1000 levels of its stack; [JsonProps.reader_returns]
    shows that this is enough.  The writers get fuel for the depth of the value
    ([JsonPrinter.printer_writes]), a path for its text ([JsonPath.makePath_returns]).
    Numbers are printed with fuel for their digits.  The loops of [Gzip] get fuel for the
    calls of zlib; [Gzip.Decompress_returns] bounds it for an [inflate] that makes progress.
    In [Client.ReadResponse] the end of the given completions means that the call still
    blocks.

    ** Not modelled

    - Asio, OpenSSL, zlib, OpenCV, [std::regex], MySQL, the clock and the file system: what
      they return is an argument, with laws only where a theorem names them.  The pool of the
      client's connections is a [std::map]: its operations are those of a sorted list as long as the
      order of its keys is one on the keys in use, and undefined otherwise.
    - Of JsonCpp the overloads that only convert their argument, [CppTL], locales whose
      decimal point is not a dot, and secure memory.  [JsonMemory] has no failing [malloc].
    - Vendored and generated code (googletest, cascades of OpenCV), the
      scripts, and the web front end, which is not C++. *)
From Stdlib Require Import Ascii String.
From stdpp Require Import base tactics list numbers option strings.

(** ** Byte strings

    A [std::string] is a finite sequence of bytes, represented as a list of
    [ascii] characters (8 bits each).  [lit] (written [#"..."]) turns a source
    literal into such a list. *)
Abbreviation str := (list ascii).

Declare Scope webcc_scope.
Delimit Scope webcc_scope with webcc.

Definition lit (s : string) : str := list_ascii_of_string s.
Notation "# s" := (lit s) (at level 1, s at level 0, format "# s") : webcc_scope.
Open Scope webcc_scope.

(** The unsigned value of a byte, and the byte of a value modulo 256. *)
Definition code (c : ascii) : Z := Z.of_N (N_of_ascii c).
Definition chr (z : Z) : ascii := ascii_of_N (Z.to_N (z mod 256)).
(** The value of a [char], which is signed on the platform modelled (gcc, x86-64). *)
Definition schar (c : ascii) : Z := if (code c <? 128)%Z then code c else (code c - 256)%Z.

Definition CR : ascii := "013".
Definition LF : ascii := "010".
Definition HT : ascii := "009".
Definition SP : ascii := " ".
Definition DQ : ascii := "034".
Definition NUL : ascii := "000".
Definition kCRLF : str := [CR; LF].

(** Equality of bytes and of byte strings as Boolean functions. *)
Definition ceqb (a b : ascii) : bool := Ascii.eqb a b.
Fixpoint seqb (a b : str) : bool :=
  match a, b with
  | [], [] => true
  | x :: a', y :: b' => ceqb x y && seqb a' b'
  | _, _ => false
  end.

(** The text up to the first NUL, as a C string is read. *)
Fixpoint c_str (s : str) : str :=
  match s with
  | [] => []
  | c :: s' => if ceqb c NUL then [] else c :: c_str s'
  end.

(** ** [size_t]: unsigned 64-bit integers, kept as [N]. *)
Definition two64 : N := 18446744073709551616.
Definition wrap64 (n : N) : N := (n mod two64)%N.
Definition npos : N := 18446744073709551615.
Definition len (s : str) : N := N.of_nat (length s).
(** [std::string::max_size()] of libstdc++ on a 64-bit platform. *)
Definition max_size : N := 9223372036854775807.

(** ** Searching: [std::string::find] *)
Fixpoint prefixb (p s : str) : bool :=
  match p, s with
  | [], _ => true
  | x :: p', y :: s' => ceqb x y && prefixb p' s'
  | _, [] => false
  end.

Fixpoint find_str (p s : str) : option nat :=
  if prefixb p s then Some 0
  else match s with
       | [] => None
       | _ :: s' => option_map S (find_str p s')
       end.

(** [s.find(p, off)]; [None] is [npos]. *)
Definition find_from (p s : str) (off : nat) : option nat :=
  option_map (Nat.add off) (find_str p (drop off s)).

Definition find_chr (c : ascii) (s : str) : option nat := find_str [c] s.

(** [s.substr(pos, n)] for [pos <= s.size()], and [s.erase(pos, n)]. *)
Definition substr (s : str) (pos n : nat) : str := take n (drop pos s).
Definition erase (s : str) (pos n : nat) : str := take pos s ++ drop (pos + n) s.

(** ** Character classes of the "C" locale, [boost::trim], [boost::iequals] *)
Definition isspace (c : ascii) : bool :=
  let z := code c in ((9 <=? z) && (z <=? 13) || (z =? 32))%Z.
Definition isdigit (c : ascii) : bool :=
  let z := code c in ((48 <=? z) && (z <=? 57))%Z.
Definition isupper (c : ascii) : bool :=
  let z := code c in ((65 <=? z) && (z <=? 90))%Z.
Definition islower (c : ascii) : bool :=
  let z := code c in ((97 <=? z) && (z <=? 122))%Z.
Definition isalnum (c : ascii) : bool := isdigit c || isupper c || islower c.
Definition toupper (c : ascii) : ascii :=
  if islower c then chr (code c - 32) else c.

Fixpoint drop_while (p : ascii -> bool) (s : str) : str :=
  match s with
  | [] => []
  | c :: s' => if p c then drop_while p s' else s
  end.

Definition trim_left_if (p : ascii -> bool) (s : str) : str := drop_while p s.
Definition trim_right_if (p : ascii -> bool) (s : str) : str :=
  rev (drop_while p (rev s)).
Definition trim_if (p : ascii -> bool) (s : str) : str :=
  trim_left_if p (trim_right_if p s).
Definition trim (s : str) : str := trim_if isspace s.
Definition trim_left (s : str) : str := trim_left_if isspace s.

Definition iequals (a b : str) : bool := seqb (map toupper a) (map toupper b).

(** ** [boost::split(_, s, is_any_of, token_compress_on/off)] *)
Fixpoint split_go (sep : ascii -> bool) (compress skip : bool)
    (acc s : str) : list str :=
  match s with
  | [] => [rev acc]
  | c :: s' =>
      if sep c then
        if skip then split_go sep compress skip acc s'
        else rev acc :: split_go sep compress compress [] s'
      else split_go sep compress false (c :: acc) s'
  end.
Definition split_on (sep : ascii -> bool) (compress : bool) (s : str) : list str :=
  split_go sep compress false [] s.

(** ** Numbers in text *)

(** The value of a digit in bases up to 36; [None] for any other byte. *)
Definition digit_val (c : ascii) : option N :=
  let z := code c in
  if isdigit c then Some (Z.to_N (z - 48))
  else if isupper c then Some (Z.to_N (z - 55))
  else if islower c then Some (Z.to_N (z - 87))
  else None.

Definition base_digit (base : N) (c : ascii) : option N :=
  match digit_val c with
  | Some d => if (d <? base)%N then Some d else None
  | None => None
  end.

(** The longest run of digits at the head of [s], accumulated on [acc]; the
    Boolean says whether a digit was read. *)
Fixpoint read_digits (base acc : N) (seen : bool) (s : str) : bool * N :=
  match s with
  | [] => (seen, acc)
  | c :: s' =>
      match base_digit base c with
      | Some d => read_digits base (acc * base + d) true s'
      | None => (seen, acc)
      end
  end.

(** The sign and the subject of [strtol]/[strtoul] after white space. *)
Definition read_sign (s : str) : bool * str :=
  match s with
  | c :: s' => if ceqb c "-" then (true, s')
               else if ceqb c "+" then (false, s') else (false, s)
  | [] => (false, s)
  end.

(** An optional [0x] prefix in base 16, skipped only when a digit follows. *)
Definition read_0x (base : N) (s : str) : str :=
  match s with
  | z :: x :: s' =>
      if (base =? 16)%N && ceqb z "0" && (ceqb x "x" || ceqb x "X")
         && match s' with
            | d :: _ => match base_digit 16 d with Some _ => true | None => false end
            | [] => false
            end
      then s' else s
  | _ => s
  end.

(** [std::stoul(s, 0, base)]: [None] when it throws ([invalid_argument] when no
    digit is found, [out_of_range] when the magnitude exceeds [ULONG_MAX]); a
    minus sign negates the result modulo 2^64, as [strtoul] does. *)
Definition stoul (base : N) (s : str) : option N :=
  let '(neg, s1) := read_sign (drop_while isspace s) in
  let '(seen, v) := read_digits base 0 false (read_0x base s1) in
  if seen then
    if (v <? two64)%N
    then Some (if neg : bool then wrap64 (two64 - v) else v)
    else None
  else None.

(** [std::stoi(s)]: the result must fit in a 32-bit [int]. *)
Definition stoi (s : str) : option Z :=
  let '(neg, s1) := read_sign (drop_while isspace s) in
  let '(seen, v) := read_digits 10 0 false s1 in
  let z := if neg : bool then (- Z.of_N v)%Z else Z.of_N v in
  if seen && (-2147483648 <=? z)%Z && (z <=? 2147483647)%Z then Some z else None.

(** Decimal digits of [n], least significant digit produced first, with [fuel]
    digits at most; 20 digits are enough for any 64-bit value. *)
Definition digit_chr (d : N) : ascii := chr (48 + Z.of_N d).
Fixpoint dec_digits (fuel : nat) (n : N) (acc : str) : str :=
  match fuel with
  | 0 => acc
  | S fuel' =>
      let acc' := digit_chr (n mod 10) :: acc in
      if (n <? 10)%N then acc' else dec_digits fuel' (n / 10) acc'
  end.
(** [std::to_string] of an unsigned 64-bit value. *)
Definition to_dec (n : N) : str := dec_digits 20 n [].

(** [std::to_string] of an [int], or an [int] in a stream. *)
Definition int_to_string (z : Z) : str :=
  if (z <? 0)%Z then "-"%char :: to_dec (Z.to_N (- z)) else to_dec (Z.to_N z).

(** [operator<] of [std::string], which compares bytes as [unsigned char]. *)
Fixpoint str_ltb (a b : str) : bool :=
  match a, b with
  | [], [] => false
  | [], _ => true
  | _, [] => false
  | x :: a, y :: b => (code x <? code y)%Z || (ceqb x y && str_ltb a b)
  end.

(** ** Tactics and hints *)

(** Exhaustive case analysis on a byte. *)
Ltac byte_cases c := destruct c as [[] [] [] [] [] [] [] []].

(** Splits Boolean conjunctions and negations in the hypotheses. *)
Ltac bsimpl :=
  repeat match goal with
  | H : (_ && _)%bool = true |- _ => apply andb_true_iff in H; destruct H
  | H : (_ || _)%bool = false |- _ => apply orb_false_iff in H; destruct H
  | H : negb _ = true |- _ => apply negb_true_iff in H
  | H : negb _ = false |- _ => apply negb_false_iff in H
  end.

(** A closed decidable proposition, by evaluation. *)
Ltac decide_now := apply (bool_decide_unpack _); vm_compute; exact I.

(** Linear arithmetic with division and remainder by constants. *)
Ltac dlia := Z.to_euclidean_division_equations; lia.

Create HintDb webcc.
Create Rewrite HintDb webcc_rw.

(** ** Lemmas on bytes and byte strings *)

Lemma ceqb_eq a b : ceqb a b = true <-> a = b.
Proof. apply Ascii.eqb_eq. Qed.
Lemma ceqb_refl a : ceqb a a = true.
Proof. by apply ceqb_eq. Qed.
Lemma ceqb_neq a b : ceqb a b = false <-> a <> b.
Proof. apply Ascii.eqb_neq. Qed.
#[export] Hint Rewrite ceqb_refl : webcc_rw.

Lemma seqb_eq a b : seqb a b = true <-> a = b.
Proof.
  revert b; induction a as [|x a IH]; intros [|y b]; simpl; try done.
  rewrite andb_true_iff, ceqb_eq, IH. naive_solver.
Qed.
Lemma seqb_refl a : seqb a a = true.
Proof. by apply seqb_eq. Qed.
Lemma seqb_neq a b : seqb a b = false <-> a <> b.
Proof.
  rewrite <- seqb_eq. destruct (seqb a b); naive_solver.
Qed.
#[export] Hint Rewrite seqb_refl : webcc_rw.

Lemma c_str_no_nul s : NUL ∉ s -> c_str s = s.
Proof.
  induction s as [|c s IH]; [done|]. rewrite not_elem_of_cons. intros [Hc Hs]. cbn.
  assert (ceqb c NUL = false) as -> by by apply ceqb_neq. by rewrite IH.
Qed.

Lemma code_range c : (0 <= code c < 256)%Z.
Proof. by byte_cases c. Qed.
Lemma chr_code c : chr (code c) = c.
Proof. by byte_cases c. Qed.
Lemma code_chr z : (0 <= z < 256)%Z -> code (chr z) = z.
Proof.
  intros Hz. unfold code, chr. rewrite Z.mod_small by done.
  rewrite N_ascii_embedding by lia. lia.
Qed.
Lemma code_inj a b : code a = code b -> a = b.
Proof. intros H. by rewrite <- (chr_code a), H, chr_code. Qed.
#[export] Hint Rewrite chr_code : webcc_rw.

(** A property of all values of a small range, decided by evaluation. *)
Lemma range_forall (P : Z -> bool) (n z : Z) :
  forallb P (map Z.of_nat (seq 0 (Z.to_nat n))) = true -> (0 <= z < n)%Z -> P z = true.
Proof.
  intros H Hz. rewrite forallb_forall in H. apply H.
  apply in_map_iff. exists (Z.to_nat z). rewrite in_seq. lia.
Qed.

Lemma len_app a b : len (a ++ b) = (len a + len b)%N.
Proof. unfold len. rewrite length_app. lia. Qed.

(** ** Lemmas on searching *)

Lemma prefixb_app p t : prefixb p (p ++ t) = true.
Proof. induction p; simpl; [by destruct t|]. by rewrite ceqb_refl. Qed.

Lemma prefixb_spec p s : prefixb p s = true <-> exists t, s = p ++ t.
Proof.
  split.
  - revert s; induction p as [|x p IH]; intros s H; [by exists s|].
    destruct s as [|y s]; simpl in H; [done|]. bsimpl.
    apply ceqb_eq in H as ->. destruct (IH _ H0) as [t ->]. by exists t.
  - intros [t ->]. apply prefixb_app.
Qed.

Lemma prefixb_weaken p s t :
  length p <= length s -> prefixb p (s ++ t) = prefixb p s.
Proof.
  revert s; induction p as [|x p IH]; intros [|y s] Hl; simpl in *; [by destruct t|done|lia|].
  f_equal. apply IH. lia.
Qed.

(** What [find] returns: the text at the index is the pattern. *)
Lemma find_str_Some p s i :
  find_str p s = Some i -> exists t, s = take i s ++ p ++ t /\ i + length p <= length s.
Proof.
  revert i; induction s as [|c s IH]; intros i; simpl.
  - destruct (prefixb p []) eqn:E; [|done]. intros [= <-].
    apply prefixb_spec in E as [t Ht].
    apply (f_equal length) in Ht as Hl. rewrite length_app in Hl. simpl in Hl.
    exists t. simpl. split; [by rewrite Ht at 1 | lia].
  - destruct (prefixb p (c :: s)) eqn:E.
    + intros [= <-]. apply prefixb_spec in E as [t Ht].
      exists t. simpl. split; [done|].
      apply (f_equal length) in Ht. rewrite length_app in Ht. simpl in Ht. lia.
    + destruct (find_str p s) as [j|] eqn:F; [|done]. intros [= <-].
      destruct (IH _ eq_refl) as (t & Ht & Hl). exists t. simpl.
      split; [by rewrite Ht at 1 | lia].
Qed.

Lemma find_str_length p s i : find_str p s = Some i -> i + length p <= length s.
Proof. intros H. by destruct (find_str_Some _ _ _ H) as (? & _ & ?). Qed.

(** The first occurrence in a prefix is the first occurrence in the whole. *)
Lemma find_str_app p s t i :
  find_str p s = Some i -> find_str p (s ++ t) = Some i.
Proof.
  revert i; induction s as [|c s IH]; intros i H.
  - simpl in H. destruct p; [|done]. injection H as <-. by destruct t.
  - pose proof (find_str_length _ _ _ H) as Hl. simpl in H, Hl. simpl.
    change (c :: s ++ t) with ((c :: s) ++ t).
    rewrite (prefixb_weaken p (c :: s) t) by (simpl; lia).
    destruct (prefixb p (c :: s)); [done|].
    destruct (find_str p s) as [j|]; [|done].
    injection H as <-. by rewrite (IH j).
Qed.

(** A pattern starting with [c] is first found after a text without [c]. *)
Lemma find_str_fresh c p s t :
  c ∉ s -> find_str (c :: p) (s ++ (c :: p) ++ t) = Some (length s).
Proof.
  induction s as [|x s IH]; intros Hc.
  - change ([] ++ (c :: p) ++ t) with ((c :: p) ++ t). unfold find_str.
    destruct ((c :: p) ++ t) eqn:E; [done|]. rewrite <- E.
    by rewrite (prefixb_app (c :: p) t).
  - apply not_elem_of_cons in Hc as [Hx Hs].
    cbn [app find_str prefixb length]. apply ceqb_neq in Hx. rewrite Hx.
    cbn [andb]. change (c :: p ++ t) with ((c :: p) ++ t).
    by rewrite (IH Hs).
Qed.

Lemma find_chr_fresh c s t : c ∉ s -> find_chr c (s ++ c :: t) = Some (length s).
Proof. apply (find_str_fresh c []). Qed.

Lemma find_str_None_fresh c p s : c ∉ s -> find_str (c :: p) s = None.
Proof.
  induction s as [|x s IH]; intros Hc; [done|].
  apply not_elem_of_cons in Hc as [Hx Hs]. apply ceqb_neq in Hx.
  cbn [find_str prefixb]. by rewrite Hx, (IH Hs).
Qed.

Lemma find_chr_None c s : find_chr c s = None <-> c ∉ s.
Proof.
  split; [|apply find_str_None_fresh].
  unfold find_chr. induction s as [|x s IH]; simpl; [by intros _ ?%elem_of_nil|].
  destruct (ceqb c x) eqn:E; simpl; [done|].
  destruct (find_str [c] s) eqn:F; [done|]. intros _.
  rewrite not_elem_of_cons. apply ceqb_neq in E. naive_solver.
Qed.

(** A found character splits the text at its first occurrence. *)
Lemma find_chr_Some c s j :
  find_chr c s = Some j ->
  s = take j s ++ c :: drop (S j) s /\ c ∉ take j s /\ length (take j s) = j.
Proof.
  unfold find_chr. revert j; induction s as [|x s IH]; intros j; cbn [find_str prefixb]; [done|].
  destruct (ceqb c x) eqn:E; cbn [andb].
  - intros [= <-]. apply ceqb_eq in E as <-. cbn. rewrite drop_0.
    split_and!; [done|by intros ?%elem_of_nil|done].
  - destruct (find_str [c] s) as [k|]; cbn [option_map]; [|done]. intros [= <-].
    destruct (IH _ eq_refl) as (H1 & H2 & H3). cbn [take drop app length].
    split_and!; [by f_equal| |by f_equal].
    rewrite not_elem_of_cons. apply ceqb_neq in E. done.
Qed.

(** Cutting at the index [find] returns. *)
Lemma take_app_exact (s t : str) : take (length s) (s ++ t) = s.
Proof. by rewrite take_app_length. Qed.
Lemma drop_app_exact (s t : str) : drop (length s) (s ++ t) = t.
Proof. by rewrite drop_app_length. Qed.

Lemma find_from_drop p s off i :
  find_from p s off = Some i ->
  exists j, i = off + j /\ find_str p (drop off s) = Some j.
Proof.
  unfold find_from. destruct (find_str p (drop off s)) as [j|]; [|done].
  intros [= <-]. by exists j.
Qed.

(** ** Lemmas on trimming *)

Lemma drop_while_head p c s : p c = false -> drop_while p (c :: s) = c :: s.
Proof. simpl. by intros ->. Qed.

Lemma drop_while_app_false p s t c :
  p c = false -> drop_while p (s ++ c :: t) = drop_while p s ++ c :: t \/
                 (drop_while p s = [] /\ drop_while p (s ++ c :: t) = c :: t).
Proof.
  intros Hc. induction s as [|x s IH]; simpl; [right; by rewrite Hc|].
  destruct (p x); [apply IH | by left].
Qed.

(** A text is its own trimmed form when no byte at either end is dropped. *)
Definition trimmed (p : ascii -> bool) (s : str) : Prop :=
  match s with [] => True | c :: _ => p c = false end /\
  match rev s with [] => True | c :: _ => p c = false end.

Lemma trim_if_trimmed p s : trimmed p s -> trim_if p s = s.
Proof.
  intros [H1 H2]. unfold trim_if, trim_right_if, trim_left_if.
  assert (drop_while p (rev s) = rev s) as ->.
  { destruct (rev s); [done|]. by apply drop_while_head. }
  rewrite rev_involutive. destruct s; [done|]. by apply drop_while_head.
Qed.

(** Leading spaces are dropped before a trimmed, non-empty text. *)
Lemma trim_if_leading p c s :
  p c = true -> trimmed p s -> s <> [] -> trim_if p (c :: s) = s.
Proof.
  intros Hc [H1 H2] Hs. unfold trim_if, trim_right_if, trim_left_if.
  assert (drop_while p (rev (c :: s)) = rev (c :: s)) as ->.
  { simpl. destruct (rev s) eqn:E; [by apply (f_equal (@rev ascii)) in E; rewrite rev_involutive in E|].
    simpl. by rewrite H2. }
  rewrite rev_involutive. simpl. rewrite Hc. destruct s; [done|]. by apply drop_while_head.
Qed.

Lemma drop_while_trimmed p s : match s with [] => True | c :: _ => p c = false end -> drop_while p s = s.
Proof. destruct s; [done|]. apply drop_while_head. Qed.

(** One dropped byte on each side of a trimmed, non-empty text. *)
Lemma trim_if_both p c d s :
  p c = true -> p d = true -> trimmed p s -> s <> [] -> trim_if p (c :: s ++ [d]) = s.
Proof.
  intros Hc Hd Ht Hs. destruct Ht as [H1 H2].
  change (c :: s ++ [d]) with ((c :: s) ++ [d]).
  unfold trim_if, trim_right_if. rewrite rev_app_distr. cbn [rev app drop_while]. rewrite Hd.
  assert (drop_while p (rev s ++ [c]) = rev s ++ [c]) as ->.
  { apply drop_while_trimmed. destruct (rev s) eqn:E; [|done].
    apply (f_equal (@rev ascii)) in E. by rewrite rev_involutive in E. }
  rewrite rev_app_distr, rev_involutive. unfold trim_left_if. cbn [rev app drop_while].
  rewrite Hc. by apply drop_while_trimmed.
Qed.

(** A text between two bytes that are not dropped is trimmed. *)
Lemma trimmed_both p c d s : p c = false -> p d = false -> trimmed p (c :: s ++ [d]).
Proof.
  intros Hc Hd. split; [done|]. change (c :: s ++ [d]) with ((c :: s) ++ [d]).
  by rewrite rev_app_distr.
Qed.

(** ** Lemmas on splitting *)

Lemma split_go_fresh sep compress skip acc w c t :
  Forall (fun x => sep x = false) w -> sep c = true -> (skip = true -> w <> []) ->
  split_go sep compress skip acc (w ++ c :: t) =
  (rev acc ++ w) :: split_go sep compress compress [] t.
Proof.
  revert skip acc; induction w as [|x w IH]; intros skip acc Hw Hc Hne.
  - simpl. rewrite Hc. destruct skip; [by destruct Hne|]. by rewrite app_nil_r.
  - apply Forall_cons in Hw as [Hx Hw]. simpl. rewrite Hx.
    rewrite (IH false (x :: acc)) by done. simpl. by rewrite <- app_assoc.
Qed.

Lemma split_go_last sep compress skip acc w :
  Forall (fun x => sep x = false) w ->
  split_go sep compress skip acc w = [rev acc ++ w].
Proof.
  revert skip acc; induction w as [|x w IH]; intros skip acc Hw; simpl.
  - by rewrite app_nil_r.
  - apply Forall_cons in Hw as [-> Hw]. rewrite IH by done. simpl. by rewrite <- app_assoc.
Qed.

(** ** Lemmas on numbers in text *)

Lemma base_digit_chr d : (d < 10)%N -> base_digit 10 (digit_chr d) = Some d.
Proof.
  intros Hd. assert (d = 0 \/ d = 1 \/ d = 2 \/ d = 3 \/ d = 4 \/ d = 5 \/ d = 6 \/ d = 7
    \/ d = 8 \/ d = 9)%N as Hc by lia.
  by repeat (destruct Hc as [->|Hc]; [reflexivity|]); subst.
Qed.

Lemma isdigit_digit_chr d : (d < 10)%N -> isdigit (digit_chr d) = true.
Proof.
  intros Hd. unfold isdigit, digit_chr. rewrite code_chr by lia.
  apply andb_true_iff. split; apply Z.leb_le; lia.
Qed.

(** Reading the digits [dec_digits] wrote gives the number back. *)
Lemma read_dec_digits fuel n acc :
  (n < 10 ^ N.of_nat fuel)%N -> 0 < fuel ->
  exists k, forall a seen,
    read_digits 10 a seen (dec_digits fuel n acc) =
    read_digits 10 (a * 10 ^ k + n) true acc.
Proof.
  revert n acc; induction fuel as [|fuel IH]; intros n acc Hn Hf; [lia|]. simpl.
  assert (n mod 10 < 10)%N as Hm by (apply N.mod_lt; lia).
  destruct (n <? 10)%N eqn:E.
  - apply N.ltb_lt in E. exists 1%N. intros a seen. simpl.
    rewrite base_digit_chr, N.mod_small by lia. f_equal; lia.
  - apply N.ltb_ge in E.
    assert (fuel <> 0) by (intros ->; simpl in Hn; lia).
    rewrite Nat2N.inj_succ, N.pow_succ_r in Hn by lia.
    destruct (IH (n / 10)%N (digit_chr (n mod 10) :: acc)) as [k Hk];
      [apply N.Div0.div_lt_upper_bound; lia | lia |].
    exists (N.succ k). intros a seen. rewrite Hk. simpl.
    rewrite base_digit_chr by done. f_equal.
    rewrite N.pow_succ_r by lia. pose proof (N.div_mod n 10). lia.
Qed.

Lemma dec_digits_head fuel n acc :
  0 < fuel -> exists c t, dec_digits fuel n acc = c :: t /\ isdigit c = true.
Proof.
  revert n acc; induction fuel as [|fuel IH]; intros n acc Hf; [lia|]. simpl.
  assert (n mod 10 < 10)%N as Hm by (apply N.mod_lt; lia).
  destruct (n <? 10)%N.
  - eexists _, _. split; [done|]. by apply isdigit_digit_chr.
  - destruct fuel as [|fuel].
    + simpl. eexists _, _. split; [done|]. by apply isdigit_digit_chr.
    + apply IH. lia.
Qed.

Lemma dec_digits_all fuel n acc :
  Forall (fun c => isdigit c = true) acc ->
  Forall (fun c => isdigit c = true) (dec_digits fuel n acc).
Proof.
  revert n acc; induction fuel as [|fuel IH]; intros n acc Ha; simpl; [done|].
  assert (n mod 10 < 10)%N as Hm by (apply N.mod_lt; lia).
  destruct (n <? 10)%N; [|apply IH]; apply Forall_cons; split;
    auto using isdigit_digit_chr.
Qed.

Lemma to_dec_all n : Forall (fun c => isdigit c = true) (to_dec n).
Proof. by apply dec_digits_all. Qed.
Lemma int_to_string_no_nul z : NUL ∉ int_to_string z.
Proof.
  assert (H : forall n, NUL ∉ to_dec n).
  { intros n Hin. pose proof (to_dec_all n) as Hall.
    by pose proof (proj1 (Forall_forall _ _) Hall _ Hin). }
  unfold int_to_string. destruct (z <? 0)%Z; [|apply H].
  apply not_elem_of_cons. split; [done|apply H].
Qed.
Lemma to_dec_nonempty n : to_dec n <> [].
Proof. destruct (dec_digits_head 20 n []) as (c & t & E & _); [lia|]. unfold to_dec. by rewrite E. Qed.

Lemma isdigit_not_space c : isdigit c = true -> isspace c = false.
Proof. by byte_cases c. Qed.
Lemma isdigit_not_sign c : isdigit c = true -> ceqb c "-" = false /\ ceqb c "+" = false.
Proof. by byte_cases c. Qed.

Lemma to_dec_trimmed n : trimmed isspace (to_dec n).
Proof.
  pose proof (to_dec_all n) as H. split.
  - destruct (to_dec n); [done|]. apply Forall_cons in H as [H _]. by apply isdigit_not_space.
  - apply Forall_rev in H. destruct (rev (to_dec n)); [done|].
    apply Forall_cons in H as [H _]. by apply isdigit_not_space.
Qed.

(** Printing a 64-bit value and reading it back with [stoul]. *)
Lemma stoul_to_dec n : (n < two64)%N -> stoul 10 (to_dec n) = Some n.
Proof.
  intros Hn. unfold stoul.
  destruct (dec_digits_head 20 n []) as (c & t & E & Hc); [lia|].
  unfold to_dec. rewrite E at 1. simpl drop_while.
  rewrite (isdigit_not_space c Hc). simpl read_sign.
  destruct (isdigit_not_sign c Hc) as [-> ->]. rewrite <- E.
  assert (read_0x 10 (dec_digits 20 n []) = dec_digits 20 n []) as ->.
  { unfold read_0x. destruct (dec_digits 20 n []) as [|? [|? ?]]; done. }
  destruct (read_dec_digits 20 n []) as [k Hk]; [unfold two64 in Hn; simpl; lia | lia |].
  rewrite Hk. cbn [read_digits]. replace (0 * 10 ^ k + n)%N with n by lia.
  by apply N.ltb_lt in Hn as ->.
Qed.

(** *** The order of byte strings is a strict total order *)
Lemma str_ltb_irrefl a : str_ltb a a = false.
Proof.
  induction a as [|x a IH]; [done|]. cbn. rewrite IH, Z.ltb_irrefl. by destruct (ceqb x x).
Qed.
Lemma str_ltb_trans a b c : str_ltb a b = true -> str_ltb b c = true -> str_ltb a c = true.
Proof.
  revert b c. induction a as [|x a IH]; intros [|y b] [|z c]; try done. cbn.
  rewrite !orb_true_iff, !andb_true_iff, !Z.ltb_lt, !ceqb_eq.
  intros [H1|[-> H1]] [H2|[-> H2]]; try (left; lia). right. split; [done|]. by apply (IH b).
Qed.
Lemma str_ltb_total a b : str_ltb a b = false -> str_ltb b a = false -> a = b.
Proof.
  revert b. induction a as [|x a IH]; intros [|y b]; try done. cbn.
  rewrite !orb_false_iff, !Z.ltb_ge. intros [H1 H2] [H3 H4].
  assert (x = y) as -> by (apply code_inj; lia). rewrite ceqb_refl in H2, H4.
  f_equal. by apply IH.
Qed.
