(* ===== verification/Globals.v ===== *)
(** * Globals: constants, status and error codes, exceptions

    Models [webcc/globals.h] and [webcc/globals.cc], and the result type of the
    code that may throw. *)
From Stdlib Require Import Ascii String.
From stdpp Require Import base tactics list numbers option strings.
From S2P Require Import Prelude.

(** ** Constants ([globals.h]) *)

(** [kInvalidLength = std::string::npos]: "no length known yet". *)
Definition kInvalidLength : N := npos.
Definition kMaxReadSeconds : Z := 30.
Definition kMaxDumpSize : nat := 2048.
Definition kBufferSize : nat := 1024.
Definition kPort80 : str := #"80".
Definition kPort443 : str := #"443".
Definition kGzipThreshold : N := 1400.

(** *** [namespace methods] *)
Definition kGet : str := #"GET".
Definition kHead : str := #"HEAD".
Definition kPost : str := #"POST".
Definition kPut : str := #"PUT".
Definition kDelete : str := #"DELETE".
Definition kPatch : str := #"PATCH".

(** *** [enum Status] *)
Inductive Status :=
  | kOK | kCreated | kAccepted | kNoContent | kNotModified | kBadRequest
  | kNotFound | kInternalServerError | kNotImplemented | kServiceUnavailable.

(** The [int] an enumerator converts to. *)
Definition status_int (s : Status) : Z :=
  match s with
  | kOK => 200 | kCreated => 201 | kAccepted => 202 | kNoContent => 204
  | kNotModified => 304 | kBadRequest => 400 | kNotFound => 404
  | kInternalServerError => 500 | kNotImplemented => 501
  | kServiceUnavailable => 503
  end.

#[global] Instance Status_eq_dec : EqDecision Status.
Proof. solve_decision. Defined.

(** *** [namespace headers] *)
Definition kHost : str := #"Host".
Definition kDate : str := #"Date".
Definition kAuthorization : str := #"Authorization".
Definition kContentType : str := #"Content-Type".
Definition kContentLength : str := #"Content-Length".
Definition kContentEncoding : str := #"Content-Encoding".
Definition kContentDisposition : str := #"Content-Disposition".
Definition kConnection : str := #"Connection".
Definition kTransferEncoding : str := #"Transfer-Encoding".
Definition kAccept : str := #"Accept".
Definition kAcceptEncoding : str := #"Accept-Encoding".
Definition kUserAgent : str := #"User-Agent".
Definition kServer : str := #"Server".

(** *** [namespace media_types] and [namespace charsets] *)
Definition kApplicationJson : str := #"application/json".
Definition kUtf8 : str := #"utf-8".

(** The table [InitMap] fills; it is a [std::map], so its order is immaterial. *)
Definition media_types_map : list (str * str) :=
  [ (#"gif", #"image/gif"); (#"htm", #"text/html"); (#"html", #"text/html");
    (#"jpg", #"image/jpeg"); (#"jpeg", #"image/jpeg"); (#"png", #"image/png");
    (#"txt", #"text/plain"); (#"", #"") ].

Fixpoint assoc_str {V} (k : str) (m : list (str * V)) : option V :=
  match m with
  | [] => None
  | (k', v) :: m' => if seqb k' k then Some v else assoc_str k m'
  end.

Definition FromExtension (extension : str) (default_to_plain_text : bool) : str :=
  match assoc_str extension media_types_map with
  | Some t => t
  | None => if default_to_plain_text then #"text/plain" else #""
  end.

Inductive ContentEncoding := kUnknown | kGzip | kDeflate.

(** [WEBCC_VERSION] of [version.h]. *)
Definition UserAgent : str := #"Webcc/" ++ #"0.1.0".

(** *** [enum Error] *)
Inductive Error :=
  | kNoError | kSchemaError | kHostResolveError | kEndpointConnectError
  | kHandshakeError | kSocketReadError | kSocketWriteError | kHttpError
  | kFileIOError.

#[global] Instance Error_eq_dec : EqDecision Error.
Proof. solve_decision. Defined.

Definition DescribeError (e : Error) : str :=
  match e with
  | kSchemaError => #"Schema error"
  | kHostResolveError => #"Host resolve error"
  | kEndpointConnectError => #"Endpoint connect error"
  | kHandshakeError => #"Handshake error"
  | kSocketReadError => #"Socket read error"
  | kSocketWriteError => #"Socket write error"
  | kHttpError => #"HTTP error"
  | kFileIOError => #"File IO error"
  | kNoError => #""
  end.

(** [class Exception]: its state, built as the constructor builds it. *)
Record Exception := mkException {
  exc_error : Error;
  exc_msg : str;
  exc_timeout : bool
}.

Definition make_Exception (error : Error) (details : str) (timeout : bool) : Exception :=
  let msg0 := DescribeError error in
  let msg1 := match details with [] => msg0 | _ => msg0 ++ #" (" ++ details ++ #")" end in
  let msg2 := if timeout then msg1 ++ #" (timeout)" else msg1 in
  mkException error msg2 timeout.

#[global] Instance Exception_eq_dec : EqDecision Exception.
Proof. solve_decision. Defined.

(** ** Results of code that may throw

    [OutOfFuel] is the result of a loop whose fuel ran out; the theorems show
    that the fuel given to each loop is enough, or that no fuel is.
    [UndefinedBehaviour] is no exception: the C++ standard says nothing of what the
    program does from there on.  No handler of the program catches it. *)
Inductive exn :=
  | LengthError                      (* std::length_error *)
  | BadAlloc                         (* std::bad_alloc *)
  | WebccException (e : Exception)   (* webcc::Exception *)
  | JsonLogicError (msg : str)       (* Json::LogicError *)
  | JsonRuntimeError (msg : str)     (* Json::RuntimeError *)
  | UndefinedBehaviour
  | LibraryException (msg : str).    (* an exception of a library that is not under src/ *)

#[global] Instance exn_eq_dec : EqDecision exn.
Proof. solve_decision. Defined.

Inductive outcome (A : Type) :=
  | Ret (a : A)
  | Throw (e : exn)
  | OutOfFuel.
Arguments Ret {A} a.
Arguments Throw {A} e.
Arguments OutOfFuel {A}.

Definition obind {A B} (m : outcome A) (k : A -> outcome B) : outcome B :=
  match m with
  | Ret a => k a
  | Throw e => Throw e
  | OutOfFuel => OutOfFuel
  end.
Notation "'let!' x := m 'in' k" := (obind m (fun x => k))
  (at level 10, x pattern, m at level 100, k at level 200) : webcc_scope.

Lemma obind_Ret {A B} (m : outcome A) (k : A -> outcome B) b :
  obind m k = Ret b -> exists a, m = Ret a /\ k a = Ret b.
Proof. destruct m; simpl; naive_solver. Qed.

Lemma Ret_inj {A} (a b : A) : Ret a = Ret b -> a = b.
Proof. congruence. Qed.

(** [ends E m Q]: the computation [m] comes to an end, with a result that
    satisfies [Q] or an exception that satisfies [E]. *)
Definition ends {A} (E : exn -> Prop) (m : outcome A) (Q : A -> Prop) : Prop :=
  match m with Ret a => Q a | Throw e => E e | OutOfFuel => False end.
Lemma ends_bind {A B} E (m : outcome A) (k : A -> outcome B) Q :
  ends E m (fun a => ends E (k a) Q) -> ends E (obind m k) Q.
Proof. by destruct m. Qed.
Lemma ends_weaken {A} (E : exn -> Prop) (m : outcome A) (Q Q' : A -> Prop) :
  ends E m Q -> (forall a, Q a -> Q' a) -> ends E m Q'.
Proof. destruct m; simpl; auto. Qed.
Lemma ends_then {A B} E (m : outcome A) (k : A -> outcome B) Q Q' :
  ends E m Q -> (forall a, Q a -> ends E (k a) Q') -> ends E (obind m k) Q'.
Proof. destruct m; simpl; auto. Qed.

(** [content.append(data, count)]: throws when the result would exceed
    [max_size()]; otherwise [count] bytes of [data] are appended. *)
Definition append_count (content data : str) (count : N) : outcome str :=
  if (max_size <? len content + count)%N then Throw LengthError
  else Ret (content ++ take (N.to_nat count) data).

Lemma append_count_all content data :
  (len content + len data <= max_size)%N ->
  append_count content data (len data) = Ret (content ++ data).
Proof.
  intros H. unfold append_count. apply N.ltb_ge in H. rewrite H.
  f_equal. f_equal. apply take_ge. unfold len. lia.
Qed.

(** The message of an exception always starts with the error's description. *)
Lemma make_Exception_msg error details timeout :
  exists t, exc_msg (make_Exception error details timeout) = DescribeError error ++ t.
Proof.
  destruct details, timeout; simpl; rewrite <-?app_assoc; eauto.
  exists []. by rewrite app_nil_r.
Qed.
