(* ===== verification/Gzip.v ===== *)
(** * Compression of contents

    Models [webcc/gzip.h] and [gzip.cc].  The streams of zlib are the class [Zlib]: what
    [deflate] and [inflate] do to a stream, to the bytes at [next_in] and to the space at
    [next_out].  [DeflateLaws] and [InflateLaws] state what its manual promises, as
    far as the two functions rely on it.  The loops have fuel; the theorems below say
    when it is enough.  The code that calls the two functions is in [GzipContent]. *)
From Stdlib Require Import Ascii String.
From stdpp Require Import base tactics list numbers option strings.
From S2P Require Import Prelude Globals.

(** ** zlib *)
Inductive zcode :=
  | Z_OK | Z_STREAM_END | Z_NEED_DICT | Z_STREAM_ERROR | Z_DATA_ERROR | Z_MEM_ERROR
  | Z_BUF_ERROR | Z_VERSION_ERROR.
#[global] Instance zcode_eq_dec : EqDecision zcode.
Proof. solve_decision. Defined.

Inductive zflush := Z_FINISH | Z_SYNC_FLUSH.
Definition Z_DEFAULT_COMPRESSION : Z := -1.
Definition Z_DEFLATED : Z := 8.
Definition Z_DEFAULT_STRATEGY : Z := 0.
Definition MAX_WBITS : Z := 15.

(** What a call does: its result, the stream, the input it left, and the bytes it wrote. *)
Record zcall (S : Type) := mkZcall {
  z_code : zcode;
  z_stream : S;
  z_rest : str;
  z_out : str
}.
Arguments mkZcall {S}.
Arguments z_code {S}.
Arguments z_stream {S}.
Arguments z_rest {S}.
Arguments z_out {S}.

(** The functions of zlib: the arguments of a call on a stream are the bytes at [next_in],
    as many as [avail_in] says, and [avail_out]. *)
Class Zlib := {
  dstream : Type;
  istream : Type;
  deflateInit2 : Z -> Z -> Z -> Z -> Z -> zcode * dstream;
  deflate : dstream -> str -> N -> zflush -> zcall dstream;
  deflateEnd : dstream -> zcode;
  inflateInit2 : Z -> zcode * istream;
  inflate : istream -> str -> N -> zflush -> zcall istream;
  inflateEnd : istream -> zcode
}.

(** Conversion to [uInt], 32 bits. *)
Definition uInt (n : N) : N := (n mod 4294967296)%N.

(** [size] new bytes of a string are NUL. *)
Definition zeros (size : N) : str := repeat "000"%char (N.to_nat size).
(** [buf.resize(size)] to a greater size. *)
Definition grow (buf : str) (size : N) : outcome str :=
  if (max_size <? size)%N then Throw LengthError
  else Ret (buf ++ zeros (size - len buf)).
(** [out] written into [buf] at [pos]. *)
Definition write_at (buf : str) (pos : N) (out : str) : str :=
  take (N.to_nat pos) buf ++ out ++ drop (N.to_nat pos + length out) buf.

Section Codec.
Context `{!Zlib}.

(** ** [Compress] *)

(** The loop: [true] when it ended because space was left. *)
Fixpoint compress_loop (fuel : nat) (stream : dstream) (next_in buf output : str)
    : outcome (bool * dstream * str) :=
  match fuel with
  | O => OutOfFuel
  | S fuel =>
      let avail_out := uInt (len buf) in
      let call := deflate stream next_in avail_out Z_FINISH in
      let buf := write_at buf 0 (z_out call) in
      let avail_out := (avail_out - len (z_out call))%N in
      match z_code call with
      | Z_OK | Z_STREAM_END =>
          let size := (len buf - avail_out)%N in
          let output := output ++ take (N.to_nat size) buf in
          if (avail_out =? 0)%N then compress_loop fuel (z_stream call) (z_rest call) buf output
          else Ret (true, z_stream call, output)
      | _ => Ret (false, z_stream call, output)
      end
  end.

(** The result and [*output]. *)
Definition Compress (fuel : nat) (input : str) : outcome (bool * str) :=
  match input with
  | [] => Ret (true, [])
  | _ =>
      let next_in := take (N.to_nat (uInt (len input))) input in
      let '(ret, stream) := deflateInit2 Z_DEFAULT_COMPRESSION Z_DEFLATED (MAX_WBITS + 16) 8
                              Z_DEFAULT_STRATEGY in
      if decide (ret <> Z_OK) then Ret (false, [])
      else
        let! (ok, stream, output) := compress_loop fuel stream next_in (zeros (len input / 2)) [] in
        if negb ok then Ret (false, output)
        else if decide (deflateEnd stream <> Z_OK) then Ret (false, output)
        else Ret (true, output)
  end.

(** ** [Decompress] *)

(** The loop: [false] after an error, and [buf] and [total_out] when it ends; [half] is
    [input.size() / 2]. *)
Fixpoint decompress_loop (fuel : nat) (half : N) (stream : istream) (next_in buf : str)
    (total_out : N) : outcome (bool * istream * str * N) :=
  match fuel with
  | O => OutOfFuel
  | S fuel =>
      let! buf := if (len buf <=? total_out)%N then grow buf (len buf + half)
                  else Ret buf in
      let avail_out := uInt (len buf - total_out) in
      let call := inflate stream next_in avail_out Z_SYNC_FLUSH in
      let buf := write_at buf total_out (z_out call) in
      let total_out := (total_out + len (z_out call))%N in
      match z_code call with
      | Z_STREAM_END => Ret (true, z_stream call, buf, total_out)
      | Z_OK => decompress_loop fuel half (z_stream call) (z_rest call) buf total_out
      | _ => Ret (false, z_stream call, buf, total_out)
      end
  end.

Definition Decompress (fuel : nat) (input : str) : outcome (bool * str) :=
  match input with
  | [] => Ret (true, [])
  | _ =>
      let next_in := take (N.to_nat (uInt (len input))) input in
      let '(ret, stream) := inflateInit2 (MAX_WBITS + 32) in
      if decide (ret <> Z_OK) then Ret (false, [])
      else
        let! (ok, stream, buf, total_out) :=
          decompress_loop fuel (len input / 2) stream next_in (zeros (len input)) 0 in
        if negb ok then Ret (false, [])
        else if decide (inflateEnd stream <> Z_OK) then Ret (false, [])
        else Ret (true, take (N.to_nat total_out) buf)
  end.
End Codec.

(** ** A compression that nothing disturbs

    When the last bytes of the stream fill the buffer exactly, the loop calls [deflate] once more
    after [Z_STREAM_END], where the manual allows [deflateReset] and [deflateEnd] only; and it takes
    [Z_BUF_ERROR], which is not fatal, for an error.  [undisturbed] says of the calls, [fuel] of
    them at most, that neither happens. *)
Section Undisturbed.
Context `{!Zlib}.
Fixpoint undisturbed (fuel : nat) (st : dstream) (inp : str) (n : N) : bool :=
  match fuel with
  | O => true
  | S fuel =>
      let call := deflate st inp n Z_FINISH in
      match z_code call with
      | Z_STREAM_END => (len (z_out call) <? n)%N
      | Z_OK => undisturbed fuel (z_stream call) (z_rest call) n
      | _ => false
      end
  end.
Definition compress_undisturbed (fuel : nat) (input : str) : bool :=
  let '(ret, st) := deflateInit2 Z_DEFAULT_COMPRESSION Z_DEFLATED (MAX_WBITS + 16) 8
                      Z_DEFAULT_STRATEGY in
  bool_decide (ret = Z_OK) && undisturbed fuel st input (len input / 2).
End Undisturbed.

(** ** What the manual of zlib promises

    [compresses data z]: [z] is a complete stream, in the gzip or the zlib format, whose
    content is [data].  The format itself is that of RFC 1950 to 1952. *)
Class Format := { compresses : str -> str -> Prop }.

(** [deflating st inp data z]: a stream that was given [data] and told to finish has [inp]
    of it still to read and has written [z]. *)
Class DeflateLaws `{!Zlib} `{!Format} := {
  deflating : dstream -> str -> str -> str -> Prop;
  deflated : dstream -> Prop;
  deflateBound : N -> N;
  (** A new stream. *)
  deflate_init level method bits mem strategy st data :
    deflateInit2 level method bits mem strategy = (Z_OK, st) -> deflating st data data [];
  (** "[Z_FINISH]: pending input is processed, pending output is flushed and [deflate] returns
      with [Z_STREAM_END] if there was enough output space.  If [deflate] returns with [Z_OK]
      or [Z_BUF_ERROR], this function must be called again with more output space." *)
  deflate_finish st inp data z n :
    deflating st inp data z -> (0 < n)%N ->
    let call := deflate st inp n Z_FINISH in
    (len (z_out call) <= n)%N /\
    match z_code call with
    | Z_STREAM_END => compresses data (z ++ z_out call) /\ deflated (z_stream call)
    | Z_OK => len (z_out call) = n /\ deflating (z_stream call) (z_rest call) data (z ++ z_out call)
    | Z_BUF_ERROR => True
    | _ => False
    end;
  (** "[deflateBound] returns an upper bound on the compressed size." *)
  deflate_bound st inp data z :
    deflating st inp data z -> (len z <= deflateBound (len data))%N;
  deflate_bound_end data z : compresses data z -> (len z <= deflateBound (len data))%N;
  (** "[deflateEnd] returns [Z_OK] if success", on a stream that is not freed prematurely. *)
  deflate_end st : deflated st -> deflateEnd st = Z_OK
}.

(** [inflating st inp w]: a stream that has [inp] still to read, and will write [w]. *)
Class InflateLaws `{!Zlib} `{!Format} := {
  inflating : istream -> str -> str -> Prop;
  inflated : istream -> Prop;
  (** A gzip member has a header of ten bytes, a zlib stream one of two. *)
  compresses_long data z : compresses data z -> (2 <= len z)%N;
  inflate_init bits st data z :
    inflateInit2 bits = (Z_OK, st) -> bits = (MAX_WBITS + 32)%Z -> compresses data z ->
    inflating st z data;
  (** "[inflate] decompresses as much data as possible, and stops when the input buffer becomes
      empty or the output buffer becomes full.  It returns [Z_STREAM_END] if the end of the
      compressed data has been reached and all uncompressed output has been produced." *)
  inflate_step st inp w n :
    inflating st inp w -> (0 < n)%N ->
    let call := inflate st inp n Z_SYNC_FLUSH in
    (len (z_out call) <= n)%N /\
    match z_code call with
    | Z_STREAM_END => z_out call = w /\ inflated (z_stream call)
    | Z_OK => len (z_out call) = n /\
        exists w', w = z_out call ++ w' /\ inflating (z_stream call) (z_rest call) w'
    | _ => False
    end;
  inflate_end st : inflated st -> inflateEnd st = Z_OK
}.

(** Any input, also one that is not a compressed stream: "[inflate] returns [Z_OK] if some
    progress has been made (more input processed or more output produced)", it never
    writes more than the space it has, and what a finite input expands to is
    finite; [still st inp] bounds the calls that can make progress. *)
Class InflateBounded `{!Zlib} := {
  still : istream -> str -> nat;
  inflate_space st inp n : (len (z_out (inflate st inp n Z_SYNC_FLUSH)) <= n)%N;
  inflate_progress st inp n :
    let call := inflate st inp n Z_SYNC_FLUSH in
    z_code call = Z_OK -> still (z_stream call) (z_rest call) < still st inp
}.

(** ** Lemmas *)
Lemma len_zeros n : len (zeros n) = n.
Proof. unfold len, zeros. rewrite repeat_length. lia. Qed.
Lemma grow_Ret buf size : (len buf <= size <= max_size)%N ->
  grow buf size = Ret (buf ++ zeros (size - len buf)) /\ len (buf ++ zeros (size - len buf)) = size.
Proof.
  intros H. unfold grow. rewrite (proj2 (N.ltb_ge _ _)) by lia. split; [done|].
  rewrite len_app, len_zeros. lia.
Qed.
Lemma len_write_at buf pos out : (pos + len out <= len buf)%N ->
  len (write_at buf pos out) = len buf.
Proof.
  unfold write_at, len. intros H. rewrite !length_app, length_take, length_drop. lia.
Qed.
Lemma take_write_at buf pos out : (pos + len out <= len buf)%N ->
  take (N.to_nat (pos + len out)) (write_at buf pos out) = take (N.to_nat pos) buf ++ out.
Proof.
  unfold write_at, len. intros H. rewrite app_assoc.
  rewrite take_app_le by (rewrite length_app, length_take; lia).
  apply take_ge. rewrite length_app, length_take. lia.
Qed.
Lemma uInt_small n : (n < 4294967296)%N -> uInt n = n.
Proof. apply N.mod_small. Qed.
Lemma uInt_le n : (uInt n <= n)%N.
Proof. unfold uInt. apply N.Div0.mod_le. Qed.
Lemma take_len (s : str) : take (N.to_nat (len s)) s = s.
Proof. apply take_ge. unfold len. lia. Qed.

(** *** Compressing *)
Section Compressing.
Context `{DL : DeflateLaws}.

(** The output of the loop is the compressed stream. *)
Lemma compress_loop_spec fuel : forall st inp data z buf,
  deflating st inp data z -> (0 < len buf < 4294967296)%N ->
  (deflateBound (len data) < len z + N.of_nat fuel)%N -> undisturbed fuel st inp (len buf) = true ->
  exists st' z', compress_loop fuel st inp buf z = Ret (true, st', z') /\
    compresses data z' /\ deflated st'.
Proof.
  induction fuel as [|fuel IH]; intros st inp data z buf Hd Hb Hf Hu.
  { pose proof (deflate_bound _ _ _ _ Hd). lia. }
  cbn [compress_loop undisturbed] in *. rewrite uInt_small by lia.
  destruct (deflate_finish st inp data z (len buf) Hd ltac:(lia)) as [Hle Hc].
  set (call := deflate st inp (len buf) Z_FINISH) in *.
  assert (take (N.to_nat (len (write_at buf 0 (z_out call)) - (len buf - len (z_out call))))
            (write_at buf 0 (z_out call)) = z_out call) as Htake.
  { rewrite len_write_at by lia.
    replace (len buf - (len buf - len (z_out call)))%N with (0 + len (z_out call))%N by lia.
    by rewrite take_write_at by lia. }
  rewrite Htake.
  assert (len (write_at buf 0 (z_out call)) = len buf) as Hlen by (apply len_write_at; lia).
  destruct (z_code call) eqn:Hcode; try done.
  - destruct Hc as [Hfull Hd']. rewrite Hfull, N.sub_diag. cbn [N.eqb].
    apply IH; [done|by rewrite Hlen|rewrite len_app; lia|by rewrite Hlen].
  - destruct Hc as (Hz & Hend). apply N.ltb_lt in Hu.
    rewrite (proj2 (N.eqb_neq _ _)) by lia. by eexists _, _.
Qed.

(** [Compress] succeeds with the compressed input. *)
Lemma Compress_spec fuel input :
  (2 <= len input < 4294967296)%N -> (deflateBound (len input) < N.of_nat fuel)%N ->
  compress_undisturbed fuel input = true ->
  exists z, Compress fuel input = Ret (true, z) /\ compresses input z.
Proof.
  intros Hlen Hf Hu. unfold Compress, compress_undisturbed in *. destruct input as [|c input]; [by destruct Hlen|].
  set (data := c :: input) in *. rewrite uInt_small, take_len by lia.
  destruct (deflateInit2 _ _ _ _ _) as [ret st] eqn:Hi.
  destruct (decide (ret = Z_OK)) as [->|Hr]; [|by rewrite bool_decide_eq_false_2 in Hu].
  rewrite decide_False by auto. cbn [bool_decide andb] in Hu.
  apply (deflate_init _ _ _ _ _ st data) in Hi.
  assert (0 < len (zeros (len data / 2)) < 4294967296)%N as Hb.
  { rewrite len_zeros. split; [apply N.div_str_pos; lia|].
    assert (len data / 2 <= len data)%N by (apply N.Div0.div_le_upper_bound; lia). lia. }
  destruct (compress_loop_spec fuel st data data [] (zeros (len data / 2)) Hi Hb)
    as (st' & z & -> & Hz & Hend); [cbn [len length]; lia|by rewrite len_zeros|].
  cbn [obind negb]. rewrite (deflate_end st') by auto. rewrite decide_False by auto. by eexists.
Qed.
End Compressing.

(** *** Decompressing *)
Section Decompressing.
Context `{IL : InflateLaws}.

(** The buffer is [out], which has been written, and what is left of its space. *)
Lemma decompress_loop_spec half bound fuel : forall st inp w buf out,
  inflating st inp w -> (1 <= half <= bound)%N -> (bound < 4294967296)%N ->
  (len out <= len buf)%N -> take (length out) buf = out ->
  (len buf - len out <= bound)%N -> (len out + len w + 2 * bound <= max_size)%N ->
  length w < fuel ->
  exists st' buf', decompress_loop fuel half st inp buf (len out) =
      Ret (true, st', buf', len (out ++ w)) /\
    take (length (out ++ w)) buf' = out ++ w /\ inflated st'.
Proof.
  induction fuel as [|fuel IH]; intros st inp w buf out Hi Hh Hb Hle Hout Hgap Hmax Hf; [lia|].
  cbn [decompress_loop].
  assert (exists buf1, (if (len buf <=? len out)%N then grow buf (len buf + half) else Ret buf) = Ret buf1 /\
    take (length out) buf1 = out /\ (len out < len buf1)%N /\ (len buf1 - len out <= bound)%N)
    as (buf1 & -> & Hout1 & Hlt & Hgap1).
  { destruct (N.leb_spec (len buf) (len out)) as [E|E]; [|by exists buf].
    destruct (grow_Ret buf (len buf + half)) as [-> Hg]; [lia|].
    eexists. split; [reflexivity|]. split; [|lia].
    rewrite take_app_le; [done|]. unfold len in *. lia. }
  cbn [obind]. rewrite uInt_small by lia.
  destruct (inflate_step st inp w (len buf1 - len out) Hi ltac:(lia)) as [Hn Hc].
  set (call := inflate st inp (len buf1 - len out) Z_SYNC_FLUSH) in *.
  assert (take (length (out ++ z_out call)) (write_at buf1 (len out) (z_out call)) =
    out ++ z_out call) as Hw.
  { replace (length (out ++ z_out call)) with (N.to_nat (len out + len (z_out call)))
      by (unfold len; rewrite length_app; lia).
    rewrite take_write_at by lia. f_equal. by unfold len; rewrite Nat2N.id. }
  rewrite <- len_app.
  destruct (z_code call); try done.
  - destruct Hc as (Hfull & w' & -> & Hi').
    destruct (IH (z_stream call) (z_rest call) w' (write_at buf1 (len out) (z_out call))
      (out ++ z_out call)) as (st' & buf' & -> & Ht & He); try done.
    + rewrite len_write_at, len_app by lia. lia.
    + rewrite len_write_at, len_app by lia. lia.
    + rewrite !len_app in *. lia.
    + rewrite length_app in Hf. unfold len in *. lia.
    + rewrite app_assoc. eauto.
  - destruct Hc as [<- He]. eauto.
Qed.

(** [Decompress] gives back the content of a complete stream. *)
Lemma Decompress_spec fuel data z :
  compresses data z -> (len z < 4294967296)%N -> (len data + 2 * len z <= max_size)%N ->
  length data < fuel -> fst (inflateInit2 (MAX_WBITS + 32)) = Z_OK ->
  Decompress fuel z = Ret (true, data).
Proof.
  intros Hz Hlen Hmax Hf Hinit. pose proof (compresses_long _ _ Hz) as H2. unfold Decompress.
  destruct z as [|c z]; [done|]. set (inp := c :: z) in *. rewrite uInt_small, take_len by done.
  destruct (inflateInit2 _) as [ret st] eqn:Hi. cbn in Hinit. subst ret. rewrite decide_False by auto.
  apply (inflate_init _ st data inp) in Hi; [|done|done].
  assert (1 <= len inp / 2 <= len inp)%N as Hh.
  { split; [apply N.div_le_lower_bound; lia|apply N.Div0.div_le_upper_bound; lia]. }
  change (decompress_loop fuel (len inp / 2) st inp (zeros (len inp)) 0)
    with (decompress_loop fuel (len inp / 2) st inp (zeros (len inp)) (len [])).
  destruct (decompress_loop_spec (len inp / 2) (len inp) fuel st inp data (zeros (len inp)) [] Hi)
    as (st' & buf' & -> & Ht & He); rewrite ?len_zeros; try done; [cbn; lia..|].
  cbn [obind negb]. rewrite (inflate_end st') by done. rewrite decide_False by auto.
  rewrite app_nil_l in *. unfold len. by rewrite Nat2N.id, Ht.
Qed.
End Decompressing.

(** The loop ends for every input, and writes within its buffer, however zlib answers. *)
Section Bounded.
Context `{IB : InflateBounded}.
Lemma decompress_loop_returns half fuel : forall st inp buf total,
  still st inp < fuel -> (total <= len buf)%N ->
  ends (eq LengthError) (decompress_loop fuel half st inp buf total)
    (fun r => let '(_, _, buf', total') := r in (total' <= len buf')%N).
Proof.
  induction fuel as [|fuel IH]; intros st inp buf total Hf Ht; [lia|]. cbn [decompress_loop].
  apply ends_then with (Q := fun b => (total <= len b)%N).
  { destruct (len buf <=? total)%N; [|done]. unfold grow. destruct (_ <? _)%N; [done|].
    cbn. rewrite len_app. lia. }
  intros b Hb. set (n := uInt (len b - total)).
  pose proof (inflate_progress st inp n) as Hp. cbv zeta in Hp.
  pose proof (inflate_space st inp n) as Hs. pose proof (uInt_le (len b - total)) as Hn.
  fold n in Hn. set (call := inflate st inp n Z_SYNC_FLUSH) in *.
  assert (total + len (z_out call) <= len (write_at b total (z_out call)))%N as Hw
    by (rewrite len_write_at; lia).
  destruct (z_code call); try exact Hw. apply IH; [|done]. specialize (Hp eq_refl). lia.
Qed.

(** [Decompress] returns for every input: it fails with an empty output, or its output
    is what [inflate] wrote; only the growth of its buffer can throw. *)
Lemma Decompress_returns fuel input :
  (forall st inp, inflateInit2 (MAX_WBITS + 32) = (Z_OK, st) -> length inp <= length input ->
     still st inp < fuel) ->
  ends (eq LengthError) (Decompress fuel input) (fun r => fst r = false -> snd r = []).
Proof.
  intros Hf. unfold Decompress. destruct input as [|c input]; [done|].
  set (inp := take _ _). destruct (inflateInit2 _) as [ret st].
  destruct (decide _) as [Hr|Hr]; [done|]. apply dec_stable in Hr as ->.
  eapply ends_then; [apply decompress_loop_returns; [apply Hf; [done|]|cbn; lia]|].
  { unfold inp. rewrite length_take. lia. }
  intros [[[ok st'] buf] total] _. destruct ok; cbn [negb]; [|done]. by destruct (decide _).
Qed.
End Bounded.

(** ** A format without compression

    The laws can hold: this zlib writes two bytes and then the content as it is. *)
Module Stored.
Definition magic : str := ["031"; "139"]%char.
Inductive dst := Fresh | Pending (p : str) | Finished.
Definition write_out (p : str) (n : N) : zcall dst :=
  if (n =? 0)%N then mkZcall Z_BUF_ERROR (Pending p) [] []
  else match drop (N.to_nat n) p with
       | [] => mkZcall Z_STREAM_END Finished [] p
       | p' => mkZcall Z_OK (Pending p') [] (take (N.to_nat n) p)
       end.
Definition stored_deflate (st : dst) (inp : str) (n : N) (flush : zflush) : zcall dst :=
  match st with
  | Fresh => write_out (magic ++ inp) n
  | Pending p => write_out p n
  | Finished => mkZcall Z_STREAM_END Finished inp []
  end.
(** The Boolean says whether the two bytes were read. *)
Definition stored_inflate (st : bool) (inp : str) (n : N) (flush : zflush) : zcall bool :=
  let body := if st then Some inp else if prefixb magic inp then Some (drop 2 inp) else None in
  match body with
  | None => mkZcall Z_DATA_ERROR st inp []
  | Some body =>
      if (n =? 0)%N then mkZcall Z_BUF_ERROR st inp []
      else match drop (N.to_nat n) body with
           | [] => mkZcall Z_STREAM_END true [] body
           | rest => mkZcall Z_OK true rest (take (N.to_nat n) body)
           end
  end.
#[global] Instance zlib : Zlib := {
  dstream := dst; istream := bool;
  deflateInit2 _ _ _ _ _ := (Z_OK, Fresh); deflate := stored_deflate; deflateEnd _ := Z_OK;
  inflateInit2 _ := (Z_OK, false); inflate := stored_inflate; inflateEnd _ := Z_OK
}.
#[global] Instance format : Format := { compresses data z := z = magic ++ data }.

Definition is_deflating (st : dst) (inp data z : str) : Prop :=
  match st with
  | Fresh => inp = data /\ z = []
  | Pending p => inp = [] /\ magic ++ data = z ++ p
  | Finished => False
  end.
Lemma drop_nil_le (p : str) n : drop (N.to_nat n) p = [] -> (len p <= n)%N.
Proof. intros H. apply (f_equal length) in H. rewrite length_drop in H. unfold len. cbn in H. lia. Qed.
Lemma drop_cons_lt (p q : str) c n : drop (N.to_nat n) p = c :: q ->
  len (take (N.to_nat n) p) = n /\ p = take (N.to_nat n) p ++ c :: q.
Proof.
  intros H. split; [|by rewrite <- H, take_drop]. apply (f_equal length) in H.
  rewrite length_drop in H. unfold len. rewrite length_take. cbn in H. lia.
Qed.

#[global] Instance deflate_laws : DeflateLaws.
Proof.
  refine (Build_DeflateLaws _ _ is_deflating (fun st => st = Finished) (fun n => n + 2)%N
    _ _ _ _ _).
  - intros level method bits mem strategy st data [= <-]. done.
  - assert (forall p data z n, (0 < n)%N -> magic ++ data = z ++ p ->
      let call := write_out p n in (len (z_out call) <= n)%N /\
      match z_code call with
      | Z_STREAM_END => z ++ z_out call = magic ++ data /\ z_stream call = Finished
      | Z_OK => len (z_out call) = n /\ is_deflating (z_stream call) (z_rest call) data (z ++ z_out call)
      | Z_BUF_ERROR => True
      | _ => False
      end) as Hw.
    { intros p data z n Hn Hp. unfold write_out. rewrite (proj2 (N.eqb_neq _ _)) by lia.
      destruct (drop _ p) as [|c q] eqn:E; cbn [z_out z_code z_stream z_rest].
      - apply drop_nil_le in E. done.
      - apply drop_cons_lt in E as [E1 E2]. split; [by rewrite E1|]. split; [done|].
        split; [done|]. rewrite Hp, E2 at 1. by rewrite <- app_assoc. }
    intros st inp data z n Hd Hn. destruct st as [|p|]; [| |done].
    + destruct Hd as [-> ->]. by apply Hw.
    + destruct Hd as [-> Hp]. by apply Hw.
  - intros st inp data z Hd. cbv beta. destruct st as [|p|]; [destruct Hd as [_ ->]; apply N.le_0_l| |done].
    destruct Hd as [_ Hp]. apply (f_equal len) in Hp. rewrite !len_app in Hp.
    change (len magic) with 2%N in Hp. lia.
  - intros data z ->. cbv beta. rewrite len_app. change (len magic) with 2%N. lia.
  - done.
Defined.

#[global] Instance inflate_laws : InflateLaws.
Proof.
  refine (Build_InflateLaws _ _
    (fun st inp w => inp = if (st : bool) then w else magic ++ w) (fun st => st = true) _ _ _ _).
  - intros data z ->. rewrite len_app. change (len magic) with 2%N. lia.
  - by intros bits st data z [= <-] _ ->.
  - intros st inp w n -> Hn.
    assert (inflate st (if st then w else magic ++ w) n Z_SYNC_FLUSH =
      match drop (N.to_nat n) w with
      | [] => mkZcall Z_STREAM_END true [] w
      | rest => mkZcall Z_OK true rest (take (N.to_nat n) w)
      end) as ->.
    { cbn [inflate zlib]. unfold stored_inflate.
      destruct st; rewrite ?prefixb_app; rewrite (proj2 (N.eqb_neq _ _)) by lia; done. }
    destruct (drop _ w) as [|c q] eqn:E; cbn [z_out z_code z_stream z_rest].
    + apply drop_nil_le in E. done.
    + apply drop_cons_lt in E as [E1 E2]. split; [by rewrite E1|]. split; [done|]. by exists (c :: q).
  - done.
Defined.

(** A call fails, writes all there is, or fills the space with the head of its input. *)
Lemma stored_inflate_cases st inp n flush :
  let call := stored_inflate st inp n flush in
  (len (z_out call) <= n)%N /\
  (z_code call = Z_OK -> length (z_rest call) < length inp).
Proof.
  unfold stored_inflate. cbv zeta.
  destruct (if st then Some inp else if prefixb magic inp then Some (drop 2 inp) else None)
    as [body|] eqn:Hb; [|split; [apply N.le_0_l|done]].
  assert (length body <= length inp) as Hl.
  { destruct st; [by injection Hb as ->|]. destruct (prefixb magic inp); [|done].
    injection Hb as <-. rewrite length_drop. lia. }
  destruct (N.eqb_spec n 0) as [->|Hn]; [split; [apply N.le_0_l|done]|].
  destruct (drop _ body) as [|c q] eqn:E; cbn [z_out z_code z_rest].
  - split; [by apply drop_nil_le|done].
  - split; [apply drop_cons_lt in E as [E _]; by rewrite E|]. intros _.
    apply (f_equal length) in E. rewrite length_drop in E. cbn in E |- *. lia.
Qed.
#[global] Instance inflate_bounded : InflateBounded.
Proof.
  refine (Build_InflateBounded _ (fun _ inp => length inp) _ _);
    intros st inp n; apply (stored_inflate_cases st inp n Z_SYNC_FLUSH).
Defined.
End Stored.

(** ** Correctness *)


(** With this zlib and an input of four bytes the stream fills the third buffer exactly: [deflate]
    is called after its end. *)
Example compress_calls_behind_end :
  compress_undisturbed 10 #"abcd" = false.
Proof. by vm_compute. Qed.
