(* ===== verification/Logger.v ===== *)
(** * The logger

    Models [webcc/logger.h] and [logger.cc].

    The file and [stderr] are byte sequences to which is only appended.  A call of [Log] is the
    sequence of what it does to the mutex and to the streams ([LogAction]); [lstep] interleaves the
    calls of several threads.  The clock, the thread id of the operating system, the
    environment and the file system are arguments. *)
From Stdlib Require Import Ascii String.
From stdpp Require Import base tactics list numbers option strings.
From S2P Require Import Prelude Globals.

(** ** [printf], as far as the sources use it

    Conversions [%s], [%d], [%u] and [%%] with a width; a text is padded with blanks on its left.
    [None] is undefined behaviour: an argument is missing or of another type. *)
Inductive printf_arg := ArgStr (s : str) | ArgInt (z : Z).
Definition pad_left (width : nat) (s : str) : str := repeat SP (width - length s) ++ s.

(** [width] is [Some] behind a percent sign, with the digits read so far. *)
Fixpoint printf_go (width : option nat) (format : str) (args : list printf_arg) : option str :=
  match format, width with
  | [], None => Some []
  | [], Some _ => None
  | c :: format, None =>
      if ceqb c "%" then printf_go (Some 0) format args
      else cons c <$> printf_go None format args
  | c :: format, Some w =>
      if ceqb c "%" then cons c <$> printf_go None format args
      else if isdigit c then printf_go (Some (10 * w + Z.to_nat (code c - 48))) format args
      else match args with
           | ArgStr s :: args =>
               if ceqb c "s" then app (pad_left w (c_str s)) <$> printf_go None format args else None
           | ArgInt z :: args =>
               if ceqb c "d" || ceqb c "u" then
                 app (pad_left w (int_to_string z)) <$> printf_go None format args
               else None
           | [] => None
           end
  end.
Definition printf (format : str) (args : list printf_arg) : option str := printf_go None format args.

(** ** Levels and modes *)
Definition WEBCC_VERB : nat := 0.
Definition WEBCC_INFO : nat := 1.
Definition WEBCC_WARN : nat := 2.
Definition WEBCC_ERRO : nat := 3.
Definition WEBCC_FATA : nat := 4.
(** Set in [config.h]. *)
Definition WEBCC_LOG_LEVEL : nat := 2.
Definition kLevelNames : list str := [#"VERB"; #"INFO"; #"WARN"; #"ERRO"; #"FATA"].

Definition LOG_FILE : Z := 1.
Definition LOG_CONSOLE : Z := 2.
Definition LOG_FLUSH : Z := 4.
Definition LOG_OVERWRITE : Z := 8.
Definition LOG_CONSOLE_FILE_APPEND : Z := Z.lor LOG_CONSOLE LOG_FILE.
Definition LOG_CONSOLE_FILE_OVERWRITE : Z := Z.lor (Z.lor LOG_CONSOLE LOG_FILE) LOG_OVERWRITE.
Definition LOG_FILE_OVERWRITE : Z := Z.lor LOG_FILE LOG_OVERWRITE.
Definition has_mode (modes flag : Z) : bool := negb (Z.land modes flag =? 0)%Z.

Definition WEBCC_LOG_FILE_NAME : str := #"webcc.log".
(** [__FILENAME__] on a system other than Windows: behind the last slash of ["/" __FILE__]. *)
Fixpoint strrchr (c : ascii) (s : str) : option str :=
  match s with
  | [] => None
  | x :: s' => match strrchr c s' with
               | Some r => Some r
               | None => if ceqb x c then Some s else None
               end
  end.
Definition FILENAME (file : str) : str :=
  match strrchr "/" ("/"%char :: file) with Some r => drop 1 r | None => [] end.

(** ** Streams *)

(** The bytes of a stream, and how many of them are flushed at least. *)
Record Stream := mkStream { s_bytes : str; s_flushed : nat }.
Definition fwrite (s : Stream) (text : str) : Stream := mkStream (s_bytes s ++ text) (s_flushed s).
Definition fflush (s : Stream) : Stream := mkStream (s_bytes s) (length (s_bytes s)).

(** ** [struct Logger] and the globals *)
Record Logger := mkLogger {
  file : option Stream;
  modes : Z;
  err : Stream;             (* stderr *)
  g_main_thread_id : str
}.
Definition Logger_new (err : Stream) : Logger := mkLogger None 0 err [].

(** The environment and the file system: [fopen] gives the content there is. *)
Record Platform := mkPlatform {
  getenv_TERM : option str;
  current_path : outcome str;
  path_append : str -> str -> str;
  exists_ : str -> outcome bool;
  is_directory : str -> outcome bool;
  create_directories : str -> bool * bool;   (* the result, and whether [ec] is set *)
  fopen : str -> option str
}.

Section OnPlatform.
Context (pl : Platform).

(** [Logger::Init]: mode ["w+"] truncates, mode ["a+"] appends. *)
Definition Logger_Init (l : Logger) (path : str) (_modes : Z) : Logger :=
  let file :=
    if has_mode _modes LOG_FILE && negb (seqb path []) then
      if has_mode _modes LOG_OVERWRITE then (fun _ => mkStream [] 0) <$> fopen pl path
      else (fun old => mkStream old (length old)) <$> fopen pl path
    else file l in
  mkLogger file _modes (err l) (g_main_thread_id l).

(** [~Logger]: [fclose] flushes what is written. *)
Definition Logger_delete (l : Logger) : option Stream :=
  match file l with
  | Some f => Some (mkStream (s_bytes f) (length (s_bytes f)))
  | None => None
  end.

(** [InitLogPath]: the empty path when the directory cannot be created. *)
Definition InitLogPath (dir : str) : outcome str :=
  match dir with
  | [] => let! current := current_path pl in Ret (path_append pl current WEBCC_LOG_FILE_NAME)
  | _ =>
      let! there := exists_ pl dir in
      let! is_dir := if there : bool then is_directory pl dir else Ret false in
      if negb is_dir then
        let '(created, ec) := create_directories pl dir in
        if negb created || ec then Ret [] else Ret (path_append pl dir WEBCC_LOG_FILE_NAME)
      else Ret (path_append pl dir WEBCC_LOG_FILE_NAME)
  end.

(** [LogInit]; [thread_id] is the value of [DoGetThreadID()]. *)
Definition LogInit (l : Logger) (thread_id dir : str) (_modes : Z) : outcome Logger :=
  let! path := if has_mode _modes LOG_FILE then InitLogPath dir else Ret [] in
  let l := Logger_Init l path _modes in
  Ret (mkLogger (file l) (modes l) (err l) thread_id).

(** *** Colors *)
Definition g_colorlogtostderr : bool := true.
Definition g_terminal_has_color : bool :=
  match getenv_TERM pl with
  | None => false
  | Some term =>
      seqb term #"cygwin" || seqb term #"linux" || seqb term #"rxvt-unicode-256color" ||
      seqb term #"screen" || seqb term #"screen-256color" || seqb term #"tmux-256color" ||
      seqb term #"xterm" || seqb term #"xterm-256color" || seqb term #"xterm-termite" ||
      seqb term #"xterm-color"
  end.
Definition VTSEQ (ID : str) : str := "027"%char :: #"[" ++ ID ++ #"m".
Definition Terminal (ID : str) : str := if g_terminal_has_color then VTSEQ ID else [].
Definition TerminalBlack : str := Terminal #"30".
Definition TerminalRed : str := Terminal #"31".
Definition TerminalGreen : str := Terminal #"32".
Definition TerminalYellow : str := Terminal #"33".
Definition TerminalBlue : str := Terminal #"34".
Definition TerminalPurple : str := Terminal #"35".
Definition TerminalCyan : str := Terminal #"36".
Definition TerminalLightGray : str := Terminal #"37".
Definition TerminalWhite : str := Terminal #"37".
Definition TerminalLightRed : str := Terminal #"91".
Definition TerminalDim : str := Terminal #"2".
Definition TerminalBold : str := Terminal #"1".
Definition TerminalUnderline : str := Terminal #"4".
Definition TerminalReset : str := Terminal #"0".
End OnPlatform.

(** [GetThreadID]; [thread_id] is the value of [DoGetThreadID()]. *)
Definition GetThreadID (l : Logger) (thread_id : str) : str :=
  if seqb thread_id (g_main_thread_id l) then #"main" else thread_id.

(** [GetTimestamp]: the local time as [put_time] writes it, and the milliseconds since the
    epoch. The loop adds zeros while there are less than three characters. *)
Fixpoint pad_zeros (fuel : nat) (s : str) : str :=
  match fuel with
  | O => s
  | S fuel => if length s <? 3 then pad_zeros fuel ("0"%char :: s) else s
  end.
Definition GetTimestamp (local_time : str) (count : Z) : str :=
  local_time ++ #"." ++ pad_zeros 3 (int_to_string (Z.rem count 1000)).

(** ** [Log] *)
Inductive Target := ToFile | ToConsole.
#[global] Instance Target_eq_dec : EqDecision Target.
Proof. solve_decision. Defined.
Inductive LogAction := Lock | Unlock | Write (t : Target) (text : str) | Flush (t : Target).

(** A [lock_guard] around [body]; [flush] says whether the stream is flushed in it. *)
Definition locked (body : list LogAction) : list LogAction := [Lock] ++ body ++ [Unlock].
Definition flush_action (l : Logger) (t : Target) : list LogAction :=
  if has_mode (modes l) LOG_FLUSH then [Flush t] else [].

Definition option_app {A} (a b : option (list A)) : option (list A) :=
  match a, b with Some a, Some b => Some (a ++ b) | _, _ => None end.

Section OnPlatform2.
Context (pl : Platform).

(** What a call does, in order; [None] is undefined behaviour.  [timestamp] and [thread_id] are
    the values of [GetTimestamp()] and [GetThreadID()]. *)
Definition Log_file (l : Logger) (timestamp thread_id : str) (level : nat) (file_ : str) (line : Z)
    (format : str) (args : list printf_arg) : option (list LogAction) :=
  match file l with
  | Some _ =>
      if has_mode (modes l) LOG_FILE then
        name ← kLevelNames !! level;
        head ← printf #"%s, %s, %7s, %24s, %4d, "
                 [ArgStr timestamp; ArgStr name; ArgStr thread_id; ArgStr file_; ArgInt line];
        message ← printf format args;
        Some (locked ([Write ToFile head; Write ToFile message; Write ToFile [LF]] ++
                      flush_action l ToFile))
      else Some []
  | None => Some []
  end.

Definition Log_console (l : Logger) (timestamp thread_id : str) (level : nat) (file_ : str) (line : Z)
    (format : str) (args : list printf_arg) : option (list LogAction) :=
  if has_mode (modes l) LOG_CONSOLE then
    name ← kLevelNames !! level;
    message ← printf format args;
    if g_colorlogtostderr && g_terminal_has_color pl then
      head ←
        if level <? WEBCC_WARN then
          printf #"%s%s, %s, %7s, %25s, %4d, "
            [ArgStr (TerminalReset pl); ArgStr timestamp; ArgStr name; ArgStr thread_id;
             ArgStr file_; ArgInt line]
        else
          printf #"%s%s%s, %s, %7s, %25s, %4d, "
            [ArgStr (TerminalReset pl);
             ArgStr (if level =? WEBCC_WARN then TerminalYellow pl else TerminalRed pl);
             ArgStr timestamp; ArgStr name; ArgStr thread_id; ArgStr file_; ArgInt line];
      tail ← printf (#"%s" ++ [LF]) [ArgStr (TerminalReset pl)];
      Some (locked ([Write ToConsole head; Write ToConsole message; Write ToConsole tail] ++
                    flush_action l ToConsole))
    else
      head ← printf #"%s, %s, %7s, %25s, %4d, "
               [ArgStr timestamp; ArgStr name; ArgStr thread_id; ArgStr file_; ArgInt line];
      Some (locked ([Write ToConsole head; Write ToConsole message; Write ToConsole [LF]] ++
                    flush_action l ToConsole))
  else Some [].

Definition Log (l : Logger) (timestamp thread_id : str) (level : nat) (file_ : str) (line : Z)
    (format : str) (args : list printf_arg) : option (list LogAction) :=
  option_app (Log_file l timestamp thread_id level file_ line format args)
             (Log_console l timestamp thread_id level file_ line format args).

(** The macros [LOG_VERB] to [LOG_FATA]: those below [WEBCC_LOG_LEVEL] expand to nothing. *)
Definition LOG_at (level : nat) (l : Logger) (timestamp thread_id __FILE__ : str) (line : Z)
    (format : str) (args : list printf_arg) : option (list LogAction) :=
  if WEBCC_LOG_LEVEL <=? level then
    Log l timestamp thread_id level (FILENAME __FILE__) line format args
  else Some [].
Definition LOG_VERB := LOG_at WEBCC_VERB.
Definition LOG_INFO := LOG_at WEBCC_INFO.
Definition LOG_WARN := LOG_at WEBCC_WARN.
Definition LOG_ERRO := LOG_at WEBCC_ERRO.
Definition LOG_FATA := LOG_at WEBCC_FATA.
End OnPlatform2.

(** *** What the actions do to the streams *)
Definition Streams : Type := option Stream * Stream.
Definition on_target (t : Target) (f : Stream -> Stream) (s : Streams) : Streams :=
  match t with
  | ToFile => (f <$> s.1, s.2)
  | ToConsole => (s.1, f s.2)
  end.
Definition do_action (s : Streams) (a : LogAction) : Streams :=
  match a with
  | Lock | Unlock => s
  | Write t text => on_target t (fun s => fwrite s text) s
  | Flush t => on_target t fflush s
  end.
Definition do_actions (s : Streams) (l : list LogAction) : Streams := fold_left do_action l s.

(** *** Threads that log

    A thread is the list of the actions it has yet to do; the mutex of the logger is free or
    held by a thread. *)
Record Threads := mkThreads {
  t_streams : Streams;
  t_owner : option nat;
  t_threads : list (list LogAction)
}.
Inductive lstep : Threads -> Threads -> Prop :=
  | step_lock s ts i l : ts !! i = Some (Lock :: l) ->
      lstep (mkThreads s None ts) (mkThreads s (Some i) (<[i:=l]> ts))
  | step_unlock s ts i l : ts !! i = Some (Unlock :: l) ->
      lstep (mkThreads s (Some i) ts) (mkThreads s None (<[i:=l]> ts))
  | step_write s o ts i t text l : ts !! i = Some (Write t text :: l) ->
      lstep (mkThreads s o ts) (mkThreads (do_action s (Write t text)) o (<[i:=l]> ts))
  | step_flush s o ts i t l : ts !! i = Some (Flush t :: l) ->
      lstep (mkThreads s o ts) (mkThreads (do_action s (Flush t)) o (<[i:=l]> ts)).
