(* ===== verification/LoggerProps.v ===== *)
(** * The logger: properties

    What one call of [Log] writes, and what the calls of several threads write together. *)
From Stdlib Require Import Ascii String.
From stdpp Require Import base tactics list sets relations numbers option strings.
From S2P Require Import Prelude Globals Logger.

(** ** Lemmas *)

(** The fields in front of a message; [width] is that of the file name. *)
Definition fields (width : nat) (timestamp name thread_id file_ : str) (line : Z) : str :=
  c_str timestamp ++ #", " ++ c_str name ++ #", " ++ pad_left 7 (c_str thread_id) ++ #", " ++
  pad_left width (c_str file_) ++ #", " ++ pad_left 4 (int_to_string line) ++ #", ".

Lemma printf_file timestamp name thread_id file_ line :
  printf #"%s, %s, %7s, %24s, %4d, "
    [ArgStr timestamp; ArgStr name; ArgStr thread_id; ArgStr file_; ArgInt line] =
  Some (fields 24 timestamp name thread_id file_ line).
Proof. reflexivity. Qed.
Lemma printf_console timestamp name thread_id file_ line :
  printf #"%s, %s, %7s, %25s, %4d, "
    [ArgStr timestamp; ArgStr name; ArgStr thread_id; ArgStr file_; ArgInt line] =
  Some (fields 25 timestamp name thread_id file_ line).
Proof. reflexivity. Qed.
Lemma printf_color1 reset timestamp name thread_id file_ line :
  printf #"%s%s, %s, %7s, %25s, %4d, "
    [ArgStr reset; ArgStr timestamp; ArgStr name; ArgStr thread_id; ArgStr file_; ArgInt line] =
  Some (c_str reset ++ fields 25 timestamp name thread_id file_ line).
Proof. reflexivity. Qed.
Lemma printf_color2 reset color timestamp name thread_id file_ line :
  printf #"%s%s%s, %s, %7s, %25s, %4d, "
    [ArgStr reset; ArgStr color; ArgStr timestamp; ArgStr name; ArgStr thread_id; ArgStr file_;
     ArgInt line] =
  Some (c_str reset ++ c_str color ++ fields 25 timestamp name thread_id file_ line).
Proof. reflexivity. Qed.
Lemma printf_line text : printf (#"%s" ++ [LF]) [ArgStr text] = Some (c_str text ++ [LF]).
Proof. reflexivity. Qed.

Lemma do_actions_app s a b : do_actions s (a ++ b) = do_actions (do_actions s a) b.
Proof. apply fold_left_app. Qed.

(** The escape sequences have no NUL. *)
Lemma Terminal_c_str pl ID : NUL ∉ ID -> c_str (Terminal pl ID) = Terminal pl ID.
Proof.
  intros H. apply c_str_no_nul. unfold Terminal, VTSEQ.
  destruct (g_terminal_has_color pl); [|apply not_elem_of_nil].
  rewrite !not_elem_of_cons, !not_elem_of_app. split_and!; try done; decide_now.
Qed.

(** What one call adds to the file and to the console. *)
Definition file_entry (timestamp name thread_id file_ : str) (line : Z) (message : str) : str :=
  fields 24 timestamp name thread_id file_ line ++ message ++ [LF].
Definition level_color (pl : Platform) (level : nat) : str :=
  if level <? WEBCC_WARN then [] else if level =? WEBCC_WARN then TerminalYellow pl else TerminalRed pl.
Definition console_entry (pl : Platform) (level : nat) (timestamp name thread_id file_ : str) (line : Z)
    (message : str) : str :=
  TerminalReset pl ++ level_color pl level ++
  fields 25 timestamp name thread_id file_ line ++ message ++ TerminalReset pl ++ [LF].

(** Writing [text] piece by piece, flushed at the end or not. *)
Definition extend (flush : bool) (text : str) (s : Stream) : Stream :=
  let s := fwrite s text in if flush then fflush s else s.

(** What is written to a stream inside a [lock_guard] is one entry. *)
Lemma do_locked t a b c l s :
  do_actions s (locked ([Write t a; Write t b; Write t c] ++ flush_action l t)) =
  on_target t (extend (has_mode (modes l) LOG_FLUSH) (a ++ b ++ c)) s.
Proof.
  unfold locked, flush_action, extend. destruct s as [[f|] e], t, (has_mode _ _); cbn;
    unfold fwrite, fflush; cbn; by rewrite <- ?app_assoc.
Qed.

Lemma Log_file_spec l timestamp thread_id level f line format args name message :
  kLevelNames !! level = Some name -> printf format args = Some message ->
  exists acts, Log_file l timestamp thread_id level f line format args = Some acts /\
    forall s, file l = None <-> s.1 = None -> do_actions s acts =
      (if has_mode (modes l) LOG_FILE then
         on_target ToFile (extend (has_mode (modes l) LOG_FLUSH)
           (file_entry timestamp name thread_id f line message)) s else s).
Proof.
  intros Hn Hm. unfold Log_file. destruct (file l) as [st|].
  - destruct (has_mode _ LOG_FILE); [|by eexists].
    rewrite Hn. cbn [mbind option_bind]. rewrite printf_file, Hm. cbn [mbind option_bind]. eexists.
    split; [reflexivity|].
    intros s _. by rewrite do_locked.
  - eexists. split; [reflexivity|]. intros s [Hs _]. destruct s as [f' e]. cbn in *.
    rewrite (Hs eq_refl). by destruct (has_mode _ _).
Qed.

Lemma Log_console_spec pl l timestamp thread_id level f line format args name message :
  kLevelNames !! level = Some name -> printf format args = Some message ->
  exists acts, Log_console pl l timestamp thread_id level f line format args = Some acts /\
    forall s, do_actions s acts =
      (if has_mode (modes l) LOG_CONSOLE then
         on_target ToConsole (extend (has_mode (modes l) LOG_FLUSH)
           (console_entry pl level timestamp name thread_id f line message)) s else s).
Proof.
  intros Hn Hm. unfold Log_console. destruct (has_mode _ LOG_CONSOLE); [|by eexists].
  rewrite Hn. cbn [mbind option_bind]. rewrite Hm. cbn [mbind option_bind g_colorlogtostderr andb].
  assert (forall ID, g_terminal_has_color pl = false -> Terminal pl ID = []) as Hplain.
  { intros ID H. unfold Terminal. by rewrite H. }
  unfold console_entry, level_color, TerminalReset, TerminalYellow, TerminalRed.
  destruct (g_terminal_has_color pl).
  - rewrite printf_line. rewrite !Terminal_c_str by decide_now. destruct (level <? WEBCC_WARN).
    + rewrite printf_color1, Terminal_c_str by decide_now. cbn [mbind option_bind].
      eexists. split; [reflexivity|]. intros s. rewrite do_locked. by rewrite <- ?app_assoc.
    + rewrite printf_color2. cbn [mbind option_bind]. eexists. split; [reflexivity|].
      intros s. rewrite do_locked.
      destruct (level =? WEBCC_WARN); rewrite !Terminal_c_str by decide_now; by rewrite <- ?app_assoc.
  - rewrite printf_console. cbn [mbind option_bind]. eexists. split; [reflexivity|].
    intros s. rewrite do_locked, !Hplain by done. cbn [app].
    destruct (level <? WEBCC_WARN), (level =? WEBCC_WARN); done.
Qed.

(** A message starts at the same column of the file, whatever the thread, file and line are, as
    long as they fit their fields. *)
Lemma fields_length width timestamp name thread_id f line :
  length (c_str thread_id) <= 7 -> length (c_str f) <= width ->
  length (int_to_string line) <= 4 ->
  length (fields width timestamp name thread_id f line) =
    length (c_str timestamp) + length (c_str name) + width + 21.
Proof.
  intros H1 H2 H3. unfold fields, pad_left.
  rewrite !length_app, !repeat_length. cbn [length lit list_ascii_of_string]. lia.
Qed.

(** ** Threads that log *)
Definition plain (body : list LogAction) : Prop := Lock ∉ body /\ Unlock ∉ body.
Definition sectioned (l : list LogAction) : Prop :=
  exists bodies, Forall plain bodies /\ l = concat (map locked bodies).

Lemma sectioned_nil : sectioned [].
Proof. by exists []. Qed.
Lemma sectioned_app a b : sectioned a -> sectioned b -> sectioned (a ++ b).
Proof.
  intros (x & Hx & ->) (y & Hy & ->). exists (x ++ y). split; [by apply Forall_app|].
  by rewrite map_app, concat_app.
Qed.
Lemma sectioned_locked t a b c l : sectioned (locked ([Write t a; Write t b; Write t c] ++ flush_action l t)).
Proof.
  exists [[Write t a; Write t b; Write t c] ++ flush_action l t]. split; [|cbn; by rewrite app_nil_r].
  apply Forall_singleton. unfold flush_action, plain. destruct (has_mode _ _); split; set_solver.
Qed.
(** A call locks the mutex around everything it writes. *)
Lemma Log_sectioned pl l timestamp thread_id level f line format args acts :
  Log pl l timestamp thread_id level f line format args = Some acts -> sectioned acts.
Proof.
  unfold Log.
  destruct (Log_file l timestamp thread_id level f line format args) as [a|] eqn:Ha; [|done].
  destruct (Log_console pl l timestamp thread_id level f line format args) as [b|] eqn:Hb; [|done].
  intros [= <-]. apply sectioned_app.
  - unfold Log_file in Ha. destruct (file l); [|injection Ha as <-; apply sectioned_nil].
    destruct (has_mode _ LOG_FILE); [|injection Ha as <-; apply sectioned_nil].
    repeat (apply bind_Some in Ha as (? & _ & Ha)). injection Ha as <-. apply sectioned_locked.
  - unfold Log_console in Hb. destruct (has_mode _ LOG_CONSOLE); [|injection Hb as <-; apply sectioned_nil].
    apply bind_Some in Hb as (? & _ & Hb). apply bind_Some in Hb as (? & _ & Hb).
    destruct (_ && _); repeat (apply bind_Some in Hb as (? & _ & Hb)); injection Hb as <-;
      apply sectioned_locked.
Qed.

(** What was done so far: [hist] are the bodies done and the threads that did them; of the body of
    the thread that holds the mutex [pre] is done. *)
Definition of_thread (i : nat) (hist : list (nat * list LogAction)) : list (list LogAction) :=
  map snd (filter (fun h => fst h = i) hist).
Definition waits (hist : list (nat * list LogAction)) (l0 : list (list LogAction)) (i : nat)
    (l : list LogAction) : Prop :=
  sectioned l /\ l0 !! i = Some (concat (map locked (of_thread i hist)) ++ l).
Definition log_inv (s0 : Streams) (ts0 : list (list LogAction)) (st : Threads) : Prop :=
  exists hist, Forall (fun h => plain (snd h)) hist /\ length (t_threads st) = length ts0 /\
  match t_owner st with
  | None =>
      t_streams st = do_actions s0 (concat (map snd hist)) /\
      forall i l, t_threads st !! i = Some l -> waits hist ts0 i l
  | Some o => exists pre post rest,
      plain (pre ++ post) /\ sectioned rest /\
      t_streams st = do_actions s0 (concat (map snd hist) ++ pre) /\
      t_threads st !! o = Some (post ++ [Unlock] ++ rest) /\
      ts0 !! o = Some (concat (map locked (of_thread o hist)) ++ locked (pre ++ post) ++ rest) /\
      forall i l, i <> o -> t_threads st !! i = Some l -> waits hist ts0 i l
  end.

Lemma of_thread_snoc i j b hist :
  of_thread i (hist ++ [(j, b)]) = of_thread i hist ++ if decide (j = i) then [b] else [].
Proof.
  unfold of_thread. rewrite filter_app, map_app. f_equal. cbn.
  unfold filter, list_filter. cbn. by destruct (decide _).
Qed.
(** A thread that waits starts with the lock, or is done. *)
Lemma sectioned_cons a l : sectioned (a :: l) ->
  exists body rest, a = Lock /\ l = body ++ [Unlock] ++ rest /\ plain body /\ sectioned rest.
Proof.
  intros ([|b bs] & Hb & Heq); [done|]. apply Forall_cons in Hb as [Hb Hbs].
  cbn in Heq. injection Heq as -> ->. exists b, (concat (map locked bs)).
  split_and!; [done|by rewrite <- app_assoc|done|by exists bs].
Qed.

(** The action of a thread that does not wait is the next one of its body. *)
Lemma owner_next (post rest : list LogAction) a l :
  post ++ [Unlock] ++ rest = a :: l -> plain post ->
  (post = [] /\ a = Unlock /\ l = rest) \/
  (exists post', post = a :: post' /\ l = post' ++ [Unlock] ++ rest /\ a <> Lock /\ a <> Unlock).
Proof.
  destruct post as [|b post]; intros H [Hp1 Hp2]; injection H as -> <-; [by left|].
  right. exists post. split_and!; [done|done|set_solver|set_solver].
Qed.

Lemma waits_insert hist ts0 (ts : list (list LogAction)) j l' (o : nat) :
  (forall i l, ts !! i = Some l -> waits hist ts0 i l) -> j = o ->
  forall i l, i <> o -> <[j:=l']> ts !! i = Some l -> waits hist ts0 i l.
Proof. intros Hw -> i l Hne H. rewrite list_lookup_insert_ne in H by done. by apply Hw. Qed.

(** An action inside a section: its thread holds the mutex. *)
Lemma log_inv_body s0 ts0 s o ts i a l :
  log_inv s0 ts0 (mkThreads s o ts) -> ts !! i = Some (a :: l) -> a <> Lock -> a <> Unlock ->
  log_inv s0 ts0 (mkThreads (do_action s a) o (<[i:=l]> ts)).
Proof.
  intros (hist & Hh & Hlen & Hinv) Hi Hl Hu. cbn in Hinv, Hlen. destruct o as [o|].
  2: { destruct Hinv as [_ Hw]. apply Hw in Hi as [Hs _].
       by apply sectioned_cons in Hs as (? & ? & -> & _). }
  destruct Hinv as (pre & post & rest & Hp & Hr & Hs & Ho & H0 & Hw).
  destruct (decide (i = o)) as [->|Hne].
  2: { apply Hw in Hi as [Hs' _]; [|done]. by apply sectioned_cons in Hs' as (? & ? & -> & _). }
  rewrite Ho in Hi. injection Hi as Hi.
  destruct (owner_next post rest a l Hi) as [(_ & -> & _)|(post' & -> & -> & _)];
    [unfold plain in *; set_solver|done|].
  exists hist. cbn. rewrite length_insert. split_and!; [done|done|].
  exists (pre ++ [a]), post', rest. rewrite <- app_assoc. split_and!; [done|done| | |done|].
  - rewrite Hs, (app_assoc _ pre [a]), (do_actions_app _ (_ ++ pre) [a]). done.
  - apply list_lookup_insert_eq. by eapply lookup_lt_Some.
  - intros j l' Hj Hl'. rewrite list_lookup_insert_ne in Hl' by done. by apply Hw.
Qed.
Lemma log_inv_lock s0 ts0 s ts i l :
  log_inv s0 ts0 (mkThreads s None ts) -> ts !! i = Some (Lock :: l) ->
  log_inv s0 ts0 (mkThreads s (Some i) (<[i:=l]> ts)).
Proof.
  intros (hist & Hh & Hlen & Hinv) Hi.
  cbn in Hinv, Hlen. destruct Hinv as [Hs Hw]. destruct (Hw _ _ Hi) as [Hsec H0].
  apply sectioned_cons in Hsec as (body & rest & _ & -> & Hp & Hr).
  exists hist. cbn. rewrite length_insert. split_and!; [done|done|].
  exists [], body, rest. rewrite app_nil_r. split_and!; [done|done|done| | |].
  - apply list_lookup_insert_eq. by eapply lookup_lt_Some.
  - rewrite H0. unfold locked. cbn. by rewrite <- app_assoc.
  - by eapply waits_insert.
Qed.
Lemma log_inv_unlock s0 ts0 s ts i l :
  log_inv s0 ts0 (mkThreads s (Some i) ts) -> ts !! i = Some (Unlock :: l) ->
  log_inv s0 ts0 (mkThreads s None (<[i:=l]> ts)).
Proof.
  intros (hist & Hh & Hlen & Hinv) Hi.
  cbn in Hinv, Hlen. destruct Hinv as (pre & post & rest & Hp & Hr & Hs & Ho & H0 & Hw).
  rewrite Ho in Hi. injection Hi as Hi.
  destruct (owner_next post rest Unlock l Hi) as [(-> & _ & ->)|(post' & _ & _ & _ & Hne)];
    [unfold plain in *; set_solver| |done].
  rewrite (app_nil_r pre) in Hp, H0. exists (hist ++ [(i, pre)]). cbn.
  rewrite length_insert, map_app, concat_app. cbn. rewrite (app_nil_r pre).
  split_and!; [apply Forall_app; split; [done|by apply Forall_singleton]|done|done|].
  intros j l Hj. destruct (decide (i = j)) as [<-|Hne].
  - rewrite list_lookup_insert_eq in Hj by (by eapply lookup_lt_Some). injection Hj as <-.
    split; [done|]. rewrite H0, of_thread_snoc, decide_True, map_app, concat_app by done.
    cbn [map concat]. rewrite app_nil_r. f_equal. rewrite <- (app_assoc (concat _) (locked pre)).
    by f_equal.
  - rewrite list_lookup_insert_ne in Hj by done. destruct (Hw j l) as [Hsj Hj0]; [done..|].
    split; [done|]. by rewrite of_thread_snoc, decide_False, app_nil_r by done.
Qed.
Lemma log_inv_step s0 ts0 st st' : log_inv s0 ts0 st -> lstep st st' -> log_inv s0 ts0 st'.
Proof.
  intros H Hstep. inversion Hstep; subst;
    [by apply log_inv_lock|by apply log_inv_unlock|by eapply log_inv_body..].
Qed.

Lemma log_inv_reachable s0 ts0 st :
  Forall sectioned ts0 -> rtc lstep (mkThreads s0 None ts0) st -> log_inv s0 ts0 st.
Proof.
  intros Hs Hr. assert (log_inv s0 ts0 (mkThreads s0 None ts0)) as Hinit.
  { exists []. split; [by apply Forall_nil|]. split; [done|]. split; [done|]. intros i l Hi. split; [|done].
    by eapply Forall_lookup_1. }
  revert Hinit. induction Hr as [|x y z Hxy _ IH]; [done|]. intros Hx.
  by apply IH, (log_inv_step _ _ x).
Qed.

(** The actions left: each step does one. *)
Definition actions_left (st : Threads) : nat := length (concat (t_threads st)).
Lemma length_concat_insert (ts : list (list LogAction)) i l l' :
  ts !! i = Some l ->
  length (concat (<[i:=l']> ts)) + length l = length (concat ts) + length l'.
Proof.
  revert i. induction ts as [|x ts IH]; intros [|i] H; try done.
  - injection H as ->. change (<[0:=l']> (l :: ts)) with (l' :: ts). cbn [concat].
    rewrite !length_app. lia.
  - change (<[S i:=l']> (x :: ts)) with (x :: <[i:=l']> ts). cbn [concat].
    rewrite !length_app. specialize (IH i H). lia.
Qed.
Lemma lstep_decreases st st' : lstep st st' -> actions_left st = S (actions_left st').
Proof.
  unfold actions_left. intros [s ts i l H|s ts i l H|s o ts i t text l H|s o ts i t l H];
    cbn [t_threads]; pose proof (length_concat_insert _ _ _ l H) as E; cbn in E; lia.
Qed.
(** While actions are left some thread can step: the mutex is never held for ever. *)
Lemma log_inv_progress s0 ts0 st :
  log_inv s0 ts0 st -> actions_left st <> 0 -> exists st', lstep st st'.
Proof.
  intros (hist & _ & _ & Hinv) Hleft. destruct st as [s [o|] ts]; cbn in Hinv, Hleft.
  - destruct Hinv as (pre & post & rest & [Hp1 Hp2] & _ & _ & Ho & _).
    destruct post as [|a post]; [eexists; by eapply step_unlock|].
    destruct a as [| |t text|t]; [set_solver|set_solver|eexists; by eapply step_write
      |eexists; by eapply step_flush].
  - destruct Hinv as [_ Hw].
    destruct (list_find (fun l => l <> []) ts) as [[i l]|] eqn:E.
    + apply list_find_Some in E as (Hi & Hne & _). destruct l as [|a l]; [done|].
      destruct (Hw _ _ Hi) as [Hs _]. apply sectioned_cons in Hs as (? & ? & -> & _).
      eexists. by eapply step_lock.
    + apply list_find_None in E. destruct Hleft. unfold actions_left. cbn.
      clear -E. induction E as [|l ts Hl _ IH]; [done|]. cbn. rewrite length_app, IH.
      apply dec_stable in Hl as ->. done.
Qed.

(** The bytes an action adds to a stream. *)
Definition written (t : Target) (a : LogAction) : str :=
  match a with Write t' text => if decide (t' = t) then text else [] | _ => [] end.
Definition text_of (t : Target) (body : list LogAction) : str := concat (map (written t) body).
Definition bytes_of (t : Target) (s : Streams) : str :=
  match t with ToFile => match s.1 with Some f => s_bytes f | None => [] end | ToConsole => s_bytes s.2 end.
Lemma bytes_of_action t s a : (t = ToFile -> s.1 <> None) ->
  bytes_of t (do_action s a) = bytes_of t s ++ written t a.
Proof.
  intros H. destruct s as [[f|] e], t, a as [| |[] text|[]]; cbn; rewrite ?app_nil_r; try done.
  all: by specialize (H eq_refl).
Qed.
Lemma do_action_file s a : (do_action s a).1 = None <-> s.1 = None.
Proof. by destruct s as [[f|] e], a as [| |[] text|[]]. Qed.
Lemma bytes_of_actions t acts : forall s, (t = ToFile -> s.1 <> None) ->
  bytes_of t (do_actions s acts) = bytes_of t s ++ text_of t acts.
Proof.
  induction acts as [|a acts IH]; intros s H; cbn; [by rewrite app_nil_r|].
  unfold do_actions in IH. rewrite IH by (intros Ht; rewrite do_action_file; by apply H).
  rewrite bytes_of_action by done. by rewrite <- app_assoc.
Qed.
Lemma text_of_concat t bodies : text_of t (concat bodies) = concat (map (text_of t) bodies).
Proof.
  unfold text_of. induction bodies as [|b bs IH]; [done|]. cbn. by rewrite map_app, concat_app, IH.
Qed.

(** The calls of one thread, one after the other. *)
Record LogCall := mkLogCall {
  lc_timestamp : str; lc_thread : str; lc_level : nat; lc_file : str; lc_line : Z;
  lc_format : str; lc_args : list printf_arg
}.
Definition Log_call (pl : Platform) (l : Logger) (c : LogCall) : option (list LogAction) :=
  Log pl l (lc_timestamp c) (lc_thread c) (lc_level c) (lc_file c) (lc_line c) (lc_format c) (lc_args c).
Fixpoint Log_calls (pl : Platform) (l : Logger) (cs : list LogCall) : option (list LogAction) :=
  match cs with
  | [] => Some []
  | c :: cs => option_app (Log_call pl l c) (Log_calls pl l cs)
  end.
Lemma Log_calls_sectioned pl l cs acts : Log_calls pl l cs = Some acts -> sectioned acts.
Proof.
  revert acts. induction cs as [|c cs IH]; intros acts H; cbn in H.
  - injection H as <-. apply sectioned_nil.
  - destruct (Log_call pl l c) as [a|] eqn:Ha; [|done]. destruct (Log_calls pl l cs) as [b|]; [|done].
    injection H as <-. apply sectioned_app; [by eapply Log_sectioned|by apply IH].
Qed.

(** ** Correctness *)

(** A call of [Log] adds one entry to the file when the file is open and its mode set, and one to
    the console when that mode is set, and nothing else: the fields, padded, the message
    as [printf] formats it, and the end of the line, between the escape sequences of the
    level on a terminal with colors; with the flush mode everything is flushed. *)
Theorem log_adds_one_entry pl l timestamp thread_id level f line format args name message s :
  kLevelNames !! level = Some name -> printf format args = Some message ->
  (file l = None <-> s.1 = None) ->
  let put (flag : Z) (entry : str) (st : Stream) :=
    if has_mode (modes l) flag then extend (has_mode (modes l) LOG_FLUSH) entry st else st in
  exists acts, Log pl l timestamp thread_id level f line format args = Some acts /\
    do_actions s acts =
      (put LOG_FILE (file_entry timestamp name thread_id f line message) <$> s.1,
       put LOG_CONSOLE (console_entry pl level timestamp name thread_id f line message) s.2).
Proof.
  intros Hn Hm Hs put.
  destruct (Log_file_spec l timestamp thread_id level f line format args name message Hn Hm)
    as (a & Ha & Hfile).
  destruct (Log_console_spec pl l timestamp thread_id level f line format args name message Hn Hm)
    as (b & Hb & Hcons).
  unfold Log. rewrite Ha, Hb. cbn [option_app]. eexists. split; [reflexivity|].
  rewrite do_actions_app, Hcons, Hfile by done. subst put. cbv beta.
  destruct s as [[st|] e], (has_mode (modes l) LOG_FILE), (has_mode (modes l) LOG_CONSOLE); done.
Qed.
Example log_adds_one_entry_witness :
  let pl := mkPlatform None (Ret #"/") app (fun _ => Ret true) (fun _ => Ret true)
              (fun _ => (true, false)) (fun _ => None) in
  let l := mkLogger (Some (mkStream #"old" 3)) LOG_CONSOLE_FILE_APPEND (mkStream [] 0) #"7" in
  exists acts, Log pl l #"now" #"main" WEBCC_ERRO #"parser.cc" 142 #"Invalid header: %s" [ArgStr #"x"] =
      Some acts /\
    s_bytes <$> (do_actions (file l, err l) acts).1 =
      Some (#"oldnow, ERRO,    main,                parser.cc,  142, Invalid header: x" ++ [LF]).
Proof.
  intros pl l.
  destruct (log_adds_one_entry pl l #"now" #"main" WEBCC_ERRO #"parser.cc" 142 #"Invalid header: %s"
    [ArgStr #"x"] #"ERRO" #"Invalid header: x" (file l, err l) eq_refl eq_refl) as (acts & H1 & H2);
    [done|].
  exists acts. split; [exact H1|]. rewrite H2. vm_compute. reflexivity.
Defined.

(** C27: Threads that log at the same time, in any interleaving: whenever no thread holds the mutex, the
    streams are what doing the entries begun so far one after the other gives, in the order
    in which the mutex was taken, so that no line is mixed with another; the entries of each thread
    are there in its order; and until all calls are done some thread can go on, each step
    bringing the end nearer. *)
Theorem log_entries_stay_whole pl l s0 (calls : list (list LogCall)) progs st :
  Forall2 (fun cs p => Log_calls pl l cs = Some p) calls progs ->
  rtc lstep (mkThreads s0 None progs) st ->
  (t_owner st = None ->
   exists hist : list (nat * list LogAction),
     t_streams st = do_actions s0 (concat (map snd hist)) /\
     (forall t, (t = ToFile -> s0.1 <> None) ->
        bytes_of t (t_streams st) = bytes_of t s0 ++ concat (map (fun h => text_of t (snd h)) hist)) /\
     (forall i p, progs !! i = Some p -> exists rest, t_threads st !! i = Some rest /\
        p = concat (map locked (of_thread i hist)) ++ rest)) /\
  (actions_left st <> 0 -> exists st', lstep st st') /\
  (forall st', lstep st st' -> actions_left st = S (actions_left st')).
Proof.
  intros Hp Hr.
  assert (Forall sectioned progs) as Hsec.
  { clear Hr. induction Hp; [by apply Forall_nil|]. apply Forall_cons. split; [|done].
    by eapply Log_calls_sectioned. }
  pose proof (log_inv_reachable s0 progs st Hsec Hr) as Hinv. split_and!.
  - intros Ho. destruct Hinv as (hist & _ & Hlen & H). rewrite Ho in H. destruct H as [Hs Hw].
    exists hist. split; [done|]. split.
    + intros t Ht. rewrite Hs, bytes_of_actions, text_of_concat, map_map by done. done.
    + intros i p Hi. destruct (t_threads st !! i) as [rest|] eqn:E.
      * destruct (Hw i rest E) as [_ H0]. exists rest. split; [done|]. congruence.
      * apply lookup_ge_None in E. apply lookup_lt_Some in Hi. lia.
  - by eapply log_inv_progress.
  - apply lstep_decreases.
Qed.
Example log_entries_stay_whole_witness :
  let pl := mkPlatform None (Ret #"/") app (fun _ => Ret true) (fun _ => Ret true)
              (fun _ => (true, false)) (fun _ => None) in
  let l := mkLogger None LOG_CONSOLE (mkStream [] 0) [] in
  let call tid := mkLogCall #"t" tid WEBCC_WARN #"server.cc" 7 #"hello" [] in
  exists p1 p2, Log_calls pl l [call #"1"] = Some p1 /\ Log_calls pl l [call #"2"] = Some p2 /\
    exists st, lstep (mkThreads (None, mkStream [] 0) None [p1; p2]) st.
Proof.
  intros pl l call. eexists _, _. split; [reflexivity|]. split; [reflexivity|].
  eapply (log_entries_stay_whole pl l (None, mkStream [] 0) [[call #"1"]; [call #"2"]]);
    [repeat constructor|apply rtc_refl|vm_compute; discriminate].
Defined.

(** Nothing is logged below the level that is compiled in, and without a mode. *)
Theorem log_below_level pl l timestamp thread_id f line format args :
  LOG_VERB pl l timestamp thread_id f line format args = Some [] /\
  LOG_INFO pl l timestamp thread_id f line format args = Some [].
Proof. done. Qed.

(** A line feed in the message makes two lines: the rejected header line of a request, which ends
    with CRLF but may contain a line feed, can look like an entry of its own. *)
Example log_line_forged :
  let pl := mkPlatform None (Ret #"/") app (fun _ => Ret true) (fun _ => Ret true)
              (fun _ => (true, false)) (fun _ => None) in
  let l := mkLogger None LOG_CONSOLE (mkStream [] 0) [] in
  let line := #"x" ++ [LF] ++ #"now, ERRO,    main,                 server.cc,   37, forged" in
  exists acts, LOG_ERRO pl l #"now" #"main" #"webcc/parser.cc" 142 #"Invalid header: %s" [ArgStr line] =
      Some acts /\
    s_bytes (do_actions (None, mkStream [] 0) acts).2 =
      #"now, ERRO,    main,                 parser.cc,  142, Invalid header: x" ++ [LF] ++
      #"now, ERRO,    main,                 server.cc,   37, forged" ++ [LF].
Proof. intros pl l line. eexists. split; [reflexivity|]. vm_compute. reflexivity. Qed.

(** The milliseconds of a timestamp always have three digits. *)
Theorem timestamp_milliseconds local_time count :
  (0 <= count)%Z ->
  exists a b c, GetTimestamp local_time count = local_time ++ #"." ++ [a; b; c] /\
    Forall (fun x => isdigit x = true) [a; b; c] /\
    stoul 10 [a; b; c] = Some (Z.to_N (count mod 1000)).
Proof.
  intros Hc. unfold GetTimestamp. rewrite Z.rem_mod_nonneg by lia.
  assert (0 <= count mod 1000 < 1000)%Z as Hr by (apply Z.mod_pos_bound; lia).
  set (z := (count mod 1000)%Z) in *. clearbody z.
  pose (test z := match pad_zeros 3 (int_to_string z) with
    | [a; b; c] => forallb isdigit [a; b; c] &&
        match stoul 10 [a; b; c] with Some n => (n =? Z.to_N z)%N | None => false end
    | _ => false end).
  assert (test z = true) as H by (apply (range_forall test 1000); [vm_compute; reflexivity|done]).
  unfold test in H. destruct (pad_zeros 3 (int_to_string z)) as [|a [|b [|c [|]]]]; try done.
  apply andb_true_iff in H as [H1 H2]. exists a, b, c. split; [done|]. split.
  - apply Forall_forall. intros x Hx. rewrite forallb_forall in H1. apply H1. by apply list_elem_of_In.
  - destruct (stoul 10 [a; b; c]) as [n|]; [|done]. by apply N.eqb_eq in H2 as ->.
Qed.

(** [LogInit] opens the file it finds a path for, keeps what is there unless the mode says to
    overwrite, and without a file or a path the logger has no file: nothing is
    reported. *)
Theorem LogInit_opens pl thread_id dir ms path e :
  has_mode ms LOG_FILE = true -> InitLogPath pl dir = Ret path ->
  exists l, LogInit pl (Logger_new e) thread_id dir ms = Ret l /\ modes l = ms /\
    GetThreadID l thread_id = #"main" /\
    file l = match path, fopen pl path with
             | [], _ | _, None => None
             | _, Some old => Some (if has_mode ms LOG_OVERWRITE then mkStream [] 0
                                    else mkStream old (length old))
             end.
Proof.
  intros Hm Hp. unfold LogInit. rewrite Hm, Hp. cbn [obind]. eexists. split; [reflexivity|].
  unfold GetThreadID, Logger_Init. cbn [g_main_thread_id modes file err]. rewrite seqb_refl, Hm.
  split_and!; try done. destruct path as [|c path]; [done|]. cbn [seqb negb andb].
  destruct (has_mode ms LOG_OVERWRITE), (fopen pl (c :: path)); done.
Qed.
