(* ===== verification/Base64.v ===== *)
(** * Base64: the two codecs of the repository

    [Module App] models [base64/base64.cpp], used on the image data of a
    request; [Module Webcc] models [webcc/base64.cc], used for the
    authorization header.  [Module Spec] is the reference encoding, on bits. *)
From Stdlib Require Import Ascii String.
From stdpp Require Import base tactics list numbers option strings.
From S2P Require Import Prelude.
Open Scope Z_scope.

(** ** What the two codecs share

    The alphabet, and the expressions that regroup three bytes into four 6-bit
    values and back; stores into [unsigned char] are [chr]. *)
Definition base64_chars : str :=
  #"ABCDEFGHIJKLMNOPQRSTUVWXYZabcdefghijklmnopqrstuvwxyz0123456789+/".
Definition b64_at (i : Z) : ascii := nth (Z.to_nat i) base64_chars "000"%char.

Definition enc0 (a : Z) : Z := Z.shiftr (Z.land a 252) 2.
Definition enc1 (a b : Z) : Z := Z.shiftl (Z.land a 3) 4 + Z.shiftr (Z.land b 240) 4.
Definition enc2 (b c : Z) : Z := Z.shiftl (Z.land b 15) 2 + Z.shiftr (Z.land c 192) 6.
Definition enc3 (c : Z) : Z := Z.land c 63.

Definition dec0 (a b : Z) : ascii := chr (Z.shiftl a 2 + Z.shiftr (Z.land b 48) 4).
Definition dec1 (b c : Z) : ascii := chr (Z.shiftl (Z.land b 15) 4 + Z.shiftr (Z.land c 60) 2).
Definition dec2 (c d : Z) : ascii := chr (Z.shiftl (Z.land c 3) 6 + d).

(** ** [base64/base64.cpp] *)
Module App.
Definition is_base64 (c : ascii) : bool := isalnum c || ceqb c "+" || ceqb c "/".

(** The [while] loop of [base64_encode]: [buf] is [char_array_3[0..i)].  The
    end of the input is the [if (i)] block after the loop. *)
Definition encode_tail (buf : str) : str :=
  match buf with
  | [a] =>
      let a := code a in
      [b64_at (enc0 a); b64_at (enc1 a 0); "="; "="]%char
  | [a; b] =>
      let a := code a in let b := code b in
      [b64_at (enc0 a); b64_at (enc1 a b); b64_at (enc2 b 0); "="]%char
  | _ => []
  end.

Fixpoint encode_go (buf s : str) : str :=
  match s with
  | [] => encode_tail buf
  | x :: s' =>
      match buf with
      | [a; b] =>
          let a := code a in let b := code b in let c := code x in
          b64_at (enc0 a) :: b64_at (enc1 a b) :: b64_at (enc2 b c)
          :: b64_at (enc3 c) :: encode_go [] s'
      | _ => encode_go (buf ++ [x]) s'
      end
  end.
(** [bytes] are the [in_len] bytes behind [bytes_to_encode], of which there are less than [2^32]
    as [in_len] is an [unsigned int]. *)
Definition base64_encode (bytes : str) : str := encode_go [] bytes.

(** [base64_chars.find(c)] stored into an [unsigned char]. *)
Definition b64_find (c : ascii) : Z :=
  match find_chr c base64_chars with
  | Some i => Z.of_nat i
  | None => 255
  end.

(** [junk] is the content of the entries of [char_array_4] that the final
    group does not set (left over, or never initialised). *)
Definition decode_tail (junk : Z * Z) (buf : str) : str :=
  match map b64_find buf with
  | [a; b] => [dec0 a b]
  | [a; b; c] => [dec0 a b; dec1 b c]
  | [a] => take 0 [dec0 a (fst junk); dec1 (fst junk) (snd junk)]
  | _ => []
  end.

(** The [while] loop of [base64_decode]: [in_len] is the [int] counter. *)
Fixpoint decode_go (junk : Z * Z) (in_len : Z) (buf s : str) : str :=
  match s with
  | [] => decode_tail junk buf
  | x :: s' =>
      if (in_len =? 0) || ceqb x "=" || negb (is_base64 x) then decode_tail junk buf
      else match buf with
           | [a; b; c] =>
               let a := b64_find a in let b := b64_find b in
               let c := b64_find c in let d := b64_find x in
               dec0 a b :: dec1 b c :: dec2 c d :: decode_go junk (in_len - 1) [] s'
           | _ => decode_go junk (in_len - 1) (buf ++ [x]) s'
           end
  end.

(** [int in_len = encoded_string.size()]: the conversion keeps 32 bits. *)
Definition to_int32 (z : Z) : Z :=
  let m := z mod 4294967296 in if m <? 2147483648 then m else m - 4294967296.
Definition base64_decode_junk (junk : Z * Z) (s : str) : str :=
  decode_go junk (to_int32 (Z.of_nat (length s))) [] s.
Definition base64_decode (s : str) : str := base64_decode_junk (0, 0) s.
End App.

(** ** [webcc/base64.cc] *)
Module Webcc.
(** The table [kInverse], row by row as in the source. *)
Definition kInverse : list Z :=
  repeat (-1) 32 ++
  [ -1; -1; -1; -1; -1; -1; -1; -1; -1; -1; -1; 62; -1; -1; -1; 63;
    52; 53; 54; 55; 56; 57; 58; 59; 60; 61; -1; -1; -1; -1; -1; -1;
    -1;  0;  1;  2;  3;  4;  5;  6;  7;  8;  9; 10; 11; 12; 13; 14;
    15; 16; 17; 18; 19; 20; 21; 22; 23; 24; 25; -1; -1; -1; -1; -1;
    -1; 26; 27; 28; 29; 30; 31; 32; 33; 34; 35; 36; 37; 38; 39; 40;
    41; 42; 43; 44; 45; 46; 47; 48; 49; 50; 51; -1; -1; -1; -1; -1 ] ++
  repeat (-1) 128.

Definition EncodedSize (n : Z) : Z := 4 * ((n + 2) / 3).
Definition DecodedSize (n : Z) : Z := n / 4 * 3.

(** The [for] loop of [Encode], [n] times; the input bytes are signed
    [char]s.  The rest of the input is returned for the [switch]. *)
Fixpoint encode_groups (n : nat) (s : str) : str * str :=
  match n, s with
  | S n', a :: b :: c :: s' =>
      let '(out, rest) := encode_groups n' s' in
      let a := schar a in let b := schar b in let c := schar c in
      (b64_at (enc0 a) :: b64_at (enc1 a b) :: b64_at (enc2 b c)
       :: b64_at (enc3 c) :: out, rest)
  | _, _ => ([], s)
  end.
Definition Encode (src : str) : str :=
  let '(out, rest) := encode_groups (length src / 3) src in
  match rest with
  | [a; b] =>
      let a := schar a in let b := schar b in
      out ++ [b64_at (enc0 a); b64_at (enc1 a b);
              b64_at (Z.shiftl (Z.land b 15) 2); "="]%char
  | [a] =>
      let a := schar a in
      out ++ [b64_at (enc0 a); b64_at (Z.shiftl (Z.land a 3) 4); "="; "="]%char
  | _ => out
  end.

Definition inverse (c : ascii) : Z := nth (Z.to_nat (code c)) kInverse 0.

Definition decode_tail (buf : list Z) : str :=
  match buf with
  | [a; b] => [dec0 a b]
  | [a; b; c] => [dec0 a b; dec1 b c]
  | _ => []
  end.

(** The [while] loop of [Decode]; returns the bytes written and the number of
    characters consumed. *)
Fixpoint decode_go (buf : list Z) (s : str) : str * Z :=
  match s with
  | [] => (decode_tail buf, 0)
  | x :: s' =>
      if ceqb x "=" then (decode_tail buf, 0)
      else
        let v := inverse x in
        if v =? -1 then (decode_tail buf, 0)
        else match buf with
             | [a; b; c] =>
                 let '(out, n) := decode_go [] s' in
                 (dec0 a b :: dec1 b c :: dec2 c v :: out, n + 1)
             | _ => let '(out, n) := decode_go (buf ++ [v]) s' in (out, n + 1)
             end
  end.
Definition Decode (src : str) : str * Z := decode_go [] src.

Definition Base64Encode (input : str) : str := Encode input.
(** [Base64Decode]: [None] when [Decode] writes past the [DecodedSize] bytes
    the buffer was resized to (undefined behaviour). *)
Definition Base64Decode (input : str) : option str :=
  let out := fst (Decode input) in
  if Z.of_nat (length out) <=? DecodedSize (Z.of_nat (length input))
  then Some out else None.
End Webcc.

(** ** The reference encoding (RFC 4648): bits regrouped by six *)
Module Spec.
Definition byte_bits (c : ascii) : list bool :=
  match c with Ascii b0 b1 b2 b3 b4 b5 b6 b7 => [b7; b6; b5; b4; b3; b2; b1; b0] end.
Definition bits_val (l : list bool) : Z :=
  fold_left (fun acc b => 2 * acc + (if b : bool then 1 else 0)) l 0.
(** Groups of six bits, the last one completed with zero bits. *)
Fixpoint sextets (fuel : nat) (l : list bool) : list Z :=
  match fuel, l with
  | S fuel', _ :: _ =>
      bits_val (take 6 (l ++ repeat false 5)) :: sextets fuel' (drop 6 l)
  | _, _ => []
  end.
Definition padding (n : nat) : str :=
  match (n mod 3)%nat with 1%nat => ["="; "="]%char | 2%nat => ["="]%char | _ => [] end.
Definition encode (s : str) : str :=
  let bits := concat (map byte_bits s) in
  map b64_at (sextets (length bits) bits) ++ padding (length s).
End Spec.

(** ** Lemmas *)

(** The bit operations as arithmetic, checked on every value. *)
Section Arith.
Variable a : Z.
Hypothesis Ha : 0 <= a < 256.
Ltac by_range f :=
  apply Z.eqb_eq; apply (range_forall f 256); [vm_compute; reflexivity | exact Ha].
Lemma enc0_div : enc0 a = a / 4.
Proof. by_range (fun z => Z.shiftr (Z.land z 252) 2 =? z / 4). Qed.
Lemma enc3_mod : enc3 a = a mod 64.
Proof. by_range (fun z => Z.land z 63 =? z mod 64). Qed.
Lemma land3_shift : Z.shiftl (Z.land a 3) 4 = a mod 4 * 16.
Proof. by_range (fun z => Z.shiftl (Z.land z 3) 4 =? z mod 4 * 16). Qed.
Lemma land240_shift : Z.shiftr (Z.land a 240) 4 = a / 16.
Proof. by_range (fun z => Z.shiftr (Z.land z 240) 4 =? z / 16). Qed.
Lemma land15_shift : Z.shiftl (Z.land a 15) 2 = a mod 16 * 4.
Proof. by_range (fun z => Z.shiftl (Z.land z 15) 2 =? z mod 16 * 4). Qed.
Lemma land192_shift : Z.shiftr (Z.land a 192) 6 = a / 64.
Proof. by_range (fun z => Z.shiftr (Z.land z 192) 6 =? z / 64). Qed.
Lemma land48_shift : Z.shiftr (Z.land a 48) 4 = a / 16 mod 4.
Proof. by_range (fun z => Z.shiftr (Z.land z 48) 4 =? z / 16 mod 4). Qed.
Lemma land15_shift4 : Z.shiftl (Z.land a 15) 4 = a mod 16 * 16.
Proof. by_range (fun z => Z.shiftl (Z.land z 15) 4 =? z mod 16 * 16). Qed.
Lemma land60_shift : Z.shiftr (Z.land a 60) 2 = a / 4 mod 16.
Proof. by_range (fun z => Z.shiftr (Z.land z 60) 2 =? z / 4 mod 16). Qed.
Lemma land3_shift6 : Z.shiftl (Z.land a 3) 6 = a mod 4 * 64.
Proof. by_range (fun z => Z.shiftl (Z.land z 3) 6 =? z mod 4 * 64). Qed.
Lemma shift2 : Z.shiftl a 2 = a * 4.
Proof. by_range (fun z => Z.shiftl z 2 =? z * 4). Qed.
End Arith.

Lemma enc1_arith a b : 0 <= a < 256 -> 0 <= b < 256 -> enc1 a b = a mod 4 * 16 + b / 16.
Proof. intros. unfold enc1. by rewrite land3_shift, land240_shift. Qed.
Lemma enc2_arith b c : 0 <= b < 256 -> 0 <= c < 256 -> enc2 b c = b mod 16 * 4 + c / 64.
Proof. intros. unfold enc2. by rewrite land15_shift, land192_shift. Qed.

(** Decoding a regrouped pair gives the byte back. *)
Lemma dec0_enc a b : 0 <= a < 256 -> 0 <= b < 256 -> dec0 (enc0 a) (enc1 a b) = chr a.
Proof.
  intros Ha Hb. unfold dec0. rewrite enc0_div, enc1_arith by done.
  rewrite shift2, land48_shift by dlia. f_equal. dlia.
Qed.
Lemma dec1_enc a b c :
  0 <= a < 256 -> 0 <= b < 256 -> 0 <= c < 256 -> dec1 (enc1 a b) (enc2 b c) = chr b.
Proof.
  intros Ha Hb Hc. unfold dec1. rewrite enc1_arith, enc2_arith by done.
  rewrite land15_shift4, land60_shift by dlia. f_equal. dlia.
Qed.
Lemma dec2_enc b c : 0 <= b < 256 -> 0 <= c < 256 -> dec2 (enc2 b c) (enc3 c) = chr c.
Proof.
  intros Hb Hc. unfold dec2. rewrite enc2_arith, enc3_mod by done.
  rewrite land3_shift6 by dlia. f_equal. dlia.
Qed.

(** Every 6-bit value is the position of its character in the alphabet. *)
Section Alphabet.
Variable i : Z.
Hypothesis Hi : 0 <= i < 64.
Ltac by_range64 f := apply (range_forall f 64); [vm_compute; reflexivity | exact Hi].
Lemma is_base64_at : App.is_base64 (b64_at i) = true.
Proof. by_range64 (fun z => App.is_base64 (b64_at z)). Qed.
Lemma b64_at_not_pad : ceqb (b64_at i) "=" = false.
Proof. apply negb_true_iff. by_range64 (fun z => negb (ceqb (b64_at z) "=")). Qed.
Lemma b64_find_at : App.b64_find (b64_at i) = i.
Proof. apply Z.eqb_eq. by_range64 (fun z => App.b64_find (b64_at z) =? z). Qed.
Lemma inverse_at : Webcc.inverse (b64_at i) = i.
Proof. apply Z.eqb_eq. by_range64 (fun z => Webcc.inverse (b64_at z) =? z). Qed.
End Alphabet.

(** The table of [webcc] and the alphabet search agree on every byte. *)
Lemma inverse_spec c :
  Webcc.inverse c = if App.is_base64 c then App.b64_find c else -1.
Proof. byte_cases c; vm_compute; reflexivity. Qed.
Lemma b64_find_range c : App.is_base64 c = true -> 0 <= App.b64_find c < 64.
Proof. byte_cases c; vm_compute; try discriminate; (split; [discriminate | reflexivity]). Qed.

Lemma enc_range a b c :
  0 <= enc0 (code a) < 64 /\ 0 <= enc1 (code a) (code b) < 64 /\
  0 <= enc2 (code b) (code c) < 64 /\ 0 <= enc3 (code c) < 64.
Proof.
  pose proof (code_range a); pose proof (code_range b); pose proof (code_range c).
  rewrite enc0_div, enc1_arith, enc2_arith, enc3_mod by done. repeat split; dlia.
Qed.
Lemma enc_range0 a b :
  0 <= enc1 (code a) 0 < 64 /\ 0 <= enc2 (code b) 0 < 64.
Proof.
  change 0 with (code "000"). destruct (enc_range a "000" "000") as (_ & ? & _ & _).
  by destruct (enc_range "000" b "000") as (_ & _ & ? & _).
Qed.

(** Lists by groups of three. *)
Lemma list3_ind {A} (P : list A -> Prop) :
  P [] -> (forall a, P [a]) -> (forall a b, P [a; b]) ->
  (forall a b c l, P l -> P (a :: b :: c :: l)) -> forall l, P l.
Proof.
  intros H0 H1 H2 H3 l.
  assert (P l /\ (forall a, P (a :: l)) /\ (forall a b, P (a :: b :: l))) as [? _]; [|done].
  induction l as [|x l (IH1 & IH2 & IH3)]; auto.
Qed.

(** ** Decoding, one group at a time *)
Section DecodeStep.
Variable junk : Z * Z.

Lemma decode_go_quad i0 i1 i2 i3 t :
  0 <= i0 < 64 -> 0 <= i1 < 64 -> 0 <= i2 < 64 -> 0 <= i3 < 64 ->
  let s := b64_at i0 :: b64_at i1 :: b64_at i2 :: b64_at i3 :: t in
  App.decode_go junk (Z.of_nat (length s)) [] s =
  dec0 i0 i1 :: dec1 i1 i2 :: dec2 i2 i3 :: App.decode_go junk (Z.of_nat (length t)) [] t.
Proof.
  intros H0 H1 H2 H3. cbv zeta. cbn [length App.decode_go app].
  rewrite !is_base64_at, !b64_at_not_pad, !b64_find_at by done. cbn [negb orb].
  repeat match goal with |- context [?z =? 0] =>
    replace (z =? 0) with false by (symmetry; apply Z.eqb_neq; lia) end.
  cbn [orb]. do 4 f_equal. lia.
Qed.

Lemma decode_go_two i0 i1 t :
  0 <= i0 < 64 -> 0 <= i1 < 64 ->
  let s := b64_at i0 :: b64_at i1 :: "="%char :: t in
  App.decode_go junk (Z.of_nat (length s)) [] s = [dec0 i0 i1].
Proof.
  intros H0 H1. cbv zeta. cbn [length App.decode_go app].
  rewrite !is_base64_at, !b64_at_not_pad, ceqb_refl by done.
  rewrite !orb_false_l, !orb_true_r. cbn [negb orb].
  repeat match goal with |- context [?z =? 0] =>
    replace (z =? 0) with false by (symmetry; apply Z.eqb_neq; lia) end.
  cbn [orb]. unfold App.decode_tail. cbn [map]. by rewrite !b64_find_at.
Qed.

Lemma decode_go_three i0 i1 i2 t :
  0 <= i0 < 64 -> 0 <= i1 < 64 -> 0 <= i2 < 64 ->
  let s := b64_at i0 :: b64_at i1 :: b64_at i2 :: "="%char :: t in
  App.decode_go junk (Z.of_nat (length s)) [] s = [dec0 i0 i1; dec1 i1 i2].
Proof.
  intros H0 H1 H2. cbv zeta. cbn [length App.decode_go app].
  rewrite !is_base64_at, !b64_at_not_pad, ceqb_refl by done.
  rewrite !orb_false_l, !orb_true_r. cbn [negb orb].
  repeat match goal with |- context [?z =? 0] =>
    replace (z =? 0) with false by (symmetry; apply Z.eqb_neq; lia) end.
  cbn [orb]. unfold App.decode_tail. cbn [map]. by rewrite !b64_find_at.
Qed.

Lemma decode_encode_go s :
  let e := App.base64_encode s in
  App.decode_go junk (Z.of_nat (length e)) [] e = s.
Proof.
  induction s as [|a|a b|a b c s IH] using list3_ind; cbv zeta in *.
  - done.
  - destruct (enc_range a a a) as (? & _), (enc_range0 a a) as (? & _).
    change (App.base64_encode [a]) with
      (b64_at (enc0 (code a)) :: b64_at (enc1 (code a) 0) :: "="%char :: ["="%char]).
    rewrite decode_go_two by done.
    by rewrite dec0_enc, chr_code by (lia || apply code_range).
  - destruct (enc_range a b b) as (? & ? & _), (enc_range0 a b) as (_ & ?).
    change (App.base64_encode [a; b]) with
      (b64_at (enc0 (code a)) :: b64_at (enc1 (code a) (code b))
       :: b64_at (enc2 (code b) 0) :: "="%char :: []).
    rewrite decode_go_three by done.
    by rewrite dec0_enc, dec1_enc, !chr_code by (lia || apply code_range).
  - destruct (enc_range a b c) as (? & ? & ? & ?).
    change (App.base64_encode (a :: b :: c :: s)) with
      (b64_at (enc0 (code a)) :: b64_at (enc1 (code a) (code b))
       :: b64_at (enc2 (code b) (code c)) :: b64_at (enc3 (code c)) :: App.base64_encode s).
    rewrite decode_go_quad, IH by done.
    by rewrite dec0_enc, dec1_enc, dec2_enc, !chr_code by apply code_range.
Qed.
End DecodeStep.

Lemma to_int32_small z : 0 <= z < 2147483648 -> App.to_int32 z = z.
Proof.
  intros Hz. unfold App.to_int32. rewrite Z.mod_small by lia.
  assert ((z <? 2147483648) = true) as -> by (apply Z.ltb_lt; lia). done.
Qed.

(** C36: the image data of a request survives encoding and decoding: decoding
    with [base64_decode] what [base64_encode] produced returns the original
    bytes, for every byte string whose encoding has fewer than 2^31 characters
    (the length is kept in an [int]), whatever the uninitialised entries of
    the decoder's group buffer hold. *)
Theorem base64_roundtrip junk s :
  Z.of_nat (length (App.base64_encode s)) < 2147483648 ->
  App.base64_decode_junk junk (App.base64_encode s) = s.
Proof.
  intros H. unfold App.base64_decode_junk. rewrite to_int32_small by lia.
  apply decode_encode_go.
Qed.
Example base64_roundtrip_witness :
  App.base64_encode #"Hi!x" = #"SGkheA==" /\
  App.base64_decode_junk (7, 9) (App.base64_encode #"Hi!x") = #"Hi!x".
Proof.
  split; [vm_compute; reflexivity | apply base64_roundtrip; vm_compute; reflexivity].
Defined.

(** ** The two encoders and the reference agree *)

Lemma land_schar c m : In m [3; 15; 63; 192; 240; 252] -> Z.land (schar c) m = Z.land (code c) m.
Proof.
  intros Hm. repeat (destruct Hm as [<-|Hm]; [by byte_cases c|]). done.
Qed.
Lemma enc_schar a b c :
  enc0 (schar a) = enc0 (code a) /\ enc1 (schar a) (schar b) = enc1 (code a) (code b) /\
  enc2 (schar b) (schar c) = enc2 (code b) (code c) /\ enc3 (schar c) = enc3 (code c).
Proof.
  unfold enc0, enc1, enc2, enc3. rewrite !land_schar by (cbn; tauto). done.
Qed.

Lemma encode_groups_spec s :
  Webcc.Encode s = App.base64_encode s.
Proof.
  induction s as [|a|a b|a b c s IH] using list3_ind.
  - done.
  - change (App.base64_encode [a]) with
      [b64_at (enc0 (code a)); b64_at (enc1 (code a) 0); "="%char; "="%char].
    change (Webcc.Encode [a]) with
      [b64_at (enc0 (schar a)); b64_at (Z.shiftl (Z.land (schar a) 3) 4); "="%char; "="%char].
    destruct (enc_schar a a a) as (-> & _). unfold enc1.
    rewrite land_schar by (cbn; tauto). by rewrite Z.add_0_r.
  - change (App.base64_encode [a; b]) with
      [b64_at (enc0 (code a)); b64_at (enc1 (code a) (code b)); b64_at (enc2 (code b) 0); "="%char].
    change (Webcc.Encode [a; b]) with
      [b64_at (enc0 (schar a)); b64_at (enc1 (schar a) (schar b));
       b64_at (Z.shiftl (Z.land (schar b) 15) 2); "="%char].
    destruct (enc_schar a b b) as (-> & -> & _). unfold enc2.
    rewrite land_schar by (cbn; tauto). by rewrite Z.add_0_r.
  - change (App.base64_encode (a :: b :: c :: s)) with
      (b64_at (enc0 (code a)) :: b64_at (enc1 (code a) (code b))
       :: b64_at (enc2 (code b) (code c)) :: b64_at (enc3 (code c)) :: App.base64_encode s).
    rewrite <- IH. unfold Webcc.Encode.
    assert (length (a :: b :: c :: s) / 3 = S (length s / 3))%nat as ->.
    { cbn [length]. change (S (S (S (length s)))) with (3 + length s)%nat.
      replace (3 + length s)%nat with (length s + 1 * 3)%nat by lia.
      rewrite Nat.div_add by lia. lia. }
    cbn [Webcc.encode_groups]. destruct (Webcc.encode_groups (length s / 3) s) as [out rest].
    destruct (enc_schar a b c) as (-> & -> & -> & ->).
    destruct rest as [|x [|y [|z rest]]]; reflexivity.
Qed.

(** *** Against the bit-level specification *)

Lemma bits_val_app l1 l2 :
  Spec.bits_val (l1 ++ l2) = Spec.bits_val l1 * 2 ^ Z.of_nat (length l2) + Spec.bits_val l2.
Proof.
  unfold Spec.bits_val. rewrite fold_left_app.
  generalize (fold_left (fun acc (b : bool) => 2 * acc + (if b then 1 else 0)) l1 0).
  assert (forall z, fold_left (fun acc (b : bool) => 2 * acc + (if b then 1 else 0)) l2 z =
    z * 2 ^ Z.of_nat (length l2) +
    fold_left (fun acc (b : bool) => 2 * acc + (if b then 1 else 0)) l2 0) as H; [|apply H].
  induction l2 as [|b l2 IH]; intros z.
  - cbn. lia.
  - cbn [fold_left length]. rewrite IH, (IH (2 * 0 + _)), Nat2Z.inj_succ, Z.pow_succ_r by lia.
    ring.
Qed.

Lemma byte_bits_parts c :
  exists h2 m2 m2' l2,
    Spec.byte_bits c = h2 ++ m2 ++ m2' ++ l2 /\
    length h2 = 2%nat /\ length m2 = 2%nat /\ length m2' = 2%nat /\ length l2 = 2%nat /\
    Spec.bits_val (h2 ++ m2 ++ m2') = code c / 4 /\ Spec.bits_val l2 = code c mod 4 /\
    Spec.bits_val (h2 ++ m2) = code c / 16 /\ Spec.bits_val (m2' ++ l2) = code c mod 16 /\
    Spec.bits_val h2 = code c / 64 /\ Spec.bits_val (m2 ++ m2' ++ l2) = code c mod 64.
Proof.
  destruct c as [b0 b1 b2 b3 b4 b5 b6 b7].
  exists [b7; b6], [b5; b4], [b3; b2], [b1; b0]. split; [done|].
  destruct b0, b1, b2, b3, b4, b5, b6, b7; vm_compute; repeat split.
Qed.

Lemma sextets_six fuel l t :
  length l = 6%nat -> Spec.sextets (S fuel) (l ++ t) = Spec.bits_val l :: Spec.sextets fuel t.
Proof.
  intros Hl. do 7 (destruct l as [|? l]; try discriminate Hl). reflexivity.
Qed.

Lemma sextets_fuel f f' l :
  (length l <= f)%nat -> (length l <= f')%nat -> Spec.sextets f l = Spec.sextets f' l.
Proof.
  revert f' l; induction f as [|f IH]; intros [|f'] [|b l] H H'; simpl in H, H'; try lia; try done.
  cbn [Spec.sextets]. f_equal. apply IH; rewrite length_drop; simpl; lia.
Qed.

Lemma byte_bits_length c : length (Spec.byte_bits c) = 8%nat.
Proof. by destruct c. Qed.

(** The sextets of three bytes are the four values the encoders compute. *)
Lemma sextets_three fuel a b c t :
  Spec.sextets (4 + fuel)
    (Spec.byte_bits a ++ Spec.byte_bits b ++ Spec.byte_bits c ++ t) =
  enc0 (code a) :: enc1 (code a) (code b) :: enc2 (code b) (code c) :: enc3 (code c)
  :: Spec.sextets fuel t.
Proof.
  pose proof (code_range a); pose proof (code_range b); pose proof (code_range c).
  rewrite enc0_div, enc1_arith, enc2_arith, enc3_mod by done.
  destruct (byte_bits_parts a) as (a1 & a2 & a3 & a4 & -> & La1 & La2 & La3 & La4 & <- & <- & _).
  destruct (byte_bits_parts b)
    as (b1 & b2 & b3 & b4 & -> & Lb1 & Lb2 & Lb3 & Lb4 & _ & _ & <- & <- & _).
  destruct (byte_bits_parts c)
    as (c1 & c2 & c3 & c4 & -> & Lc1 & Lc2 & Lc3 & Lc4 & _ & _ & _ & _ & <- & <-).
  replace (Spec.bits_val a4 * 16) with (Spec.bits_val a4 * 2 ^ Z.of_nat (length (b1 ++ b2)))
    by (rewrite length_app, Lb1, Lb2; done).
  replace (Spec.bits_val (b3 ++ b4) * 4) with (Spec.bits_val (b3 ++ b4) * 2 ^ Z.of_nat (length c1))
    by (rewrite Lc1; done).
  rewrite <- !bits_val_app.
  replace ((a1 ++ a2 ++ a3 ++ a4) ++ (b1 ++ b2 ++ b3 ++ b4) ++ (c1 ++ c2 ++ c3 ++ c4) ++ t)
    with ((a1 ++ a2 ++ a3) ++ (a4 ++ b1 ++ b2) ++ ((b3 ++ b4) ++ c1) ++ (c2 ++ c3 ++ c4) ++ t)
    by (rewrite <- !app_assoc; done).
  change (4 + fuel)%nat with (S (S (S (S fuel)))).
  rewrite !sextets_six by (rewrite ?length_app; lia). done.
Qed.

Lemma spec_encode_three a b c s :
  Spec.encode (a :: b :: c :: s) =
  b64_at (enc0 (code a)) :: b64_at (enc1 (code a) (code b))
  :: b64_at (enc2 (code b) (code c)) :: b64_at (enc3 (code c)) :: Spec.encode s.
Proof.
  unfold Spec.encode. cbn [map concat].
  assert (Spec.padding (length (a :: b :: c :: s)) = Spec.padding (length s)) as ->.
  { unfold Spec.padding. cbn [length]. change (S (S (S (length s)))) with (3 + length s)%nat.
    replace (3 + length s)%nat with (length s + 1 * 3)%nat by lia. by rewrite Nat.Div0.mod_add. }
  set (bits := concat (map Spec.byte_bits s)).
  rewrite !length_app, !byte_bits_length.
  replace (8 + (8 + (8 + length bits)))%nat with (4 + (20 + length bits))%nat by lia.
  rewrite sextets_three.
  rewrite (sextets_fuel (20 + length bits) (length bits)) by lia. done.
Qed.

Lemma spec_encode_two a b :
  Spec.encode [a; b] =
  [b64_at (enc0 (code a)); b64_at (enc1 (code a) (code b)); b64_at (enc2 (code b) 0); "="%char].
Proof.
  pose proof (code_range a); pose proof (code_range b).
  rewrite enc0_div, enc1_arith, enc2_arith by lia. unfold Spec.encode. cbn [map concat].
  destruct (byte_bits_parts a) as (a1 & a2 & a3 & a4 & -> & La1 & La2 & La3 & La4 & <- & <- & _).
  destruct (byte_bits_parts b)
    as (b1 & b2 & b3 & b4 & -> & Lb1 & Lb2 & Lb3 & Lb4 & _ & _ & <- & <- & _).
  rewrite app_nil_r.
  replace (Spec.bits_val a4 * 16) with (Spec.bits_val a4 * 2 ^ Z.of_nat (length (b1 ++ b2)))
    by (rewrite length_app, Lb1, Lb2; done).
  replace (Spec.bits_val (b3 ++ b4) * 4 + 0 / 64) with (Spec.bits_val ((b3 ++ b4) ++ [false; false]))
    by (rewrite (bits_val_app (b3 ++ b4)); change (Spec.bits_val [false; false]) with 0;
        change (2 ^ Z.of_nat (length [false; false])) with 4; change (0 / 64) with 0; lia).
  rewrite <- !bits_val_app.
  do 3 (destruct a1 as [|? a1]; try discriminate La1); do 3 (destruct a2 as [|? a2]; try discriminate La2);
  do 3 (destruct a3 as [|? a3]; try discriminate La3); do 3 (destruct a4 as [|? a4]; try discriminate La4);
  do 3 (destruct b1 as [|? b1]; try discriminate Lb1); do 3 (destruct b2 as [|? b2]; try discriminate Lb2);
  do 3 (destruct b3 as [|? b3]; try discriminate Lb3); do 3 (destruct b4 as [|? b4]; try discriminate Lb4).
  reflexivity.
Qed.

Lemma app_encode_spec s : App.base64_encode s = Spec.encode s.
Proof.
  induction s as [|a|a b|a b c s IH] using list3_ind.
  - done.
  - byte_cases a; reflexivity.
  - by rewrite spec_encode_two.
  - rewrite spec_encode_three, <- IH. reflexivity.
Qed.

(** C37: both encoders of the repository compute the RFC 4648 encoding: on every
    byte string [base64_encode] and [webcc]'s [Base64Encode] (which reads
    signed characters) return the reference encoding, which regroups the bits
    of the input by six and pads with ['=']. *)
Theorem base64_encoders_correct s :
  App.base64_encode s = Spec.encode s /\ Webcc.Base64Encode s = Spec.encode s.
Proof.
  unfold Webcc.Base64Encode. by rewrite encode_groups_spec, app_encode_spec.
Qed.

(** ** The two decoders agree; the size of the decoding buffer *)

(** One character further: the induction hypothesis at the buffer [l]. *)
Ltac decode_step IH s l :=
  specialize (IH l); cbn [map app] in *;
  rewrite <- IH by (cbn [length]; first [lia | decompose_Forall; auto]);
  by destruct (Webcc.decode_go _ s).

(** The decoders stop at the same place with the same group. *)
Lemma decode_go_equiv junk (s : str) (buf : str) :
  (length buf <= 3)%nat -> Forall (fun c => App.is_base64 c = true) buf ->
  fst (Webcc.decode_go (map App.b64_find buf) s) =
  App.decode_go junk (Z.of_nat (length s)) buf s.
Proof.
  assert (forall buf : str, (length buf <= 3)%nat ->
    Webcc.decode_tail (map App.b64_find buf) = App.decode_tail junk buf) as Htail.
  { intros [|? [|? [|? [|? ?]]]] Hl; simpl in Hl; try lia; reflexivity. }
  revert buf; induction s as [|x s IH]; intros buf Hl Hb; cbn [Webcc.decode_go App.decode_go].
  { by rewrite <- Htail. }
  replace (Z.of_nat (length (x :: s)) =? 0) with false by (symmetry; apply Z.eqb_neq; simpl; lia).
  rewrite orb_false_l. destruct (ceqb x "="); [by rewrite <- Htail|]. cbn [orb].
  rewrite inverse_spec. destruct (App.is_base64 x) eqn:Hx; cbn [negb]; [|by rewrite <- Htail].
  pose proof (b64_find_range x Hx).
  replace (App.b64_find x =? -1) with false by (symmetry; apply Z.eqb_neq; lia).
  replace (Z.of_nat (length (x :: s)) - 1) with (Z.of_nat (length s)) by (simpl; lia).
  destruct buf as [|a [|b [|c [|d buf]]]]; simpl in Hl; try lia.
  - decode_step IH s [x].
  - decode_step IH s [a; x].
  - decode_step IH s [a; b; x].
  - decode_step IH s (@nil ascii).
Qed.

(** The same for the length of the output. *)
Ltac decode_len IH :=
  match goal with |- context [Webcc.decode_go ?l ?s] =>
    specialize (IH l); destruct (Webcc.decode_go l s); cbn [fst length app] in *; lia end.
Ltac decode_len_eq IH :=
  match goal with |- context [Webcc.decode_go ?l ?s] =>
    specialize (IH l); destruct (Webcc.decode_go l s); cbn [fst length app] in *;
    rewrite IH by (try lia; done); repeat (f_equal; try lia) end.

Lemma decode_go_length buf s :
  (length buf <= 3)%nat ->
  4 * Z.of_nat (length (fst (Webcc.decode_go buf s))) <=
  3 * Z.of_nat (length s + length buf).
Proof.
  assert (forall buf : list Z, (length buf <= 3)%nat ->
    4 * Z.of_nat (length (Webcc.decode_tail buf)) <= 3 * Z.of_nat (length buf)) as Htail.
  { intros [|? [|? [|? [|? ?]]]] Hl; simpl in *; lia. }
  revert buf; induction s as [|x s IH]; intros buf Hl; cbn [Webcc.decode_go].
  { cbn [fst]. specialize (Htail buf Hl). cbn [length]. lia. }
  destruct (ceqb x "="); [cbn [fst]; specialize (Htail buf Hl); cbn [length]; lia|].
  destruct (Webcc.inverse x =? -1); [cbn [fst]; specialize (Htail buf Hl); cbn [length]; lia|].
  destruct buf as [|a [|b [|c [|d buf]]]]; simpl in Hl; try lia.
  1-3: solve [decode_len IH].
  specialize (IH []). destruct (Webcc.decode_go [] s). cbn [fst length] in *. lia.
Qed.

(** Exact length of what [Decode] writes on characters of the alphabet. *)
Lemma decode_go_exact buf s :
  (length buf <= 3)%nat -> Forall (fun c => App.is_base64 c = true) s ->
  Z.of_nat (length (fst (Webcc.decode_go buf s))) =
  3 * Z.of_nat ((length s + length buf) / 4) +
  Z.max 0 (Z.of_nat ((length s + length buf) mod 4) - 1).
Proof.
  revert buf; induction s as [|x s IH]; intros buf Hl Hs; cbn [Webcc.decode_go].
  { destruct buf as [|? [|? [|? [|? ?]]]]; simpl in Hl; try lia; reflexivity. }
  apply Forall_cons in Hs as [Hx Hs].
  assert (ceqb x "=" = false) as -> by (revert Hx; byte_cases x; vm_compute; congruence).
  rewrite inverse_spec, Hx. pose proof (b64_find_range x Hx).
  replace (App.b64_find x =? -1) with false by (symmetry; apply Z.eqb_neq; lia).
  destruct buf as [|a [|b [|c [|d buf]]]]; simpl in Hl; try lia.
  1-3: solve [decode_len_eq IH].
  specialize (IH []). destruct (Webcc.decode_go [] s). cbn [fst length] in *.
  rewrite !Nat2Z.inj_succ, IH by (try lia; done). rewrite Nat.add_0_r.
  replace (S (length s) + 3)%nat with (length s + 1 * 4)%nat by lia.
  rewrite Nat.div_add, Nat.Div0.mod_add by lia. lia.
Qed.

(** [Base64Decode] of [webcc] stays inside the buffer it sizes with
    [DecodedSize], and returns what the application's [base64_decode] returns,
    whenever the input length is a multiple of four (and fits an [int]). *)
Theorem webcc_decode_in_bounds s :
  (length s mod 4 = 0)%nat -> Z.of_nat (length s) < 2147483648 ->
  Webcc.Base64Decode s = Some (App.base64_decode s).
Proof.
  intros H4 Hl. unfold Webcc.Base64Decode, Webcc.Decode, Webcc.DecodedSize.
  pose proof (decode_go_length [] s ltac:(simpl; lia)) as Hb. rewrite Nat.add_0_r in Hb.
  assert (Z.of_nat (length s) mod 4 = 0) as Hz.
  { change 4 with (Z.of_nat 4). rewrite <- Nat2Z.inj_mod, H4. done. }
  match goal with |- (if ?b then _ else _) = _ => replace b with true end;
    [|symmetry; apply Z.leb_le; dlia].
  unfold App.base64_decode, App.base64_decode_junk. rewrite to_int32_small by lia.
  by rewrite <- (decode_go_equiv (0, 0) s []) by (simpl; auto; lia).
Qed.
Example webcc_decode_in_bounds_witness :
  Webcc.Base64Decode #"SGkheA==" = Some #"Hi!x".
Proof.
  assert (Some #"Hi!x" = Some (App.base64_decode #"SGkheA==")) as -> by (vm_compute; reflexivity).
  apply webcc_decode_in_bounds; [vm_compute; reflexivity | vm_compute; reflexivity].
Defined.

(** unpadded base64 overruns the decoding buffer of [webcc]: on every text
    of alphabet characters whose length is 2 or 3 modulo 4, [Decode] writes
    more bytes than [DecodedSize] reserved (one or two more), so
    [Base64Decode] writes past the end of its string. *)
Theorem webcc_decode_overrun s :
  Forall (fun c => App.is_base64 c = true) s -> (2 <= length s mod 4)%nat ->
  Webcc.Base64Decode s = None /\
  Z.of_nat (length (fst (Webcc.Decode s))) =
    Webcc.DecodedSize (Z.of_nat (length s)) + Z.of_nat (length s mod 4) - 1.
Proof.
  intros Hs H2. pose proof (decode_go_exact [] s ltac:(simpl; lia) Hs) as E.
  rewrite Nat.add_0_r in E. unfold Webcc.Base64Decode, Webcc.Decode, Webcc.DecodedSize.
  rewrite Nat2Z.inj_div in E. change (Z.of_nat 4) with 4 in E.
  split; [|rewrite E; lia].
  match goal with |- (if ?b then _ else _) = _ => replace b with false; [done|] end.
  symmetry. apply Z.leb_gt. rewrite E. lia.
Qed.
Example webcc_decode_overrun_witness :
  Webcc.Base64Decode #"SGk" = None /\ length (fst (Webcc.Decode #"SGk")) = 2%nat.
Proof.
  split; [|vm_compute; reflexivity].
  apply webcc_decode_overrun; [repeat constructor | vm_compute; repeat constructor].
Defined.
