(* ===== verification/Url.v ===== *)
(** * URLs: percent encoding, query parameters, the URL splitter

    Models [webcc/url.h] and [webcc/url.cc]. *)
From Stdlib Require Import Ascii String.
From stdpp Require Import base tactics list numbers option strings.
From S2P Require Import Prelude.

(** ** Percent encoding *)

(** [HexToDecimal]: comparisons of a signed [char]; [None] for [false]. *)
Definition HexToDecimal (hex : ascii) : option Z :=
  let h := schar hex in
  if ((48 <=? h) && (h <=? 57))%Z then Some (h - 48)%Z
  else if ((65 <=? h) && (h <=? 70))%Z then Some (10 + (h - 65))%Z
  else if ((97 <=? h) && (h <=? 102))%Z then Some (10 + (h - 97))%Z
  else None.

(** [Decode(encoded, raw)]: [raw] is the accumulated output. *)
Fixpoint Decode_go (encoded raw : str) : option str :=
  match encoded with
  | [] => Some raw
  | c :: rest =>
      if ceqb c "%" then
        match rest with
        | [] => None
        | h :: rest' =>
            match HexToDecimal h with
            | None => None
            | Some h_decimal =>
                match rest' with
                | [] => None
                | l :: rest'' =>
                    match HexToDecimal l with
                    | None => None
                    | Some l_decimal =>
                        Decode_go rest'' (raw ++ [chr (Z.shiftl h_decimal 4 + l_decimal)])
                    end
                end
            end
        end
      else if ((127 <? schar c) || (schar c <? 0))%Z then None
      else Decode_go rest (raw ++ [c])
  end.
Definition Decode (encoded : str) : option str := Decode_go encoded [].

Definition hex_digit (i : Z) : ascii := nth (Z.to_nat i) #"0123456789ABCDEF" "000"%char.

Fixpoint EncodeImpl (raw : str) (should_encode : Z -> bool) : str :=
  match raw with
  | [] => []
  | c :: raw' =>
      let ch := code c in
      if should_encode ch then
        "%"%char :: hex_digit (Z.land (Z.shiftr ch 4) 15) :: hex_digit (Z.land ch 15)
        :: EncodeImpl raw' should_encode
      else chr ch :: EncodeImpl raw' should_encode
  end.

Definition IsAlphaNumeric (c : Z) : bool :=
  ((48 <=? c) && (c <=? 57) || (65 <=? c) && (c <=? 90) || (97 <=? c) && (c <=? 122))%Z.
(** The characters ['-'], ['.'], ['_'], ['~']; the cast to [char] is [schar]. *)
Definition IsUnreserved (c : Z) : bool :=
  IsAlphaNumeric (schar (chr c)) || (c =? 45)%Z || (c =? 46)%Z || (c =? 95)%Z || (c =? 126)%Z.
Definition SubDelimiter (c : Z) : bool :=
  existsb (Z.eqb c) (map code #"!$&'()*+,;=").
Definition IsPathChar (c : Z) : bool :=
  IsUnreserved c || SubDelimiter c || (c =? 37)%Z || (c =? 47)%Z || (c =? 58)%Z || (c =? 64)%Z.
Definition IsQueryChar (c : Z) : bool := IsPathChar c || (c =? 63)%Z.

Definition EncodeQuery (query : str) : str :=
  EncodeImpl query (fun c => negb (IsQueryChar c) || (c =? 37)%Z || (c =? 43)%Z).

Definition SplitKeyValue (kv : str) : option (str * str) :=
  match find_chr "=" kv with
  | None | Some 0 => None
  | Some i => Some (substr kv 0 i, drop (i + 1) kv)
  end.

(** ** [class UrlQuery] *)
Definition Parameter_t : Type := str * str.
Record UrlQuery := mkUrlQuery { parameters_ : list Parameter_t }.

Module Query.
(** [Find]: the first parameter with the key. *)
Fixpoint Find (ps : list Parameter_t) (key : str) : option Parameter_t :=
  match ps with
  | [] => None
  | p :: ps' => if seqb (fst p) key then Some p else Find ps' key
  end.
Definition Has (q : UrlQuery) (key : str) : bool :=
  match Find (parameters_ q) key with Some _ => true | None => false end.
Definition IsEmpty (q : UrlQuery) : bool :=
  match parameters_ q with [] => true | _ => false end.
Definition Add (q : UrlQuery) (key value : str) : UrlQuery :=
  if negb (Has q key) then mkUrlQuery (parameters_ q ++ [(key, value)]) else q.
Fixpoint erase_first (ps : list Parameter_t) (key : str) : list Parameter_t :=
  match ps with
  | [] => []
  | p :: ps' => if seqb (fst p) key then ps' else p :: erase_first ps' key
  end.
Definition Remove (q : UrlQuery) (key : str) : UrlQuery :=
  mkUrlQuery (erase_first (parameters_ q) key).
Definition Get (q : UrlQuery) (key : str) : str :=
  match Find (parameters_ q) key with Some p => snd p | None => [] end.

(** The body of the constructor's loop, for one [kv] piece. *)
Definition add_kv (q : UrlQuery) (kv : str) : UrlQuery :=
  match SplitKeyValue kv with Some (k, v) => Add q k v | None => q end.
(** The loop on the index [i]; [fuel] bounds the iterations, one per ['&'] and
    one more. *)
Fixpoint parse_loop (fuel : nat) (s : str) (i : nat) (q : UrlQuery) : UrlQuery :=
  match fuel with
  | 0 => q
  | S fuel' =>
      match find_from ["&"%char] s i with
      | None => add_kv q (drop i s)
      | Some j => parse_loop fuel' s (j + 1) (add_kv q (substr s i (j - i)))
      end
  end.
Definition parse (s : str) : UrlQuery :=
  match s with
  | [] => mkUrlQuery []
  | _ => parse_loop (S (length s)) s 0 (mkUrlQuery [])
  end.

Definition kv_string (p : Parameter_t) : str := fst p ++ #"=" ++ snd p.
Definition ToString (q : UrlQuery) : str :=
  match parameters_ q with
  | [] => []
  | p :: ps =>
      EncodeQuery (fold_left (fun acc p => (acc ++ #"&") ++ kv_string p) ps (kv_string p))
  end.
End Query.

(** ** [class Url] *)
Record Url := mkUrl {
  scheme_ : str;
  host_ : str;
  port_ : str;
  path_ : str;
  query_ : str
}.
Definition Url_empty : Url := mkUrl [] [] [] [] [].
Definition Url_Clear (u : Url) : Url := Url_empty.

(** [Url::Parse]: the members it does not assign keep their values. *)
Definition Url_Parse (u : Url) (s : str) : Url :=
  let tmp := trim_left s in
  let '(scheme, tmp) :=
    match find_str #"://" tmp with
    | Some pos => (substr tmp 0 pos, drop (pos + 3) tmp)
    | None => (scheme_ u, tmp)
    end in
  let '(host, path, query) :=
    match find_chr "/" tmp with
    | Some pos =>
        let host := substr tmp 0 pos in
        let tmp := drop (pos + 1) tmp in
        match find_chr "?" tmp with
        | Some pos => (host, substr tmp 0 pos, drop (pos + 1) tmp)
        | None => (host, tmp, query_ u)
        end
    | None =>
        match find_chr "?" tmp with
        | Some pos => (substr tmp 0 pos, [], drop (pos + 1) tmp)
        | None => (tmp, [], query_ u)
        end
    end in
  match find_chr ":" host with
  | Some pos => mkUrl scheme (substr host 0 pos) (drop (pos + 1) host) path query
  | None => mkUrl scheme host (port_ u) path query
  end.

Definition Url_Init (u : Url) (s : str) (decode clear : bool) : Url :=
  let u := if clear then Url_Clear u else u in
  if negb decode || match find_chr "%" s with None => true | Some _ => false end
  then Url_Parse u s
  else match Decode s with
       | Some decoded => Url_Parse u decoded
       | None => Url_Parse u s
       end.
Definition Url_make (s : str) (decode : bool) : Url := Url_Init Url_empty s decode true.

Definition Url_AddQuery (u : Url) (key value : str) : Url :=
  let q := match query_ u with [] => [] | q => q ++ #"&" end in
  mkUrl (scheme_ u) (host_ u) (port_ u) (path_ u) (q ++ key ++ #"=" ++ value).

(** ** Percent encoding round trip *)

Lemma Decode_go_acc s raw :
  Decode_go s raw = option_map (app raw) (Decode_go s []).
Proof.
  remember (length s) as n eqn:Hn. revert s raw Hn.
  induction n as [n IH] using lt_wf_ind. intros [|c s] raw ->; cbn [Decode_go].
  { simpl. by rewrite app_nil_r. }
  destruct (ceqb c "%").
  - destruct s as [|h s]; [done|]. destruct (HexToDecimal h) as [hd|]; [|done].
    destruct s as [|l s]; [done|]. destruct (HexToDecimal l) as [ld|]; [|done].
    rewrite (IH (length s)) by (simpl; lia). rewrite (IH (length s) ltac:(simpl; lia) s ([] ++ _)) by done.
    destruct (Decode_go s []); simpl; [by rewrite <- app_assoc|done].
  - destruct ((127 <? schar c) || (schar c <? 0))%Z; [done|].
    rewrite (IH (length s)) by (simpl; lia). rewrite (IH (length s) ltac:(simpl; lia) s ([] ++ _)) by done.
    destruct (Decode_go s []); simpl; [by rewrite <- app_assoc|done].
Qed.

(** One encoded character is read back as the byte it stands for. *)
Lemma Decode_encoded c t :
  Decode ("%"%char :: hex_digit (Z.land (Z.shiftr (code c) 4) 15)
          :: hex_digit (Z.land (code c) 15) :: t) = option_map (cons c) (Decode t).
Proof.
  change (option_map (cons c) (Decode t)) with (option_map (app [c]) (Decode_go t [])).
  unfold Decode. rewrite <- (Decode_go_acc t [c]). byte_cases c; reflexivity.
Qed.
Lemma Decode_literal c t :
  (code c <? 128)%Z = true -> ceqb c "%" = false ->
  Decode (c :: t) = option_map (cons c) (Decode t).
Proof.
  intros Hc Hp.
  change (option_map (cons c) (Decode t)) with (option_map (app [c]) (Decode_go t [])).
  unfold Decode. rewrite <- (Decode_go_acc t [c]). cbn [Decode_go]. rewrite Hp.
  replace ((127 <? schar c) || (schar c <? 0))%Z with false; [done|].
  revert Hc. byte_cases c; vm_compute; congruence.
Qed.

Lemma query_char_ascii c : IsQueryChar (code c) = true -> (code c <? 128)%Z = true.
Proof. byte_cases c; vm_compute; congruence. Qed.

(** C40: percent encoding of a query is lossless: for every byte string,
    [Decode] of [EncodeQuery] succeeds and gives the string back. *)
Theorem query_encoding_roundtrip s : Decode (EncodeQuery s) = Some s.
Proof.
  induction s as [|c s IH]; [done|]. unfold EncodeQuery. cbn [EncodeImpl].
  fold (EncodeQuery s).
  destruct (negb (IsQueryChar (code c)) || (code c =? 37)%Z || (code c =? 43)%Z) eqn:E.
  - by rewrite Decode_encoded, IH.
  - bsimpl. rewrite chr_code, Decode_literal, IH; [done| |].
    + by apply query_char_ascii.
    + revert H1. byte_cases c; vm_compute; congruence.
Qed.

(** The encoded form contains neither a space nor a control or 8-bit byte. *)
Lemma EncodeQuery_graphic s : Forall (fun c => (33 <=? code c)%Z && (code c <? 127)%Z = true) (EncodeQuery s).
Proof.
  induction s as [|c s IH]; [constructor|]. unfold EncodeQuery. cbn [EncodeImpl]. fold (EncodeQuery s).
  destruct (negb (IsQueryChar (code c)) || (code c =? 37)%Z || (code c =? 43)%Z) eqn:E.
  - repeat (apply Forall_cons; split; [|try exact IH]); byte_cases c; reflexivity.
  - bsimpl. apply Forall_cons; split; [|exact IH]. rewrite chr_code.
    revert H. byte_cases c; vm_compute; congruence.
Qed.

(** ** Query parameters *)

Definition keys (q : UrlQuery) : list str := map fst (parameters_ q).

Lemma Find_Some ps k p : Query.Find ps k = Some p -> p ∈ ps /\ fst p = k.
Proof.
  induction ps as [|p' ps IH]; simpl; [done|]. destruct (seqb (fst p') k) eqn:E.
  - intros [= ->]. apply seqb_eq in E. split; [apply elem_of_cons; auto|done].
  - intros H. destruct (IH H). split; [apply elem_of_cons; auto|done].
Qed.
Lemma Find_None ps k : Query.Find ps k = None <-> k ∉ map fst ps.
Proof.
  induction ps as [|p' ps IH]; simpl; [split; [by intros _ ?%elem_of_nil|done]|].
  rewrite not_elem_of_cons. destruct (seqb (fst p') k) eqn:E.
  - apply seqb_eq in E. naive_solver.
  - apply seqb_neq in E. naive_solver.
Qed.
Lemma Find_app ps ps' k :
  Query.Find (ps ++ ps') k =
  match Query.Find ps k with Some p => Some p | None => Query.Find ps' k end.
Proof. induction ps as [|p ps IH]; simpl; [done|]. by destruct (seqb (fst p) k). Qed.

Lemma Has_keys q k : Query.Has q k = true <-> k ∈ keys q.
Proof.
  unfold Query.Has, keys. destruct (Query.Find (parameters_ q) k) as [p|] eqn:E.
  - apply Find_Some in E as [E <-]. split; [|done]. intros _.
    apply list_elem_of_fmap. eauto.
  - apply Find_None in E. naive_solver.
Qed.

Lemma Add_NoDup q k v : NoDup (keys q) -> NoDup (keys (Query.Add q k v)).
Proof.
  intros H. unfold Query.Add. destruct (Query.Has q k) eqn:E; [done|]. simpl.
  unfold keys in *. simpl. rewrite map_app. apply NoDup_app. split_and!; [done| |apply NoDup_singleton].
  intros k' Hk' ->%list_elem_of_singleton. apply (Has_keys q) in Hk'. simpl in Hk'. congruence.
Qed.

Lemma erase_first_sublist ps k : sublist (map fst (Query.erase_first ps k)) (map fst ps).
Proof.
  induction ps as [|p ps IH]; simpl; [constructor|].
  destruct (seqb (fst p) k); simpl; [by constructor|by constructor].
Qed.
Lemma erase_first_keys ps k :
  NoDup (map fst ps) -> k ∉ map fst (Query.erase_first ps k).
Proof.
  induction ps as [|p ps IH]; simpl; [by intros _ ?%elem_of_nil|].
  intros [Hp Hps]%NoDup_cons. destruct (seqb (fst p) k) eqn:E; simpl.
  - apply seqb_eq in E as <-. done.
  - apply seqb_neq in E. rewrite not_elem_of_cons. auto.
Qed.

Lemma Remove_NoDup q k : NoDup (keys q) -> NoDup (keys (Query.Remove q k)).
Proof. intros H. eapply sublist_NoDup; [exact H|apply erase_first_sublist]. Qed.

(** *** The constructor's index loop is a split at ['&'] *)

Definition is_amp (c : ascii) : bool := ceqb c "&".

Lemma split_amp_None s : find_chr "&" s = None -> split_on is_amp false s = [s].
Proof.
  intros H%find_chr_None. unfold split_on. rewrite split_go_last; [done|].
  apply Forall_forall. intros x Hx. apply ceqb_neq. naive_solver.
Qed.
Lemma split_amp_Some s j :
  find_chr "&" s = Some j ->
  split_on is_amp false s = take j s :: split_on is_amp false (drop (S j) s).
Proof.
  intros (Hs & Hc & _)%find_chr_Some. rewrite Hs at 1. unfold split_on.
  rewrite split_go_fresh; [done| |done|done].
  apply Forall_forall. intros x Hx. apply ceqb_neq. naive_solver.
Qed.

Lemma parse_loop_split fuel s i q :
  length (drop i s) < fuel ->
  Query.parse_loop fuel s i q = fold_left Query.add_kv (split_on is_amp false (drop i s)) q.
Proof.
  revert i q; induction fuel as [|fuel IH]; intros i q Hf; [lia|]. cbn [Query.parse_loop].
  unfold find_from. destruct (find_str ["&"%char] (drop i s)) as [k|] eqn:F; cbn [option_map].
  - rewrite (split_amp_Some _ _ F). cbn [fold_left].
    pose proof (find_str_length _ _ _ F) as Hk. rewrite length_drop in Hk, Hf. cbn in Hk.
    rewrite IH by (rewrite length_drop; lia).
    rewrite drop_drop. unfold substr.
    replace (i + k + 1) with (i + S k) by lia. by replace (i + k - i) with k by lia.
  - by rewrite (split_amp_None _ F).
Qed.

Lemma parse_split s :
  Query.parse s = fold_left Query.add_kv (split_on is_amp false s) (mkUrlQuery []).
Proof.
  unfold Query.parse. destruct s as [|c s]; [done|].
  rewrite parse_loop_split; [by rewrite drop_0 | rewrite drop_0; lia].
Qed.

Lemma add_kv_NoDup q kv : NoDup (keys q) -> NoDup (keys (Query.add_kv q kv)).
Proof. unfold Query.add_kv. destruct (SplitKeyValue kv) as [[k v]|]; auto using Add_NoDup. Qed.
Lemma parse_NoDup s : NoDup (keys (Query.parse s)).
Proof.
  rewrite parse_split. assert (NoDup (keys (mkUrlQuery []))) as H by constructor.
  revert H. generalize (mkUrlQuery []). induction (split_on is_amp false s); simpl;
    auto using add_kv_NoDup.
Qed.

(** a [UrlQuery] never holds a key twice: the constructor builds distinct
    keys from any query string, [Add] and [Remove] keep them distinct, [Add]
    of a new key makes [Get] return its value and of a present key changes
    nothing, and after [Remove] the key is gone. *)
Theorem UrlQuery_keys_unique s q k v :
  NoDup (keys (Query.parse s)) /\
  (NoDup (keys q) ->
   NoDup (keys (Query.Add q k v)) /\ NoDup (keys (Query.Remove q k)) /\
   Query.Get (Query.Add q k v) k = (if Query.Has q k then Query.Get q k else v) /\
   Query.Has (Query.Add q k v) k = true /\ Query.Has (Query.Remove q k) k = false).
Proof.
  split; [apply parse_NoDup|]. intros H. split_and!.
  - by apply Add_NoDup.
  - by apply Remove_NoDup.
  - unfold Query.Add. destruct (Query.Has q k) eqn:E; [done|]. simpl.
    unfold Query.Get. simpl. unfold Query.Has in E. rewrite Find_app.
    destruct (Query.Find (parameters_ q) k); [done|]. simpl. by rewrite seqb_refl.
  - unfold Query.Add. destruct (Query.Has q k) eqn:E; [done|]. simpl.
    apply Has_keys. unfold keys. simpl. rewrite map_app. apply elem_of_app. right. by constructor.
  - destruct (Query.Has (Query.Remove q k) k) eqn:E; [|done].
    apply Has_keys in E. by destruct (erase_first_keys (parameters_ q) k H).
Qed.
Example UrlQuery_keys_unique_witness :
  Query.Get (Query.Add (Query.parse #"a=1&b=2&a=3") #"a" #"9") #"a" = #"1".
Proof.
  assert (NoDup (keys (Query.parse #"a=1&b=2&a=3"))) as H by apply parse_NoDup.
  destruct (UrlQuery_keys_unique #"a=1&b=2&a=3" (Query.parse #"a=1&b=2&a=3") #"a" #"9")
    as [_ Hq]. destruct (Hq H) as (_ & _ & E & _). rewrite E. vm_compute. reflexivity.
Defined.

(** *** Printing and parsing parameters *)

(** Parameters that [ToString] prints without ambiguity. *)
Definition printable (p : Parameter_t) : Prop :=
  fst p <> [] /\ "="%char ∉ fst p /\ "&"%char ∉ fst p /\ "&"%char ∉ snd p.

Lemma SplitKeyValue_kv p : printable p -> SplitKeyValue (Query.kv_string p) = Some p.
Proof.
  destruct p as [k v]. intros (Hk & He & _ & _). cbn [fst snd] in *.
  unfold SplitKeyValue, Query.kv_string. cbn [fst snd].
  change (k ++ #"=" ++ v) with (k ++ "="%char :: v).
  rewrite find_chr_fresh by done. destruct k as [|c k]; [done|].
  cbn [length]. change (S (length k)) with (length (c :: k)). unfold substr.
  rewrite drop_0, take_app_exact. do 2 f_equal.
  replace (length (c :: k) + 1) with (length ((c :: k) ++ ["="%char])) by (rewrite length_app; done).
  change ((c :: k) ++ "="%char :: v) with ((c :: k) ++ ["="%char] ++ v).
  by rewrite app_assoc, drop_app_exact.
Qed.

Lemma kv_string_no_amp p : printable p -> Forall (fun c => is_amp c = false) (Query.kv_string p).
Proof.
  intros (_ & _ & Hk & Hv). apply Forall_forall. intros c Hc. apply ceqb_neq. intros ->.
  unfold Query.kv_string in Hc. rewrite !elem_of_app in Hc.
  destruct Hc as [?|[Hc|?]]; [done| |done].
  by apply list_elem_of_singleton in Hc.
Qed.

Lemma join_acc ps acc :
  fold_left (fun acc p => (acc ++ #"&") ++ Query.kv_string p) ps acc =
  acc ++ concat (map (fun p => "&"%char :: Query.kv_string p) ps).
Proof.
  revert acc; induction ps as [|p ps IH]; intros acc; simpl; [by rewrite app_nil_r|].
  rewrite IH. by rewrite <- !app_assoc.
Qed.

Lemma split_join w ps :
  Forall (fun c => is_amp c = false) w -> Forall printable ps ->
  split_on is_amp false (w ++ concat (map (fun p => "&"%char :: Query.kv_string p) ps)) =
  w :: map Query.kv_string ps.
Proof.
  revert w; induction ps as [|p ps IH]; intros w Hw Hps; simpl.
  - rewrite app_nil_r. unfold split_on. by rewrite split_go_last.
  - apply Forall_cons in Hps as [Hp Hps]. unfold split_on in *.
    rewrite split_go_fresh by done. f_equal. apply IH; [by apply kv_string_no_amp|done].
Qed.

Lemma fold_add_kv ps q :
  Forall printable ps -> NoDup (keys q ++ map fst ps) ->
  fold_left Query.add_kv (map Query.kv_string ps) q = mkUrlQuery (parameters_ q ++ ps).
Proof.
  revert q; induction ps as [|p ps IH]; intros q Hps Hnd; simpl.
  { rewrite app_nil_r. by destruct q. }
  apply Forall_cons in Hps as [Hp Hps].
  unfold Query.add_kv at 2. rewrite SplitKeyValue_kv by done. destruct p as [k v].
  assert (Query.Has q k = false) as Hk.
  { destruct (Query.Has q k) eqn:E; [|done]. apply Has_keys in E.
    apply NoDup_app in Hnd as (_ & Hd & _). destruct (Hd k E). by left. }
  unfold Query.Add. rewrite Hk. simpl. rewrite IH; [|done|].
  - simpl. by rewrite <- app_assoc.
  - unfold keys. simpl. rewrite map_app, <- app_assoc. done.
Qed.

(** query parameters survive printing and parsing: when the keys are
    distinct, non-empty and without ['='] or ['&'] and no value contains
    ['&'], decoding [ToString] and parsing the result rebuilds the same
    parameter list. *)
Theorem UrlQuery_ToString_roundtrip q :
  NoDup (keys q) -> Forall printable (parameters_ q) ->
  exists s, Decode (Query.ToString q) = Some s /\ Query.parse s = q.
Proof.
  intros Hnd Hp. destruct q as [[|p ps]]; cbn [parameters_] in *; [by exists []|].
  unfold Query.ToString. cbn [parameters_]. rewrite join_acc.
  eexists. split; [apply query_encoding_roundtrip|].
  apply Forall_cons in Hp as [Hp Hps].
  rewrite parse_split, split_join by (done || by apply kv_string_no_amp).
  change (Query.kv_string p :: map Query.kv_string ps) with (map Query.kv_string (p :: ps)).
  rewrite fold_add_kv; [done| by apply Forall_cons | done].
Qed.
Example UrlQuery_ToString_roundtrip_witness :
  exists s, Decode (Query.ToString (mkUrlQuery [(#"a b", #"1=2"); (#"c", #"")])) = Some s /\
            Query.parse s = mkUrlQuery [(#"a b", #"1=2"); (#"c", #"")].
Proof.
  apply UrlQuery_ToString_roundtrip.
  - unfold keys. cbn [map fst parameters_]. decide_now.
  - repeat apply Forall_cons_2; try apply Forall_nil_2; unfold printable; cbn [fst snd];
      split_and!; decide_now.
Defined.

(** ** Splitting URLs *)

Lemma drop_while_nospace (s : str) :
  match s with [] => True | c :: _ => isspace c = false end -> trim_left s = s.
Proof. destruct s; [done|]. apply drop_while_head. Qed.

Lemma substr0_app s t : substr (s ++ t) 0 (length s) = s.
Proof. unfold substr. by rewrite drop_0, take_app_exact. Qed.
Lemma drop_after_1 (s : str) c t : drop (length s + 1) (s ++ c :: t) = t.
Proof.
  replace (length s + 1) with (length (s ++ [c])) by (rewrite length_app; done).
  change (s ++ c :: t) with (s ++ [c] ++ t). by rewrite app_assoc, drop_app_exact.
Qed.
Lemma drop_after_3 (s t : str) : drop (length s + 3) (s ++ #"://" ++ t) = t.
Proof.
  replace (length s + 3) with (length (s ++ #"://")) by (rewrite length_app; done).
  by rewrite app_assoc, drop_app_exact.
Qed.
Lemma nospace_head (s : str) c t :
  match s with [] => True | c :: _ => isspace c = false end -> isspace c = false ->
  match s ++ c :: t with [] => True | c :: _ => isspace c = false end.
Proof. by destruct s. Qed.

(** splitting an absolute URL recovers its parts: for
    [scheme://host:port/path?query] with no [':'] in the scheme, no ['/'] or
    [':'] in the host, no ['/'] in the port and no ['?'] in the path, [Url]
    stores exactly these five parts (percent decoding off). *)
Theorem Url_absolute_parts scheme host port path query :
  match scheme with [] => True | c :: _ => isspace c = false end ->
  ":"%char ∉ scheme -> "/"%char ∉ host -> ":"%char ∉ host -> "/"%char ∉ port ->
  "?"%char ∉ path ->
  Url_make (scheme ++ #"://" ++ host ++ #":" ++ port ++ #"/" ++ path ++ #"?" ++ query) false =
  mkUrl scheme host port path query.
Proof.
  intros Hsp Hsc Hh1 Hh2 Hp Hpa. unfold Url_make, Url_Init. cbn [negb orb].
  unfold Url_Parse. rewrite drop_while_nospace by (apply nospace_head; done).
  change #"://" with (":"%char :: #"//"). rewrite find_str_fresh by done.
  rewrite substr0_app. change (":"%char :: #"//") with #"://". rewrite drop_after_3.
  set (hp := host ++ #":" ++ port).
  replace (host ++ #":" ++ port ++ #"/" ++ path ++ #"?" ++ query)
    with (hp ++ "/"%char :: path ++ #"?" ++ query) by (unfold hp; rewrite <- !app_assoc; done).
  assert ("/"%char ∉ hp) as Hhp.
  { unfold hp. rewrite !not_elem_of_app. split_and!; [done| |done].
    intros H%list_elem_of_singleton. done. }
  rewrite find_chr_fresh by done. rewrite substr0_app, drop_after_1.
  change (path ++ #"?" ++ query) with (path ++ "?"%char :: query).
  rewrite find_chr_fresh by done. rewrite substr0_app, drop_after_1.
  unfold hp. change (host ++ #":" ++ port) with (host ++ ":"%char :: port).
  rewrite find_chr_fresh by done. by rewrite substr0_app, drop_after_1.
Qed.
Example Url_absolute_parts_witness :
  Url_make #"http://localhost:444/images?id=1/2" false =
  mkUrl #"http" #"localhost" #"444" #"images" #"id=1/2".
Proof.
  apply (Url_absolute_parts #"http" #"localhost" #"444" #"images" #"id=1/2");
    first [decide_now | reflexivity].
Defined.

(** The target of a request line, [/path?query]. *)
Lemma Url_target path query :
  find_str #"://" (path ++ #"?" ++ query) = None -> "?"%char ∉ path ->
  Url_make (#"/" ++ path ++ #"?" ++ query) false = mkUrl [] [] [] path query.
Proof.
  intros Hu Hp. unfold Url_make, Url_Init. cbn [negb orb].
  unfold Url_Parse. rewrite drop_while_nospace by done.
  assert (find_str #"://" (#"/" ++ path ++ #"?" ++ query) = None) as ->.
  { change (find_str #"://" (#"/" ++ path ++ #"?" ++ query)) with
      (option_map S (find_str #"://" (path ++ #"?" ++ query))). by rewrite Hu. }
  change (#"/" ++ path ++ #"?" ++ query) with ([] ++ "/"%char :: path ++ #"?" ++ query).
  rewrite find_chr_fresh by apply not_elem_of_nil. cbn [length].
  change (path ++ #"?" ++ query) with (path ++ "?"%char :: query).
  cbn [app drop Nat.add]. rewrite drop_0, find_chr_fresh by done.
  rewrite substr0_app, drop_after_1. reflexivity.
Qed.
Lemma Url_target_noquery path :
  find_str #"://" path = None -> "?"%char ∉ path ->
  Url_make (#"/" ++ path) false = mkUrl [] [] [] path [].
Proof.
  intros Hu Hp. unfold Url_make, Url_Init. cbn [negb orb].
  unfold Url_Parse. rewrite drop_while_nospace by done.
  assert (find_str #"://" (#"/" ++ path) = None) as ->.
  { change (find_str #"://" (#"/" ++ path)) with (option_map S (find_str #"://" path)).
    by rewrite Hu. }
  change (#"/" ++ path) with ([] ++ "/"%char :: path).
  rewrite find_chr_fresh by apply not_elem_of_nil.
  cbn [app drop Nat.add length]. rewrite drop_0.
  by apply find_chr_None in Hp as ->.
Qed.

(** an absolute URL inside the query hides the path of a request: when the
    query of the target [/path?key=...] contains ["://"], [Url] takes
    everything before it for the scheme and the rest for the host, so the path
    comes out empty (the request is then routed as ["/"]). *)
Theorem Url_query_hides_path path q host :
  ":"%char ∉ path -> ":"%char ∉ q -> ":"%char ∉ host -> "/"%char ∉ host -> "?"%char ∉ host ->
  Url_make (#"/" ++ path ++ #"?" ++ q ++ #"://" ++ host) false =
  mkUrl (#"/" ++ path ++ #"?" ++ q) host [] [] [].
Proof.
  intros Hp Hq Hh1 Hh2 Hh3. unfold Url_make, Url_Init. cbn [negb orb].
  unfold Url_Parse. rewrite drop_while_nospace by done.
  set (s := #"/" ++ path ++ #"?" ++ q).
  replace (#"/" ++ path ++ #"?" ++ q ++ #"://" ++ host) with (s ++ #"://" ++ host)
    by (unfold s; rewrite <- !app_assoc; done).
  assert (":"%char ∉ s) as Hs.
  { unfold s. rewrite !not_elem_of_app. split_and!; [decide_now|done|decide_now|done]. }
  change #"://" with (":"%char :: #"//"). rewrite find_str_fresh by done.
  rewrite substr0_app. change (":"%char :: #"//") with #"://". rewrite drop_after_3.
  apply find_chr_None in Hh1, Hh2, Hh3. by rewrite Hh2, Hh3, Hh1.
Qed.
Example Url_query_hides_path_witness :
  path_ (Url_make #"/images?next=http://example.org" true) = [].
Proof.
  change (path_ (Url_make #"/images?next=http://example.org" false) = []).
  exact (f_equal path_ (Url_query_hides_path #"images" #"next=http" #"example.org"
    ltac:(decide_now) ltac:(decide_now) ltac:(decide_now) ltac:(decide_now) ltac:(decide_now))).
Defined.
