(* ===== verification/Common.v ===== *)
(** * Headers, content type and disposition, form parts

    Models [webcc/utility.h], [webcc/utility.cc] ([Split2]), [webcc/common.h]
    and [webcc/common.cc]. *)
From Stdlib Require Import Ascii String.
From stdpp Require Import base tactics list numbers option strings.
From S2P Require Import Prelude Globals.

(** [Split2]: [None] for [false], in which case the outputs are not written. *)
Definition Split2 (s : str) (token : ascii) : option (str * str) :=
  match find_chr token s with
  | None => None
  | Some pos => Some (trim (substr s 0 pos), trim (drop (pos + 1) s))
  end.

(** ** [class Headers] *)
Definition Header : Type := str * str.
Abbreviation Headers := (list Header).

Module Hdr.
(** [Find]: the first header whose key is equal ignoring case. *)
Fixpoint Find (hs : Headers) (key : str) : option Header :=
  match hs with
  | [] => None
  | h :: hs' => if iequals (fst h) key then Some h else Find hs' key
  end.
(** [Set]: overwrites the value in place (the stored key stays) or appends. *)
Fixpoint Set_ (hs : Headers) (key value : str) : Headers :=
  match hs with
  | [] => [(key, value)]
  | h :: hs' =>
      if iequals (fst h) key then (fst h, value) :: hs' else h :: Set_ hs' key value
  end.
Definition Has (hs : Headers) (key : str) : bool :=
  match Find hs key with Some _ => true | None => false end.
(** [Get(key, existed)]: the value (empty when absent) and [*existed]. *)
Definition Get (hs : Headers) (key : str) : str * bool :=
  match Find hs key with Some h => (snd h, true) | None => ([], false) end.
Definition Clear (hs : Headers) : Headers := [].
End Hdr.

(** ** [class ContentType] *)
Record ContentType := mkContentType {
  media_type_ : str;
  additional_ : str;
  multipart_ : bool
}.
Definition ContentType_empty : ContentType := mkContentType [] [] false.

(** [ParseValue]: the result and the new content of [*value], which is written
    whenever the text contains ['=']. *)
Definition ParseValue (s expected_key value : str) : bool * str :=
  match Split2 s "=" with
  | None => (false, value)
  | Some (key, value') =>
      if negb (seqb key expected_key) then (false, value')
      else (match value' with [] => false | _ => true end, value')
  end.

Module CType.
Definition Init (c : ContentType) (s : str) : ContentType :=
  let '(media, other) :=
    match find_chr ";" s with
    | None => (s, [])
    | Some pos => (substr s 0 pos, drop (pos + 1) s)
    end in
  let media := trim media in
  let other := trim other in
  if seqb media #"multipart/form-data" then
    mkContentType media (snd (ParseValue other #"boundary" (additional_ c))) true
  else
    mkContentType media (snd (ParseValue other #"charset" (additional_ c))) (multipart_ c).
Definition make (s : str) : ContentType := Init ContentType_empty s.
Definition Parse (c : ContentType) (s : str) : ContentType := Init ContentType_empty s.
Definition Valid (c : ContentType) : bool :=
  match media_type_ c with
  | [] => false
  | _ => if multipart_ c
         then match additional_ c with [] => false | _ => true end
         else true
  end.
(** [boundary()] and [charset()]: the same member, under opposite asserts. *)
Definition boundary (c : ContentType) : str := additional_ c.
Definition charset (c : ContentType) : str := additional_ c.
End CType.

(** ** [class ContentDisposition] *)
Record ContentDisposition := mkContentDisposition {
  cd_name_ : str;
  cd_file_name_ : str;
  cd_valid_ : bool
}.

Module CDisp.
Definition Unquote (s : str) : str := trim_if (fun c => ceqb c DQ) s.

(** The [for] loop of [Init] on [parts[1..]]. *)
Fixpoint Init_loop (parts : list str) (name file_name : str) : ContentDisposition :=
  match parts with
  | [] => mkContentDisposition name file_name true
  | part :: parts' =>
      match Split2 part "=" with
      | None => mkContentDisposition name file_name false
      | Some (key, value) =>
          if seqb key #"name" then Init_loop parts' (Unquote value) file_name
          else if seqb key #"filename" then Init_loop parts' name (Unquote value)
          else Init_loop parts' name file_name
      end
  end.
Definition make (s : str) : ContentDisposition :=
  match split_on (fun c => ceqb c ";") false s with
  | [] => mkContentDisposition [] [] false
  | part0 :: parts =>
      if negb (seqb part0 #"form-data") then mkContentDisposition [] [] false
      else Init_loop parts [] []
  end.
End CDisp.

(** ** [class FormPart] *)
Abbreviation Payload := (list str).

Record FormPart := mkFormPart {
  fp_name_ : str;
  fp_file_name_ : str;
  fp_media_type_ : str;
  fp_headers_ : Headers;
  fp_data_ : str
}.
Definition FormPart_empty : FormPart := mkFormPart [] [] [] [] [].

Module Part.
(** The constructor of a file part.  The file system and [boost::filesystem]
    are parameters: [read_file] is [ReadFile] ([None] when it fails),
    [filename] and [extension] are the members of [path]. *)
Section File.
Variable read_file : str -> option str.
Variable filename extension : str -> str.
Definition from_file (name path media_type : str) : outcome FormPart :=
  match read_file path with
  | None => Throw (WebccException (make_Exception kFileIOError #"Cannot read the file." false))
  | Some data =>
      let media := match media_type with
                   | [] => FromExtension (extension path) false
                   | _ => media_type
                   end in
      Ret (mkFormPart name (filename path) media [] data)
  end.
End File.
Definition from_data (name data media_type : str) : FormPart :=
  mkFormPart name [] media_type [] data.

Definition set_name (p : FormPart) (v : str) : FormPart :=
  mkFormPart v (fp_file_name_ p) (fp_media_type_ p) (fp_headers_ p) (fp_data_ p).
Definition set_file_name (p : FormPart) (v : str) : FormPart :=
  mkFormPart (fp_name_ p) v (fp_media_type_ p) (fp_headers_ p) (fp_data_ p).
Definition AppendData (p : FormPart) (data : str) : FormPart :=
  mkFormPart (fp_name_ p) (fp_file_name_ p) (fp_media_type_ p) (fp_headers_ p) (fp_data_ p ++ data).
Definition set_headers (p : FormPart) (hs : Headers) : FormPart :=
  mkFormPart (fp_name_ p) (fp_file_name_ p) (fp_media_type_ p) hs (fp_data_ p).

Definition disposition (p : FormPart) : str :=
  #"form-data" ++
  (match fp_name_ p with [] => [] | n => #"; name=" ++ [DQ] ++ n ++ [DQ] end) ++
  (match fp_file_name_ p with [] => [] | f => #"; filename=" ++ [DQ] ++ f ++ [DQ] end).
Definition SetHeaders (p : FormPart) : FormPart :=
  let hs := Hdr.Set_ (fp_headers_ p) kContentDisposition (disposition p) in
  set_headers p (match fp_media_type_ p with
                 | [] => hs
                 | m => Hdr.Set_ hs kContentType m
                 end).

Definition header_buffers (h : Header) : Payload := [fst h; #": "; snd h; kCRLF].
(** [Prepare(payload)]: the part (its headers may be set) and the payload. *)
Definition Prepare (p : FormPart) (payload : Payload) : FormPart * Payload :=
  let p := match fp_headers_ p with [] => SetHeaders p | _ => p end in
  (p, payload ++ concat (map header_buffers (fp_headers_ p)) ++ [kCRLF] ++
      (match fp_data_ p with [] => [] | d => [d] end) ++ [kCRLF]).
End Part.

(** ** Header lemmas *)

Lemma iequals_eq a b : iequals a b = true <-> map toupper a = map toupper b.
Proof. apply seqb_eq. Qed.
Lemma iequals_refl a : iequals a a = true.
Proof. by apply iequals_eq. Qed.
Lemma iequals_sym a b : iequals a b = iequals b a.
Proof.
  destruct (iequals a b) eqn:E, (iequals b a) eqn:F; try done.
  - apply iequals_eq in E. symmetry in E. apply iequals_eq in E. congruence.
  - apply iequals_eq in F. symmetry in F. apply iequals_eq in F. congruence.
Qed.
Lemma iequals_trans a b c : iequals a b = true -> iequals b c = iequals a c.
Proof. intros H%iequals_eq. unfold iequals. by rewrite H. Qed.

(** Keys equal up to case name the same header. *)
#[global] Instance Find_Proper : Proper (eq ==> (fun a b => iequals a b = true) ==> eq) Hdr.Find.
Proof.
  intros hs ? <- a b Hab. induction hs as [|h hs IH]; simpl; [done|].
  rewrite (iequals_sym (fst h) a), (iequals_sym (fst h) b), <- (iequals_trans a b (fst h)) by done.
  by rewrite IH.
Qed.

Lemma Find_Set hs k v k' :
  Hdr.Find (Hdr.Set_ hs k v) k' =
  if iequals k k' then
    match Hdr.Find hs k with Some h => Some (fst h, v) | None => Some (k, v) end
  else Hdr.Find hs k'.
Proof.
  induction hs as [|h hs IH]; simpl; [by destruct (iequals k k')|].
  destruct (iequals (fst h) k) eqn:E; simpl.
  - rewrite <- (iequals_trans (fst h) k k' E). by destruct (iequals k k').
  - destruct (iequals (fst h) k') eqn:F; [|done].
    destruct (iequals k k') eqn:G; [|done].
    rewrite iequals_sym in G. rewrite (iequals_trans (fst h) k' k F) in G. congruence.
Qed.

Lemma Get_Set hs k v k' :
  Hdr.Get (Hdr.Set_ hs k v) k' = if iequals k k' then (v, true) else Hdr.Get hs k'.
Proof.
  unfold Hdr.Get. rewrite Find_Set. destruct (iequals k k'); [|done].
  by destruct (Hdr.Find hs k).
Qed.

(** The keys, compared ignoring case, are distinct. *)
Definition hkeys (hs : Headers) : list str := map (map toupper) (map fst hs).

Lemma Find_None_hkeys hs k : Hdr.Find hs k = None <-> map toupper k ∉ hkeys hs.
Proof.
  unfold hkeys. induction hs as [|h hs IH]; simpl; [split; [by intros _ ?%elem_of_nil|done]|].
  rewrite not_elem_of_cons. destruct (iequals (fst h) k) eqn:E.
  - apply iequals_eq in E. naive_solver.
  - rewrite IH. assert (map toupper k <> map toupper (fst h)); [|naive_solver].
    intros H. symmetry in H. apply iequals_eq in H. congruence.
Qed.
Lemma Set_hkeys hs k v :
  hkeys (Hdr.Set_ hs k v) =
  if Hdr.Has hs k then hkeys hs else hkeys hs ++ [map toupper k].
Proof.
  unfold hkeys, Hdr.Has. induction hs as [|h hs IH]; simpl; [done|].
  destruct (iequals (fst h) k); [done|]. simpl. rewrite IH. by destruct (Hdr.Find hs k).
Qed.
Lemma Set_NoDup hs k v : NoDup (hkeys hs) -> NoDup (hkeys (Hdr.Set_ hs k v)).
Proof.
  intros H. rewrite Set_hkeys. unfold Hdr.Has. destruct (Hdr.Find hs k) eqn:E; [done|].
  apply NoDup_app. split_and!; [done| |apply NoDup_singleton].
  intros x Hx ->%list_elem_of_singleton. by apply Find_None_hkeys in E.
Qed.
Lemma Set_fresh hs k v : Hdr.Find hs k = None -> Hdr.Set_ hs k v = hs ++ [(k, v)].
Proof.
  induction hs as [|h hs IH]; simpl; [done|]. destruct (iequals (fst h) k); [done|].
  intros H. by rewrite IH.
Qed.

(** [Headers] is a map whose keys ignore case: [Set] then [Get] returns the
    value for every key equal up to case and leaves the others unchanged, keys
    stay distinct, and a header that is overwritten keeps its place. *)
Theorem Headers_map hs k v k' :
  NoDup (hkeys hs) ->
  NoDup (hkeys (Hdr.Set_ hs k v)) /\
  Hdr.Get (Hdr.Set_ hs k v) k' = (if iequals k k' then (v, true) else Hdr.Get hs k') /\
  (Hdr.Has hs k = true -> hkeys (Hdr.Set_ hs k v) = hkeys hs) /\
  (Hdr.Has hs k = false -> Hdr.Set_ hs k v = hs ++ [(k, v)]).
Proof.
  intros H. split_and!; [by apply Set_NoDup | apply Get_Set | |].
  - intros Hh. by rewrite Set_hkeys, Hh.
  - unfold Hdr.Has. destruct (Hdr.Find hs k) eqn:E; [done|]. intros _. by apply Set_fresh.
Qed.
Example Headers_map_witness :
  Hdr.Get (Hdr.Set_ [(#"Host", #"a"); (#"Accept", #"*/*")] #"HOST" #"b") #"host" = (#"b", true).
Proof.
  assert (NoDup (hkeys [(#"Host", #"a"); (#"Accept", #"*/*")])) as H
    by (unfold hkeys; cbn [map fst]; decide_now).
  destruct (Headers_map _ #"HOST" #"b" #"host" H) as (_ & E & _). rewrite E. reflexivity.
Defined.

(** ** Parsing what was generated *)

Lemma Split2_fresh k c v : c ∉ k -> Split2 (k ++ c :: v) c = Some (trim k, trim v).
Proof.
  intros H. unfold Split2. rewrite find_chr_fresh by done. unfold substr.
  rewrite drop_0, take_app_exact. do 3 f_equal.
  replace (length k + 1) with (length (k ++ [c])) by (rewrite length_app; done).
  change (k ++ c :: v) with (k ++ [c] ++ v). by rewrite app_assoc, drop_app_exact.
Qed.

(** Names that survive quoting: no [';'], no quote at either end. *)
Definition quotable (n : str) : Prop := ";"%char ∉ n /\ trimmed (fun c => ceqb c DQ) n.

Lemma quoted_value n :
  quotable n -> n <> [] -> CDisp.Unquote (trim (DQ :: n ++ [DQ])) = n.
Proof.
  intros [_ Ht] Hn. unfold trim. rewrite trim_if_trimmed by (by apply trimmed_both).
  by apply trim_if_both.
Qed.

Lemma param_no_semicolon key n :
  ";"%char ∉ key -> ";"%char ∉ n ->
  Forall (fun c => ceqb c ";" = false) (key ++ DQ :: n ++ [DQ]).
Proof.
  intros Hk Hn. apply Forall_forall. intros c Hc. apply ceqb_neq. intros ->.
  rewrite !elem_of_app, elem_of_cons, elem_of_app in Hc.
  destruct Hc as [?|[?|[?|H]]]; try done. by apply list_elem_of_singleton in H.
Qed.

(** The loop on one generated parameter. *)
Lemma Init_loop_name n rest name file :
  quotable n -> n <> [] ->
  CDisp.Init_loop ((#" name=" ++ DQ :: n ++ [DQ]) :: rest) name file = CDisp.Init_loop rest n file.
Proof.
  intros Hq Hn. cbn [CDisp.Init_loop].
  change (#" name=" ++ DQ :: n ++ [DQ]) with (#" name" ++ "="%char :: DQ :: n ++ [DQ]).
  rewrite Split2_fresh by decide_now.
  change (trim #" name") with #"name". rewrite seqb_refl. by rewrite quoted_value.
Qed.
Lemma Init_loop_filename n rest name file :
  quotable n -> n <> [] ->
  CDisp.Init_loop ((#" filename=" ++ DQ :: n ++ [DQ]) :: rest) name file =
  CDisp.Init_loop rest name n.
Proof.
  intros Hq Hn. cbn [CDisp.Init_loop].
  change (#" filename=" ++ DQ :: n ++ [DQ]) with (#" filename" ++ "="%char :: DQ :: n ++ [DQ]).
  rewrite Split2_fresh by decide_now.
  change (trim #" filename") with #"filename".
  change (seqb #"filename" #"name") with false. rewrite seqb_refl. by rewrite quoted_value.
Qed.

Lemma split_disposition p :
  quotable (fp_name_ p) -> quotable (fp_file_name_ p) ->
  split_on (fun c => ceqb c ";") false (Part.disposition p) =
  #"form-data" ::
  (match fp_name_ p with [] => [] | n => [#" name=" ++ DQ :: n ++ [DQ]] end) ++
  (match fp_file_name_ p with [] => [] | f => [#" filename=" ++ DQ :: f ++ [DQ]] end).
Proof.
  intros [Hn _] [Hf _]. unfold Part.disposition, split_on.
  assert (Forall (fun c => ceqb c ";" = false) #"form-data") as Hfd by (repeat constructor).
  destruct (fp_name_ p) as [|c n], (fp_file_name_ p) as [|d f]; cbn [app].
  - reflexivity.
  - change (#"; filename=" ++ DQ :: d :: f ++ [DQ])
      with (";"%char :: #" filename=" ++ DQ :: (d :: f) ++ [DQ]).
    rewrite split_go_fresh by done. f_equal. rewrite split_go_last; [done|].
    apply param_no_semicolon; [decide_now|done].
  - rewrite app_nil_r. change (#"; name=" ++ DQ :: c :: n ++ [DQ])
      with (";"%char :: #" name=" ++ DQ :: (c :: n) ++ [DQ]).
    rewrite split_go_fresh by done. f_equal. rewrite split_go_last; [done|].
    apply param_no_semicolon; [decide_now|done].
  - replace (#"form-data" ++ (#"; name=" ++ DQ :: c :: n ++ [DQ]) ++ #"; filename=" ++ DQ :: d :: f ++ [DQ])
      with (#"form-data" ++ ";"%char :: (#" name=" ++ DQ :: (c :: n) ++ [DQ])
            ++ ";"%char :: #" filename=" ++ DQ :: (d :: f) ++ [DQ])
      by (cbn; rewrite <- !app_assoc; done).
    rewrite split_go_fresh by done. f_equal. rewrite split_go_fresh; [| |done|done].
    + f_equal. rewrite split_go_last; [done|]. apply param_no_semicolon; [decide_now|done].
    + apply param_no_semicolon; [decide_now|done].
Qed.

(** the [Content-Disposition] header a form part generates is parsed back
    by the server: for every part whose field and file names contain no [';']
    and neither start nor end with a quote, [ContentDisposition] accepts the
    header of [SetHeaders] and returns the two names. *)
Theorem disposition_roundtrip p :
  quotable (fp_name_ p) -> quotable (fp_file_name_ p) ->
  CDisp.make (Part.disposition p) = mkContentDisposition (fp_name_ p) (fp_file_name_ p) true.
Proof.
  intros Hn Hf. unfold CDisp.make. rewrite split_disposition by done.
  rewrite seqb_refl. cbn [negb].
  destruct (fp_name_ p) as [|c n], (fp_file_name_ p) as [|d f]; cbn [app].
  - reflexivity.
  - exact (Init_loop_filename (d :: f) [] [] [] Hf ltac:(done)).
  - exact (Init_loop_name (c :: n) [] [] [] Hn ltac:(done)).
  - etransitivity; [exact (Init_loop_name (c :: n) [_] [] [] Hn ltac:(done))|].
    exact (Init_loop_filename (d :: f) [] _ _ Hf ltac:(done)).
Qed.
Example disposition_roundtrip_witness :
  CDisp.make (Part.disposition (mkFormPart #"file 1" #"baby.jpg" #"" [] #"x")) =
  mkContentDisposition #"file 1" #"baby.jpg" true.
Proof.
  apply (disposition_roundtrip (mkFormPart #"file 1" #"baby.jpg" #"" [] #"x"));
    (split; [decide_now | split; reflexivity]).
Defined.

(** the media type of an uploaded file is never inferred: the extension of
    a path starts with a dot (as [boost::filesystem] documents) while the keys
    of the table have none, so a file part built without a media type has an
    empty one, and no [Content-Type] header is generated for it. *)
Theorem file_media_type_empty read_file filename extension name path data ext :
  read_file path = Some data -> extension path = "."%char :: ext ->
  exists p, Part.from_file read_file filename extension name path [] = Ret p /\
            fp_media_type_ p = [] /\ fp_data_ p = data /\
            Hdr.Has (fp_headers_ (Part.SetHeaders p)) kContentType = false.
Proof.
  intros Hr He. unfold Part.from_file. rewrite Hr, He. eexists. split; [reflexivity|].
  split_and!; reflexivity.
Qed.
Example file_media_type_empty_witness :
  exists p, Part.from_file (fun _ => Some #"JFIF") (fun _ => #"a.jpg") (fun _ => #".jpg")
              #"f" #"/tmp/a.jpg" [] = Ret p /\ fp_media_type_ p = [].
Proof.
  destruct (file_media_type_empty (fun _ => Some #"JFIF") (fun _ => #"a.jpg") (fun _ => #".jpg")
    #"f" #"/tmp/a.jpg" #"JFIF" #"jpg" eq_refl eq_refl) as (p & H1 & H2 & _).
  exists p. split; [exact H1 | exact H2].
Defined.

(** a [multipart/form-data] content type takes the value of whatever
    parameter follows as its boundary: [ParseValue] stores the value before it
    compares the key, and [Valid] only asks for a non-empty boundary. *)
Theorem multipart_boundary_any_key key value :
  key <> #"boundary" -> value <> [] -> "="%char ∉ key -> ";"%char ∉ key ->
  trimmed isspace key -> trimmed isspace value -> key <> [] ->
  let c := CType.make (#"multipart/form-data;" ++ key ++ #"=" ++ value) in
  CType.Valid c = true /\ multipart_ c = true /\ CType.boundary c = value.
Proof.
  intros Hk Hv He Hs Htk Htv Hkn. unfold CType.make, CType.Init.
  change (#"multipart/form-data;" ++ key ++ #"=" ++ value)
    with (#"multipart/form-data" ++ ";"%char :: key ++ "="%char :: value).
  rewrite find_chr_fresh by decide_now. unfold substr. rewrite drop_0, take_app_exact.
  replace (drop (length #"multipart/form-data" + 1)
    (#"multipart/form-data" ++ ";"%char :: key ++ "="%char :: value))
    with (key ++ "="%char :: value) by reflexivity.
  change (trim #"multipart/form-data") with #"multipart/form-data". rewrite seqb_refl.
  assert (trim (key ++ "="%char :: value) = key ++ "="%char :: value) as ->.
  { apply trim_if_trimmed. destruct Htk as [H1 _], Htv as [_ H2]. split.
    - by destruct key.
    - rewrite rev_app_distr. cbn [rev]. destruct (rev value) eqn:E; [|done].
      apply (f_equal (@rev ascii)) in E. by rewrite rev_involutive in E. }
  unfold ParseValue. rewrite Split2_fresh by done. unfold trim. rewrite !trim_if_trimmed by done.
  apply seqb_neq in Hk. rewrite Hk. cbn [negb snd]. unfold CType.Valid, CType.boundary. cbn.
  by destruct value.
Qed.
Example multipart_boundary_any_key_witness :
  CType.boundary (CType.make #"multipart/form-data;charset=utf-8") = #"utf-8".
Proof.
  destruct (multipart_boundary_any_key #"charset" #"utf-8") as (_ & _ & E);
    first [discriminate | decide_now | (split; reflexivity) | exact E].
Defined.
