(* ===== verification/Message.v ===== *)
(** * HTTP messages: the common part, requests and responses

    Models [webcc/message.h], [message.cc], [request.h], [request.cc],
    [response.h] and [response.cc]. *)
From Stdlib Require Import Ascii String.
From stdpp Require Import base tactics list numbers option strings.
From S2P Require Import Prelude Globals Common Url.

(** ** [class Message]

    The payload is a sequence of buffers that point into the other members; it
    is represented by the bytes they point to when [Prepare] runs. *)
Record Message := mkMessage {
  start_line_ : str;
  content_ : str;
  content_type_ : ContentType;
  content_length_ : N;
  headers_ : Headers;
  payload_ : Payload
}.
Definition Message_new : Message := mkMessage [] [] ContentType_empty kInvalidLength [] [].

Module Msg.
Definition set_start_line (m : Message) (v : str) : Message :=
  mkMessage v (content_ m) (content_type_ m) (content_length_ m) (headers_ m) (payload_ m).
Definition set_content_length (m : Message) (v : N) : Message :=
  mkMessage (start_line_ m) (content_ m) (content_type_ m) v (headers_ m) (payload_ m).
Definition set_content (m : Message) (v : str) : Message :=
  mkMessage (start_line_ m) v (content_type_ m) (content_length_ m) (headers_ m) (payload_ m).
Definition set_headers (m : Message) (v : Headers) : Message :=
  mkMessage (start_line_ m) (content_ m) (content_type_ m) (content_length_ m) v (payload_ m).
Definition set_payload (m : Message) (v : Payload) : Message :=
  mkMessage (start_line_ m) (content_ m) (content_type_ m) (content_length_ m) (headers_ m) v.
(** [SetContentType(const ContentType&)]: the parsed header only. *)
Definition SetContentType_parsed (m : Message) (v : ContentType) : Message :=
  mkMessage (start_line_ m) (content_ m) v (content_length_ m) (headers_ m) (payload_ m).

Definition SetHeader (m : Message) (key value : str) : Message :=
  set_headers m (Hdr.Set_ (headers_ m) key value).
Definition GetHeader (m : Message) (key : str) : str := fst (Hdr.Get (headers_ m) key).
Definition HasHeader (m : Message) (key : str) : bool := Hdr.Has (headers_ m) key.

Definition IsConnectionKeepAlive (m : Message) : bool :=
  let '(connection, existed) := Hdr.Get (headers_ m) kConnection in
  if negb existed then true else iequals connection #"Keep-Alive".

Definition GetContentEncoding (m : Message) : ContentEncoding :=
  let encoding := GetHeader m kContentEncoding in
  if seqb encoding #"gzip" then kGzip
  else if seqb encoding #"deflate" then kDeflate
  else kUnknown.

Definition AcceptEncodingGzip (m : Message) : bool :=
  match find_str #"gzip" (GetHeader m kAcceptEncoding) with Some _ => true | None => false end.

(** [SetContentType(content_type)] and [SetContentType(media_type, charset)]. *)
Definition SetContentType (m : Message) (content_type : str) : Message :=
  SetHeader m kContentType content_type.
Definition SetContentType2 (m : Message) (media_type charset : str) : Message :=
  match charset with
  | [] => SetHeader m kContentType media_type
  | _ => SetHeader m kContentType (media_type ++ #";charset=" ++ charset)
  end.

Definition SetContentLength (m : Message) (content_length : N) : Message :=
  SetHeader (set_content_length m content_length) kContentLength (to_dec content_length).
Definition SetContent (m : Message) (content : str) (set_length : bool) : Message :=
  let m := set_content m content in
  if set_length then SetContentLength m (len (content_ m)) else m.

(** [Message::Prepare]. *)
Definition Prepare (m : Message) : Message :=
  set_payload m
    ([start_line_ m; kCRLF] ++ concat (map Part.header_buffers (headers_ m)) ++ [kCRLF] ++
     (match content_ m with [] => [] | c => [c] end)).

(** [CopyPayload]: the bytes sent. *)
Definition CopyPayload (m : Message) : str := concat (payload_ m).

(** [Dump] to a string: [indent_lines] is the loop over the lines of a long
    content, [size] the bytes written so far. *)
Fixpoint dump_lines (indent_str : str) (lines : list str) (size : nat) : str :=
  match lines with
  | [] => []
  | line :: lines' =>
      indent_str ++
      (if kMaxDumpSize <? length line + size then
         take (kMaxDumpSize - size) line ++ #"..." ++ [LF]
       else line ++ [LF] ++ dump_lines indent_str lines' (size + length line))
  end.
Definition Dump (m : Message) (indent : nat) (prefix : str) : str :=
  let indent_str := repeat SP indent ++ prefix in
  indent_str ++ start_line_ m ++ [LF] ++
  concat (map (fun h => indent_str ++ fst h ++ #": " ++ snd h ++ [LF]) (headers_ m)) ++
  indent_str ++ [LF] ++
  match content_ m with
  | [] => []
  | c =>
      if indent =? 0 then
        if kMaxDumpSize <? length c then take kMaxDumpSize c ++ #"..." ++ [LF]
        else c ++ [LF]
      else dump_lines indent_str (split_on (fun x => ceqb x LF) false c) 0
  end.
End Msg.

(** ** Classes derived from [Message]

    [Request] and [Response] inherit the members of [Message]; code written
    for a [Message*] (the parser) sees any such class through this interface. *)
Class MessageLike (M : Type) := {
  as_message : M -> Message;
  with_message : M -> Message -> M;
  as_with : forall m b, as_message (with_message m b) = b;
  with_as : forall m, with_message m (as_message m) = m;
  with_with : forall m b b', with_message (with_message m b) b' = with_message m b'
}.
#[export] Hint Rewrite @as_with @with_as @with_with : webcc_rw.

(** ** [class Request] *)
Record Request := mkRequest {
  req_message : Message;
  method_ : str;
  url_ : Url;
  form_parts_ : list FormPart;
  boundary_ : str
}.

Definition Request_with (r : Request) (m : Message) : Request :=
  mkRequest m (method_ r) (url_ r) (form_parts_ r) (boundary_ r).
#[global] Instance Request_MessageLike : MessageLike Request.
Proof. by refine (Build_MessageLike _ req_message Request_with _ _ _); intros []. Defined.

Module Req.
Definition new : Request := mkRequest Message_new [] Url_empty [] [].
Definition make (method url : str) : Request :=
  mkRequest Message_new method (Url_make url true) [] [].
Definition set_method (r : Request) (v : str) : Request :=
  mkRequest (req_message r) v (url_ r) (form_parts_ r) (boundary_ r).
Definition set_url (r : Request) (v : str) : Request :=
  mkRequest (req_message r) (method_ r) (Url_Init (url_ r) v true true)
    (form_parts_ r) (boundary_ r).
Definition AddQuery (r : Request) (key value : str) : Request :=
  mkRequest (req_message r) (method_ r) (Url_AddQuery (url_ r) key value)
    (form_parts_ r) (boundary_ r).
(** [port(default_port)]. *)
Definition port (r : Request) (default_port : str) : str :=
  match port_ (url_ r) with [] => default_port | p => p end.
Definition set_form_parts (r : Request) (v : list FormPart) : Request :=
  mkRequest (req_message r) (method_ r) (url_ r) v (boundary_ r).
Definition AddFormPart (r : Request) (p : FormPart) : Request :=
  set_form_parts r (form_parts_ r ++ [p]).
Definition set_boundary (r : Request) (v : str) : Request :=
  mkRequest (req_message r) (method_ r) (url_ r) (form_parts_ r) v.
Definition SetHeader (r : Request) (key value : str) : Request :=
  with_message r (Msg.SetHeader (req_message r) key value).

Definition CreateStartLine (r : Request) : outcome Request :=
  match start_line_ (req_message r) with
  | _ :: _ => Ret r
  | [] =>
      match host_ (url_ r) with
      | [] => Throw (WebccException
                (make_Exception kSchemaError #"Invalid request: host is missing." false))
      | _ =>
          let target := #"/" ++ path_ (url_ r) in
          let target := match query_ (url_ r) with
                        | [] => target | q => target ++ #"?" ++ q end in
          Ret (with_message r (Msg.set_start_line (req_message r)
                (method_ r ++ #" " ++ target ++ #" HTTP/1.1")))
      end
  end.

(** The body of a multipart request: each part behind its boundary line, then
    the closing boundary. *)
Fixpoint prepare_parts (boundary : str) (parts : list FormPart) (payload : Payload)
    : list FormPart * Payload :=
  match parts with
  | [] => ([], payload)
  | p :: parts' =>
      let '(p, payload) := Part.Prepare p (payload ++ [#"--"; boundary; kCRLF]) in
      let '(ps, payload) := prepare_parts boundary parts' payload in
      (p :: ps, payload)
  end.
Definition payload_size (p : Payload) : N := fold_left (fun n b => (n + len b)%N) p 0%N.

(** The [Host] header [Prepare] sets, and the boundary it uses. *)
Definition host_header (r : Request) : str :=
  match port_ (url_ r) with [] => host_ (url_ r) | p => host_ (url_ r) ++ #":" ++ p end.
Definition use_boundary (uuid : str) (r : Request) : str :=
  match boundary_ r with [] => uuid | b => b end.

(** The part of [Prepare] for a request with form parts. *)
Definition PrepareForm (uuid : str) (r : Request) : Request :=
  let r := set_boundary r (use_boundary uuid r) in
  let r := with_message r (Msg.SetContentType (req_message r)
             (#"multipart/form-data; boundary=" ++ boundary_ r)) in
  let '(parts, data_payload) := prepare_parts (boundary_ r) (form_parts_ r) [] in
  let r := set_form_parts r parts in
  let data_payload := data_payload ++ [#"--"; boundary_ r; #"--"; kCRLF] in
  let m := Msg.SetContentLength (req_message r) (payload_size data_payload) in
  let m := Msg.Prepare m in
  with_message r (Msg.set_payload m (payload_ m ++ data_payload)).

(** [Request::Prepare]; [uuid] is the value of [RandomUuid()]. *)
Definition Prepare (uuid : str) (r : Request) : outcome Request :=
  let! r := CreateStartLine r in
  let r := SetHeader r kHost (host_header r) in
  match form_parts_ r with
  | [] => Ret (with_message r (Msg.Prepare (req_message r)))
  | _ => Ret (PrepareForm uuid r)
  end.
End Req.

(** ** [class Response] *)
Record Response := mkResponse { resp_message : Message; status_ : Z }.

Definition Response_with (r : Response) (m : Message) : Response := mkResponse m (status_ r).
#[global] Instance Response_MessageLike : MessageLike Response.
Proof. by refine (Build_MessageLike _ resp_message Response_with _ _ _); intros []. Defined.

Module Resp.
Definition make (status : Z) : Response := mkResponse Message_new status.
Definition set_status (r : Response) (v : Z) : Response := mkResponse (resp_message r) v.
Definition SetHeader (r : Response) (key value : str) : Response :=
  with_message r (Msg.SetHeader (resp_message r) key value).

(** [status_strings::ToString(int)]. *)
Definition status_string (status : Z) : str :=
  if (status =? status_int kOK)%Z then #"HTTP/1.1 200 OK"
  else if (status =? status_int kCreated)%Z then #"HTTP/1.1 201 Created"
  else if (status =? status_int kAccepted)%Z then #"HTTP/1.1 202 Accepted"
  else if (status =? status_int kNoContent)%Z then #"HTTP/1.1 204 No Content"
  else if (status =? status_int kNotModified)%Z then #"HTTP/1.1 304 Not Modified"
  else if (status =? status_int kBadRequest)%Z then #"HTTP/1.1 400 Bad Request"
  else if (status =? status_int kNotFound)%Z then #"HTTP/1.1 404 Not Found"
  else if (status =? status_int kInternalServerError)%Z
    then #"HTTP/1.1 500 Internal Server Error"
  else if (status =? status_int kNotImplemented)%Z then #"HTTP/1.1 501 Not Implemented"
  else if (status =? status_int kServiceUnavailable)%Z
    then #"HTTP/1.1 503 Service Unavailable"
  else #"HTTP/1.1 501 Not Implemented".

(** [Response::Prepare]; [date] is the value of [GetTimestamp()]. *)
Definition Prepare (date : str) (r : Response) : Response :=
  let m := match start_line_ (resp_message r) with
           | [] => Msg.set_start_line (resp_message r) (status_string (status_ r))
           | _ => resp_message r
           end in
  let m := Msg.SetHeader m kServer UserAgent in
  let m := Msg.SetHeader m kDate date in
  with_message r (Msg.Prepare m).
End Resp.

(** ** Lemmas *)

(** The bytes of a header line, and of a message with one content buffer. *)
Definition header_line (h : Header) : str := fst h ++ #": " ++ snd h ++ kCRLF.
Definition wire (start : str) (hs : Headers) (body : str) : str :=
  start ++ kCRLF ++ concat (map header_line hs) ++ kCRLF ++ body.

Lemma concat_header_buffers hs :
  concat (concat (map Part.header_buffers hs)) = concat (map header_line hs).
Proof.
  induction hs as [|h hs IH]; [done|]. cbn [map concat].
  by rewrite concat_app, IH.
Qed.
Lemma CopyPayload_Prepare m :
  Msg.CopyPayload (Msg.Prepare m) = wire (start_line_ m) (headers_ m) (content_ m).
Proof.
  unfold Msg.CopyPayload, Msg.Prepare, wire. cbn [payload_ Msg.set_payload].
  rewrite !concat_app, concat_header_buffers. cbn [concat]. rewrite !app_nil_r, <- !app_assoc.
  do 4 f_equal. destruct (content_ m); [done|]. cbn [concat]. by rewrite app_nil_r.
Qed.

Lemma payload_size_concat p : Req.payload_size p = len (concat p).
Proof.
  unfold Req.payload_size.
  assert (forall n, fold_left (fun n b => (n + len b)%N) p n = (n + len (concat p))%N) as H;
    [|by rewrite H].
  induction p as [|b p IH]; intros n; cbn [fold_left concat]; [by rewrite N.add_0_r|].
  rewrite IH, len_app. lia.
Qed.

(** The status line a code gets names the code itself. *)
Lemma status_string_prefix s :
  exists reason, Resp.status_string (status_int s) =
    #"HTTP/1.1 " ++ to_dec (Z.to_N (status_int s)) ++ #" " ++ reason.
Proof.
  destruct s; (eexists; vm_compute; reflexivity).
Qed.

(** The bytes of a part and of a multipart body. *)
Definition with_part_headers (p : FormPart) : FormPart :=
  match fp_headers_ p with [] => Part.SetHeaders p | _ => p end.
Definition part_bytes (p : FormPart) : str :=
  concat (map header_line (fp_headers_ (with_part_headers p))) ++ kCRLF ++ fp_data_ p ++ kCRLF.
Definition closing_line (boundary : str) : str := #"--" ++ boundary ++ #"--" ++ kCRLF.
Definition multipart_body (boundary : str) (parts : list FormPart) : str :=
  concat (map (fun p => #"--" ++ boundary ++ kCRLF ++ part_bytes p) parts) ++
  closing_line boundary.

Lemma with_part_headers_data p : fp_data_ (with_part_headers p) = fp_data_ p.
Proof. unfold with_part_headers. by destruct (fp_headers_ p). Qed.

Lemma Part_Prepare_spec p payload :
  fst (Part.Prepare p payload) = with_part_headers p /\
  concat (snd (Part.Prepare p payload)) = concat payload ++ part_bytes p.
Proof.
  unfold Part.Prepare, part_bytes. fold (with_part_headers p). split; [done|]. cbn [snd].
  rewrite !concat_app, concat_header_buffers, with_part_headers_data.
  cbn [concat]. rewrite !app_nil_r. do 3 f_equal.
  destruct (fp_data_ p); [done|]. cbn [concat]. by rewrite app_nil_r.
Qed.

Lemma prepare_parts_spec b ps : forall payload,
  concat (snd (Req.prepare_parts b ps payload)) ++ closing_line b =
  concat payload ++ multipart_body b ps.
Proof.
  induction ps as [|p ps IH]; intros payload; [done|].
  cbn [Req.prepare_parts].
  destruct (Part.Prepare p (payload ++ [#"--"; b; kCRLF])) as [p' q] eqn:E.
  destruct (Req.prepare_parts b ps q) as [ps' q'] eqn:E'. cbn [snd].
  replace q' with (snd (Req.prepare_parts b ps q)) by (by rewrite E'). rewrite IH.
  replace q with (snd (Part.Prepare p (payload ++ [#"--"; b; kCRLF]))) by (by rewrite E).
  destruct (Part_Prepare_spec p (payload ++ [#"--"; b; kCRLF])) as [_ ->].
  rewrite concat_app. unfold multipart_body. cbn [map concat].
  by rewrite !app_nil_r, <- !app_assoc.
Qed.

Lemma Resp_Prepare_message date r :
  start_line_ (resp_message r) = [] ->
  resp_message (Resp.Prepare date r) =
  Msg.Prepare (Msg.SetHeader (Msg.SetHeader
    (Msg.set_start_line (resp_message r) (Resp.status_string (status_ r)))
    kServer UserAgent) kDate date).
Proof. intros Hs. unfold Resp.Prepare. by rewrite Hs. Qed.

(** ** Correctness *)

(** What a server sends for a response is its start line, then one line
    per header, an empty line and the content.  A start line that was not set is
    the status line, and the [Server] and [Date] headers have the values
    [Prepare] gives them while every other header keeps its value. *)
Theorem response_wire_format date r :
  let m := resp_message (Resp.Prepare date r) in
  start_line_ (resp_message r) = [] ->
  Msg.CopyPayload m =
    wire (Resp.status_string (status_ r)) (headers_ m) (content_ (resp_message r)) /\
  Msg.GetHeader m kServer = UserAgent /\
  Msg.GetHeader m kDate = date /\
  (forall k, iequals kServer k = false -> iequals kDate k = false ->
     Msg.GetHeader m k = Msg.GetHeader (resp_message r) k).
Proof.
  intros m Hs. subst m. rewrite (Resp_Prepare_message date r Hs).
  split_and!; [by rewrite CopyPayload_Prepare| | |intros k H1 H2]; unfold Msg.GetHeader;
    cbn [headers_ Msg.Prepare Msg.set_payload Msg.SetHeader Msg.set_headers Msg.set_start_line];
    rewrite !Get_Set; [done..|]. by rewrite H1, H2.
Qed.

Example response_wire_format_witness :
  let r := Resp.make 201 in let m := resp_message (Resp.Prepare #"now" r) in
  Msg.CopyPayload m = wire (Resp.status_string (status_ r)) (headers_ m) [] /\
  Msg.GetHeader m kServer = UserAgent /\ Msg.GetHeader m kDate = #"now" /\
  (forall k, iequals kServer k = false -> iequals kDate k = false ->
     Msg.GetHeader m k = Msg.GetHeader Message_new k).
Proof. apply (response_wire_format #"now" (Resp.make 201)). reflexivity. Defined.

Lemma CreateStartLine_Ret r r' :
  Req.CreateStartLine r = Ret r' ->
  exists sl, r' = with_message r (Msg.set_start_line (req_message r) sl).
Proof.
  unfold Req.CreateStartLine. destruct (start_line_ (req_message r)) eqn:E.
  - destruct (host_ (url_ r)); [done|]. intros [= <-]. eauto.
  - intros [= <-]. exists (start_line_ (req_message r)).
    by destruct r as [[] ? ? ? ?].
Qed.

Lemma PrepareForm_message uuid r :
  let b := Req.use_boundary uuid r in
  let d := snd (Req.prepare_parts b (form_parts_ r) []) ++ [#"--"; b; #"--"; kCRLF] in
  let m := Msg.Prepare (Msg.SetContentLength
             (Msg.SetContentType (req_message r) (#"multipart/form-data; boundary=" ++ b))
             (Req.payload_size d)) in
  boundary_ (Req.PrepareForm uuid r) = b /\
  req_message (Req.PrepareForm uuid r) = Msg.set_payload m (payload_ m ++ d).
Proof.
  intros b d m. subst m d. unfold Req.PrepareForm. fold b. destruct r as [m0 me u ps bd].
  cbn [boundary_ form_parts_ Req.set_boundary with_message Request_MessageLike Request_with].
  by destruct (Req.prepare_parts b ps []) as [ps' q].
Qed.

Lemma PrepareForm_spec uuid r :
  content_ (req_message r) = [] ->
  let r' := Req.PrepareForm uuid r in
  let m := req_message r' in
  let b := Req.use_boundary uuid r in
  let body := multipart_body b (form_parts_ r) in
  boundary_ r' = b /\
  Msg.CopyPayload m = wire (start_line_ m) (headers_ m) body /\
  Msg.GetHeader m kContentLength = to_dec (len body) /\ content_length_ m = len body /\
  Msg.GetHeader m kContentType = #"multipart/form-data; boundary=" ++ b.
Proof.
  intros Hc. cbv zeta. destruct (PrepareForm_message uuid r) as [-> ->].
  set (b := Req.use_boundary uuid r). set (q := snd (Req.prepare_parts b (form_parts_ r) [])).
  assert (concat (q ++ [#"--"; b; #"--"; kCRLF]) = multipart_body b (form_parts_ r)) as Hb.
  { pose proof (prepare_parts_spec b (form_parts_ r) []) as Hq. cbn [concat app] in Hq.
    rewrite <- Hq, concat_app. fold q. f_equal. }
  rewrite payload_size_concat, Hb. split_and!; [done| |..].
  - unfold Msg.CopyPayload at 1. cbn [payload_ Msg.set_payload headers_ start_line_].
    rewrite concat_app, Hb. etransitivity;
      [exact (f_equal (fun x => x ++ _) (CopyPayload_Prepare _))|].
    cbn [content_ Msg.SetContentLength Msg.SetContentType Msg.SetHeader Msg.set_headers
         Msg.set_content_length]. rewrite Hc. unfold wire.
    by rewrite <- !app_assoc, app_nil_l.
  - unfold Msg.GetHeader. cbn [headers_ Msg.set_payload Msg.Prepare Msg.SetContentLength
    Msg.SetHeader Msg.set_headers]. by rewrite Get_Set, iequals_refl.
  - done.
  - unfold Msg.GetHeader. cbn [headers_ Msg.set_payload Msg.Prepare Msg.SetContentLength
      Msg.SetContentType Msg.set_content_length Msg.SetHeader Msg.set_headers].
    by rewrite !Get_Set, iequals_refl.
Qed.

(** A prepared multipart request is its start line, headers and an
    empty line, followed by the form parts behind their boundary lines and the
    closing boundary; its Content-Length header is exactly the size of that body,
    its Content-Type names the boundary used, and the boundary is the one set
    before or a fresh one. *)
Theorem multipart_request_wire uuid r r' :
  form_parts_ r <> [] -> content_ (req_message r) = [] ->
  Req.Prepare uuid r = Ret r' ->
  let m := req_message r' in
  let b := Req.use_boundary uuid r in
  let body := multipart_body b (form_parts_ r) in
  boundary_ r' = b /\
  Msg.CopyPayload m = wire (start_line_ m) (headers_ m) body /\
  Msg.GetHeader m kContentLength = to_dec (len body) /\ content_length_ m = len body /\
  Msg.GetHeader m kContentType = #"multipart/form-data; boundary=" ++ b.
Proof.
  intros Hp Hc (r1 & H1 & H)%obind_Ret.
  apply CreateStartLine_Ret in H1 as [sl ->].
  destruct r as [m0 me u [|p ps] bd]; [done|]. injection H as <-.
  match goal with |- context [boundary_ (Req.PrepareForm uuid ?r) = _] =>
    exact (PrepareForm_spec uuid r Hc) end.
Qed.

Example multipart_request_wire_witness :
  let r := Req.AddFormPart (Req.make #"POST" #"http://h/x") (Part.from_data #"k" #"v" []) in
  exists r', Req.Prepare #"U" r = Ret r' /\
    boundary_ r' = #"U" /\
    Msg.CopyPayload (req_message r') =
      wire (start_line_ (req_message r')) (headers_ (req_message r'))
        (multipart_body #"U" (form_parts_ r)) /\
    Msg.GetHeader (req_message r') kContentLength = #"59".
Proof.
  intros r. eexists. split; [vm_compute; reflexivity|].
  match goal with |- boundary_ ?r' = _ /\ _ =>
    destruct (multipart_request_wire #"U" r r' ltac:(discriminate) ltac:(reflexivity)
                ltac:(vm_compute; reflexivity)) as (H1 & H2 & H3 & _ & _) end.
  split_and!; [exact H1 | exact H2 | etransitivity; [exact H3 | vm_compute; reflexivity]].
Defined.
