(* ===== verification/Parser.v ===== *)
(** * The incremental HTTP parsers

    Models [webcc/parser.h], [parser.cc], [request_parser.h],
    [request_parser.cc], [response_parser.h] and [response_parser.cc].

    [Parser M X] is the state of a parser for messages of class [M]; [X] holds
    the members a derived class adds.  The message the parser points to is
    part of the state, since every write to it goes through the parser.  The
    two virtual functions are the class [Virtuals]; [RequestParser] and
    [ResponseParser] are its instances.  Each loop over the pending data has
    fuel one more than the bytes pending; the lemmas below show when that is
    enough. *)
From Stdlib Require Import Ascii String.
From stdpp Require Import base tactics list numbers option strings.
From S2P Require Import Prelude Globals Common Url Message.

(** ** State of [class Parser] *)
Record Parser (M X : Type) := mkParser {
  message_ : M;
  pending_data_ : str;
  p_content_length_ : N;
  p_content_ : str;
  start_line_parsed_ : bool;
  content_length_parsed_ : bool;
  header_ended_ : bool;
  chunked_ : bool;
  chunk_size_ : N;
  finished_ : bool;
  derived : X
}.
Arguments mkParser {M X}.
Arguments message_ {M X}.
Arguments pending_data_ {M X}.
Arguments p_content_length_ {M X}.
Arguments p_content_ {M X}.
Arguments start_line_parsed_ {M X}.
Arguments content_length_parsed_ {M X}.
Arguments header_ended_ {M X}.
Arguments chunked_ {M X}.
Arguments chunk_size_ {M X}.
Arguments finished_ {M X}.
Arguments derived {M X}.

(** [StringToSizeT]: [None] for [false]. *)
Definition StringToSizeT (s : str) (base : N) : option N := stoul base s.

Section Base.
Context {M X : Type} `{!MessageLike M}.
Abbreviation P := (Parser M X).

(** *** Assignments to members *)
Definition set_message (p : P) (m : M) : P :=
  mkParser m (pending_data_ p) (p_content_length_ p) (p_content_ p) (start_line_parsed_ p)
    (content_length_parsed_ p) (header_ended_ p) (chunked_ p) (chunk_size_ p) (finished_ p)
    (derived p).
Definition set_pending (p : P) (d : str) : P :=
  mkParser (message_ p) d (p_content_length_ p) (p_content_ p) (start_line_parsed_ p)
    (content_length_parsed_ p) (header_ended_ p) (chunked_ p) (chunk_size_ p) (finished_ p)
    (derived p).
Definition set_p_content (p : P) (c : str) : P :=
  mkParser (message_ p) (pending_data_ p) (p_content_length_ p) c (start_line_parsed_ p)
    (content_length_parsed_ p) (header_ended_ p) (chunked_ p) (chunk_size_ p) (finished_ p)
    (derived p).
Definition set_chunk_size (p : P) (n : N) : P :=
  mkParser (message_ p) (pending_data_ p) (p_content_length_ p) (p_content_ p)
    (start_line_parsed_ p) (content_length_parsed_ p) (header_ended_ p) (chunked_ p) n
    (finished_ p) (derived p).
Definition set_start_line_parsed (p : P) : P :=
  mkParser (message_ p) (pending_data_ p) (p_content_length_ p) (p_content_ p) true
    (content_length_parsed_ p) (header_ended_ p) (chunked_ p) (chunk_size_ p) (finished_ p)
    (derived p).
Definition set_content_length_parsed (p : P) : P :=
  mkParser (message_ p) (pending_data_ p) (p_content_length_ p) (p_content_ p)
    (start_line_parsed_ p) true (header_ended_ p) (chunked_ p) (chunk_size_ p) (finished_ p)
    (derived p).
Definition set_p_content_length (p : P) (n : N) : P :=
  mkParser (message_ p) (pending_data_ p) n (p_content_ p) (start_line_parsed_ p)
    (content_length_parsed_ p) (header_ended_ p) (chunked_ p) (chunk_size_ p) (finished_ p)
    (derived p).
Definition set_header_ended (p : P) : P :=
  mkParser (message_ p) (pending_data_ p) (p_content_length_ p) (p_content_ p)
    (start_line_parsed_ p) (content_length_parsed_ p) true (chunked_ p) (chunk_size_ p)
    (finished_ p) (derived p).
Definition set_chunked (p : P) : P :=
  mkParser (message_ p) (pending_data_ p) (p_content_length_ p) (p_content_ p)
    (start_line_parsed_ p) (content_length_parsed_ p) (header_ended_ p) true (chunk_size_ p)
    (finished_ p) (derived p).
Definition set_finished (p : P) : P :=
  mkParser (message_ p) (pending_data_ p) (p_content_length_ p) (p_content_ p)
    (start_line_parsed_ p) (content_length_parsed_ p) (header_ended_ p) (chunked_ p)
    (chunk_size_ p) true (derived p).
Definition set_derived (p : P) (x : X) : P :=
  mkParser (message_ p) (pending_data_ p) (p_content_length_ p) (p_content_ p)
    (start_line_parsed_ p) (content_length_parsed_ p) (header_ended_ p) (chunked_ p)
    (chunk_size_ p) (finished_ p) x.
(** [message_->f(...)] for a member [f] of [Message]. *)
Definition on_message (p : P) (f : Message -> Message) : P :=
  set_message p (with_message (message_ p) (f (as_message (message_ p)))).

(** *** Construction, [Reset] and [Init] *)
Definition Parser_make (m : M) (x : X) : P :=
  mkParser m [] kInvalidLength [] false false false false kInvalidLength false x.
(** [Reset] clears the members of [Parser]; those of a derived class stay. *)
Definition Reset (p : P) : P :=
  mkParser (message_ p) [] kInvalidLength [] false false false false kInvalidLength false
    (derived p).
Definition Parser_Init (p : P) (m : M) : P := set_message (Reset p) m.

(** *** Lines *)

(** [GetNextLine(off, line, erase)]: [None] for [false]. *)
Definition GetNextLine (p : P) (off : nat) (do_erase : bool) : option (str * P) :=
  match find_from kCRLF (pending_data_ p) off with
  | None => None
  | Some pos =>
      let count := pos - off in
      let line := substr (pending_data_ p) off count in
      Some (line, if do_erase then set_pending p (erase (pending_data_ p) off (count + 2)) else p)
  end.

(** *** Content *)
Definition AppendContent (p : P) (data : str) : P := set_p_content p (p_content_ p ++ data).

Definition IsContentFull (p : P) : bool :=
  negb (p_content_length_ p =? kInvalidLength)%N &&
  (p_content_length_ p <=? len (p_content_ p))%N.

Definition IsContentCompressed (p : P) : bool :=
  match Msg.GetContentEncoding (as_message (message_ p)) with kUnknown => false | _ => true end.

(** [Finish]: built without gzip, compressed content is handed over
    untouched, so both ways of handing it over are the same. *)
Definition Finish (p : P) : P :=
  let p := set_finished p in
  match p_content_ p with
  | [] => p
  | _ =>
      let p := on_message p (fun m => Msg.set_content_length m (p_content_length_ p)) in
      if negb (IsContentCompressed p) then
        set_p_content (on_message p (fun m => Msg.SetContent m (p_content_ p) false)) []
      else
        set_p_content (on_message p (fun m => Msg.SetContent m (p_content_ p) false)) []
  end.

Definition ParseFixedContent (p : P) (data : str) : P * bool :=
  if negb (content_length_parsed_ p) then (Finish p, true)
  else if (p_content_length_ p =? kInvalidLength)%N then (p, false)
  else
    let p := match pending_data_ p with
             | [] => p
             | pending => set_pending (AppendContent p pending) []
             end in
    let p := AppendContent p data in
    (if IsContentFull p then Finish p else p, true).

Definition ParseChunkSize (p : P) : P * bool :=
  match GetNextLine p 0 true with
  | None => (p, true)
  | Some (line, p) =>
      let hex_str := match find_chr " " line with
                     | Some pos => substr line 0 pos
                     | None => line
                     end in
      match StringToSizeT hex_str 16 with
      | None => (p, false)
      | Some n => (set_chunk_size p n, true)
      end
  end.

(** The loop of [ParseChunkedContent]; [size_t] arithmetic wraps around. *)
Fixpoint chunked_loop (fuel : nat) (p : P) : outcome (P * bool) :=
  match fuel with
  | O => OutOfFuel
  | S fuel =>
      let '(p, ok) := if (chunk_size_ p =? kInvalidLength)%N then ParseChunkSize p
                      else (p, true) in
      if negb ok then Ret (p, false)
      else if (chunk_size_ p =? 0)%N then Ret (Finish p, true)
      else if (wrap64 (chunk_size_ p + 2) <=? len (pending_data_ p))%N then
        let! c := append_count (p_content_ p) (pending_data_ p) (chunk_size_ p) in
        let p := set_p_content p c in
        let p := set_pending p
                   (erase (pending_data_ p) 0 (N.to_nat (wrap64 (chunk_size_ p + 2)))) in
        chunked_loop fuel (set_chunk_size p kInvalidLength)
      else if (len (pending_data_ p) <? chunk_size_ p)%N then
        let pending := pending_data_ p in
        let p := AppendContent p pending in
        let p := set_chunk_size p (chunk_size_ p - len pending)%N in
        Ret (set_pending p [], true)
      else Ret (p, true)
  end.
Definition ParseChunkedContent (p : P) (data : str) : outcome (P * bool) :=
  let p := set_pending p (pending_data_ p ++ data) in
  chunked_loop (S (length (pending_data_ p))) p.

(** *** Headers *)

(** [ParseHeaderLine].  [can_alloc n] says whether the allocator can provide
    a buffer of [n] bytes; beyond [max_size()] [reserve] throws in any case,
    and both exceptions are caught. *)
Definition ParseHeaderLine (can_alloc : N -> bool) (p : P) (line : str) : P * bool :=
  match Split2 line ":" with
  | None => (p, false)
  | Some (key, value) =>
      let set_header p := on_message p (fun m => Msg.SetHeader m key value) in
      if iequals key kContentLength then
        let p := set_content_length_parsed p in
        match StringToSizeT value 10 with
        | None => (p, false)
        | Some n =>
            let p := set_p_content_length p n in
            if ((max_size <? n) || negb (can_alloc n))%N then (p, false)
            else (set_header p, true)
        end
      else if iequals key kContentType then
        let content_type := CType.make value in
        if negb (CType.Valid content_type) then (p, false)
        else (set_header (on_message p (fun m => Msg.SetContentType_parsed m content_type)), true)
      else if iequals key kTransferEncoding then
        (set_header (if seqb value #"chunked" then set_chunked p else p), true)
      else (set_header p, true)
  end.

(** *** The virtual functions, and what calls them *)
Class Virtuals := {
  ParseStartLine : P -> str -> P * bool;
  ParseContent : P -> str -> outcome (P * bool)
}.
Context (can_alloc : N -> bool).
Context `{!Virtuals}.

(** The loop of [ParseHeaders]: the parser, [off] and [false] on a syntax
    error. *)
Fixpoint headers_loop (fuel : nat) (p : P) (off : nat) : outcome (P * nat * bool) :=
  match fuel with
  | O => OutOfFuel
  | S fuel =>
      match GetNextLine p off false with
      | None => Ret (p, off, true)
      | Some (line, p) =>
          let off := off + length line + 2 in
          match line with
          | [] => Ret (set_header_ended p, off, true)
          | _ =>
              let '(p, ok) :=
                if negb (start_line_parsed_ p) then
                  let p := set_start_line_parsed p in
                  let p := on_message p (fun m => Msg.set_start_line m line) in
                  ParseStartLine p line
                else ParseHeaderLine can_alloc p line in
              if ok then headers_loop fuel p off else Ret (p, off, false)
          end
      end
  end.
Definition ParseHeaders (p : P) : outcome (P * bool) :=
  let! (p, off, ok) := headers_loop (S (length (pending_data_ p))) p 0 in
  if ok then Ret (set_pending p (erase (pending_data_ p) 0 off), true) else Ret (p, false).

Definition Parse (p : P) (data : str) : outcome (P * bool) :=
  if header_ended_ p then ParseContent p data
  else
    let p := set_pending p (pending_data_ p ++ data) in
    let! (p, ok) := ParseHeaders p in
    if negb ok then Ret (p, false)
    else if negb (header_ended_ p) then Ret (p, true)
    else ParseContent p [].

(** A connection feeds the parser one read after the other, and stops at the
    first error and when the parser has finished. *)
Fixpoint ParseAll (p : P) (reads : list str) : outcome (P * bool) :=
  match reads with
  | [] => Ret (p, true)
  | d :: reads' =>
      let! (p, ok) := Parse p d in
      if negb ok || finished_ p then Ret (p, ok) else ParseAll p reads'
  end.
End Base.
Arguments Virtuals : clear implicits.

(** ** [class RequestParser] *)
Inductive Step := kStart | kBoundaryParsed | kHeadersParsed | kEnded.
#[global] Instance Step_eq_dec : EqDecision Step.
Proof. solve_decision. Defined.

(** The members [step_] and [part_]; a null pointer is [None]. *)
Record Multipart := mkMultipart { step_ : Step; part_ : option FormPart }.

(** [strncmp(a, b, n) == 0]: [a] ends with a NUL byte that is not part of it;
    reading [b] past its end yields the NUL of the string it belongs to. *)
Fixpoint strncmp_eq (a b : str) (n : nat) : bool :=
  match n with
  | O => true
  | S n =>
      match a, b with
      | x :: a, y :: b => if ceqb x y then ceqb x "000" || strncmp_eq a b n else false
      | [], [] => true
      | [], y :: _ => ceqb y "000"
      | x :: _, [] => ceqb x "000"
      end
  end.

Module ReqParser.
Abbreviation P := (Parser Request Multipart).
Definition make (r : Request) : P := Parser_make r (mkMultipart kStart None).
Definition set_step (p : P) (s : Step) : P := set_derived p (mkMultipart s (part_ (derived p))).
Definition set_part (p : P) (f : option FormPart) : P :=
  set_derived p (mkMultipart (step_ (derived p)) f).
(** [Init] resets the members of [Parser] only. *)
Definition Init (p : P) (r : Request) : P := Parser_Init p r.

Definition ParseStartLine (p : P) (line : str) : P * bool :=
  match split_on (fun c => ceqb c " ") true line with
  | [method; url; _] =>
      (set_message p (Req.set_url (Req.set_method (message_ p) method) url), true)
  | _ => (p, false)
  end.

(** The part headers read so far are applied to [part_] line by line, also
    when more data is needed or a later line is wrong. *)
Inductive part_headers := PhEnded | PhNeedMore | PhError.
Fixpoint part_headers_loop (fuel : nat) (p : P) (part : FormPart) (off : nat)
    : outcome (FormPart * nat * part_headers) :=
  match fuel with
  | O => OutOfFuel
  | S fuel =>
      match GetNextLine p off false with
      | None => Ret (part, off, PhNeedMore)
      | Some (line, p) =>
          let off := off + length line + 2 in
          match line with
          | [] => Ret (part, off, PhEnded)
          | _ =>
              match Split2 line ":" with
              | None => Ret (part, off, PhError)
              | Some (key, value) =>
                  if iequals key kContentDisposition then
                    let cd := CDisp.make value in
                    if negb (cd_valid_ cd) then Ret (part, off, PhError)
                    else part_headers_loop fuel p
                           (Part.set_file_name (Part.set_name part (cd_name_ cd))
                              (cd_file_name_ cd)) off
                  else part_headers_loop fuel p part off
              end
          end
      end
  end.
Definition ParsePartHeaders (p : P) (part : FormPart) : outcome (P * part_headers) :=
  let! (part, off, r) := part_headers_loop (S (length (pending_data_ p))) p part 0 in
  let p := set_part p (Some part) in
  match r with
  | PhEnded => Ret (set_pending p (erase (pending_data_ p) 0 off), r)
  | _ => Ret (p, r)
  end.

(** [IsBoundary(str, off, count, end)] on the line [str.substr(off, count)]:
    the result, and whether [*end] is set to true. *)
Definition IsBoundary (boundary line : str) : bool * bool :=
  let count := length line in
  if negb (count =? length boundary + 2) && negb (count =? length boundary + 4) then
    (false, false)
  else if negb (prefixb #"--" line) then (false, false)
  else
    let closing := count =? length boundary + 4 in
    if closing && negb (prefixb #"--" (rev line)) then (false, false)
    else (strncmp_eq boundary (drop 2 line) (length boundary), closing).

Fixpoint boundary_loop (fuel : nat) (boundary pending : str) (off : nat) (ended : bool)
    : outcome (option (nat * nat) * bool) :=
  match fuel with
  | O => OutOfFuel
  | S fuel =>
      match find_from kCRLF pending off with
      | None => Ret (None, ended)
      | Some pos =>
          let count := pos - off in
          if count =? 0 then boundary_loop fuel boundary pending (pos + 2) ended
          else
            let '(found, closing) := IsBoundary boundary (substr pending off count) in
            let ended := closing || ended in
            if found then Ret (Some (off, count), ended)
            else boundary_loop fuel boundary pending (pos + 2) ended
      end
  end.
(** [GetNextBoundaryLine]: [Some (off, count)] when it returns true, and the
    value of [*ended] (initially false) afterwards. *)
Definition GetNextBoundaryLine (boundary pending : str)
    : outcome (option (nat * nat) * bool) :=
  boundary_loop (S (length pending)) boundary pending 0 false.

Definition boundary (p : P) : str :=
  CType.boundary (content_type_ (req_message (message_ p))).

(** One pass through the body of the loop of [ParseMultipartContent]:
    [continue] (or falling through to the next pass), [break], or
    [return false]. *)
Inductive pass := Continue (p : P) | Break (p : P) | ReturnFalse (p : P).
Definition multipart_pass (p : P) : outcome pass :=
  match pending_data_ p with
  | [] => Ret (Break p)
  | _ =>
    match step_ (derived p) with
    | kStart =>
        match GetNextLine p 0 true with
        | None => Ret (Break p)
        | Some (line, p) =>
            if negb (fst (IsBoundary (boundary p) line)) then Ret (ReturnFalse p)
            else Ret (Continue (set_step p kBoundaryParsed))
        end
    | kBoundaryParsed =>
        let part := match part_ (derived p) with None => FormPart_empty | Some part => part end in
        let! (p, r) := ParsePartHeaders p part in
        Ret (match r with
             | PhEnded => Continue (set_step p kHeadersParsed)
             | PhNeedMore => Break p
             | PhError => ReturnFalse p
             end)
    | kHeadersParsed =>
        let! (found, ended) := GetNextBoundaryLine (boundary p) (pending_data_ p) in
        match found with
        | None => Ret (Break p)
        | Some (off, count) =>
            if off <=? 2 then Ret (ReturnFalse p)
            else
              let part := match part_ (derived p) with
                          | None => FormPart_empty | Some part => part end in
              let part := Part.AppendData part (take (off - 2) (pending_data_ p)) in
              let p := set_pending p (erase (pending_data_ p) 0 (off + count + 2)) in
              let p := set_message p (Req.AddFormPart (message_ p) part) in
              let p := set_part p None in
              Ret (if ended then Break (set_step p kEnded)
                   else Continue (set_step p kBoundaryParsed))
        end
    | kEnded => Ret (Continue p)
    end
  end.
Fixpoint multipart_loop (fuel : nat) (p : P) : outcome (P * bool) :=
  match fuel with
  | O => OutOfFuel
  | S fuel =>
      let! r := multipart_pass p in
      match r with
      | Continue p => multipart_loop fuel p
      | ReturnFalse p => Ret (p, false)
      | Break p =>
          Ret (if decide (step_ (derived p) = kEnded) then Finish p else p, true)
      end
  end.
Definition ParseMultipartContent (p : P) (data : str) : outcome (P * bool) :=
  let p := set_pending p (pending_data_ p ++ data) in
  if negb (content_length_parsed_ p) || (p_content_length_ p =? kInvalidLength)%N then
    Ret (p, false)
  else multipart_loop (S (length (pending_data_ p))) p.

Definition ParseContent (p : P) (data : str) : outcome (P * bool) :=
  if chunked_ p then ParseChunkedContent p data
  else if multipart_ (content_type_ (req_message (message_ p))) then
    ParseMultipartContent p data
  else Ret (ParseFixedContent p data).
End ReqParser.
#[export] Instance ReqParser_Virtuals : Virtuals Request Multipart :=
  {| ParseStartLine := ReqParser.ParseStartLine; ParseContent := ReqParser.ParseContent |}.

(** ** [class ResponseParser] *)
Module RespParser.
Abbreviation P := (Parser Response unit).
Definition make (r : Response) : P := Parser_make r tt.
Definition Init (p : P) (r : Response) : P := Parser_Init p r.
Definition ParseStartLine (p : P) (line : str) : P * bool :=
  match split_on (fun c => ceqb c " ") true line with
  | _ :: status_str :: _ :: _ =>
      match stoi status_str with
      | Some n => (set_message p (Resp.set_status (message_ p) n), true)
      | None => (p, false)
      end
  | _ => (p, false)
  end.
Definition ParseContent (p : P) (data : str) : outcome (P * bool) :=
  if chunked_ p then ParseChunkedContent p data else Ret (ParseFixedContent p data).
End RespParser.
#[export] Instance RespParser_Virtuals : Virtuals Response unit :=
  {| ParseStartLine := RespParser.ParseStartLine; ParseContent := RespParser.ParseContent |}.
