(* ===== verification/ParserLaws.v ===== *)
(** * Correctness of the incremental parsers

    The bytes of a message reach the parser in pieces.  The first section is
    about any loop that consumes a growing buffer; the headers and the
    multipart body are instances, and the virtual functions promise the same of
    the content ([Lawful]).  The theorems are stated for both derived classes. *)
From Stdlib Require Import Ascii String.
From stdpp Require Import base tactics list numbers option strings.
From S2P Require Import Prelude Globals Common Url Message Parser.

(** ** Loops over a growing buffer *)
Inductive verdict (P : Type) := Cont (p : P) | Wait (p : P) | Done (p : P) (ok : bool).
Arguments Cont {P}.
Arguments Wait {P}.
Arguments Done {P}.

Section Incremental.
Context {P : Type} (pend : P -> str) (add : P -> str -> P) (inv : P -> Prop).
Context (pass : P -> verdict P).

Fixpoint run (fuel : nat) (p : P) : option (verdict P) :=
  match fuel with
  | O => None
  | S fuel => match pass p with Cont p' => run fuel p' | v => Some v end
  end.
Definition exec (p : P) : option (verdict P) := run (S (length (pend p))) p.

(** A pass that got somewhere does the same when more bytes follow, and a pass
    that waits leaves a state from which the next pass does the same. *)
Record Incremental := {
  inv_add : forall p d, inv p -> inv (add p d);
  pend_add : forall p d, pend (add p d) = pend p ++ d;
  pass_cont : forall p p', inv p -> pass p = Cont p' ->
    inv p' /\ length (pend p') < length (pend p) /\
    forall d, pass (add p d) = Cont (add p' d);
  pass_wait : forall p p', inv p -> pass p = Wait p' ->
    inv p' /\ forall d, pass (add p d) = pass (add p' d);
  pass_done : forall p p' ok, inv p -> pass p = Done p' ok ->
    forall d, exists p'', pass (add p d) = Done p'' ok /\ (ok = true -> p'' = add p' d)
}.
Context (I : Incremental).

Lemma run_fuel f : forall p f', inv p -> length (pend p) < f -> length (pend p) < f' ->
  run f p = run f' p.
Proof.
  induction f as [|f IH]; intros p f' Hi H H'; [lia|].
  destruct f' as [|f']; [lia|]. cbn [run]. destruct (pass p) as [p'| |] eqn:E; [|done..].
  destruct (pass_cont I _ _ Hi E) as (Hi' & Hl & _). apply IH; [done|lia|lia].
Qed.

Lemma exec_cont p p' : inv p -> pass p = Cont p' -> exec p = exec p'.
Proof.
  intros Hi E. unfold exec at 1. cbn [run]. rewrite E.
  destruct (pass_cont I _ _ Hi E) as (Hi' & Hl & _). apply run_fuel; [done|lia|lia].
Qed.

(** Induction on the passes of a loop. *)
Lemma exec_ind (Q : P -> verdict P -> Prop) :
  (forall p p' v, inv p -> pass p = Cont p' -> exec p' = Some v -> Q p' v -> Q p v) ->
  (forall p p', inv p -> pass p = Wait p' -> Q p (Wait p')) ->
  (forall p p' ok, inv p -> pass p = Done p' ok -> Q p (Done p' ok)) ->
  forall p, inv p -> exists v, exec p = Some v /\ Q p v.
Proof.
  intros H1 H2 H3 p. remember (length (pend p)) as n eqn:Hn. revert p Hn.
  induction (lt_wf n) as [n _ IH]. intros p -> Hi.
  destruct (pass p) as [p'|p'|p' ok] eqn:E.
  - destruct (pass_cont I _ _ Hi E) as (Hi' & Hl & _).
    destruct (IH _ Hl p' eq_refl Hi') as (v & Hv & HQ). exists v.
    rewrite (exec_cont _ _ Hi E). split; [done|]. by eapply H1.
  - exists (Wait p'). unfold exec. cbn [run]. rewrite E. eauto.
  - exists (Done p' ok). unfold exec. cbn [run]. rewrite E. eauto.
Qed.

(** The loop comes to an end; what it does when more bytes arrive. *)
Lemma exec_more p d : inv p ->
  exists v, exec p = Some v /\
  match v with
  | Cont _ => False
  | Wait p' => inv p' /\ exec (add p d) = exec (add p' d)
  | Done p' ok => exists p'', exec (add p d) = Some (Done p'' ok) /\ (ok = true -> p'' = add p' d)
  end.
Proof.
  revert p. apply (exec_ind (fun p v => match v with
    | Cont _ => False
    | Wait p' => inv p' /\ exec (add p d) = exec (add p' d)
    | Done p' ok => exists p'', exec (add p d) = Some (Done p'' ok) /\ (ok = true -> p'' = add p' d)
    end)).
  - intros p p' v Hi E _ Hv. destruct (pass_cont I _ _ Hi E) as (_ & _ & Ha).
    by rewrite (exec_cont (add p d) (add p' d) (inv_add I _ _ Hi) (Ha d)).
  - intros p p' Hi E. destruct (pass_wait I _ _ Hi E) as (Hi' & Ha). split; [done|].
    specialize (Ha d).
    destruct (pass (add p d)) as [q|q|q ok] eqn:F.
    + rewrite (exec_cont _ _ (inv_add I _ _ Hi) F).
      by rewrite (exec_cont _ _ (inv_add I _ _ Hi') (eq_sym Ha)).
    + unfold exec. cbn [run]. by rewrite F, <- Ha.
    + unfold exec. cbn [run]. by rewrite F, <- Ha.
  - intros p p' ok Hi E. destruct (pass_done I _ _ _ Hi E d) as (p'' & E' & H).
    exists p''. unfold exec. cbn [run]. by rewrite E'.
Qed.
End Incremental.
Arguments exec_more {P pend add inv pass}.
Arguments exec_cont {P pend add inv pass}.
Arguments run_fuel {P pend add inv pass}.

(** ** Lines of the pending data *)
Lemma find_from_app p s t off i :
  find_from p s off = Some i -> find_from p (s ++ t) off = Some i.
Proof.
  intros (j & -> & H)%find_from_drop. unfold find_from. rewrite drop_app.
  by rewrite (find_str_app _ _ _ _ H).
Qed.
Lemma find_from_bounds s off i :
  find_from kCRLF s off = Some i -> off <= i /\ i + 2 <= length s.
Proof.
  intros (j & -> & H)%find_from_drop. apply find_str_length in H.
  rewrite length_drop in H. change (length kCRLF) with 2 in H. lia.
Qed.
Lemma substr_app (s t : str) off n :
  off + n <= length s -> substr (s ++ t) off n = substr s off n.
Proof.
  intros H. unfold substr. rewrite drop_app_le by lia. rewrite take_app_le; [done|].
  rewrite length_drop. lia.
Qed.
Lemma erase_app (s t : str) off n :
  off + n <= length s -> erase (s ++ t) off n = erase s off n ++ t.
Proof.
  intros H. unfold erase. rewrite take_app_le, drop_app_le by lia. by rewrite app_assoc.
Qed.
Lemma erase_0 (s : str) n : erase s 0 n = drop n s.
Proof. done. Qed.

Section Lines.
Context {M X : Type} `{!MessageLike M}.
Implicit Types p : Parser M X.
Definition addp p (d : str) : Parser M X := set_pending p (pending_data_ p ++ d).

Lemma addp_nil p : addp p [] = p.
Proof. unfold addp. rewrite app_nil_r. by destruct p. Qed.
Lemma addp_addp p a b : addp (addp p a) b = addp p (a ++ b).
Proof. unfold addp. cbn. by rewrite app_assoc. Qed.

Lemma GetNextLine_add p off e d line p' :
  GetNextLine p off e = Some (line, p') ->
  GetNextLine (addp p d) off e = Some (line, addp p' d) /\
  off + length line + 2 <= length (pending_data_ p) /\
  (e = true -> length (pending_data_ p') + length line + 2 = length (pending_data_ p)).
Proof.
  unfold GetNextLine. destruct (find_from kCRLF (pending_data_ p) off) as [pos|] eqn:E; [|done].
  pose proof (find_from_bounds _ _ _ E) as Hb. intros [= <- <-].
  cbn [addp set_pending pending_data_]. rewrite (find_from_app _ _ d _ _ E).
  assert (length (substr (pending_data_ p) off (pos - off)) = pos - off) as Hl.
  { unfold substr. rewrite length_take, length_drop. lia. }
  rewrite substr_app by lia. split_and!.
  - do 2 f_equal. destruct e; [|done]. unfold addp. cbn. by rewrite erase_app by lia.
  - lia.
  - intros ->. cbn. unfold erase. rewrite length_app, length_take, length_drop. lia.
Qed.
End Lines.

(** ** What the base class relies on

    [ParseStartLine] writes to the message only, and [ParseContent] (for content
    that is not chunked) returns, and gives the same result however the bytes
    are spread over the pending data and the calls.  The result is observed up to
    the bytes a finished parser leaves in its pending data, and on an error only
    the error. *)
Definition observe {M X} (o : outcome (Parser M X * bool)) : outcome (option (Parser M X)) :=
  match o with
  | Ret (p, true) => Ret (Some (if finished_ p then set_pending p [] else p))
  | Ret (_, false) => Ret None
  | Throw e => Throw e
  | OutOfFuel => OutOfFuel
  end.

Class Lawful (M X : Type) `{!MessageLike M} `{V : !Virtuals M X} := {
  inv : X -> Prop;
  start_line_of : M -> str -> M * bool;
  ParseStartLine_law (p : Parser M X) l :
    ParseStartLine p l = (set_message p (fst (start_line_of (message_ p) l)),
                          snd (start_line_of (message_ p) l));
  ParseContent_moved (p : Parser M X) a b :
    chunked_ p = false -> inv (derived p) ->
    observe (ParseContent (addp p a) b) = observe (ParseContent p (a ++ b));
  ParseContent_more (p p1 : Parser M X) a :
    chunked_ p = false -> inv (derived p) ->
    ParseContent p a = Ret (p1, true) -> finished_ p1 = false ->
    chunked_ p1 = false /\ header_ended_ p1 = header_ended_ p /\ inv (derived p1) /\
    forall b, observe (ParseContent p1 b) = observe (ParseContent p (a ++ b));
  ParseContent_chunked (p p1 : Parser M X) a ok :
    ParseContent p a = Ret (p1, ok) -> chunked_ p1 = chunked_ p;
  ParseContent_returns (p : Parser M X) a :
    inv (derived p) ->
    (exists p1 ok, ParseContent p a = Ret (p1, ok) /\
       (ok = true -> finished_ p1 = false -> inv (derived p1))) \/
    (chunked_ p = true /\ ParseContent p a = Throw LengthError)
}.

Section Headers.
Context {M X : Type} `{!MessageLike M} `{!Virtuals M X} `{!Lawful M X}.
Context (can_alloc : N -> bool).
Implicit Types p : Parser M X.

(** What a line that is not empty does. *)
Definition handle_line p (line : str) : Parser M X * bool :=
  if negb (start_line_parsed_ p) then
    ParseStartLine (on_message (set_start_line_parsed p) (fun m => Msg.set_start_line m line)) line
  else ParseHeaderLine can_alloc p line.

(** Handling a line neither reads nor writes the pending data. *)
Lemma handle_line_pending p line d :
  handle_line (set_pending p d) line =
  (set_pending (fst (handle_line p line)) d, snd (handle_line p line)).
Proof.
  unfold handle_line. cbn [set_pending start_line_parsed_].
  destruct (start_line_parsed_ p); cbn [negb].
  - unfold ParseHeaderLine. destruct (Split2 line ":") as [[key value]|]; [|done].
    destruct (iequals key kContentLength).
    { destruct (StringToSizeT value 10); [|done]. by destruct (_ || _)%bool. }
    destruct (iequals key kContentType).
    { by destruct (negb _). }
    destruct (iequals key kTransferEncoding); [|done]. by destruct (seqb value _).
  - by rewrite !ParseStartLine_law.
Qed.
Lemma handle_line_frame p line p' ok :
  handle_line p line = (p', ok) ->
  pending_data_ p' = pending_data_ p /\ header_ended_ p' = header_ended_ p /\
  derived p' = derived p /\ finished_ p' = finished_ p /\
  (chunked_ p = true -> chunked_ p' = true).
Proof.
  unfold handle_line. destruct (start_line_parsed_ p); cbn [negb].
  - unfold ParseHeaderLine. destruct (Split2 line ":") as [[key value]|]; [|by intros [= <- _]].
    destruct (iequals key kContentLength).
    { destruct (StringToSizeT value 10); [|by intros [= <- _]].
      destruct (_ || _)%bool; by intros [= <- _]. }
    destruct (iequals key kContentType).
    { destruct (negb _); by intros [= <- _]. }
    destruct (iequals key kTransferEncoding); [destruct (seqb value _)|]; by intros [= <- _].
  - rewrite ParseStartLine_law. by intros [= <- _].
Qed.

(** A pass over one line that consumes it. *)
Definition header_pass p : verdict (Parser M X) :=
  match GetNextLine p 0 true with
  | None => Wait p
  | Some ([], p) => Done (set_header_ended p) true
  | Some (line, p) =>
      let '(p, ok) := handle_line p line in if ok then Cont p else Done p false
  end.
Definition header_inv p : Prop := header_ended_ p = false.

Lemma header_incremental : Incremental pending_data_ addp header_inv header_pass.
Proof.
  split; [done|done|..].
  - intros p p' Hi. unfold header_pass. destruct (GetNextLine p 0 true) as [[line q]|] eqn:E; [|done].
    destruct (GetNextLine_add _ _ _ [] _ _ E) as (_ & _ & Hl). specialize (Hl eq_refl).
    assert (header_ended_ q = false) as Hq.
    { unfold GetNextLine in E. destruct (find_from _ _ _); [|done]. by injection E as _ <-. }
    destruct line as [|c line]; [done|].
    destruct (handle_line q (c :: line)) as [q' ok] eqn:F. destruct ok; [|done].
    intros [= ->]. destruct (handle_line_frame _ _ _ _ F) as (Hp & He & _).
    split_and!; [unfold header_inv; congruence | rewrite Hp; lia |].
    intros d. destruct (GetNextLine_add _ _ _ d _ _ E) as (-> & _ & _).
    unfold addp at 1. by rewrite handle_line_pending, F, <- Hp.
  - intros p p' Hi. unfold header_pass. destruct (GetNextLine p 0 true) as [[line q]|] eqn:E.
    + destruct line as [|c line]; [done|]. by destruct (handle_line q (c :: line)) as [? []].
    + intros [= <-]. done.
  - intros p p' ok Hi. unfold header_pass. destruct (GetNextLine p 0 true) as [[line q]|] eqn:E; [|done].
    intros H d. destruct (GetNextLine_add _ _ _ d _ _ E) as (-> & _ & _).
    destruct line as [|c line]; [injection H as <- <-; eauto|].
    destruct (handle_line q (c :: line)) as [q' ok'] eqn:F. destruct ok'; [done|].
    injection H as <- <-. unfold addp at 1. rewrite handle_line_pending, F.
    by eexists.
Qed.

(** The loop of the code, which moves an offset and erases at the end, against
    the loop that consumes line by line. *)
Lemma headers_loop_run f : forall p off, header_ended_ p = false ->
  run header_pass f (set_pending p (drop off (pending_data_ p))) =
  match headers_loop can_alloc f p off with
  | Ret (p', off', true) =>
      let q := set_pending p' (drop off' (pending_data_ p')) in
      Some (if header_ended_ p' then Done q true else Wait q)
  | Ret (p', off', false) => Some (Done (set_pending p' (drop off' (pending_data_ p'))) false)
  | _ => None
  end.
Proof.
  induction f as [|f IH]; intros p off He; [done|]. cbn [run headers_loop].
  unfold header_pass, GetNextLine. cbn [set_pending pending_data_].
  unfold find_from. rewrite drop_0.
  destruct (find_str kCRLF (drop off (pending_data_ p))) as [j|] eqn:E; cbn [option_map];
    [|by rewrite He].
  replace (0 + j - 0) with j by lia. replace (off + j - off) with j by lia.
  unfold substr. rewrite drop_0, erase_0.
  assert (length (take j (drop off (pending_data_ p))) = j) as Hl.
  { apply find_str_length in E. rewrite length_take. change (length kCRLF) with 2 in E. lia. }
  rewrite Hl, drop_drop.
  replace (j + 2 + off) with (off + j + 2) by lia. replace (off + (j + 2)) with (off + j + 2) by lia.
  destruct (take j (drop off (pending_data_ p))) as [|c line]; [done|].
  fold (handle_line p (c :: line)). set (q := set_pending p _).
  change (set_pending q (drop (off + j + 2) (pending_data_ p)))
    with (set_pending p (drop (off + j + 2) (pending_data_ p))).
  rewrite handle_line_pending.
  destruct (handle_line p (c :: line)) as [p' ok] eqn:F. cbn [fst snd].
  destruct (handle_line_frame _ _ _ _ F) as (Hp & He' & _).
  rewrite <- Hp. destruct ok; [|done]. rewrite IH by congruence. done.
Qed.

Lemma ParseHeaders_exec p : header_ended_ p = false ->
  match exec pending_data_ header_pass p with
  | Some (Wait p') => ParseHeaders can_alloc p = Ret (p', true) /\ header_ended_ p' = false
  | Some (Done p' true) => ParseHeaders can_alloc p = Ret (p', true) /\ header_ended_ p' = true
  | Some (Done _ false) => exists p', ParseHeaders can_alloc p = Ret (p', false)
  | _ => False
  end.
Proof.
  intros He.
  destruct (exec_more header_incremental p [] He) as (v & Hv & Hcase).
  rewrite Hv. unfold exec in Hv.
  pose proof (headers_loop_run (S (length (pending_data_ p))) p 0 He) as H.
  rewrite drop_0 in H. replace (set_pending p (pending_data_ p)) with p in H by (by destruct p).
  rewrite Hv in H. unfold ParseHeaders.
  destruct (headers_loop can_alloc _ p 0) as [[[p' off'] ok]| |]; [|done..].
  cbn [obind]. destruct ok.
  - rewrite erase_0. destruct (header_ended_ p') eqn:He'; injection H as ->; done.
  - injection H as ->. eauto.
Qed.

Lemma exec_frame p p' :
  header_ended_ p = false ->
  (exec pending_data_ header_pass p = Some (Wait p') \/
   exec pending_data_ header_pass p = Some (Done p' true)) ->
  derived p' = derived p /\ finished_ p' = finished_ p /\
  (chunked_ p = true -> chunked_ p' = true).
Proof.
  intros He H.
  destruct (exec_ind _ _ _ _ header_incremental (fun p v =>
    match v with
    | Wait p' | Done p' true =>
        derived p' = derived p /\ finished_ p' = finished_ p /\
        (chunked_ p = true -> chunked_ p' = true)
    | _ => True
    end)) with (p := p) as (v & Hv & HQ); [| | |done|].
  - intros q q' v Hi Hc _. unfold header_pass in Hc.
    destruct (GetNextLine q 0 true) as [[line r]|] eqn:E; [|done].
    unfold GetNextLine in E. destruct (find_from _ _ _); [|done]. injection E as El <-.
    destruct line as [|c line]; [done|].
    destruct (handle_line _ _) as [r' ok] eqn:F. destruct ok; [|done]. injection Hc as ->.
    destruct (handle_line_frame _ _ _ _ F) as (_ & _ & Hd & Hf & Hk). cbn in Hd, Hf, Hk.
    destruct v as [|w|w []]; try done; rewrite Hd, Hf; naive_solver.
  - intros q q' Hi Hc. unfold header_pass in Hc.
    destruct (GetNextLine q 0 true) as [[[|c line] r]|]; [done| |by injection Hc as ->].
    by destruct (handle_line _ _) as [? []].
  - intros q q' [] Hi Hc; [|done]. unfold header_pass, GetNextLine in Hc.
    destruct (find_from _ _ _); [|done]. destruct (substr _ _ _); [by injection Hc as <-|].
    by destruct (handle_line _ _) as [? []].
  - by destruct H as [H|H]; rewrite H in Hv; injection Hv as <-.
Qed.

(** ** One call of [Parse] *)
Lemma Parse_exec p d : header_ended_ p = false ->
  observe (Parse can_alloc p d) =
  match exec pending_data_ header_pass (addp p d) with
  | Some (Wait p') => observe (Ret (p', true))
  | Some (Done p' true) => observe (ParseContent p' [])
  | _ => Ret None
  end.
Proof.
  intros He. unfold Parse. rewrite He. fold (addp p d).
  pose proof (ParseHeaders_exec (addp p d) He) as H.
  destruct (exec pending_data_ header_pass (addp p d)) as [[q|q|q []]|]; [done|..|done].
  - destruct H as [-> Hq]. cbn [obind negb]. by rewrite Hq.
  - destruct H as [-> Hq]. cbn [obind negb]. by rewrite Hq.
  - by destruct H as [q' ->].
Qed.

Lemma Parse_more p p1 a b :
  inv (derived p) -> Parse can_alloc p a = Ret (p1, true) ->
  finished_ p1 = false -> chunked_ p1 = false ->
  inv (derived p1) /\ chunked_ p = false /\
  observe (Parse can_alloc p1 b) = observe (Parse can_alloc p (a ++ b)).
Proof.
  intros Hi H Hf Hk. destruct (header_ended_ p) eqn:He.
  { unfold Parse in H |- *. rewrite He in H |- *.
    pose proof (ParseContent_chunked _ _ _ _ H) as Hc. rewrite Hk in Hc. symmetry in Hc.
    destruct (ParseContent_more _ _ _ Hc Hi H Hf) as (_ & -> & ? & ?). by rewrite He. }
  rewrite (Parse_exec p (a ++ b)) by done. rewrite <- addp_addp.
  unfold Parse in H. rewrite He in H. fold (addp p a) in H.
  pose proof (ParseHeaders_exec (addp p a) He) as HH.
  destruct (exec_more header_incremental (addp p a) b He) as (v & Hv & Hcase).
  rewrite Hv in HH.
  destruct v as [q|q|q []]; [done|..].
  - destruct HH as [HH Hq]. rewrite HH in H. cbn [obind negb] in H. rewrite Hq in H.
    injection H as ->. destruct Hcase as [_ ->].
    destruct (exec_frame (addp p a) p1 He (or_introl Hv)) as (Hd & _ & Hch).
    split_and!; [by rewrite Hd| |by rewrite (Parse_exec p1 b Hq)].
    apply not_true_is_false. intros Hc. by rewrite Hch in Hk.
  - destruct HH as [HH Hq]. rewrite HH in H. cbn [obind negb] in H. rewrite Hq in H.
    destruct (exec_frame (addp p a) q He (or_intror Hv)) as (Hd & _ & Hch).
    destruct Hcase as (q' & -> & Hq'). rewrite (Hq' eq_refl).
    pose proof (ParseContent_chunked _ _ _ _ H) as Hc. rewrite Hk in Hc. symmetry in Hc.
    assert (inv (derived q)) as Hiq by (by rewrite Hd).
    destruct (ParseContent_more _ _ _ Hc Hiq H Hf) as (_ & He1 & ? & Hm).
    split_and!; [done| |].
    + apply not_true_is_false. intros Hc'. by rewrite Hch in Hc.
    + unfold Parse. rewrite He1, Hq, Hm.
      rewrite (ParseContent_moved q b [] Hc Hiq). by rewrite app_nil_r.
  - destruct HH as [q' HH]. by rewrite HH in H.
Qed.

(** ** A sequence of reads *)
Lemma Parse_chunked p p1 d :
  Parse can_alloc p d = Ret (p1, true) -> chunked_ p = true -> chunked_ p1 = true.
Proof.
  unfold Parse. destruct (header_ended_ p) eqn:He.
  { by intros ->%ParseContent_chunked. }
  fold (addp p d). pose proof (ParseHeaders_exec (addp p d) He) as HH.
  pose proof (fun q H => exec_frame (addp p d) q He H) as Hfr.
  destruct (exec pending_data_ header_pass (addp p d)) as [[q|q|q []]|]; try done.
  - destruct HH as [-> Hq]. cbn [obind negb]. rewrite Hq. intros [= ->].
    apply (Hfr p1 (or_introl eq_refl)).
  - destruct HH as [-> Hq]. cbn [obind negb]. rewrite Hq. intros ->%ParseContent_chunked.
    apply (Hfr q (or_intror eq_refl)).
  - by destruct HH as [? ->].
Qed.
Lemma ParseAll_chunked ds : forall p p1,
  ParseAll can_alloc p ds = Ret (p1, true) -> chunked_ p = true -> chunked_ p1 = true.
Proof.
  induction ds as [|d ds IH]; intros p p1 H Hk; cbn [ParseAll] in H.
  { by injection H as ->. }
  apply obind_Ret in H as ([q []] & Hq & H); [|done]. apply Parse_chunked in Hq; [|done].
  cbn [negb orb] in H. destruct (finished_ q); [by injection H as ->|by eapply IH].
Qed.

Lemma ParseAll_more ds : forall p p1 d,
  inv (derived p) -> ParseAll can_alloc p ds = Ret (p1, true) ->
  finished_ p1 = false -> chunked_ p1 = false ->
  inv (derived p1) /\ chunked_ p = false /\
  observe (Parse can_alloc p1 d) = observe (Parse can_alloc p (concat ds ++ d)).
Proof.
  induction ds as [|d0 ds IH]; intros p p1 d Hi H Hf Hk; cbn [ParseAll concat] in *.
  { by injection H as ->. }
  apply obind_Ret in H as ([q []] & Hq & H); [|done]. cbn [negb orb] in H.
  destruct (finished_ q) eqn:Hfq; [by injection H as ->; rewrite Hfq in Hf|].
  assert (chunked_ q = false) as Hkq.
  { apply not_true_is_false. intros Hc. by rewrite (ParseAll_chunked _ _ _ H Hc) in Hk. }
  destruct (Parse_more p q d0 (concat ds ++ d) Hi Hq Hfq Hkq) as (Hiq & Hkp & Hm').
  destruct (IH q p1 d Hiq H Hf Hk) as (Hi1 & _ & Hm).
  split_and!; [done..|]. by rewrite Hm, Hm', <- app_assoc.
Qed.

(** A call returns, or throws while it appends a chunk. *)
Lemma Parse_returns p d : inv (derived p) ->
  (exists p1 ok, Parse can_alloc p d = Ret (p1, ok) /\
     (ok = true -> finished_ p1 = false -> inv (derived p1))) \/
  Parse can_alloc p d = Throw LengthError.
Proof.
  intros Hi. unfold Parse. destruct (header_ended_ p) eqn:He.
  { destruct (ParseContent_returns p d Hi) as [?|[_ ?]]; [by left|by right]. }
  fold (addp p d). pose proof (ParseHeaders_exec (addp p d) He) as HH.
  pose proof (fun q H => exec_frame (addp p d) q He H) as Hfr.
  destruct (exec pending_data_ header_pass (addp p d)) as [[q|q|q []]|]; [done|..|done].
  - destruct HH as [-> Hq]. cbn [obind negb]. rewrite Hq. left. exists q, true.
    destruct (Hfr q (or_introl eq_refl)) as (-> & _). done.
  - destruct HH as [-> Hq]. cbn [obind negb]. rewrite Hq.
    destruct (Hfr q (or_intror eq_refl)) as (Hd & _).
    destruct (ParseContent_returns q []) as [?|[_ ?]]; [by rewrite Hd|by left|by right].
  - destruct HH as [q' ->]. left. by exists q', false.
Qed.
Lemma ParseAll_returns ds : forall p, inv (derived p) ->
  (exists p1 ok, ParseAll can_alloc p ds = Ret (p1, ok)) \/
  ParseAll can_alloc p ds = Throw LengthError.
Proof.
  induction ds as [|d ds IH]; intros p Hi; cbn [ParseAll]; [left; eauto|].
  destruct (Parse_returns p d Hi) as [(p1 & ok & -> & Hi1)| ->]; [|by right]. cbn [obind].
  destruct ok; cbn [negb orb]; [|left; eauto].
  destruct (finished_ p1); [left; eauto|]. by apply IH, Hi1.
Qed.
End Headers.

(** ** Content of a known length *)
Section Fixed.
Context {M X : Type} `{!MessageLike M}.
Implicit Types p : Parser M X.

Lemma Finish_set_pending p d : Finish (set_pending p d) = set_pending (Finish p) d.
Proof.
  unfold Finish. cbn [set_pending set_finished p_content_].
  destruct (p_content_ p); [done|]. unfold IsContentCompressed. cbn.
  by destruct (Msg.GetContentEncoding _).
Qed.
Lemma Finish_frame p :
  finished_ (Finish p) = true /\ chunked_ (Finish p) = chunked_ p /\
  header_ended_ (Finish p) = header_ended_ p /\ derived (Finish p) = derived p.
Proof.
  unfold Finish. cbn [set_finished p_content_]. destruct (p_content_ p); [done|].
  by destruct (negb (IsContentCompressed _)).
Qed.

(** The call puts all the bytes there are behind the content. *)
Definition fixed_collect p (data : str) : Parser M X :=
  set_p_content (set_pending p []) (p_content_ p ++ pending_data_ p ++ data).
Lemma ParseFixedContent_spec p data :
  ParseFixedContent p data =
  if negb (content_length_parsed_ p) then (Finish p, true)
  else if (p_content_length_ p =? kInvalidLength)%N then (p, false)
  else
    let q := fixed_collect p data in
    (if (p_content_length_ p <=? len (p_content_ q))%N then Finish q else q, true).
Proof.
  unfold ParseFixedContent. destruct (content_length_parsed_ p); cbn [negb]; [|done].
  destruct (p_content_length_ p =? kInvalidLength)%N eqn:E; [done|].
  assert (match pending_data_ p with
          | [] => p | pending => set_pending (AppendContent p pending) [] end =
          set_p_content (set_pending p []) (p_content_ p ++ pending_data_ p)) as ->.
  { destruct (pending_data_ p) as [|c d] eqn:F; [|done].
    rewrite app_nil_r. destruct p; cbn in *. by subst. }
  unfold AppendContent, IsContentFull. cbn. rewrite E. by rewrite <- app_assoc.
Qed.

Lemma fixed_moved p a b :
  observe (Ret (ParseFixedContent (addp p a) b)) = observe (Ret (ParseFixedContent p (a ++ b))).
Proof.
  rewrite !ParseFixedContent_spec. cbn [addp set_pending content_length_parsed_ p_content_length_].
  destruct (content_length_parsed_ p); cbn [negb].
  - destruct (p_content_length_ p =? _)%N; [done|].
    assert (fixed_collect (addp p a) b = fixed_collect p (a ++ b)) as ->; [|done].
    unfold fixed_collect. cbn. by rewrite <- app_assoc.
  - cbn [observe]. unfold addp. rewrite Finish_set_pending. cbn.
    destruct (Finish_frame p) as (-> & _). done.
Qed.
Lemma fixed_more p p1 a :
  ParseFixedContent p a = (p1, true) -> finished_ p1 = false ->
  p1 = fixed_collect p a /\
  forall b, observe (Ret (ParseFixedContent p1 b)) = observe (Ret (ParseFixedContent p (a ++ b))).
Proof.
  rewrite ParseFixedContent_spec. intros H Hf.
  destruct (content_length_parsed_ p) eqn:Hcp; cbn [negb] in H.
  2: { injection H as <-. by rewrite (proj1 (Finish_frame p)) in Hf. }
  destruct (p_content_length_ p =? _)%N eqn:Hcl; [done|]. cbv zeta in H.
  destruct (p_content_length_ p <=? _)%N eqn:Hle; injection H as <-.
  { by rewrite (proj1 (Finish_frame _)) in Hf. }
  split; [done|]. intros b. rewrite !ParseFixedContent_spec.
  cbn [fixed_collect set_p_content set_pending content_length_parsed_ p_content_length_].
  rewrite Hcp, Hcl. cbn [negb].
  assert (fixed_collect (fixed_collect p a) b = fixed_collect p (a ++ b)) as ->; [|done].
  unfold fixed_collect. cbn. by rewrite <- !app_assoc.
Qed.

Lemma ParseFixedContent_frame p a p1 ok :
  ParseFixedContent p a = (p1, ok) -> chunked_ p1 = chunked_ p /\ derived p1 = derived p.
Proof.
  rewrite ParseFixedContent_spec. destruct (negb _).
  { intros [= <- _]. pose proof (Finish_frame p). naive_solver. }
  destruct (p_content_length_ p =? _)%N; [by intros [= <- _]|]. cbv zeta.
  destruct (p_content_length_ p <=? _)%N; intros [= <- _]; [|done].
  pose proof (Finish_frame (fixed_collect p a)). naive_solver.
Qed.

(** ** Chunked content *)
Lemma ParseChunkSize_chunked p : chunked_ (fst (ParseChunkSize p)) = chunked_ p.
Proof.
  unfold ParseChunkSize, GetNextLine. destruct (find_from _ _ _); [|done].
  by destruct (StringToSizeT _ _).
Qed.
Lemma chunked_loop_chunked f : forall p p1 ok,
  chunked_loop f p = Ret (p1, ok) -> chunked_ p1 = chunked_ p.
Proof.
  induction f as [|f IH]; intros p p1 ok H; cbn [chunked_loop] in H; [done|].
  destruct (if (chunk_size_ p =? kInvalidLength)%N then ParseChunkSize p else (p, true))
    as [q okq] eqn:E.
  assert (chunked_ q = chunked_ p) as <-.
  { destruct (chunk_size_ p =? _)%N; [|by injection E as <- _].
    rewrite <- (ParseChunkSize_chunked p), E. done. }
  destruct (negb okq); [by injection H as <- _|].
  destruct (chunk_size_ q =? 0)%N.
  { injection H as <- _. apply (Finish_frame q). }
  destruct (wrap64 _ <=? _)%N.
  { apply obind_Ret in H as (c & _ & H). by apply IH in H. }
  destruct (len _ <? _)%N; by injection H as <- _.
Qed.

Lemma ParseChunkSize_frame p :
  derived (fst (ParseChunkSize p)) = derived p /\
  length (pending_data_ (fst (ParseChunkSize p))) <= length (pending_data_ p).
Proof.
  unfold ParseChunkSize. destruct (GetNextLine p 0 true) as [[line q]|] eqn:E; [|done].
  destruct (GetNextLine_add _ _ _ [] _ _ E) as (_ & _ & Hl). specialize (Hl eq_refl).
  assert (derived q = derived p) as <-.
  { unfold GetNextLine in E. destruct (find_from _ _ _); [|done]. by injection E as _ <-. }
  destruct (StringToSizeT _ _); cbn; split; done || lia.
Qed.

(** Every chunk that is complete is erased, so the loop comes to an end; it
    throws when a chunk is appended whose size exceeds what a string can hold. *)
Lemma chunked_loop_returns f : forall p, length (pending_data_ p) < f ->
  (exists p1 ok, chunked_loop f p = Ret (p1, ok) /\ derived p1 = derived p) \/
  chunked_loop f p = Throw LengthError.
Proof.
  induction f as [|f IH]; intros p Hf; [lia|]. cbn [chunked_loop].
  destruct (if (chunk_size_ p =? kInvalidLength)%N then ParseChunkSize p else (p, true))
    as [q okq] eqn:E.
  assert (derived q = derived p /\ length (pending_data_ q) <= length (pending_data_ p))
    as [<- Hl].
  { destruct (chunk_size_ p =? _)%N; [|by injection E as <- _].
    replace q with (fst (ParseChunkSize p)) by (by rewrite E). apply ParseChunkSize_frame. }
  clear E. destruct (negb okq); [by left; eauto|].
  destruct (chunk_size_ q =? 0)%N eqn:E0.
  { left. exists (Finish q), true. split; [done|]. apply (Finish_frame q). }
  destruct (wrap64 _ <=? _)%N eqn:Ew.
  - unfold append_count. destruct (max_size <? _)%N eqn:Em; cbn [obind]; [by right|].
    apply N.ltb_ge in Em. apply N.leb_le in Ew. apply N.eqb_neq in E0.
    assert (wrap64 (chunk_size_ q + 2) = chunk_size_ q + 2)%N as Hw.
    { unfold wrap64. apply N.mod_small. unfold max_size, two64 in *. lia. }
    match goal with |- context [chunked_loop f ?s] => set (s' := s) end.
    assert (length (pending_data_ s') < f) as Hs.
    { unfold s'. cbn [set_chunk_size set_pending set_p_content pending_data_ chunk_size_].
      rewrite erase_0, Hw, length_drop. rewrite Hw in Ew. unfold len in Ew. lia. }
    destruct (IH s' Hs) as [(p1 & ok & H & Hd)|H]; [left|by right].
    exists p1, ok. split; [done|]. by rewrite Hd.
  - destruct (len _ <? _)%N; left; eauto.
Qed.
End Fixed.

#[export] Instance RespParser_Lawful : Lawful Response unit.
Proof.
  refine {| inv := fun _ => True;
            start_line_of r l :=
              let q := RespParser.ParseStartLine (RespParser.make r) l in (message_ q.1, q.2) |}.
  - intros p l. cbn. unfold RespParser.ParseStartLine.
    destruct (split_on _ _ l) as [|? [|? [|? ?]]]; try by destruct p.
    destruct (stoi _); by destruct p.
  - intros p a b Hk _. cbn. unfold RespParser.ParseContent. cbn [addp set_pending chunked_].
    rewrite Hk. apply fixed_moved.
  - intros p p1 a Hk _. cbn. unfold RespParser.ParseContent. rewrite Hk. intros [= H] Hf.
    destruct (fixed_more _ _ _ H Hf) as [-> Hm]. split_and!; try done.
    intros b. cbn [fixed_collect set_p_content set_pending chunked_]. rewrite Hk. apply Hm.
  - intros p p1 a ok. cbn. unfold RespParser.ParseContent. destruct (chunked_ p) eqn:Hk.
    + intros ->%chunked_loop_chunked. done.
    + intros [= H]. apply ParseFixedContent_frame in H as [-> _]. done.
  - intros p a _. cbn. unfold RespParser.ParseContent. destruct (chunked_ p).
    + destruct (chunked_loop_returns (S (length (pending_data_ (addp p a)))) (addp p a))
        as [(p1 & ok & H & _)|H]; [lia|left|by right].
      by exists p1, ok.
    + left. destruct (ParseFixedContent p a) as [p1 ok]. by exists p1, ok.
Defined.

(** ** Multipart content *)
Section MultipartLaws.
Import ReqParser.
Abbreviation RP := (Parser Request Multipart).
Implicit Types p : RP.

(** *** Part headers *)
Definition dispose (part : FormPart) (cd : ContentDisposition) : FormPart :=
  Part.set_file_name (Part.set_name part (cd_name_ cd)) (cd_file_name_ cd).

Lemma part_headers_total f : forall p part off,
  1 <= f -> length (pending_data_ p) < f + off -> exists r, part_headers_loop f p part off = Ret r.
Proof.
  induction f as [|f IH]; intros p part off H1 Hf; [lia|]. cbn [part_headers_loop].
  destruct (GetNextLine p off false) as [[line q]|] eqn:E; [|eauto].
  destruct (GetNextLine_add _ _ _ [] _ _ E) as (_ & Hl & _).
  unfold GetNextLine in E. destruct (find_from _ _ _); [|done]. injection E as El <-.
  destruct line as [|c line]; [eauto|]. destruct (Split2 _ _) as [[k v]|]; [|eauto].
  destruct (iequals _ _); [destruct (negb _); [eauto|]|]; apply IH; lia.
Qed.

Lemma part_headers_more f : forall p part off part' off' r f' d,
  part_headers_loop f p part off = Ret (part', off', r) -> r <> PhNeedMore -> f <= f' ->
  part_headers_loop f' (addp p d) part off = Ret (part', off', r) /\
  (r = PhEnded -> off + 2 <= off' <= length (pending_data_ p)).
Proof.
  induction f as [|f IH]; intros p part off part' off' r f' d H Hr Hf; [done|].
  destruct f' as [|f']; [lia|]. cbn [part_headers_loop] in *.
  destruct (GetNextLine p off false) as [[line q]|] eqn:E; [|by injection H as <- <- <-].
  destruct (GetNextLine_add _ _ _ d _ _ E) as (-> & Hl & _).
  unfold GetNextLine in E. destruct (find_from _ _ _); [|done]. injection E as El <-.
  destruct line as [|c line]; [injection H as <- <- <-; split; [done|cbn in *; lia]|].
  destruct (Split2 _ _) as [[k v]|]; [|by injection H as <- <- <-].
  destruct (iequals _ _); [destruct (negb _); [by injection H as <- <- <-|]|];
    (destruct (IH _ _ _ _ _ _ f' d H Hr ltac:(lia)) as [-> Hb]; split; [done|]; intros Hr';
     specialize (Hb Hr'); lia).
Qed.

(** What was read of the headers before more data was needed is read again,
    to the same effect. *)
Lemma part_headers_dispose f : forall p part off part' off' r cd,
  part_headers_loop f p part off = Ret (part', off', r) -> dispose part' cd = dispose part cd.
Proof.
  induction f as [|f IH]; intros p part off part' off' r cd H; [done|].
  cbn [part_headers_loop] in H.
  destruct (GetNextLine p off false) as [[line q]|]; [|by injection H as <- _ _].
  destruct line as [|c line]; [by injection H as <- _ _|].
  destruct (Split2 _ _) as [[k v]|]; [|by injection H as <- _ _].
  destruct (iequals _ _); [destruct (negb _); [by injection H as <- _ _|]|];
    by rewrite (IH _ _ _ _ _ _ cd H).
Qed.
Lemma part_headers_again f : forall p part off part' off' f' d,
  part_headers_loop f p part off = Ret (part', off', PhNeedMore) -> f <= f' ->
  part_headers_loop f' (addp p d) part' off = part_headers_loop f' (addp p d) part off \/
  part' = part.
Proof.
  induction f as [|f IH]; intros p part off part' off' f' d H Hf; [done|].
  destruct f' as [|f']; [lia|]. cbn [part_headers_loop] in *.
  destruct (GetNextLine p off false) as [[line q]|] eqn:E; [|by injection H as <- _; right].
  destruct (GetNextLine_add _ _ _ d _ _ E) as (-> & Hl & _).
  unfold GetNextLine in E. destruct (find_from _ _ _); [|done]. injection E as El <-.
  destruct line as [|c line]; [done|].
  destruct (Split2 _ _) as [[k v]|]; [|done].
  destruct (iequals _ _); [|apply IH with (off' := off'); [done|lia]].
  destruct (negb _); [done|]. left.
  fold (dispose part (CDisp.make v)) (dispose part' (CDisp.make v)).
  fold (dispose part (CDisp.make v)) in H.
  by rewrite (part_headers_dispose _ _ _ _ _ _ _ (CDisp.make v) H).
Qed.

(** *** The next boundary *)
Lemma boundary_loop_total f : forall b s off e,
  1 <= f -> length s < f + off -> exists r, boundary_loop f b s off e = Ret r.
Proof.
  induction f as [|f IH]; intros b s off e H1 Hf; [lia|]. cbn [boundary_loop].
  destruct (find_from kCRLF s off) as [pos|] eqn:E; [|eauto].
  pose proof (find_from_bounds _ _ _ E).
  destruct (pos - off =? 0); [apply IH; lia|].
  destruct (IsBoundary _ _) as [[] ?]; [eauto|]. apply IH; lia.
Qed.
Lemma boundary_loop_more f : forall b s off e off' count e' f' d,
  boundary_loop f b s off e = Ret (Some (off', count), e') -> f <= f' ->
  boundary_loop f' b (s ++ d) off e = Ret (Some (off', count), e') /\
  off' + count + 2 <= length s.
Proof.
  induction f as [|f IH]; intros b s off e off' count e' f' d H Hf; [done|].
  destruct f' as [|f']; [lia|]. cbn [boundary_loop] in *.
  destruct (find_from kCRLF s off) as [pos|] eqn:E; [|done].
  pose proof (find_from_bounds _ _ _ E). rewrite (find_from_app _ _ _ _ _ E).
  destruct (pos - off =? 0); [by apply IH; [|lia]|].
  rewrite substr_app by lia.
  destruct (IsBoundary _ _) as [[] ?]; [|by apply IH; [|lia]].
  injection H as <- <- <-. split; [done|lia].
Qed.

(** *** The passes *)
Definition multipart_inv (x : Multipart) : Prop :=
  step_ x <> kEnded /\ (step_ x = kHeadersParsed -> part_ x <> None).

Lemma multipart_pass_total p : exists r, multipart_pass p = Ret r.
Proof.
  unfold multipart_pass. destruct (pending_data_ p) as [|c s] eqn:E; [eauto|]. rewrite <- E.
  destruct (step_ (derived p)).
  - destruct (GetNextLine p 0 true) as [[line q]|]; [|eauto]. destruct (negb _); eauto.
  - unfold ParsePartHeaders.
    destruct (part_headers_total (S (length (pending_data_ p))) p
      match part_ (derived p) with Some part => part | None => FormPart_empty end 0)
      as [[[? ?] []] ->]; [lia..| | |]; cbn [obind]; eauto.
  - unfold GetNextBoundaryLine.
    destruct (boundary_loop_total (S (length (pending_data_ p))) (boundary p) (pending_data_ p)
      0 false) as [[[[off count]|] e] ->]; [lia..| |]; cbn [obind]; [|eauto].
    destruct (off <=? 2); eauto.
  - eauto.
Qed.

(** The pass as a verdict of the generic loop. *)
Definition mpass p : verdict RP :=
  match multipart_pass p with
  | Ret (Continue q) => Cont q
  | Ret (Break q) => if decide (step_ (derived q) = kEnded) then Done q true else Wait q
  | Ret (ReturnFalse q) => Done q false
  | _ => Done p false
  end.

Lemma multipart_loop_run f : forall p,
  multipart_loop f p =
  match run mpass f p with
  | Some (Wait q) => Ret (q, true)
  | Some (Done q true) => Ret (Finish q, true)
  | Some (Done q false) => Ret (q, false)
  | _ => OutOfFuel
  end.
Proof.
  induction f as [|f IH]; intros p; [done|]. cbn [multipart_loop run].
  unfold mpass. destruct (multipart_pass_total p) as [r ->]. cbn [obind].
  destruct r as [q|q|q]; [apply IH| |done]. by destruct (decide _).
Qed.

(** Everything but the pending data, [part_], [step_] and the form parts stays. *)
Definition same_body (p q : RP) : Prop :=
  chunked_ q = chunked_ p /\ header_ended_ q = header_ended_ p /\
  content_length_parsed_ q = content_length_parsed_ p /\
  p_content_length_ q = p_content_length_ p /\
  req_message (message_ q) = req_message (message_ p) /\ finished_ q = finished_ p /\
  p_content_ q = p_content_ p.

Lemma pending_not_nil (s : str) c t d : s = c :: t -> exists c' t', s ++ d = c' :: t'.
Proof. intros ->. by exists c, (t ++ d). Qed.

Lemma mpass_start p :
  pending_data_ p <> [] -> step_ (derived p) = kStart ->
  mpass p = match GetNextLine p 0 true with
            | None => Wait p
            | Some (line, q) =>
                if negb (fst (IsBoundary (boundary q) line)) then Done q false
                else Cont (set_step q kBoundaryParsed)
            end.
Proof.
  intros Hp Hs. unfold mpass, multipart_pass. destruct (pending_data_ p) as [|c s]; [done|].
  rewrite Hs. destruct (GetNextLine p 0 true) as [[line q]|].
  - by destruct (negb _).
  - by rewrite decide_False by congruence.
Qed.
Definition current_part p : FormPart :=
  match part_ (derived p) with None => FormPart_empty | Some part => part end.
Lemma mpass_headers p :
  pending_data_ p <> [] -> step_ (derived p) = kBoundaryParsed ->
  mpass p = match part_headers_loop (S (length (pending_data_ p))) p (current_part p) 0 with
            | Ret (part, off, PhEnded) =>
                let q := set_part p (Some part) in
                Cont (set_step (set_pending q (drop off (pending_data_ p))) kHeadersParsed)
            | Ret (part, _, PhNeedMore) => Wait (set_part p (Some part))
            | Ret (part, _, PhError) => Done (set_part p (Some part)) false
            | _ => Done p false
            end.
Proof.
  intros Hp Hs. unfold mpass, multipart_pass. destruct (pending_data_ p) as [|c s] eqn:E; [done|].
  rewrite Hs. fold (current_part p). unfold ParsePartHeaders. rewrite E.
  destruct (part_headers_loop _ _ _ _) as [[[part off] []]| |]; cbn [obind]; try done.
  - by rewrite erase_0; cbn [set_part set_derived pending_data_]; rewrite E.
  - rewrite decide_False; [done|]. cbn. by rewrite Hs.
Qed.
Lemma mpass_data p :
  pending_data_ p <> [] -> step_ (derived p) = kHeadersParsed ->
  mpass p = match GetNextBoundaryLine (boundary p) (pending_data_ p) with
            | Ret (Some (off, count), ended) =>
                if off <=? 2 then Done p false
                else
                  let part := Part.AppendData (current_part p) (take (off - 2) (pending_data_ p)) in
                  let q := set_pending p (drop (off + count + 2) (pending_data_ p)) in
                  let q := set_message q (Req.AddFormPart (message_ q) part) in
                  let q := set_part q None in
                  if (ended : bool) then Done (set_step q kEnded) true
                  else Cont (set_step q kBoundaryParsed)
            | Ret (None, _) => Wait p
            | _ => Done p false
            end.
Proof.
  intros Hp Hs. unfold mpass, multipart_pass. destruct (pending_data_ p) as [|c s] eqn:E; [done|].
  rewrite Hs. fold (current_part p).
  destruct (GetNextBoundaryLine _ _) as [[[[off count]|] ended]| |]; cbn [obind]; try done.
  - destruct (off <=? 2); [done|]. rewrite erase_0. by destruct ended.
  - by rewrite decide_False by congruence.
Qed.

Definition mpass_ok (p : RP) (d : str) (v : verdict RP) : Prop :=
  match v with
  | Cont q => multipart_inv (derived q) /\ same_body p q /\
      length (pending_data_ q) < length (pending_data_ p) /\ mpass (addp p d) = Cont (addp q d)
  | Wait q => multipart_inv (derived q) /\ same_body p q /\ mpass (addp p d) = mpass (addp q d)
  | Done q ok => (ok = true -> same_body p q) /\
      exists q', mpass (addp p d) = Done q' ok /\ (ok = true -> q' = addp q d)
  end.

Lemma addp_pending_nil p d : pending_data_ p <> [] -> pending_data_ (addp p d) <> [].
Proof. intros H. cbn. by destruct (pending_data_ p). Qed.

Lemma mpass_ok_start p d :
  pending_data_ p <> [] -> step_ (derived p) = kStart -> mpass_ok p d (mpass p).
Proof.
  intros Hp Hs. rewrite (mpass_start p Hp Hs).
  destruct (GetNextLine p 0 true) as [[line q]|] eqn:E.
  2: { split; [by split; congruence|done]. }
  destruct (GetNextLine_add _ _ _ d _ _ E) as (Ea & _ & Hl). specialize (Hl eq_refl).
  assert (exists s, q = set_pending p s) as [s ->].
  { unfold GetNextLine in E. destruct (find_from _ _ _); [|done]. injection E as _ <-. eauto. }
  pose proof (mpass_start (addp p d) (addp_pending_nil _ _ Hp) Hs) as Hm. rewrite Ea in Hm.
  change (boundary (addp (set_pending p s) d)) with (boundary (set_pending p s)) in Hm.
  destruct (negb _).
  - split; [done|]. eexists. by split; [exact Hm|].
  - split_and!; [by split|done|cbn in *; lia|exact Hm].
Qed.
Lemma mpass_ok_headers p d :
  pending_data_ p <> [] -> step_ (derived p) = kBoundaryParsed -> mpass_ok p d (mpass p).
Proof.
  intros Hp Hs. rewrite (mpass_headers p Hp Hs).
  destruct (part_headers_total (S (length (pending_data_ p))) p (current_part p) 0)
    as [[[part off] r] E]; [lia..|]. rewrite E.
  assert (S (length (pending_data_ p)) <= S (length (pending_data_ (addp p d)))) as Hle
    by (cbn; rewrite length_app; lia).
  pose proof (mpass_headers (addp p d) (addp_pending_nil _ _ Hp) Hs) as Hm.
  change (current_part (addp p d)) with (current_part p) in Hm.
  destruct r.
  - destruct (part_headers_more _ _ _ _ _ _ _ _ d E ltac:(done) Hle) as [Ea Hb].
    specialize (Hb eq_refl). rewrite Ea in Hm. cbn [mpass_ok]. split_and!; [by split|done| |].
    + cbn. rewrite length_drop. lia.
    + rewrite Hm. cbn [addp set_pending pending_data_].
      rewrite drop_app_le by lia. done.
  - split; [by split; cbn; congruence|]. split; [done|].
    set (q := set_part p (Some part)).
    assert (pending_data_ q <> [] /\ step_ (derived q) = kBoundaryParsed) as [Hp' Hs'] by done.
    rewrite Hm, (mpass_headers (addp q d) (addp_pending_nil _ _ Hp') Hs').
    change (current_part (addp q d)) with part.
    change (length (pending_data_ (addp q d))) with (length (pending_data_ (addp p d))).
    change (pending_data_ (addp q d)) with (pending_data_ (addp p d)).
    assert (forall f a o, part_headers_loop f (addp q d) a o = part_headers_loop f (addp p d) a o)
      as ->.
    { induction f as [|f IH]; intros a o; [done|]. cbn [part_headers_loop].
      unfold GetNextLine. change (pending_data_ (addp q d)) with (pending_data_ (addp p d)).
      destruct (find_from _ _ _); [|done]. destruct (substr _ _ _); [done|].
      destruct (Split2 _ _) as [[]|]; [|done]. by rewrite !IH. }
    destruct (part_headers_again _ _ _ _ _ _ _ d E Hle) as [-> | ->];
      (destruct (part_headers_total (S (length (pending_data_ (addp p d)))) (addp p d)
         (current_part p) 0) as [[[? ?] []] ->]; [lia..| | |]; done).
  - destruct (part_headers_more _ _ _ _ _ _ _ _ d E ltac:(done) Hle) as [Ea _].
    rewrite Ea in Hm. split; [done|]. eexists. by split; [exact Hm|].
Qed.
Lemma mpass_ok_data p d :
  pending_data_ p <> [] -> step_ (derived p) = kHeadersParsed ->
  part_ (derived p) <> None -> mpass_ok p d (mpass p).
Proof.
  intros Hp Hs Hpart. rewrite (mpass_data p Hp Hs).
  pose proof (mpass_data (addp p d) (addp_pending_nil _ _ Hp) Hs) as Hm.
  change (boundary (addp p d)) with (boundary p) in Hm.
  change (current_part (addp p d)) with (current_part p) in Hm.
  destruct (boundary_loop_total (S (length (pending_data_ p))) (boundary p) (pending_data_ p)
      0 false) as [[[[off count]|] e] E]; [lia..| |].
  2: { unfold GetNextBoundaryLine. rewrite E. split; [by split; congruence|done]. }
  destruct (boundary_loop_more _ _ _ _ _ _ _ _ (S (length (pending_data_ p ++ d))) d E)
    as [Ea Hb]; [rewrite length_app; lia|].
  unfold GetNextBoundaryLine in *. cbn [addp set_pending pending_data_] in Hm.
  rewrite E. rewrite Ea in Hm.
  destruct (off <=? 2) eqn:Ho.
  - split; [done|]. eexists. by split; [exact Hm|].
  - apply Nat.leb_gt in Ho. rewrite drop_app_le, take_app_le in Hm by lia.
    destruct e; cbv zeta in *.
    + split; [done|]. eexists. split; [exact Hm|done].
    + split_and!; [by split|done| |exact Hm]. cbn. rewrite length_drop. lia.
Qed.

Lemma mpass_ok_all p d : multipart_inv (derived p) -> mpass_ok p d (mpass p).
Proof.
  intros [Hs Hpart]. destruct (decide (pending_data_ p = [])) as [E|E].
  { unfold mpass at 1, multipart_pass. rewrite E, decide_False by done.
    split; [by split|done]. }
  destruct (step_ (derived p)) eqn:F; [by apply mpass_ok_start|by apply mpass_ok_headers| |done].
  by apply mpass_ok_data; [| |apply Hpart].
Qed.

Lemma mpass_case p d v : multipart_inv (derived p) -> mpass p = v -> mpass_ok p d v.
Proof. intros Hi <-. by apply mpass_ok_all. Qed.

Lemma multipart_incremental :
  Incremental pending_data_ addp (fun p => multipart_inv (derived p)) mpass.
Proof.
  split; [done|done|..].
  - intros p q Hi E. destruct (mpass_case p [] _ Hi E) as (? & _ & ? & _).
    split_and!; [done..|]. intros d. apply (mpass_case p d _ Hi E).
  - intros p q Hi E. destruct (mpass_case p [] _ Hi E) as (? & _ & _).
    split; [done|]. intros d. apply (mpass_case p d _ Hi E).
  - intros p q ok Hi E d. apply (mpass_case p d _ Hi E).
Qed.

Lemma mexec_same_body p v :
  multipart_inv (derived p) -> exec pending_data_ mpass p = Some v ->
  match v with Wait q | Done q true => same_body p q | _ => True end.
Proof.
  intros Hi Hv.
  destruct (exec_ind _ _ _ _ multipart_incremental (fun p v =>
    match v with Wait q | Done q true => same_body p q | _ => True end))
    with (p := p) as (v' & Hv' & HQ); [| | |done|].
  - intros q q' w Hq E _ Hw. destruct (mpass_case q [] _ Hq E) as (_ & H & _). unfold same_body in *.
    destruct w as [|w|w []]; try done; intuition congruence.
  - intros q q' Hq E. apply (mpass_case q [] _ Hq E).
  - intros q q' [] Hq E; [|done]. by apply (mpass_case q [] _ Hq E).
  - by rewrite Hv' in Hv; injection Hv as ->.
Qed.

(** *** A call of [ParseMultipartContent] *)
Definition length_invalid p : bool :=
  negb (content_length_parsed_ p) || (p_content_length_ p =? kInvalidLength)%N.
Lemma ParseMultipart_exec p d :
  ParseMultipartContent p d =
  if length_invalid p then Ret (addp p d, false)
  else match exec pending_data_ mpass (addp p d) with
       | Some (Wait q) => Ret (q, true)
       | Some (Done q true) => Ret (Finish q, true)
       | Some (Done q false) => Ret (q, false)
       | _ => OutOfFuel
       end.
Proof.
  unfold ParseMultipartContent. fold (addp p d). change (length_invalid p) with
    (negb (content_length_parsed_ (addp p d)) || (p_content_length_ (addp p d) =? kInvalidLength)%N).
  destruct (_ || _); [done|]. apply multipart_loop_run.
Qed.

Lemma multipart_more p p1 a :
  multipart_inv (derived p) -> ParseMultipartContent p a = Ret (p1, true) ->
  finished_ p1 = false ->
  multipart_inv (derived p1) /\ same_body p p1 /\
  forall b, ParseMultipartContent p1 b = ParseMultipartContent p (a ++ b).
Proof.
  intros Hi H Hf. rewrite ParseMultipart_exec in H.
  destruct (length_invalid p) eqn:Hl; [done|].
  destruct (exec_more multipart_incremental (addp p a) [] Hi) as (v & Hv & Hcase).
  rewrite Hv in H. destruct v as [q|q|q []]; [done| | |done].
  2: { injection H as <-. by rewrite (proj1 (Finish_frame q)) in Hf. }
  injection H as ->. pose proof (mexec_same_body (addp p a) _ Hi Hv) as Hsame. cbn in Hsame.
  split_and!; [apply Hcase|exact Hsame|]. intros b. rewrite !ParseMultipart_exec.
  assert (length_invalid p1 = length_invalid p) as ->.
  { unfold length_invalid. destruct Hsame as (_ & _ & -> & -> & _). done. }
  rewrite Hl, <- addp_addp.
  destruct (exec_more multipart_incremental (addp p a) b Hi) as (v & Hv' & Hcase').
  rewrite Hv' in Hv. injection Hv as ->. by destruct Hcase' as [_ ->].
Qed.

Lemma multipart_pass_chunked p r :
  multipart_pass p = Ret r ->
  match r with Continue q | Break q | ReturnFalse q => chunked_ q = chunked_ p end.
Proof.
  unfold multipart_pass. destruct (pending_data_ p) as [|c s]; [by intros [= <-]|].
  destruct (step_ (derived p)).
  - unfold GetNextLine. destruct (find_from _ _ _); [|by intros [= <-]].
    destruct (negb _); by intros [= <-].
  - unfold ParsePartHeaders.
    destruct (part_headers_loop _ _ _ _) as [[[? ?] []]| |]; cbn; by intros [= <-].
  - destruct (GetNextBoundaryLine _ _) as [[[[off count]|] []]| |]; cbn [obind]; try done;
      try (by intros [= <-]); destruct (off <=? 2); by intros [= <-].
  - by intros [= <-].
Qed.
Lemma multipart_loop_chunked f : forall p p1 ok,
  multipart_loop f p = Ret (p1, ok) -> chunked_ p1 = chunked_ p.
Proof.
  induction f as [|f IH]; intros p p1 ok H; cbn [multipart_loop] in H; [done|].
  apply obind_Ret in H as (r & Hr & H). apply multipart_pass_chunked in Hr.
  destruct r as [q|q|q].
  - by rewrite (IH _ _ _ H).
  - injection H as <- _. destruct (decide _); [by rewrite (proj1 (proj2 (Finish_frame q)))|done].
  - by injection H as <- _.
Qed.

(** In its final step the loop makes no progress on a buffer that is not empty. *)
Lemma multipart_loop_ended fuel p :
  step_ (derived p) = kEnded -> pending_data_ p <> [] -> multipart_loop fuel p = OutOfFuel.
Proof.
  intros Hs Hne. assert (multipart_pass p = Ret (Continue p)) as Hp.
  { unfold multipart_pass. rewrite Hs. by destruct (pending_data_ p). }
  induction fuel as [|fuel IH]; [done|]. cbn [multipart_loop]. by rewrite Hp.
Qed.
End MultipartLaws.

#[export] Instance ReqParser_Lawful : Lawful Request Multipart.
Proof.
  refine {| inv := multipart_inv;
            start_line_of r l :=
              let q := ReqParser.ParseStartLine (ReqParser.make r) l in (message_ q.1, q.2) |}.
  - intros p l. cbn. unfold ReqParser.ParseStartLine.
    destruct (split_on _ _ l) as [|? [|? [|? [|? ?]]]]; by destruct p.
  - intros p a b Hk Hi. cbn. unfold ReqParser.ParseContent.
    cbn [addp set_pending chunked_ message_]. rewrite Hk.
    destruct (multipart_ _); [|apply fixed_moved].
    rewrite !ParseMultipart_exec, addp_addp. unfold length_invalid.
    cbn [addp set_pending content_length_parsed_ p_content_length_]. by destruct (_ || _).
  - intros p p1 a Hk Hi. cbn. unfold ReqParser.ParseContent. rewrite Hk.
    destruct (multipart_ _) eqn:Hm.
    + intros H Hf. destruct (multipart_more p p1 a Hi H Hf) as (Hi1 & Hs & Hmore).
      destruct Hs as (-> & -> & _ & _ & -> & _). split_and!; [done..|]. intros b.
      by rewrite Hk, Hm, Hmore.
    + intros [= H] Hf. destruct (fixed_more _ _ _ H Hf) as [-> Hmore]. split_and!; try done.
      intros b. cbn [fixed_collect set_p_content set_pending chunked_ message_].
      rewrite Hk, Hm. apply Hmore.
  - intros p p1 a ok. cbn. unfold ReqParser.ParseContent. destruct (chunked_ p) eqn:Hk.
    + intros ->%chunked_loop_chunked. done.
    + destruct (multipart_ _) eqn:Hm.
      * unfold ReqParser.ParseMultipartContent. destruct (_ || _); [by intros [= <- _]|].
        intros ->%multipart_loop_chunked. done.
      * intros [= H]. apply ParseFixedContent_frame in H as [-> _]. done.
  - intros p a Hi. cbn. unfold ReqParser.ParseContent. destruct (chunked_ p).
    + destruct (chunked_loop_returns (S (length (pending_data_ (addp p a)))) (addp p a))
        as [(p1 & ok & H & Hd)|H]; [lia|left|by right].
      exists p1, ok. split; [exact H|]. intros _ _. by rewrite Hd.
    + left. destruct (multipart_ _).
      * rewrite ParseMultipart_exec. destruct (length_invalid p); [by exists (addp p a), false|].
        destruct (exec_more multipart_incremental (addp p a) [] Hi) as (v & -> & Hcase).
        destruct v as [q|q|q []]; [done|by exists q, true; destruct Hcase| |by exists q, false].
        exists (Finish q), true. split; [done|]. intros _. by rewrite (proj1 (Finish_frame q)).
      * destruct (ParseFixedContent p a) as [p1 ok] eqn:E. exists p1, ok. split; [done|].
        intros _ _. by apply ParseFixedContent_frame in E as [_ ->].
Defined.

(** ** A whole message, in any pieces *)
Section Complete.
Context {M X : Type} `{!MessageLike M} `{!Virtuals M X} `{!Lawful M X}.
Context (can_alloc : N -> bool).
Implicit Types p : Parser M X.

Lemma observe_finished (o : outcome (Parser M X * bool)) p :
  observe o = Ret (Some (set_pending p [])) -> finished_ p = true ->
  exists q, o = Ret (q, true) /\ finished_ q = true /\ set_pending q [] = set_pending p [].
Proof.
  destruct o as [[q []]| |]; cbn; [|done..]. intros H Hf. exists q.
  destruct (finished_ q) eqn:Hq; [split_and!; congruence|].
  assert (q = set_pending p []) as -> by congruence. cbn in Hq. congruence.
Qed.
Lemma observe_unfinished (o : outcome (Parser M X * bool)) p :
  observe o = Ret (Some p) -> finished_ p = false -> o = Ret (p, true).
Proof.
  destruct o as [[q []]| |]; cbn; [|done..]. intros H Hf.
  destruct (finished_ q) eqn:Hq; [|congruence].
  assert (p = set_pending q []) as -> by congruence. cbn in Hf. congruence.
Qed.

Lemma ParseAll_complete p0 w pf :
  inv (derived p0) -> Parse can_alloc p0 [] = Ret (p0, true) -> finished_ p0 = false ->
  Parse can_alloc p0 w = Ret (pf, true) -> finished_ pf = true ->
  (forall w1 w2, w = w1 ++ w2 -> w2 <> [] -> exists p1,
     Parse can_alloc p0 w1 = Ret (p1, true) /\ finished_ p1 = false /\ chunked_ p1 = false) ->
  forall ds, concat ds = w -> exists p,
    ParseAll can_alloc p0 ds = Ret (p, true) /\ finished_ p = true /\
    set_pending p [] = set_pending pf [].
Proof.
  intros Hi H0 Hf0 HA HfA HB.
  assert (forall ds c p, Parse can_alloc p0 c = Ret (p, true) -> finished_ p = false ->
    w = c ++ concat ds -> exists q, ParseAll can_alloc p ds = Ret (q, true) /\
      finished_ q = true /\ set_pending q [] = set_pending pf []) as Hall.
  { induction ds as [|d ds IH]; intros c p Hc Hf Hw; cbn [concat ParseAll] in *.
    { rewrite app_nil_r in Hw. subst c. rewrite HA in Hc. injection Hc as <-. congruence. }
    assert (chunked_ p = false) as Hk.
    { destruct (decide (d ++ concat ds = [])) as [E|E].
      - rewrite E, app_nil_r in Hw. subst c. rewrite HA in Hc. injection Hc as <-. congruence.
      - destruct (HB c _ Hw E) as (p1 & Hp1 & _ & ?). rewrite Hp1 in Hc. by injection Hc as <-. }
    destruct (Parse_more can_alloc p0 p c d Hi Hc Hf Hk) as (_ & _ & Hm).
    destruct (decide (concat ds = [])) as [E|E].
    - rewrite E, app_nil_r in Hw. rewrite <- Hw, HA in Hm. cbn in Hm. rewrite HfA in Hm.
      destruct (observe_finished _ _ Hm HfA) as (q & -> & Hq & Hpq). cbn [obind negb orb].
      rewrite Hq. eauto.
    - rewrite app_assoc in Hw. destruct (HB _ _ Hw E) as (p1 & Hp1 & Hf1 & _).
      rewrite Hp1 in Hm. cbn in Hm. rewrite Hf1 in Hm.
      rewrite (observe_unfinished _ _ Hm Hf1). cbn [obind negb orb]. rewrite Hf1. by eapply IH. }
  intros ds Hds. apply (Hall ds [] p0); [done..|by rewrite Hds].
Qed.

(** *** Lines of a well-formed message *)
Definition line_ok (l : str) : Prop := l <> [] /\ CR ∉ l.
Lemma next_line p l rest :
  CR ∉ l -> pending_data_ p = l ++ kCRLF ++ rest ->
  GetNextLine p 0 true = Some (l, set_pending p rest).
Proof.
  intros Hl Hp. unfold GetNextLine, find_from. rewrite drop_0, Hp.
  change kCRLF with (CR :: [LF]). rewrite (find_str_fresh CR [LF] l rest Hl). cbn [option_map].
  replace (0 + length l - 0) with (length l) by lia.
  unfold substr. rewrite drop_0, erase_0, take_app_exact.
  do 3 f_equal. change (CR :: [LF]) with kCRLF. rewrite app_assoc.
  replace (length l + 2) with (length (l ++ kCRLF)) by (rewrite length_app; done).
  apply drop_app_exact.
Qed.

(** A header as it can be written on a line and read back. *)
Definition header_ok (h : Header) : Prop :=
  fst h <> [] /\ ":"%char ∉ fst h /\ CR ∉ fst h /\ CR ∉ snd h /\
  trimmed isspace (fst h) /\ trimmed isspace (snd h).
Lemma header_split k v :
  header_ok (k, v) -> Split2 (k ++ #": " ++ v) ":" = Some (k, v).
Proof.
  intros (_ & Hk & _ & _ & Ht & Hv). change (#": " ++ v) with (":"%char :: SP :: v).
  rewrite (Split2_fresh k ":" (SP :: v) Hk). unfold trim.
  rewrite (trim_if_trimmed isspace k Ht). destruct v as [|c v]; [done|].
  by rewrite trim_if_leading.
Qed.

(** The headers of a message whose content has [n] bytes: a length is the
    right one, a content type is valid, and the content is not chunked. *)
Definition header_reads (n : N) (h : Header) : Prop :=
  (iequals (fst h) kContentLength = true -> snd h = to_dec n) /\
  (iequals (fst h) kContentType = true -> CType.Valid (CType.make (snd h)) = true) /\
  (iequals (fst h) kTransferEncoding = true -> snd h <> #"chunked").
(** The same for content that is not multipart. *)
Definition header_fits (n : N) (h : Header) : Prop :=
  (iequals (fst h) kContentLength = true -> snd h = to_dec n) /\
  (iequals (fst h) kContentType = true ->
     CType.Valid (CType.make (snd h)) = true /\ multipart_ (CType.make (snd h)) = false) /\
  (iequals (fst h) kTransferEncoding = true -> snd h <> #"chunked").

Lemma header_fits_reads n h : header_fits n h -> header_reads n h.
Proof. intros (H1 & H2 & H3). split_and!; [done|intros H; by apply H2|done]. Qed.
(** The content type a parser has behind the headers [hs]. *)
Definition ctype_of (hs : Headers) (ct : ContentType) : ContentType :=
  fold_left (fun ct h => if iequals (fst h) kContentType then CType.make (snd h) else ct) hs ct.
Lemma fits_not_multipart n hs : forall ct,
  Forall (header_fits n) hs -> multipart_ ct = false -> multipart_ (ctype_of hs ct) = false.
Proof.
  induction hs as [|h hs IH]; intros ct Hf Hct; [done|]. apply Forall_cons in Hf as [(_ & H & _) Hf].
  apply (IH _ Hf). destruct (iequals _ _); [by apply H|done].
Qed.

(** What the headers [hs] leave of the parser state. *)
Definition has_length (hs : Headers) : bool := existsb (fun h => iequals (fst h) kContentLength) hs.
Definition after_headers (n : N) (hs : Headers) (p q : Parser M X) : Prop :=
  let m := as_message (message_ p) in
  let m' := as_message (message_ q) in
  headers_ m' = headers_ m ++ hs /\ start_line_ m' = start_line_ m /\
  message_ q = with_message (message_ p) m' /\
  content_ m' = content_ m /\
  content_type_ m' = ctype_of hs (content_type_ m) /\
  p_content_ q = p_content_ p /\ finished_ q = finished_ p /\ chunked_ q = chunked_ p /\
  derived q = derived p /\ start_line_parsed_ q = start_line_parsed_ p /\
  content_length_parsed_ q = content_length_parsed_ p || has_length hs /\
  p_content_length_ q = (if has_length hs then n else p_content_length_ p) /\
  header_ended_ q = header_ended_ p.

#[local] Arguments to_dec : simpl never.
#[local] Arguments iequals : simpl never.
#[local] Arguments CType.make : simpl never.
#[local] Arguments kContentLength : simpl never.

Lemma after_headers_one n k v p (m1 : Message) (cl : bool) :
  has_length [(k, v)] = cl ->
  headers_ m1 = headers_ (as_message (message_ p)) ->
  start_line_ m1 = start_line_ (as_message (message_ p)) ->
  content_ m1 = content_ (as_message (message_ p)) ->
  content_type_ m1 = ctype_of [(k, v)] (content_type_ (as_message (message_ p))) ->
  Hdr.Find (headers_ (as_message (message_ p))) k = None ->
  after_headers n [(k, v)] p
    (set_message (if cl then set_p_content_length (set_content_length_parsed p) n else p)
       (with_message (message_ p) (Msg.SetHeader m1 k v))).
Proof.
  intros Hl H1 H2 H3 H4 H5. unfold after_headers. rewrite Hl. destruct cl; cbn;
    rewrite as_with; cbn; rewrite H1, (Set_fresh _ _ _ H5);
    (split_and!; first [done|exact H4|by rewrite orb_false_r|by rewrite orb_true_r]).
Qed.

Lemma not_content_type k : iequals k kContentLength = true -> iequals k kContentType = false.
Proof.
  intros H. rewrite iequals_sym in H. by rewrite (iequals_trans kContentLength k _ H).
Qed.
Lemma handle_header n h p :
  (n <= max_size)%N -> can_alloc n = true ->
  header_ok h -> header_reads n h -> start_line_parsed_ p = true ->
  Hdr.Find (headers_ (as_message (message_ p))) (fst h) = None ->
  exists q, handle_line can_alloc p (fst h ++ #": " ++ snd h) = (q, true) /\
    after_headers n [h] p q /\ pending_data_ q = pending_data_ p.
Proof.
  intros Hn Ha Hok (Hcl & Hct & Hte) Hs Hfresh. destruct h as [k v]. cbn [fst snd] in *.
  unfold handle_line. rewrite Hs. cbn [negb]. unfold ParseHeaderLine.
  rewrite (header_split k v Hok).
  assert (has_length [(k, v)] = iequals k kContentLength) as Hlen.
  { unfold has_length. cbn. by rewrite orb_false_r. }
  destruct (iequals k kContentLength) eqn:Ecl.
  { rewrite (Hcl eq_refl) in *. unfold StringToSizeT.
    rewrite stoul_to_dec by (unfold max_size, two64 in *; lia).
    rewrite Ha. apply N.ltb_ge in Hn. rewrite Hn. cbn [orb negb].
    eexists. split; [done|]. split; [|done].
    apply (after_headers_one n k _ p (as_message (message_ p)) true); try done.
    unfold ctype_of. cbn [fold_left fst]. by rewrite (not_content_type k Ecl). }
  destruct (iequals k kContentType) eqn:Ect.
  { rewrite (Hct eq_refl). cbn [negb]. eexists. split; [done|]. split; [|done].
    unfold on_message. cbn [set_message message_]. rewrite as_with, with_with.
    apply (after_headers_one n k v p
           (Msg.SetContentType_parsed (as_message (message_ p)) (CType.make v)) false); try done.
    unfold ctype_of. cbn [fold_left fst]. by rewrite Ect. }
  destruct (iequals k kTransferEncoding) eqn:Ete.
  { specialize (Hte eq_refl). apply seqb_neq in Hte. rewrite Hte.
    eexists. split; [done|]. split; [|done].
    apply (after_headers_one n k v p (as_message (message_ p)) false); try done.
    unfold ctype_of. cbn [fold_left fst]. by rewrite Ect. }
  eexists. split; [done|]. split; [|done].
  apply (after_headers_one n k v p (as_message (message_ p)) false); try done.
  unfold ctype_of. cbn [fold_left fst]. by rewrite Ect.
Qed.

Lemma after_headers_cons n h hs p q r :
  after_headers n [h] p q -> after_headers n hs q r -> after_headers n (h :: hs) p r.
Proof.
  unfold after_headers. intros H1 H2.
  destruct H1 as (a1 & a2 & a3 & a4 & a5 & a6 & a7 & a8 & a9 & a10 & a11 & a12 & a13).
  destruct H2 as (b1 & b2 & b3 & b4 & b5 & b6 & b7 & b8 & b9 & b10 & b11 & b12 & b13).
  assert (has_length (h :: hs) = has_length [h] || has_length hs) as ->
    by (unfold has_length; cbn; by rewrite orb_false_r).
  split; [by rewrite b1, a1, <- app_assoc|]. split; [by rewrite b2|].
  split; [by rewrite b3, a3, with_with, as_with|]. split; [by rewrite b4|].
  split; [rewrite b5, a5; by destruct h|]. split; [by rewrite b6|]. split; [by rewrite b7|].
  split; [by rewrite b8|]. split; [by rewrite b9|]. split; [by rewrite b10|].
  split; [by rewrite b11, a11, orb_assoc|].
  split; [rewrite b12, a12; by destruct (has_length [h]), (has_length hs)|by rewrite b13].
Qed.

Lemma header_line_ok h : header_ok h -> line_ok (fst h ++ #": " ++ snd h).
Proof.
  destruct h as [k v]. intros (Hk & _ & Hc & Hv & _). cbn [fst snd] in *. split.
  - by destruct k.
  - rewrite !elem_of_app. intros [?|[H|?]]; [done| |done].
    change (#": ") with [":"%char; SP] in H. by apply elem_of_cons in H as [H|H%list_elem_of_singleton].
Qed.

Lemma header_pass_line p l rest :
  line_ok l -> pending_data_ p = l ++ kCRLF ++ rest ->
  header_pass can_alloc p =
  let '(q, ok) := handle_line can_alloc (set_pending p rest) l in
  if ok then Cont q else Done q false.
Proof.
  intros [Hne Hl] Hp. unfold header_pass. rewrite (next_line p l rest Hl Hp).
  destruct l; [done|]. by destruct (handle_line _ _ _).
Qed.

Lemma headers_exec n hs : forall p rest,
  (n <= max_size)%N -> can_alloc n = true ->
  Forall header_ok hs -> Forall (header_reads n) hs ->
  NoDup (hkeys (headers_ (as_message (message_ p)) ++ hs)) ->
  start_line_parsed_ p = true -> header_ended_ p = false ->
  pending_data_ p = concat (map header_line hs) ++ kCRLF ++ rest ->
  exists q, exec pending_data_ (header_pass can_alloc) p =
      Some (Done (set_header_ended q) true) /\
    after_headers n hs p q /\ pending_data_ q = rest.
Proof.
  induction hs as [|h hs IH]; intros p rest Hn Ha Hok Hfit Hnd Hs He Hp.
  - exists (set_pending p rest). cbn [map concat app] in Hp. split_and!; [|split|done].
    + unfold exec. cbn [run]. unfold header_pass. rewrite (next_line p [] rest); [done| |done].
      apply not_elem_of_nil.
    + by rewrite app_nil_r.
    + cbn. rewrite with_as, orb_false_r. by split_and!.
  - apply Forall_cons in Hok as [Hok1 Hok]. apply Forall_cons in Hfit as [Hfit1 Hfit].
    set (rest' := concat (map header_line hs) ++ kCRLF ++ rest).
    assert (pending_data_ p = (fst h ++ #": " ++ snd h) ++ kCRLF ++ rest') as Hp'.
    { rewrite Hp. subst rest'. cbn [map concat]. unfold header_line.
      by rewrite <- !app_assoc. }
    pose proof (header_pass_line p _ rest' (header_line_ok h Hok1) Hp') as Hpass.
    destruct (handle_header n h (set_pending p rest') Hn Ha Hok1 Hfit1 Hs) as (q & Hq & Haf & Hqp).
    { apply Find_None_hkeys. cbn. unfold hkeys in Hnd |- *.
      rewrite map_app, map_app in Hnd. cbn [map] in Hnd.
      apply NoDup_app in Hnd as (_ & Hnd & _). intros Hin. by apply (Hnd _ Hin), elem_of_cons; left. }
    rewrite Hq in Hpass.
    rewrite (exec_cont (header_incremental can_alloc) p q He Hpass).
    destruct Haf as (Hh & Haf'). 
    assert (start_line_parsed_ q = true) as Hsq by (by destruct Haf' as (_&_&_&_&_&_&_&_&->&_)).
    assert (header_ended_ q = false) as Heq by (by destruct Haf' as (_&_&_&_&_&_&_&_&_&_&_&->)).
    destruct (IH q rest Hn Ha Hok Hfit) as (r & Hr & Har & Hrp); [|done..|].
    { cbn in Hh. rewrite Hh, <- app_assoc. done. }
    exists r. split_and!; [done| |done]. apply (after_headers_cons n h hs p q r); [|done].
    by split.
Qed.

(** *** The message *)

(** A message without content yet, and what the start line [sl] makes of it. *)
Definition starts (m0 m1 : M) (sl : str) : Prop :=
  headers_ (as_message m0) = [] /\ content_ (as_message m0) = [] /\
  multipart_ (content_type_ (as_message m0)) = false /\
  start_line_of (with_message m0 (Msg.set_start_line (as_message m0) sl)) sl = (m1, true) /\
  as_message m1 = Msg.set_start_line (as_message m0) sl.
(** Headers the parser reads back, for a content [body]. *)
Definition readable (hs : Headers) (body : str) : Prop :=
  (len body <= max_size)%N /\ can_alloc (len body) = true /\
  Forall header_ok hs /\ Forall (header_reads (len body)) hs /\ NoDup (hkeys hs).
(** Headers that survive the wire, for a content [body] that is not multipart. *)
Definition sendable (hs : Headers) (body : str) : Prop :=
  (len body <= max_size)%N /\ can_alloc (len body) = true /\
  Forall header_ok hs /\ Forall (header_fits (len body)) hs /\ NoDup (hkeys hs) /\
  (body <> [] -> has_length hs = true).
Lemma sendable_readable hs body : sendable hs body -> readable hs body.
Proof.
  intros (? & ? & ? & Hf & ? & _). split_and!; try done.
  eapply Forall_impl; [exact Hf|]. apply header_fits_reads.
Qed.

(** The parser behind the headers, the content still pending. *)
Definition behind_headers (m0 m1 : M) (x : X) (hs : Headers) (body : str) q : Prop :=
  after_headers (len body) hs (set_message (set_start_line_parsed (Parser_make m0 x)) m1) q /\
  pending_data_ q = body.

Lemma wire_headers_exec m0 m1 x sl hs body :
  starts m0 m1 sl -> line_ok sl -> readable hs body ->
  exists q, exec pending_data_ (header_pass can_alloc)
      (addp (Parser_make m0 x) (wire sl hs body)) = Some (Done (set_header_ended q) true) /\
    behind_headers m0 m1 x hs body q.
Proof.
  intros (Hh & Hc & Hm & Hst & Hm1) Hsl (Hn & Ha & Hok & Hfit & Hnd).
  set (p := addp (Parser_make m0 x) (wire sl hs body)).
  set (rest := concat (map header_line hs) ++ kCRLF ++ body).
  pose proof (header_pass_line p sl rest Hsl eq_refl) as Hpass.
  unfold handle_line in Hpass. cbn [set_pending start_line_parsed_ p addp Parser_make negb] in Hpass.
  rewrite ParseStartLine_law in Hpass.
  cbn [on_message set_message message_ set_start_line_parsed set_pending] in Hpass.
  change (message_ p) with m0 in Hpass. rewrite Hst in Hpass. cbn [fst snd] in Hpass.
  rewrite (exec_cont (header_incremental can_alloc) p _ eq_refl Hpass).
  match type of Hpass with _ = Cont ?q => set (p1 := q) in * end.
  destruct (headers_exec (len body) hs p1 body Hn Ha Hok Hfit) as (q & Hq & Haf & Hqp);
    [cbn; by rewrite Hm1; cbn; rewrite Hh|done..|].
  exists q. split_and!; done.
Qed.

(** What the function for the content has to do with a content [body], all of it or
    its beginning. *)
Definition content_complete q (Q : M -> Prop) : Prop :=
  exists p, ParseContent (set_header_ended q) [] = Ret (p, true) /\ finished_ p = true /\
    Q (message_ p).
Definition content_waits q body : Prop :=
  forall b1 b2, body = b1 ++ b2 -> b2 <> [] -> exists p,
    ParseContent (set_pending (set_header_ended q) b1) [] = Ret (p, true) /\
    finished_ p = false /\ chunked_ p = false.

(** Before the last byte the parser is still waiting. *)
Lemma wire_parsed_part m0 m1 x sl hs body w1 w2 :
  inv x -> starts m0 m1 sl -> line_ok sl -> readable hs body ->
  (forall q, behind_headers m0 m1 x hs body q -> content_waits q body) ->
  wire sl hs body = w1 ++ w2 -> w2 <> [] ->
  exists p1, Parse can_alloc (Parser_make m0 x) w1 = Ret (p1, true) /\
    finished_ p1 = false /\ chunked_ p1 = false.
Proof.
  intros Hi Hst Hsl Hread Hwaits Hw Hw2.
  destruct (wire_headers_exec m0 m1 x sl hs body Hst Hsl Hread) as (q & Hq & Hb).
  specialize (Hwaits q Hb). destruct Hb as [Haf Hqp].
  set (p0 := Parser_make m0 x) in *.
  assert (finished_ q = false /\ chunked_ q = false) as [Hfq Hkq].
  { by destruct Haf as (_&_&_&_&_&_&->&->&_). }
  rewrite Hw, <- addp_addp in Hq.
  assert (header_ended_ (addp p0 w1) = false) as He by done.
  destruct (exec_more (header_incremental can_alloc) (addp p0 w1) w2 He) as (v & Hv & Hcase).
  pose proof (exec_frame can_alloc (addp p0 w1)) as Hfr. rewrite Hv in Hfr.
  pose proof (Parse_exec can_alloc p0 w1 He) as HP. rewrite Hv in HP.
  destruct v as [r|r|r ok]; [done|..].
  - destruct Hcase as [Hir Hm]. rewrite Hm in Hq.
    destruct (Hfr r He (or_introl eq_refl)) as (_ & Hf & _).
    exists r. split_and!; [by apply observe_unfinished; [rewrite HP; cbn; rewrite Hf|]|done|].
    apply not_true_is_false. intros Hk.
    destruct (exec_frame can_alloc (addp r w2) _ Hir (or_intror Hq)) as (_ & _ & Hmono).
    pose proof (Hmono Hk) as Hk'. cbn in Hk'. by rewrite Hk' in Hkq.
  - destruct Hcase as (r' & Hr' & Hok). rewrite Hr' in Hq. injection Hq as -> ->.
    specialize (Hok eq_refl).
    assert (pending_data_ r ++ w2 = body) as Hb by (rewrite <- Hqp; by destruct q, r; injection Hok).
    assert (r = set_pending (set_header_ended q) (pending_data_ r)) as Hr.
    { rewrite Hok. by destruct r. }
    destruct (Hwaits (pending_data_ r) w2 (eq_sym Hb) Hw2) as (p1 & Hp1 & Hf1 & Hk1).
    rewrite <-Hr in Hp1. rewrite Hp1 in HP. cbn in HP. rewrite Hf1 in HP.
    exists p1. split_and!; [by apply observe_unfinished|done|done].
Qed.

Lemma wire_parses_with m0 m1 x sl hs body ds (Q : M -> Prop) :
  inv x -> starts m0 m1 sl -> line_ok sl -> readable hs body ->
  (forall q, behind_headers m0 m1 x hs body q -> content_complete q Q /\ content_waits q body) ->
  concat ds = wire sl hs body ->
  exists p, ParseAll can_alloc (Parser_make m0 x) ds = Ret (p, true) /\ finished_ p = true /\
    Q (message_ p).
Proof.
  intros Hi Hst Hsl Hread Hcontent Hds.
  destruct (wire_headers_exec m0 m1 x sl hs body Hst Hsl Hread) as (q & Hq & Hb).
  destruct (Hcontent q Hb) as [(pf & Hpf & Hf & HQ) _].
  assert (Parse can_alloc (Parser_make m0 x) (wire sl hs body) = Ret (pf, true)) as HA.
  { unfold Parse. cbn [Parser_make header_ended_].
    pose proof (ParseHeaders_exec can_alloc (addp (Parser_make m0 x) (wire sl hs body)) eq_refl)
      as HH. rewrite Hq in HH. destruct HH as [HH _]. unfold addp in HH. rewrite HH. done. }
  destruct (ParseAll_complete (Parser_make m0 x) (wire sl hs body) pf Hi) with (ds := ds)
    as (p & Hp & Hfp & Heq); try done.
  { intros w1 w2 Hw Hw2. apply (wire_parsed_part m0 m1 x sl hs body w1 w2); try done.
    intros q' Hb'. by apply Hcontent. }
  exists p. split; [done|]. split; [done|].
  assert (message_ p = message_ pf) as -> by (by destruct p, pf; injection Heq).
  done.
Qed.

(** *** Content of a known length *)
Context (fixed_content : forall p d, chunked_ p = false ->
  multipart_ (content_type_ (as_message (message_ p))) = false ->
  ParseContent p d = Ret (ParseFixedContent p d)).

(** The parser behind the headers, for content that is not multipart. *)
Lemma behind_not_multipart m0 m1 x sl hs body q :
  starts m0 m1 sl -> sendable hs body -> behind_headers m0 m1 x hs body q ->
  chunked_ q = false /\ multipart_ (content_type_ (as_message (message_ q))) = false /\
  p_content_ q = [] /\ content_length_parsed_ q = has_length hs /\
  p_content_length_ q = (if has_length hs then len body else kInvalidLength) /\
  (len body =? kInvalidLength)%N = false /\ finished_ q = false.
Proof.
  intros (_ & _ & Hm & _ & Hm1) (Hn & _ & _ & Hfit & _ & _) [Haf _].
  destruct Haf as (_ & _ & _ & _ & a5 & a6 & a7 & a8 & _ & _ & a11 & a12 & _).
  cbn in a5, a6, a7, a8, a11, a12. rewrite Hm1 in a5. split_and!; try done.
  - rewrite a5. by apply (fits_not_multipart (len body)).
  - apply N.eqb_neq. unfold kInvalidLength, npos, max_size in *. lia.
Qed.

Lemma wire_parsed_whole m0 m1 x sl hs body q :
  starts m0 m1 sl -> sendable hs body -> behind_headers m0 m1 x hs body q ->
  content_complete q (fun m => let m' := as_message m in
    start_line_ m' = sl /\ headers_ m' = hs /\ content_ m' = body /\ m = with_message m1 m').
Proof.
  intros Hst Hsend Hb.
  destruct (behind_not_multipart _ _ _ _ _ _ _ Hst Hsend Hb) as (Hk & Hmp & a6 & a11 & a12 & E & _).
  destruct Hst as (Hh & Hc & _ & _ & Hm1), Hsend as (_ & _ & _ & _ & _ & Hlen), Hb as [Haf Hqp].
  destruct Haf as (a1 & a2 & a3 & a4 & _). cbn in a1, a2, a3, a4.
  rewrite Hm1 in a1, a2, a4. cbn in a1, a2, a4. rewrite Hh in a1. rewrite Hc in a4.
  unfold content_complete. rewrite fixed_content by (cbn; auto). rewrite ParseFixedContent_spec.
  cbn [set_header_ended content_length_parsed_ p_content_length_]. rewrite a11, a12.
  destruct (has_length hs) eqn:Hl; cbn [negb].
  - rewrite E.
    cbv zeta. unfold fixed_collect. cbn [set_header_ended set_pending p_content_ pending_data_].
    rewrite a6, Hqp. cbn [app]. rewrite app_nil_r.
    cbn [set_p_content p_content_]. rewrite (proj2 (N.leb_le _ _) (N.le_refl _)).
    eexists. split; [done|]. split; [apply Finish_frame|].
    unfold Finish. cbn [set_finished p_content_ set_p_content]. destruct body as [|c body].
    + cbn. split_and!; [exact a2|exact a1|exact a4|exact a3].
    + unfold IsContentCompressed. cbn [on_message set_message message_ set_p_content].
      rewrite as_with.
      match goal with |- context [if negb ?b then _ else _] => destruct b end; cbn [negb];
        unfold on_message; cbn [set_message message_ set_p_content p_content_ set_pending
          set_header_ended set_finished];
        rewrite !as_with, !with_with; cbn;
        (refine (conj a2 (conj a1 (conj eq_refl _))); rewrite a3 at 1; by rewrite with_with).
  - assert (body = []) as -> by (destruct body; [done|]; by discriminate Hlen).
    eexists. split; [done|]. split; [apply Finish_frame|].
    unfold Finish. cbn. rewrite a6. cbn. by split_and!.
Qed.

Lemma wire_content_waits m0 m1 x sl hs body q :
  starts m0 m1 sl -> sendable hs body -> behind_headers m0 m1 x hs body q -> content_waits q body.
Proof.
  intros Hst Hsend Hb b1 b2 Hbody Hb2.
  destruct (behind_not_multipart _ _ _ _ _ _ _ Hst Hsend Hb) as (Hk & Hmp & a6 & a11 & a12 & E & Hf).
  destruct Hsend as (_ & _ & _ & _ & _ & Hlen).
  rewrite Hlen in a11, a12 by (by rewrite Hbody; intros [_ ?]%app_nil).
  rewrite fixed_content by done. rewrite ParseFixedContent_spec.
  cbn [set_pending set_header_ended content_length_parsed_ p_content_length_].
  rewrite a11, a12, E. cbn [negb]. cbv zeta. unfold fixed_collect.
  cbn [set_pending set_header_ended p_content_ pending_data_ set_p_content].
  rewrite a6, app_nil_r. cbn [app].
  replace (len body <=? len b1)%N with false; [by eexists|].
  symmetry. apply N.leb_gt. rewrite Hbody, len_app. destruct b2; [done|]. unfold len. cbn. lia.
Qed.

Lemma wire_parses m0 m1 x sl hs body ds :
  inv x -> starts m0 m1 sl -> line_ok sl -> sendable hs body ->
  concat ds = wire sl hs body ->
  exists p, ParseAll can_alloc (Parser_make m0 x) ds = Ret (p, true) /\ finished_ p = true /\
    let m := as_message (message_ p) in
    start_line_ m = sl /\ headers_ m = hs /\ content_ m = body /\
    message_ p = with_message m1 m.
Proof.
  intros Hi Hst Hsl Hsend Hds.
  apply (wire_parses_with m0 m1 x sl hs body ds (fun m => let m' := as_message m in
    start_line_ m' = sl /\ headers_ m' = hs /\ content_ m' = body /\ m = with_message m1 m'));
    [done..|by apply sendable_readable| |done].
  intros q Hb. split; [by eapply wire_parsed_whole|by eapply wire_content_waits].
Qed.
End Complete.
