(* ===== verification/ParserProps.v ===== *)
(** * What the HTTP parsers promise

    The theorems about [RequestParser] and [ResponseParser]: they read back
    what [Request] and [Response] write, in whatever pieces it arrives; how the
    bytes are cut does not matter; they return on any input; and the
    exceptions to this, which come from chunked content and from a request
    parser that is used again. *)
From Stdlib Require Import Ascii String.
From stdpp Require Import base tactics list numbers option strings.
From S2P Require Import Prelude Globals Common Url Message Parser ParserLaws.

(** ** Start lines *)

(** A word of a start line. *)
Definition word (w : str) : Prop := w <> [] /\ SP ∉ w /\ CR ∉ w.

Lemma word_no_sep w : word w -> Forall (fun c => ceqb c SP = false) w.
Proof.
  intros (_ & H & _). apply Forall_forall. intros c Hc. apply ceqb_neq. by intros ->.
Qed.
Lemma split_words a b c :
  word a -> word b -> word c ->
  split_on (fun x => ceqb x " ") true (a ++ #" " ++ b ++ #" " ++ c) = [a; b; c].
Proof.
  intros Ha Hb Hc. unfold split_on. change (#" " ++ b ++ #" " ++ c) with (SP :: b ++ SP :: c).
  rewrite (split_go_fresh _ true false [] a SP) by first [by apply word_no_sep|done].
  rewrite (split_go_fresh _ true true [] b SP) by first [by apply word_no_sep|done|by intros; apply Hb].
  by rewrite split_go_last by (by apply word_no_sep).
Qed.

Definition target_of (path query : str) : str :=
  #"/" ++ path ++ match query with [] => [] | q => #"?" ++ q end.

(** A path and query the request line can carry as they are. *)
Definition plain_target (path query : str) : Prop :=
  word (target_of path query) /\ "%"%char ∉ target_of path query /\
  "?"%char ∉ path /\ find_str #"://" (target_of path query) = None.

Lemma find_str_tail p c s : find_str p (c :: s) = None -> find_str p s = None.
Proof. cbn [find_str]. destruct (prefixb p (c :: s)); [done|]. by destruct (find_str p s). Qed.

Lemma set_url_target r path query :
  plain_target path query ->
  url_ (Req.set_url r (target_of path query)) = mkUrl [] [] [] path query.
Proof.
  intros (_ & Hpc & Hq & Hu). cbn [Req.set_url url_].
  change (Url_Init (url_ r) (target_of path query) true true)
    with (Url_Init Url_empty (target_of path query) true true).
  unfold Url_Init. apply find_chr_None in Hpc. rewrite Hpc. cbn [negb orb].
  change (Url_Parse (Url_Clear Url_empty) (target_of path query))
    with (Url_make (target_of path query) false).
  unfold target_of in *. apply find_str_tail in Hu. destruct query as [|c query].
  - rewrite app_nil_r in *. by apply Url_target_noquery.
  - by apply Url_target.
Qed.

Lemma request_starts m0 method path query :
  req_message m0 = Message_new -> plain_target path query -> word method ->
  let sl := method ++ #" " ++ target_of path query ++ #" HTTP/1.1" in
  starts m0 (Request_with (Req.set_url (Req.set_method m0 method) (target_of path query))
               (Msg.set_start_line Message_new sl)) sl.
Proof.
  intros Hm Ht Hw sl. split_and!; try (by cbn; rewrite Hm).
  cbn. rewrite Hm. unfold ReqParser.ParseStartLine. subst sl.
  change #" HTTP/1.1" with (#" " ++ #"HTTP/1.1").
  rewrite split_words; [done|done|apply Ht|]. by split; [|split; decide_now].
Qed.
Lemma start_line_no_CR method path query :
  word method -> plain_target path query ->
  line_ok (method ++ #" " ++ target_of path query ++ #" HTTP/1.1").
Proof.
  intros (Hne & _ & Hm) ((_ & _ & Ht) & _). split; [by destruct method|].
  rewrite !not_elem_of_app. split_and!; [done|decide_now|done|decide_now].
Qed.

Lemma request_fixed (p : Parser Request Multipart) d :
  chunked_ p = false -> multipart_ (content_type_ (as_message (message_ p))) = false ->
  ParseContent p d = Ret (ParseFixedContent p d).
Proof. intros Hk Hm. cbn in *. unfold ReqParser.ParseContent. by rewrite Hk, Hm. Qed.
Lemma response_fixed (p : Parser Response unit) d :
  chunked_ p = false -> multipart_ (content_type_ (as_message (message_ p))) = false ->
  ParseContent p d = Ret (ParseFixedContent p d).
Proof. intros Hk _. cbn. unfold RespParser.ParseContent. by rewrite Hk. Qed.
Lemma fresh_inv : inv (mkMultipart kStart None).
Proof. by split. Qed.

Lemma fresh_response_inv : inv (M := Response) tt.
Proof. done. Qed.

(** A prepared request is parsed from any reads. *)
Lemma request_parsed can_alloc uuid r r' ds :
  start_line_ (req_message r) = [] -> form_parts_ r = [] ->
  word (method_ r) -> plain_target (path_ (url_ r)) (query_ (url_ r)) ->
  Req.Prepare uuid r = Ret r' ->
  sendable can_alloc (headers_ (req_message r')) (content_ (req_message r)) ->
  concat ds = Msg.CopyPayload (req_message r') ->
  exists p, ParseAll can_alloc (ReqParser.make Req.new) ds = Ret (p, true) /\
    finished_ p = true /\
    method_ (message_ p) = method_ r /\
    url_ (message_ p) = mkUrl [] [] [] (path_ (url_ r)) (query_ (url_ r)) /\
    headers_ (req_message (message_ p)) = headers_ (req_message r') /\
    content_ (req_message (message_ p)) = content_ (req_message r).
Proof.
  intros Hs Hf Hm Ht H Hsend Hds. unfold Req.Prepare in H.
  apply obind_Ret in H as (r1 & H1 & H). unfold Req.CreateStartLine in H1. rewrite Hs in H1.
  destruct (host_ (url_ r)); [done|].
  set (sl := method_ r ++ #" " ++ target_of (path_ (url_ r)) (query_ (url_ r)) ++ #" HTTP/1.1").
  assert (r1 = with_message r (Msg.set_start_line (req_message r) sl)) as ->.
  { assert (forall x y : Request, Ret x = Ret y -> y = x) as Hinj by congruence.
    apply Hinj in H1 as ->. unfold sl, target_of.
    destruct (query_ (url_ r)); by rewrite ?app_nil_r, <- ?app_assoc. }
  clear H1. destruct r as [m me u ps b]. cbn [form_parts_] in Hf. subst ps.
  cbn in H. injection H as <-. cbn [req_message Request_with] in Hds, Hsend |- *.
  rewrite CopyPayload_Prepare in Hds. cbn in Hds.
  destruct (wire_parses can_alloc request_fixed Req.new _ (mkMultipart kStart None) sl _ _ ds
    fresh_inv (request_starts Req.new me (path_ u) (query_ u) eq_refl Ht Hm)
    (start_line_no_CR me (path_ u) (query_ u) Hm Ht) Hsend Hds)
    as (p & Hp & Hfin & _ & Hh & Hc & Hmsg).
  exists p. split; [done|]. split; [done|].
  split_and!; [by rewrite Hmsg| |exact Hh|exact Hc].
  rewrite Hmsg. cbn [with_message Request_MessageLike Request_with url_].
  by apply set_url_target.
Qed.

(** C4: a server parses the request a client prepared, when the request line and the
    headers can carry it: for a request without form parts whose method is a word, whose path and
    query hold no blank, '%' or '://' (and the path no '?'), and whose headers fit on their
    lines (with the Content-Length of its content), the bytes of [Request::Prepare], cut into any
    sequence of reads, are accepted, and the parsed request has the same method, path, query,
    headers and content. *)
Theorem request_roundtrip can_alloc uuid r r' ds :
  start_line_ (req_message r) = [] -> form_parts_ r = [] ->
  word (method_ r) -> plain_target (path_ (url_ r)) (query_ (url_ r)) ->
  Req.Prepare uuid r = Ret r' ->
  sendable can_alloc (headers_ (req_message r')) (content_ (req_message r)) ->
  concat ds = Msg.CopyPayload (req_message r') ->
  exists p, ParseAll can_alloc (ReqParser.make Req.new) ds = Ret (p, true) /\
    finished_ p = true /\
    method_ (message_ p) = method_ r /\
    url_ (message_ p) = mkUrl [] [] [] (path_ (url_ r)) (query_ (url_ r)) /\
    headers_ (req_message (message_ p)) = headers_ (req_message r') /\
    content_ (req_message (message_ p)) = content_ (req_message r).
Proof. apply request_parsed. Qed.

(** Closed instances of [sendable], header by header. *)
Ltac header_now :=
  split_and!; first [discriminate | decide_now | (split; reflexivity) | done
                    | (vm_compute; intros; split_and!; congruence) | (intros; vm_compute; congruence)].
Ltac sendable_now :=
  match goal with |- sendable ?a ?hs ?b =>
    let h := eval vm_compute in hs in let b' := eval vm_compute in b in
    assert (sendable a h b') as Hnow; [|exact Hnow] end;
  split_and!;
  [ vm_compute; discriminate | reflexivity
  | repeat (apply Forall_cons; split; [unfold header_ok; cbn [fst snd]; header_now |]);
    apply Forall_nil; exact I
  | repeat (apply Forall_cons; split; [unfold header_fits; cbn [fst snd]; header_now |]);
    apply Forall_nil; exact I
  | decide_now | first [reflexivity | done | (intros; reflexivity)] ].

Example request_roundtrip_witness :
  let r := Req.make #"GET" #"http://localhost:9000/face?id=1" in
  exists r' p, Req.Prepare #"U" r = Ret r' /\
    ParseAll (fun _ => true) (ReqParser.make Req.new)
      (map (fun c => [c]) (Msg.CopyPayload (req_message r'))) = Ret (p, true) /\
    finished_ p = true /\ method_ (message_ p) = #"GET" /\
    url_ (message_ p) = mkUrl [] [] [] #"face" #"id=1".
Proof.
  intros r.
  assert (forall w : str, concat (map (fun c => [c]) w) = w) as Hc.
  { induction w as [|c w IH]; [done|]. cbn. by rewrite IH. }
  destruct (Req.Prepare #"U" r) as [r'| |] eqn:E; [|vm_compute in E; discriminate..].
  exists r'.
  edestruct (request_roundtrip (fun _ => true) #"U" r r' (map (fun c => [c]) (Msg.CopyPayload
    (req_message r'))))
    as (p & H1 & H2 & H3 & H4 & _); [reflexivity|reflexivity| | |exact E| |apply Hc|].
  - split; [discriminate|]. split; decide_now.
  - split_and!; [split; [discriminate|split; decide_now]|decide_now|decide_now|reflexivity].
  - vm_compute in E. injection E as <-. sendable_now.
  - exists p. split_and!; [reflexivity|exact H1|exact H2|exact H3|exact H4].
Defined.

Lemma response_starts st0 s :
  let sl := Resp.status_string (status_int s) in
  starts (Resp.make st0) (mkResponse (Msg.set_start_line Message_new sl) (status_int s)) sl /\
  line_ok sl.
Proof.
  intros sl. split.
  - split_and!; try done. by destruct s.
  - split; [by destruct s|]. destruct s; decide_now.
Qed.

(** A client parses the response a server prepared, in any sequence of reads
    (see [Client.client_gets_response]). *)
Lemma response_parsed can_alloc date r s st0 ds :
  start_line_ (resp_message r) = [] -> status_ r = status_int s ->
  sendable can_alloc (headers_ (resp_message (Resp.Prepare date r))) (content_ (resp_message r)) ->
  concat ds = Msg.CopyPayload (resp_message (Resp.Prepare date r)) ->
  exists p, ParseAll can_alloc (RespParser.make (Resp.make st0)) ds = Ret (p, true) /\
    finished_ p = true /\
    status_ (message_ p) = status_int s /\
    headers_ (resp_message (message_ p)) = headers_ (resp_message (Resp.Prepare date r)) /\
    content_ (resp_message (message_ p)) = content_ (resp_message r).
Proof.
  intros Hs Hst Hsend Hds.
  destruct (response_starts st0 s) as [Hstart Hok].
  assert (Msg.CopyPayload (resp_message (Resp.Prepare date r)) =
    wire (Resp.status_string (status_int s)) (headers_ (resp_message (Resp.Prepare date r)))
      (content_ (resp_message r))) as Hw.
  { by rewrite (Resp_Prepare_message date r Hs), Hst, CopyPayload_Prepare. }
  rewrite Hw in Hds.
  destruct (wire_parses can_alloc response_fixed (Resp.make st0) _ tt _ _ _ ds fresh_response_inv
    Hstart Hok Hsend Hds)
    as (p & Hp & Hfin & _ & Hh & Hc & Hmsg).
  exists p. split_and!; [exact Hp|exact Hfin|by rewrite Hmsg|exact Hh|exact Hc].
Qed.

(** C12: how the bytes are cut into reads does not matter: a fresh request or
    response parser that consumed the reads [ds] without error and still waits
    for more, with content that is not chunked (multipart content included),
    gives on the next read [d] the result a fresh parser gives on all the bytes
    at once. *)
Theorem reads_may_be_cut_anywhere can_alloc d :
  (forall r ds (p : Parser Request Multipart),
     ParseAll can_alloc (ReqParser.make r) ds = Ret (p, true) ->
     finished_ p = false -> chunked_ p = false ->
     observe (Parse can_alloc p d) = observe (Parse can_alloc (ReqParser.make r) (concat ds ++ d))) /\
  (forall r ds (p : Parser Response unit),
     ParseAll can_alloc (RespParser.make r) ds = Ret (p, true) ->
     finished_ p = false -> chunked_ p = false ->
     observe (Parse can_alloc p d) = observe (Parse can_alloc (RespParser.make r) (concat ds ++ d))).
Proof.
  split; intros r ds p H Hf Hk.
  - by destruct (ParseAll_more can_alloc ds (ReqParser.make r) p d fresh_inv H Hf Hk) as (_ & _ & ?).
  - by destruct (ParseAll_more can_alloc ds (RespParser.make r) p d fresh_response_inv H Hf Hk) as (_ & _ & ?).
Qed.
Example reads_may_be_cut_anywhere_witness :
  exists p, ParseAll (fun _ => true) (ReqParser.make Req.new)
      [#"POST /face HT"; #"TP/1.1"; [CR]; [LF] ++ #"Content-Length: 3" ++ kCRLF ++ kCRLF ++ #"a"] =
      Ret (p, true) /\
    observe (Parse (fun _ => true) p #"bc") =
    observe (Parse (fun _ => true) (ReqParser.make Req.new)
      (concat [#"POST /face HT"; #"TP/1.1"; [CR];
        [LF] ++ #"Content-Length: 3" ++ kCRLF ++ kCRLF ++ #"a"] ++ #"bc")).
Proof.
  eexists. split; [vm_compute; reflexivity|].
  apply (proj1 (reads_may_be_cut_anywhere (fun _ => true) #"bc")); vm_compute; reflexivity.
Defined.

(** C21: a fresh parser fed any reads comes to a result: no loop runs for ever
    on malformed input, and the only exception that can escape is the
    [length_error] of a chunk too large for a string. *)
Theorem parser_returns can_alloc ds :
  (forall r, let p := ReqParser.make r in
     (exists p1 ok, ParseAll can_alloc p ds = Ret (p1, ok)) \/
     ParseAll can_alloc p ds = Throw LengthError) /\
  (forall r, let p := RespParser.make r in
     (exists p1 ok, ParseAll can_alloc p ds = Ret (p1, ok)) \/
     ParseAll can_alloc p ds = Throw LengthError).
Proof.
  split; intros r p; apply ParseAll_returns; [apply fresh_inv|apply fresh_response_inv].
Qed.

(** ** Chunked content *)

(** One chunk as it is sent: the size line and the data. *)
Definition chunk_ok (c : str * str) : Prop :=
  CR ∉ fst c /\ SP ∉ fst c /\ stoul 16 (fst c) = Some (len (snd c)) /\ snd c <> [].
Definition chunk_bytes (c : str * str) : str := fst c ++ kCRLF ++ snd c ++ kCRLF.

Lemma chunk_count cs : length cs <= length (concat (map chunk_bytes cs)).
Proof.
  induction cs as [|c cs IH]; [done|]. cbn [map concat length]. rewrite length_app.
  unfold chunk_bytes at 1. rewrite !length_app. change (length kCRLF) with 2. lia.
Qed.

Section Chunked.
Context {M X : Type} `{!MessageLike M}.
Implicit Types p : Parser M X.

Lemma ParseChunkSize_line p l n rest :
  CR ∉ l -> SP ∉ l -> stoul 16 l = Some n -> pending_data_ p = l ++ kCRLF ++ rest ->
  ParseChunkSize p = (set_chunk_size (set_pending p rest) n, true).
Proof.
  intros Hc Hs Hn Hp. unfold ParseChunkSize. rewrite (next_line p l rest Hc Hp).
  assert (find_chr " " l = None) as -> by (by apply find_chr_None).
  unfold StringToSizeT. by rewrite Hn.
Qed.

Lemma chunked_loop_chunks cs : forall f p l0 rest,
  Forall chunk_ok cs -> CR ∉ l0 -> SP ∉ l0 -> stoul 16 l0 = Some 0%N ->
  chunk_size_ p = kInvalidLength ->
  pending_data_ p = concat (map chunk_bytes cs) ++ l0 ++ kCRLF ++ rest ->
  (len (p_content_ p) + len (pending_data_ p) <= max_size)%N ->
  length cs < f ->
  chunked_loop f p = Ret (Finish (set_chunk_size (set_pending
    (set_p_content p (p_content_ p ++ concat (map snd cs))) rest) 0%N), true).
Proof.
  induction cs as [|[l d] cs IH]; intros f p l0 rest Hok Hc0 Hs0 Hn0 Hcs Hp Hmax Hf;
    (destruct f as [|f]; [cbn in Hf; lia|]); cbn [chunked_loop]; rewrite Hcs, N.eqb_refl.
  - cbn [map concat app] in Hp |- *. rewrite (ParseChunkSize_line p l0 0 rest) by done.
    cbn. rewrite app_nil_r. by destruct p.
  - apply Forall_cons in Hok as [(Hc & Hs & Hn & Hd) Hok]. cbn [fst snd] in *.
    set (rest' := concat (map chunk_bytes cs) ++ l0 ++ kCRLF ++ rest).
    assert (pending_data_ p = l ++ kCRLF ++ (d ++ kCRLF ++ rest')) as Hp'.
    { rewrite Hp. subst rest'. cbn [map concat]. unfold chunk_bytes at 1. cbn [fst snd].
      by rewrite <- !app_assoc. }
    rewrite (ParseChunkSize_line p l (len d) _ Hc Hs Hn Hp'). cbn [negb].
    cbn [set_chunk_size chunk_size_ set_pending pending_data_ p_content_].
    assert ((len d =? 0)%N = false) as ->.
    { apply N.eqb_neq. destruct d; [done|]. unfold len. cbn. lia. }
    rewrite Hp', !len_app in Hmax. change (len kCRLF) with 2%N in Hmax.
    assert (wrap64 (len d + 2) = len d + 2)%N as Hw.
    { unfold wrap64. apply N.mod_small. unfold max_size, two64 in *. lia. }
    rewrite Hw, !len_app. change (len kCRLF) with 2%N.
    rewrite (proj2 (N.leb_le _ _)) by lia. unfold append_count.
    rewrite (proj2 (N.ltb_ge _ _)) by lia. cbn [obind].
    replace (N.to_nat (len d)) with (length d) by (unfold len; lia). rewrite take_app_exact.
    cbn [set_p_content set_chunk_size chunk_size_ set_pending pending_data_ p_content_].
    rewrite Hw, erase_0.
    replace (N.to_nat (len d + 2)) with (length (d ++ kCRLF))
      by (rewrite length_app; change (length kCRLF) with 2; unfold len; lia).
    rewrite (app_assoc d kCRLF rest'), drop_app_exact.
    rewrite (IH f _ l0 rest); try done; try (cbn in Hf |- *; lia).
    + destruct p. cbn.
      match goal with |- context [(?a ++ d) ++ ?c] => by rewrite <- (app_assoc a d c) end.
    + cbn [set_chunk_size set_pending set_p_content p_content_ pending_data_].
      rewrite len_app. lia.
Qed.
End Chunked.

Lemma Finish_message (p : Parser Request Multipart) :
  content_ (req_message (message_ (Finish p))) =
  match p_content_ p with [] => content_ (req_message (message_ p)) | c => c end.
Proof.
  unfold Finish. cbn [set_finished p_content_]. destruct (p_content_ p) eqn:E; [done|].
  destruct (negb _); cbn; by rewrite ?E.
Qed.

(** Chunked content that arrives in one piece is decoded (see
    [Chunked.chunked_reads] for content in any reads): a parser that has
    just read the headers of a chunked request and gets the chunks (each its
    hexadecimal size, CRLF, the data, CRLF) and the last size [0] in one read
    finishes, and the content is the data of the chunks in order. *)
Theorem chunked_decodes can_alloc (p : Parser Request Multipart) cs l0 rest :
  header_ended_ p = true -> chunked_ p = true -> chunk_size_ p = kInvalidLength ->
  pending_data_ p = [] -> p_content_ p = [] -> content_ (req_message (message_ p)) = [] ->
  Forall chunk_ok cs -> CR ∉ l0 -> SP ∉ l0 -> stoul 16 l0 = Some 0%N ->
  let data := concat (map chunk_bytes cs) ++ l0 ++ kCRLF ++ rest in
  (len data <= max_size)%N ->
  exists q, Parse can_alloc p data = Ret (q, true) /\ finished_ q = true /\
    content_ (req_message (message_ q)) = concat (map snd cs).
Proof.
  intros He Hk Hcs Hp Hc Hm Hok Hc0 Hs0 Hn0 data Hmax. unfold Parse. rewrite He.
  cbn. unfold ReqParser.ParseContent. rewrite Hk. unfold ParseChunkedContent. rewrite Hp.
  cbn [app set_pending pending_data_].
  rewrite (chunked_loop_chunks cs _ _ l0 rest); try done.
  2: { cbn [set_pending p_content_ pending_data_]. rewrite Hc.
       change (len []) with 0%N. lia. }
  2: { pose proof (chunk_count cs). unfold data. rewrite length_app. lia. }
  eexists. split; [done|]. split; [apply Finish_frame|]. rewrite Finish_message. cbn.
  rewrite Hc. cbn. destruct (concat (map snd cs)); [exact Hm|done].
Qed.

Example chunked_decodes_witness :
  exists q, Parse (fun _ => true)
      (mkParser Req.new [] kInvalidLength [] true false true true kInvalidLength false
         (mkMultipart kStart None))
      (#"a" ++ kCRLF ++ #"0123456789" ++ kCRLF ++ #"3" ++ kCRLF ++ #"abc" ++ kCRLF ++ #"0" ++ kCRLF)
      = Ret (q, true) /\
    finished_ q = true /\ content_ (req_message (message_ q)) = #"0123456789abc".
Proof.
  apply (chunked_decodes (fun _ => true) (mkParser Req.new [] kInvalidLength [] true false true true
           kInvalidLength false (mkMultipart kStart None))
         [(#"a", #"0123456789"); (#"3", #"abc")] #"0" []); try reflexivity; try decide_now.
Defined.

(** a chunked message whose chunk-size line is cut by the end of a read is
    not parsed: with no complete line in a non-empty buffer the size is still
    [npos], [chunk_size_ + 2] wraps around to 1, and appending [npos] bytes
    throws [std::length_error]. *)
Theorem chunk_size_line_cut_throws can_alloc (p : Parser Request Multipart) data :
  header_ended_ p = true -> chunked_ p = true -> chunk_size_ p = kInvalidLength ->
  find_str kCRLF (pending_data_ p ++ data) = None -> pending_data_ p ++ data <> [] ->
  Parse can_alloc p data = Throw LengthError.
Proof.
  intros He Hk Hcs Hl Hne. unfold Parse. rewrite He. cbn. unfold ReqParser.ParseContent.
  rewrite Hk. unfold ParseChunkedContent. fold (addp p data). cbn [chunked_loop].
  change (chunk_size_ (addp p data)) with (chunk_size_ p). rewrite Hcs, N.eqb_refl.
  assert (GetNextLine (addp p data) 0 true = None) as Hg.
  { unfold GetNextLine, find_from. cbn [addp set_pending pending_data_]. by rewrite drop_0, Hl. }
  unfold ParseChunkSize. rewrite Hg. cbn [negb].
  change (chunk_size_ (addp p data)) with (chunk_size_ p). rewrite Hcs. cbn [N.eqb kInvalidLength npos].
  change (wrap64 (kInvalidLength + 2)) with 1%N.
  rewrite (proj2 (N.leb_le _ _)).
  - unfold append_count. rewrite (proj2 (N.ltb_lt _ _)); [done|].
    unfold max_size, kInvalidLength, npos. lia.
  - cbn [addp set_pending pending_data_]. unfold len.
    destruct (pending_data_ p ++ data); [done|]. cbn. lia.
Qed.

Example chunk_size_line_cut_throws_witness :
  ParseAll (fun _ => true) (ReqParser.make Req.new)
    [#"POST /face HTTP/1.1" ++ kCRLF ++ #"Transfer-Encoding: chunked" ++ kCRLF ++ kCRLF; #"a"]
  = Throw LengthError.
Proof.
  cbn [ParseAll].
  match goal with |- context [Parse _ (ReqParser.make Req.new) ?d] =>
    let o := eval vm_compute in (Parse (fun _ => true) (ReqParser.make Req.new) d) in
    replace (Parse (fun _ => true) (ReqParser.make Req.new) d) with o by (vm_compute; reflexivity)
  end.
  cbn [obind negb orb finished_].
  rewrite (chunk_size_line_cut_throws (fun _ => true)); [reflexivity..|discriminate].
Defined.

(** ** Multipart content *)

(** A multipart request with one field, as the client writes it. *)
Definition sample_form (parts : list FormPart) : str :=
  match Req.Prepare #"XYZ" (Req.set_form_parts (Req.make #"POST" #"http://h/face") parts) with
  | Ret r => Msg.CopyPayload (req_message r)
  | _ => []
  end.
Definition parse_form (p : Parser Request Multipart) (data : str) :=
  Parse (fun _ => true) p data.

(** A field without data is rejected, although [Request::Prepare] writes it. *)
Example empty_part_rejected :
  match parse_form (ReqParser.make Req.new) (sample_form [Part.from_data #"a" [] []]) with
  | Ret (_, ok) => ok = false
  | _ => False
  end.
Proof. vm_compute. reflexivity. Qed.

(** A line of the data that only looks like the closing boundary (its length and
    its dashes are right, its text is not) ends the form at the next boundary,
    and the fields behind it are lost. *)
Example closing_look_alike_drops_fields :
  let text := #"1" ++ kCRLF ++ #"--abc--" ++ kCRLF ++ #"2" in
  match parse_form (ReqParser.make Req.new)
          (sample_form [Part.from_data #"a" text []; Part.from_data #"b" #"3" []]) with
  | Ret (p, ok) => ok = true /\ finished_ p = true /\
      map fp_name_ (form_parts_ (message_ p)) = [#"a"]
  | _ => False
  end.
Proof. vm_compute. auto. Qed.
