(* ===== verification/Chunked.v ===== *)
(** * Chunked content in any reads

    What [Parser::ParseChunkedContent] makes of a chunked message that arrives
    in pieces.  The state between two reads is a function of the number of
    bytes read so far ([at_pos]); the content is decoded for every way of
    cutting the bytes except those that end a read inside a line with the size
    of a chunk, on which the parser throws. *)
From Stdlib Require Import Ascii String.
From stdpp Require Import base tactics list numbers option strings.
From S2P Require Import Prelude Globals Common Url Message Parser ParserLaws ParserProps.

(** ** Positions in the content *)

(** The chunks, the last size line [l0], and what comes behind it. *)
Definition chunk_stream (cs : list (str * str)) (l0 rest : str) : str :=
  concat (map chunk_bytes cs) ++ l0 ++ kCRLF ++ rest.
Definition chunk_data (cs : list (str * str)) : str := concat (map snd cs).

(** The number of bytes up to the end of the last size line. *)
Fixpoint body_size (cs : list (str * str)) (l0 : str) : nat :=
  match cs with
  | [] => length l0 + 2
  | c :: cs => length (chunk_bytes c) + body_size cs l0
  end.

(** Byte [n] lies inside a size line, behind its first byte. *)
Fixpoint in_size_line (cs : list (str * str)) (l0 : str) (n : nat) : bool :=
  match cs with
  | [] => (0 <? n) && (n <? length l0 + 2)
  | c :: cs =>
      if n <? length (fst c) + 2 then 0 <? n
      else if n <? length (chunk_bytes c) then false
      else in_size_line cs l0 (n - length (chunk_bytes c))
  end.

(** The positions at which reads that start at byte [n] end. *)
Fixpoint read_ends (n : nat) (ds : list str) : list nat :=
  match ds with
  | [] => []
  | d :: ds => n + length d :: read_ends (n + length d) ds
  end.

Lemma chunk_bytes_length l d : length (chunk_bytes (l, d)) = length l + length d + 4.
Proof. unfold chunk_bytes. cbn [fst snd]. rewrite !length_app. cbn. lia. Qed.

Lemma chunk_stream_cons l d cs l0 rest :
  chunk_stream ((l, d) :: cs) l0 rest =
  l ++ kCRLF ++ d ++ kCRLF ++ chunk_stream cs l0 rest.
Proof. unfold chunk_stream, chunk_bytes. cbn [map concat fst snd]. by rewrite <- !app_assoc. Qed.

Lemma chunk_stream_size cs l0 rest : body_size cs l0 <= length (chunk_stream cs l0 rest).
Proof.
  induction cs as [|[l d] cs IH].
  - unfold chunk_stream. cbn [map concat app body_size]. rewrite !length_app. cbn. lia.
  - rewrite chunk_stream_cons. cbn [body_size]. rewrite chunk_bytes_length, !length_app. cbn. lia.
Qed.

Lemma body_no_size_line cs l0 : forall n, body_size cs l0 <= n -> in_size_line cs l0 n = false.
Proof.
  induction cs as [|[l d] cs IH]; intros n Hn; cbn [body_size in_size_line fst] in *.
  - apply andb_false_iff. right. by apply Nat.ltb_ge.
  - rewrite chunk_bytes_length in *. rewrite !(proj2 (Nat.ltb_ge _ _)) by lia. apply IH. lia.
Qed.
Lemma read_ends_behind cs l0 ds : forall n, body_size cs l0 <= n ->
  existsb (in_size_line cs l0) (read_ends n ds) = false.
Proof.
  induction ds as [|d ds IH]; intros n Hn; [done|]. cbn [read_ends existsb].
  rewrite body_no_size_line by lia. apply IH. lia.
Qed.

(** A piece of a line and its CRLF that is not all of them has no CRLF. *)
Lemma line_cut l w z rest :
  CR ∉ l -> w ++ z = l ++ kCRLF ++ rest -> length w < length l + 2 -> find_str kCRLF w = None.
Proof.
  intros Hc H Hw. assert (exists u, l ++ [CR] = w ++ u) as [u Hu].
  { exists (drop (length w) (l ++ [CR])). rewrite <- (take_drop (length w) (l ++ [CR])) at 1.
    f_equal. change (w ++ z = l ++ [CR] ++ [LF] ++ rest) in H. rewrite app_assoc in H.
    apply (f_equal (take (length w))) in H. rewrite take_app_exact in H.
    rewrite take_app_le in H; [done|]. rewrite length_app. cbn. lia. }
  clear H. destruct (find_str kCRLF w) as [i|] eqn:E; [|done].
  pose proof (find_str_length _ _ _ E) as Hlen. cbn in Hlen.
  apply (find_str_app _ _ u) in E. rewrite <- Hu in E. exfalso. clear -E Hc.
  induction l as [|x l IH] in i, E, Hc |- *; [done|].
  apply not_elem_of_cons in Hc as [Hx Hc]. apply ceqb_neq in Hx.
  cbn [app find_str prefixb kCRLF] in E. unfold kCRLF in E. cbn [prefixb] in E.
  rewrite Hx in E. cbn [andb] in E.
  destruct (find_str _ (l ++ [CR])) as [j|] eqn:G; [|done]. by apply (IH Hc j).
Qed.

(** ** The state between two reads *)
Section Reads.
Context {M X : Type} `{!MessageLike M}.
(** The parser when its headers have ended, and the last size line. *)
Variable p0 : Parser M X.
Variable l0 rest : str.
Hypothesis l0_line : CR ∉ l0 /\ SP ∉ l0 /\ stoul 16 l0 = Some 0%N.
Implicit Types (p : Parser M X) (cs : list (str * str)) (c w z : str).

(** The parser with the content [c], the bytes [w] pending and [n] bytes of
    the chunk to come. *)
Definition state c w n : Parser M X := set_chunk_size (set_pending (set_p_content p0 c) w) n.

(** The state after [n] bytes: between two chunks nothing is pending; in a
    chunk all its data is in the content, or what is left of it is pending. *)
Fixpoint at_pos c cs (n : nat) p : Prop :=
  (n = 0 /\ p = state c [] kInvalidLength) \/
  match cs with
  | [] => False
  | (l, d) :: cs =>
      (exists d1 d2 w, d = d1 ++ d2 /\ d2 <> [] /\ p = state (c ++ d1) w (len d2) /\
         (w = [] \/ w = d2 \/ w = d2 ++ [CR]) /\
         n = length l + 2 + length d1 + length w) \/
      (length (chunk_bytes (l, d)) <= n /\
       at_pos (c ++ d) cs (n - length (chunk_bytes (l, d))) p)
  end.

(** What the parser does with the bytes up to [n]. *)
Definition result c cs (n : nat) (o : outcome (Parser M X * bool)) : Prop :=
  if in_size_line cs l0 n then o = Throw LengthError
  else if body_size cs l0 <=? n then
    exists w, o = Ret (Finish (state (c ++ chunk_data cs) w 0%N), true)
  else exists q, o = Ret (q, true) /\ at_pos c cs n q.

Lemma result_skip l d cs c n o :
  result (c ++ d) cs n o -> result c ((l, d) :: cs) (length (chunk_bytes (l, d)) + n) o.
Proof.
  unfold result. cbn [in_size_line body_size fst]. rewrite (proj2 (Nat.ltb_ge _ _)).
  2: { rewrite chunk_bytes_length. lia. }
  rewrite (proj2 (Nat.ltb_ge _ _)) by lia. rewrite Nat.add_comm, Nat.add_sub.
  destruct (in_size_line cs l0 n); [done|].
  replace (length (chunk_bytes (l, d)) + body_size cs l0 <=? n + length (chunk_bytes (l, d)))
    with (body_size cs l0 <=? n) by (symmetry; destruct (body_size cs l0 <=? n) eqn:E;
      [apply Nat.leb_le in E; apply Nat.leb_le; lia|apply Nat.leb_gt in E; apply Nat.leb_gt; lia]).
  destruct (_ <=? _).
  - unfold chunk_data. cbn [map concat snd]. by rewrite <- app_assoc.
  - intros (q & -> & Hq). exists q. split; [done|]. right; right. split; [lia|].
    by rewrite Nat.add_sub.
Qed.

(** Inside a chunk a read does not end in a size line, and is not the end. *)
Lemma result_inside c l d cs n p :
  length l + 2 <= n -> n < length (chunk_bytes (l, d)) -> at_pos c ((l, d) :: cs) n p ->
  result c ((l, d) :: cs) n (Ret (p, true)).
Proof.
  intros H1 H2 H. unfold result. cbn [in_size_line body_size fst].
  rewrite (proj2 (Nat.ltb_ge _ _)), (proj2 (Nat.ltb_lt _ _)) by done.
  rewrite (proj2 (Nat.leb_gt _ _)) by lia. by exists p.
Qed.

Lemma state_chunk_size c w n : chunk_size_ (state c w n) = n.
Proof. done. Qed.
Lemma len_not_invalid (d : str) : (len d <= max_size)%N -> (len d =? kInvalidLength)%N = false.
Proof. intros H. apply N.eqb_neq. unfold max_size, kInvalidLength, npos in *. lia. Qed.
Lemma len_not_0 (d : str) : d <> [] -> (len d =? 0)%N = false.
Proof. intros H. apply N.eqb_neq. destruct d; [done|]. unfold len. cbn. lia. Qed.
Lemma wrap_len (d : str) : (len d <= max_size)%N -> wrap64 (len d + 2) = (len d + 2)%N.
Proof. intros H. unfold wrap64. apply N.mod_small. unfold max_size, two64 in *. lia. Qed.

(** The loop with the data of a chunk: it is complete, or not all there, or
    all there without its line end. *)
Lemma loop_chunk_done f c d w : d <> [] -> (len c + len d <= max_size)%N ->
  chunked_loop (S f) (state c (d ++ kCRLF ++ w) (len d)) =
  chunked_loop f (state (c ++ d) w kInvalidLength).
Proof.
  intros Hd Hm. cbn [chunked_loop]. rewrite state_chunk_size, len_not_invalid by lia.
  cbn [negb]. rewrite state_chunk_size, (len_not_0 d Hd), wrap_len by lia.
  change (pending_data_ (state _ ?w _)) with w. rewrite !len_app. change (len kCRLF) with 2%N.
  rewrite (proj2 (N.leb_le _ _)) by lia. unfold append_count.
  change (p_content_ (state c _ _)) with c.
  rewrite (proj2 (N.ltb_ge _ _)) by lia. cbn [obind].
  replace (N.to_nat (len d)) with (length d) by (unfold len; lia). rewrite take_app_exact.
  cbn [state set_p_content set_chunk_size chunk_size_ set_pending pending_data_ p_content_].
  rewrite wrap_len by lia. rewrite erase_0.
  replace (N.to_nat (len d + 2)) with (length (d ++ kCRLF))
    by (rewrite length_app; change (length kCRLF) with 2; unfold len; lia).
  by rewrite (app_assoc d kCRLF w), drop_app_exact.
Qed.
Lemma loop_chunk_part f c d1 d2 : d2 <> [] -> (len (d1 ++ d2) <= max_size)%N ->
  chunked_loop (S f) (state c d1 (len (d1 ++ d2))) = Ret (state (c ++ d1) [] (len d2), true).
Proof.
  intros Hd Hm. cbn [chunked_loop]. rewrite state_chunk_size, len_not_invalid by lia.
  cbn [negb]. rewrite state_chunk_size, len_not_0, wrap_len
    by (try done; by intros [-> ->]%app_nil).
  change (pending_data_ (state _ ?w _)) with w.
  pose proof (proj1 (N.eqb_neq _ _) (len_not_0 d2 Hd)).
  rewrite len_app in *. rewrite (proj2 (N.leb_gt _ _)), (proj2 (N.ltb_lt _ _)) by lia.
  cbn. by replace (len d1 + len d2 - len d1)%N with (len d2) by lia.
Qed.
Lemma loop_chunk_wait f c d w : d <> [] -> (len d <= max_size)%N -> w = [] \/ w = [CR] ->
  chunked_loop (S f) (state c (d ++ w) (len d)) = Ret (state c (d ++ w) (len d), true).
Proof.
  intros Hd Hm Hw. cbn [chunked_loop]. rewrite state_chunk_size, len_not_invalid by lia.
  cbn [negb]. rewrite state_chunk_size, len_not_0, wrap_len by done.
  change (pending_data_ (state _ ?w _)) with w.
  assert (len w <= 1)%N by (destruct Hw as [-> | ->]; done).
  rewrite len_app, (proj2 (N.leb_gt _ _)), (proj2 (N.ltb_ge _ _)) by lia. done.
Qed.

(** A prefix of [d ++ CRLF ++ r], by where it ends. *)
Lemma chunk_prefix d w z r : w ++ z = d ++ kCRLF ++ r ->
  (exists w', w = d ++ kCRLF ++ w' /\ w' ++ z = r) \/
  (exists d2, d2 <> [] /\ d = w ++ d2) \/
  exists w', w = d ++ w' /\ (w' = [] \/ w' = [CR]).
Proof.
  intros H. destruct (decide (length w < length d)) as [Hl|Hl].
  - right; left. exists (drop (length w) d).
    apply (f_equal (take (length w))) in H. rewrite take_app_exact, take_app_le in H by lia.
    split; [|by rewrite H at 1; rewrite take_drop].
    intros E. apply (f_equal length) in E. rewrite length_drop in E. cbn in E. lia.
  - assert (w = d ++ drop (length d) w) as Hw.
    { apply (f_equal (take (length d))) in H. rewrite take_app_exact, take_app_le in H by lia.
      by rewrite <- H, take_drop at 1. }
    set (w' := drop (length d) w) in *. clearbody w'. subst w. rewrite <- app_assoc in H.
    apply app_inv_head in H. destruct w' as [|a [|b w']]; [by eauto 6| |].
    + injection H as -> _. by eauto 6.
    + injection H as -> -> H. left. by exists w'.
Qed.

(** A read inside a chunk, given what reads do behind it. *)
Lemma result_chunk f c l d1 d2 cs w z :
  d2 <> [] -> (len c + len (d1 ++ d2) <= max_size)%N ->
  w ++ z = d2 ++ kCRLF ++ chunk_stream cs l0 rest -> length w < f ->
  (forall f w', length w' < f -> w' ++ z = chunk_stream cs l0 rest ->
     result (c ++ d1 ++ d2) cs (length w')
       (chunked_loop f (state (c ++ d1 ++ d2) w' kInvalidLength))) ->
  result c ((l, d1 ++ d2) :: cs) (length l + 2 + length d1 + length w)
    (chunked_loop f (state (c ++ d1) w (len d2))).
Proof.
  intros Hd Hm Hw Hf IH. destruct f as [|f]; [lia|]. rewrite len_app in Hm.
  pose proof (chunk_bytes_length l (d1 ++ d2)) as Hcb. rewrite length_app in Hcb.
  apply chunk_prefix in Hw as [(w' & -> & Hw)|[(d3 & Hd3 & ->)|(w' & -> & Hw)]].
  - rewrite loop_chunk_done by (done || rewrite len_app; lia).
    rewrite !length_app in *. change (length kCRLF) with 2 in *.
    replace (length l + 2 + length d1 + _) with (length (chunk_bytes (l, d1 ++ d2)) + length w')
      by lia.
    apply result_skip. rewrite <- app_assoc. apply IH; [lia|done].
  - rewrite loop_chunk_part by (done || lia). rewrite length_app in Hcb.
    apply result_inside; [lia|lia|]. right; left. exists (d1 ++ w), d3, [].
    rewrite <- !app_assoc, length_app. cbn. split_and!; try done; [by left|lia].
  - rewrite loop_chunk_wait by (done || lia). rewrite length_app.
    assert (length w' <= 1) by (destruct Hw as [-> | ->]; cbn; lia).
    apply result_inside; [lia|lia|]. right; left. exists d1, d2, (d2 ++ w').
    rewrite length_app. split_and!; try done.
    right. destruct Hw as [-> | ->]; [left; by rewrite app_nil_r|by right].
Qed.

(** Between two chunks: the size line is read, is cut, or has not begun. *)
Lemma loop_line f c l n w : CR ∉ l -> SP ∉ l -> stoul 16 l = Some n -> n <> kInvalidLength ->
  chunked_loop (S f) (state c (l ++ kCRLF ++ w) kInvalidLength) = chunked_loop (S f) (state c w n).
Proof.
  intros Hc Hs Hn Hi. cbn [chunked_loop]. rewrite !state_chunk_size, N.eqb_refl.
  rewrite (ParseChunkSize_line _ l n w) by done. apply N.eqb_neq in Hi. by rewrite Hi.
Qed.
Lemma loop_line_cut f c w : find_str kCRLF w = None ->
  chunked_loop (S f) (state c w kInvalidLength) =
  match w with [] => Ret (state c [] kInvalidLength, true) | _ => Throw LengthError end.
Proof.
  intros Hl. cbn [chunked_loop]. rewrite state_chunk_size, N.eqb_refl.
  assert (ParseChunkSize (state c w kInvalidLength) = (state c w kInvalidLength, true)) as ->.
  { unfold ParseChunkSize, GetNextLine, find_from. cbn [state set_chunk_size set_pending
      pending_data_]. by rewrite drop_0, Hl. }
  cbn [negb]. rewrite state_chunk_size. change (wrap64 (kInvalidLength + 2)) with 1%N.
  change (pending_data_ (state _ ?w _)) with w. destruct w as [|x w].
  - change (len []) with 0%N. cbn [N.leb N.compare N.ltb kInvalidLength npos].
    unfold AppendContent. cbn. by rewrite app_nil_r.
  - cbn [N.eqb kInvalidLength npos]. rewrite (proj2 (N.leb_le _ _)) by (unfold len; cbn; lia).
    unfold append_count. rewrite (proj2 (N.ltb_lt _ _)); [done|].
    unfold max_size, kInvalidLength, npos. lia.
Qed.

Lemma line_prefix l w z r : w ++ z = l ++ kCRLF ++ r ->
  length w < length l + 2 \/ exists w', w = l ++ kCRLF ++ w' /\ w' ++ z = r.
Proof.
  intros H. destruct (decide (length w < length l + 2)) as [Hl|Hl]; [by left|right].
  destruct (chunk_prefix _ _ _ _ H) as [?|[(d2 & Hd & ->)|(w' & -> & Hw)]]; [done| |].
  - rewrite length_app in Hl. lia.
  - rewrite length_app in Hl. destruct Hw as [-> | ->]; cbn in Hl; lia.
Qed.

(** A read that ends before the next size line does. *)
Lemma result_line_cut f c cs l w z r : CR ∉ l -> w ++ z = l ++ kCRLF ++ r ->
  length w < length l + 2 -> length l + 2 <= body_size cs l0 ->
  (forall n, n < length l + 2 -> in_size_line cs l0 n = (0 <? n)) ->
  result c cs (length w) (chunked_loop (S f) (state c w kInvalidLength)).
Proof.
  intros Hc Hw Hl Hb Hline. rewrite loop_line_cut by (by eapply line_cut).
  unfold result. rewrite (Hline _ Hl), (proj2 (Nat.leb_gt _ _)) by lia.
  destruct w; [|done]. cbn. eexists. split; [done|]. destruct cs as [|[]]; by left.
Qed.

Lemma result_start cs : forall f c w z,
  Forall chunk_ok cs -> (len c + len (chunk_data cs) <= max_size)%N ->
  w ++ z = chunk_stream cs l0 rest -> length w < f ->
  result c cs (length w) (chunked_loop f (state c w kInvalidLength)).
Proof.
  destruct l0_line as (Hc0 & Hs0 & Hn0).
  induction cs as [|[l d] cs IH]; intros f c w z Hok Hm Hw Hf; (destruct f as [|f]; [lia|]).
  - unfold chunk_stream in Hw. cbn [map concat app] in Hw.
    destruct (line_prefix _ _ _ _ Hw) as [Hl|(w' & -> & Hw')].
    + eapply result_line_cut; [exact Hc0|exact Hw|done|done|].
      intros n Hn. cbn [in_size_line]. apply Nat.ltb_lt in Hn. by rewrite Hn, andb_true_r.
    + rewrite (loop_line f c l0 0 w') by done. unfold result. rewrite !length_app.
      change (length kCRLF) with 2. rewrite body_no_size_line by (cbn [body_size]; lia).
      rewrite (proj2 (Nat.leb_le _ _)) by (cbn [body_size]; lia).
      exists w'. cbn [chunked_loop chunk_data map concat]. by rewrite app_nil_r.
  - apply Forall_cons in Hok as [(Hc & Hs & Hn & Hd) Hok]. cbn [fst snd] in *.
    rewrite chunk_stream_cons in Hw.
    unfold chunk_data in Hm. cbn [map concat snd] in Hm. rewrite len_app in Hm.
    destruct (line_prefix _ _ _ _ Hw) as [Hl|(w' & -> & Hw')].
    + eapply result_line_cut; [exact Hc|exact Hw|done| |].
      * cbn [body_size]. rewrite chunk_bytes_length. lia.
      * intros n Hln. cbn [in_size_line fst]. apply Nat.ltb_lt in Hln. by rewrite Hln.
    + assert ((len d =? kInvalidLength)%N = false) as Hi%N.eqb_neq by (apply len_not_invalid; lia).
      rewrite (loop_line f c l (len d) w') by done. rewrite !length_app in *.
      change (length kCRLF) with 2 in *.
      pose proof (result_chunk (S f) c l [] d cs w' z Hd) as H. cbn [app length] in H.
      rewrite !app_nil_r in H. replace (length l + (2 + length w')) with
        (length l + 2 + 0 + length w') by lia.
      apply H; [lia|done|lia|]. intros f' w'' Hf' Hw''. apply (IH f' _ w'' z); try done.
      unfold chunk_data. rewrite len_app. lia.
Qed.

(** One more read, from any state between two reads. *)
Lemma result_read cs : forall f c n p y z,
  Forall chunk_ok cs -> (len c + len (chunk_data cs) <= max_size)%N ->
  at_pos c cs n p -> y ++ z = drop n (chunk_stream cs l0 rest) ->
  length (pending_data_ p ++ y) < f ->
  result c cs (n + length y) (chunked_loop f (addp p y)).
Proof.
  assert (forall cs f c y z, Forall chunk_ok cs -> (len c + len (chunk_data cs) <= max_size)%N ->
    y ++ z = drop 0 (chunk_stream cs l0 rest) ->
    length (pending_data_ (state c [] kInvalidLength) ++ y) < f ->
    result c cs (0 + length y) (chunked_loop f (addp (state c [] kInvalidLength) y))) as Hstart.
  { intros cs' f c y z ? ? Hy Hf. rewrite drop_0 in Hy. by eapply result_start. }
  induction cs as [|[l d] cs IH]; intros f c n p y z Hok Hm Hp Hy Hf.
  { destruct Hp as [[-> ->]|[]]. by eapply Hstart. }
  destruct Hp as [[-> ->]|[(d1 & d2 & w & -> & Hd & -> & Hw & ->)|[Hn Hp]]];
    [by eapply Hstart| |].
  - apply Forall_cons in Hok as [_ Hok]. unfold chunk_data in Hm. cbn [map concat snd] in Hm.
    rewrite len_app in Hm. change (pending_data_ (state _ ?w _)) with w in Hf.
    change (addp (state (c ++ d1) w (len d2)) y) with (state (c ++ d1) (w ++ y) (len d2)).
    rewrite <- Nat.add_assoc, <- length_app. apply (result_chunk f c l d1 d2 cs (w ++ y) z);
      [done|lia| |done|].
    + rewrite chunk_stream_cons in Hy. rewrite <- app_assoc, Hy.
      replace (length l + 2 + length d1 + length w) with (length ((l ++ kCRLF ++ d1) ++ w))
        by (rewrite !length_app; cbn; lia).
      assert (exists u, d2 ++ kCRLF ++ chunk_stream cs l0 rest = w ++ u) as [u Hu].
      { destruct Hw as [->|[->| ->]]; [by eexists|by eexists|].
        exists (LF :: chunk_stream cs l0 rest). by rewrite <- app_assoc. }
      replace (l ++ kCRLF ++ (d1 ++ d2) ++ kCRLF ++ chunk_stream cs l0 rest)
        with (((l ++ kCRLF ++ d1) ++ w) ++ u); [by rewrite drop_app_exact|].
      rewrite <- !app_assoc. do 3 f_equal. done.
    + intros f' w' Hf' Hw'. apply (result_start cs f' _ w' z); try done. unfold chunk_data.
      rewrite len_app. lia.
  - apply Forall_cons in Hok as [_ Hok]. unfold chunk_data in Hm. cbn [map concat snd] in Hm.
    rewrite len_app in Hm. set (k := length (chunk_bytes (l, d))) in *.
    replace (n + length y) with (k + (n - k + length y)) by lia. apply result_skip.
    apply (IH f (c ++ d) (n - k) p y z); try done.
    { rewrite len_app. unfold chunk_data. lia. }
    rewrite Hy. replace n with (k + (n - k)) at 1 by lia. rewrite <- drop_drop. f_equal.
    change (chunk_stream ((l, d) :: cs) l0 rest)
      with ((chunk_bytes (l, d) ++ concat (map chunk_bytes cs)) ++ l0 ++ kCRLF ++ rest).
    rewrite <- app_assoc. apply drop_app_exact.
Qed.

(** ** All the reads *)
Context (can_alloc : N -> bool) `{!Virtuals M X}.
Hypothesis content_is_chunked : forall p d,
  chunked_ p = true -> ParseContent p d = ParseChunkedContent p d.
Hypothesis p0_waits : header_ended_ p0 = true /\ chunked_ p0 = true /\ finished_ p0 = false.

Lemma at_pos_bound cs : forall c n p, at_pos c cs n p ->
  n < body_size cs l0 /\ exists c' w k, p = state c' w k.
Proof.
  induction cs as [|[l d] cs IH]; intros c n p; cbn [body_size at_pos].
  - intros [[-> ->]|[]]. split; [lia|by eauto].
  - rewrite chunk_bytes_length.
    intros [[-> ->]|[(d1 & d2 & w & -> & Hd & -> & Hw & ->)|[Hn [Hb Hp]%IH]]];
      (split; [|by eauto]); [lia| |lia].
    rewrite length_app.
    assert (length w <= length d2 + 1); [|lia].
    destruct Hw as [->|[->| ->]]; rewrite ?length_app; cbn; lia.
Qed.

Lemma ParseAll_chunks cs ds : Forall chunk_ok cs -> (len (chunk_data cs) <= max_size)%N ->
  forall n p, at_pos [] cs n p -> concat ds = drop n (chunk_stream cs l0 rest) ->
  if existsb (in_size_line cs l0) (read_ends n ds) then ParseAll can_alloc p ds = Throw LengthError
  else exists w, ParseAll can_alloc p ds = Ret (Finish (state (chunk_data cs) w 0%N), true).
Proof.
  intros Hok Hm. destruct p0_waits as (He & Hk & Hf).
  induction ds as [|d ds IH]; intros n p Hp Hds; pose proof (at_pos_bound _ _ _ _ Hp) as [Hn Hst].
  { exfalso. apply (f_equal length) in Hds. rewrite length_drop in Hds. cbn in Hds.
    pose proof (chunk_stream_size cs l0 rest). lia. }
  cbn [ParseAll read_ends existsb concat] in *.
  assert (Parse can_alloc p d = chunked_loop (S (length (pending_data_ p ++ d))) (addp p d)) as ->.
  { destruct Hst as (c' & w & k & ->). unfold Parse.
    change (header_ended_ (state c' w k)) with (header_ended_ p0).
    rewrite He, content_is_chunked by done. done. }
  assert (result [] cs (n + length d) (chunked_loop (S (length (pending_data_ p ++ d))) (addp p d)))
    as Hr by (eapply result_read; eauto with lia).
  unfold result in Hr. destruct (in_size_line cs l0 (n + length d)); cbn [orb].
  { by rewrite Hr. }
  destruct (body_size cs l0 <=? n + length d) eqn:Hb.
  - apply Nat.leb_le in Hb. rewrite read_ends_behind by done. destruct Hr as [w ->].
    cbn [obind negb orb]. rewrite (proj1 (Finish_frame _)). by exists w.
  - destruct Hr as (q & -> & Hq). cbn [obind negb orb].
    pose proof (at_pos_bound _ _ _ _ Hq) as (_ & c' & w & k & Hst').
    assert (finished_ q = false) as -> by (by rewrite Hst').
    apply IH; [done|]. rewrite <- drop_drop, <- Hds. by rewrite drop_app_exact.
Qed.
End Reads.

Lemma Finish_content {M X : Type} `{!MessageLike M} (p : Parser M X) :
  content_ (as_message (message_ (Finish p))) =
  match p_content_ p with [] => content_ (as_message (message_ p)) | c => c end.
Proof.
  unfold Finish. cbn [set_finished p_content_]. destruct (p_content_ p) eqn:E; [done|].
  destruct (negb _); cbn; autorewrite with webcc_rw; by rewrite ?E.
Qed.

(** A parser whose headers have ended and announced chunks. *)
Definition awaits_chunks {M X : Type} `{!MessageLike M} (p : Parser M X) : Prop :=
  header_ended_ p = true /\ chunked_ p = true /\ finished_ p = false /\
  chunk_size_ p = kInvalidLength /\ pending_data_ p = [] /\ p_content_ p = [] /\
  content_ (as_message (message_ p)) = [].

(** The content of chunks is decoded unless a read ends in a size line. *)
Definition decodes {M X : Type} `{!MessageLike M} `{!Virtuals M X} (can_alloc : N -> bool)
    (p : Parser M X) (cs : list (str * str)) (l0 : str) (ds : list str) : Prop :=
  if existsb (in_size_line cs l0) (read_ends 0 ds) then ParseAll can_alloc p ds = Throw LengthError
  else exists q, ParseAll can_alloc p ds = Ret (q, true) /\ finished_ q = true /\
    content_ (as_message (message_ q)) = concat (map snd cs).

Lemma chunks_decode {M X : Type} `{!MessageLike M} `{!Virtuals M X} can_alloc (p : Parser M X)
    cs l0 rest ds :
  (forall (p : Parser M X) d, chunked_ p = true -> ParseContent p d = ParseChunkedContent p d) ->
  awaits_chunks p -> Forall chunk_ok cs ->
  CR ∉ l0 -> SP ∉ l0 -> stoul 16 l0 = Some 0%N ->
  (len (concat (map snd cs)) <= max_size)%N ->
  concat ds = concat (map chunk_bytes cs) ++ l0 ++ kCRLF ++ rest ->
  decodes can_alloc p cs l0 ds.
Proof.
  intros HP (He & Hk & Hf & Hcs & Hp & Hc & Hm) Hok Hc0 Hs0 Hn0 Hmax Hds.
  assert (p = state p [] [] kInvalidLength) as Hst by (destruct p; cbn in *; by subst).
  pose proof (ParseAll_chunks p l0 rest (conj Hc0 (conj Hs0 Hn0)) can_alloc HP
    (conj He (conj Hk Hf)) cs ds Hok Hmax 0 p) as H.
  unfold decodes. destruct (existsb _ _).
  - apply H; [destruct cs as [|[]]; by left|by rewrite drop_0].
  - destruct H as [w Hw]; [destruct cs as [|[]]; by left|by rewrite drop_0|].
    eexists. split; [exact Hw|]. split; [apply Finish_frame|]. rewrite Finish_content.
    cbn. unfold chunk_data. by destruct (concat (map snd cs)).
Qed.

(** C34: chunked content in any reads: a request or response parser that has
    read the headers of a chunked message and gets the chunks (each its
    hexadecimal size, CRLF, the data, CRLF) and the last size [0], cut into
    reads in any way, finishes with the data of the chunks in order as its
    content, unless a read ends inside a line with a size: then the size is
    still [npos], [npos + 2] wraps around, and appending [npos] bytes throws
    [std::length_error]. *)
Theorem chunked_reads can_alloc cs l0 rest ds :
  Forall chunk_ok cs -> CR ∉ l0 -> SP ∉ l0 -> stoul 16 l0 = Some 0%N ->
  (len (concat (map snd cs)) <= max_size)%N ->
  concat ds = concat (map chunk_bytes cs) ++ l0 ++ kCRLF ++ rest ->
  (forall p : Parser Request Multipart, awaits_chunks p -> decodes can_alloc p cs l0 ds) /\
  (forall p : Parser Response unit, awaits_chunks p -> decodes can_alloc p cs l0 ds).
Proof.
  intros Hok Hc0 Hs0 Hn0 Hmax Hds. split; intros p Hp; eapply chunks_decode; try done;
    intros q d Hk; cbn; [unfold ReqParser.ParseContent|unfold RespParser.ParseContent];
    by rewrite Hk.
Qed.

(** The reads of the first end in the data, in its line end and between two
    chunks; the second reads of the second end in a size line. *)
Example chunked_reads_witness :
  let p := mkParser Req.new [] kInvalidLength [] true false true true kInvalidLength false
             (mkMultipart kStart None) in
  (exists q, ParseAll (fun _ => true) p
      [#"a" ++ kCRLF ++ #"01234"; #"56789"; [CR]; [LF]; #"3" ++ kCRLF ++ #"abc" ++ kCRLF;
       #"0" ++ kCRLF ++ kCRLF] = Ret (q, true) /\
    finished_ q = true /\ content_ (req_message (message_ q)) = #"0123456789abc") /\
  ParseAll (fun _ => true) p [#"3" ++ kCRLF ++ #"abc" ++ kCRLF ++ #"0"; kCRLF ++ kCRLF] =
    Throw LengthError.
Proof.
  intros p. assert (awaits_chunks p) as Hp by done.
  assert (chunk_ok (#"3", #"abc") /\ chunk_ok (#"a", #"0123456789")) as [H3 H10]
    by (split; (split_and!; [decide_now|decide_now|reflexivity|discriminate])).
  split.
  - pose proof (chunked_reads (fun _ => true) [(#"a", #"0123456789"); (#"3", #"abc")] #"0" kCRLF
      [#"a" ++ kCRLF ++ #"01234"; #"56789"; [CR]; [LF]; #"3" ++ kCRLF ++ #"abc" ++ kCRLF;
       #"0" ++ kCRLF ++ kCRLF]) as H.
    refine (proj1 (H _ _ _ _ _ _) p Hp); first [by repeat constructor|by decide_now|done].
  - pose proof (chunked_reads (fun _ => true) [(#"3", #"abc")] #"0" kCRLF
      [#"3" ++ kCRLF ++ #"abc" ++ kCRLF ++ #"0"; kCRLF ++ kCRLF]) as H.
    refine (proj1 (H _ _ _ _ _ _) p Hp); first [by repeat constructor|by decide_now|done].
Defined.
