(* ===== verification/Multipart.v ===== *)
(** * Multipart requests

    A form that [Request::Prepare] writes is read back by [RequestParser]: the
    names, file names and data of its parts, however the bytes arrive.  (The
    other headers of a part, its media type among them, are not parsed, and
    what the parser makes of data with lines that look like boundaries is shown
    by the examples of [ParserProps].) *)
From Stdlib Require Import Ascii String.
From stdpp Require Import base tactics list numbers option strings.
From S2P Require Import Prelude Globals Common Url Message Parser ParserLaws ParserProps.
Import ReqParser.

(** ** Lines *)

(** The lines of a text, between its line ends CRLF. *)
Fixpoint lines (s : str) : list str :=
  match s with
  | [] => [[]]
  | c :: s1 =>
      let more := match lines s1 with [] => [[c]] | l :: ls => (c :: l) :: ls end in
      match s1 with
      | d :: s2 => if ceqb c CR && ceqb d LF then [] :: lines s2 else more
      | [] => more
      end
  end.

(** The first line, and what is behind it. *)
Definition first_line (s l : str) (ls : list str) : Prop :=
  (forall t, find_str kCRLF (l ++ kCRLF ++ t) = Some (length l)) /\
  ((ls = [] /\ s = l) \/ exists s', s = l ++ kCRLF ++ s' /\ lines s' = ls).
Lemma first_line_cons c d s l ls :
  ceqb c CR && ceqb d LF = false -> first_line (d :: s) l ls -> first_line (c :: d :: s) (c :: l) ls.
Proof.
  intros Hc [Hf Hs]. split.
  - intros t. specialize (Hf t). cbn [app find_str length].
    assert (prefixb kCRLF (c :: l ++ kCRLF ++ t) = false) as ->.
    { change kCRLF with [CR; LF]. cbn [prefixb app].
      destruct (ceqb CR c) eqn:E; [|done]. apply ceqb_eq in E as <-.
      assert (ceqb LF d = false) as Hd.
      { destruct (ceqb LF d) eqn:F; [|done]. apply ceqb_eq in F as <-. discriminate Hc. }
      destruct Hs as [[_ <-]|(s' & Hs & _)]; [cbn [app]; by rewrite Hd|].
      destruct l as [|x l]; [done|]. injection Hs as <- _. cbn [app]. by rewrite Hd. }
    by rewrite Hf.
  - destruct Hs as [[-> <-]|(s' & -> & Hl)]; [by left|]. right. by exists s'.
Qed.
Lemma lines_first s : exists l ls, lines s = l :: ls /\ first_line s l ls.
Proof.
  assert (forall n s, length s < n -> exists l ls, lines s = l :: ls /\ first_line s l ls) as H;
    [|apply (H (S (length s))); lia].
  clear s. induction n as [|n IH]; intros s Hn; [lia|].
  destruct s as [|c [|d s]].
  - exists [], []. split; [done|]. split; [done|by left].
  - exists [c], []. split; [done|]. split; [|by left].
    intros t. change (find_str kCRLF ([c] ++ kCRLF ++ t)) with
      (if ceqb CR c && (ceqb LF CR && true) then Some 0 else Some 1).
    by rewrite andb_false_r.
  - change (lines (c :: d :: s)) with (if ceqb c CR && ceqb d LF then [] :: lines s else
      match lines (d :: s) with [] => [[c]] | l :: ls => (c :: l) :: ls end).
    destruct (ceqb c CR && ceqb d LF) eqn:E.
    + apply andb_true_iff in E as [->%ceqb_eq ->%ceqb_eq]. exists [], (lines s).
      split; [done|]. split; [done|]. right. by exists s.
    + destruct (IH (d :: s)) as (l & ls & -> & Hf); [cbn in *; lia|].
      exists (c :: l), ls. split; [done|]. by apply first_line_cons.
Qed.

Lemma next_line_at (p : P) pre l rest :
  CR ∉ l -> pending_data_ p = pre ++ l ++ kCRLF ++ rest ->
  GetNextLine p (length pre) false = Some (l, p).
Proof.
  intros Hl Hp. unfold GetNextLine, find_from. rewrite Hp, drop_app_exact.
  change kCRLF with (CR :: [LF]). rewrite (find_str_fresh CR [LF] l rest Hl). cbn [option_map].
  unfold substr. rewrite drop_app_exact.
  replace (length pre + length l - length pre) with (length l) by lia. by rewrite take_app_exact.
Qed.

(** ** Boundaries *)
Definition plain_line (b l : str) : Prop := IsBoundary b l = (false, false).

Lemma strncmp_eq_app b x : strncmp_eq b (b ++ x) (length b) = true.
Proof.
  induction b as [|c b IH]; [done|]. cbn [strncmp_eq app length].
  rewrite (proj2 (ceqb_eq c c)) by done. by rewrite IH, orb_true_r.
Qed.
Definition boundary_line (b : str) (closing : bool) : str :=
  #"--" ++ b ++ if closing then #"--" else [].
Lemma IsBoundary_line b closing : IsBoundary b (boundary_line b closing) = (true, closing).
Proof.
  unfold IsBoundary, boundary_line. rewrite !length_app.
  change (length #"--") with 2. destruct closing.
  - change (length #"--") with 2.
    rewrite (proj2 (Nat.eqb_neq _ _)), (proj2 (Nat.eqb_eq _ _)) by lia. cbn [negb andb].
    rewrite (prefixb_app #"--"). cbn [negb].
    assert (prefixb #"--" (rev (#"--" ++ b ++ #"--")) = true) as ->.
    { rewrite !rev_app_distr. change (rev #"--") with #"--". rewrite <-app_assoc. apply prefixb_app. }
    cbn [negb andb]. f_equal. apply strncmp_eq_app.
  - rewrite (proj2 (Nat.eqb_eq _ _)) by (cbn; lia). cbn [negb andb].
    rewrite (prefixb_app #"--"). cbn [negb]. rewrite (proj2 (Nat.eqb_neq _ _)) by (cbn; lia).
    cbn [andb]. f_equal. apply strncmp_eq_app.
Qed.

(** The search for a boundary passes over data without a line that looks like one. *)
Lemma scan_line b f pre l rest e :
  (forall t, find_str kCRLF (l ++ kCRLF ++ t) = Some (length l)) ->
  boundary_loop (S f) b (pre ++ l ++ kCRLF ++ rest) (length pre) e =
  if length l =? 0 then boundary_loop f b (pre ++ l ++ kCRLF ++ rest) (length pre + 2) e
  else
    let '(found, closing) := IsBoundary b l in
    if found then Ret (Some (length pre, length l), closing || e)
    else boundary_loop f b (pre ++ l ++ kCRLF ++ rest) (length pre + length l + 2) (closing || e).
Proof.
  intros Hf. cbn [boundary_loop]. unfold find_from. rewrite drop_app_exact, Hf. cbn [option_map].
  replace (length pre + length l - length pre) with (length l) by lia.
  destruct (length l =? 0) eqn:E; [apply Nat.eqb_eq in E; by rewrite E, Nat.add_0_r|].
  unfold substr. by rewrite drop_app_exact, take_app_exact.
Qed.
Lemma scan_data b rest e : forall ls data f pre,
  lines data = ls -> Forall (plain_line b) ls ->
  length (pre ++ data ++ kCRLF ++ rest) < f + length pre ->
  exists f', length (pre ++ data ++ kCRLF ++ rest) < f' + (length pre + length data + 2) /\
    boundary_loop f b (pre ++ data ++ kCRLF ++ rest) (length pre) e =
    boundary_loop f' b (pre ++ data ++ kCRLF ++ rest) (length pre + length data + 2) e.
Proof.
  induction ls as [|l ls IH]; intros data f pre Hl Hok Hf;
    destruct (lines_first data) as (l' & ls' & Hl' & Hfirst & Hs); rewrite Hl in Hl'; [done|].
  injection Hl' as <- <-. apply Forall_cons in Hok as [Hp Hok].
  destruct f as [|f]; [rewrite !length_app in Hf; lia|].
  destruct Hs as [[-> ->]|(s & -> & Hls)].
  - exists f. split; [lia|]. rewrite scan_line by done. rewrite Hp.
    destruct (length l =? 0) eqn:E; [|done]. apply Nat.eqb_eq in E. by rewrite E, Nat.add_0_r.
  - assert (pre ++ (l ++ kCRLF ++ s) ++ kCRLF ++ rest =
      (pre ++ l ++ kCRLF) ++ s ++ kCRLF ++ rest) as He by (by rewrite <-!app_assoc).
    destruct (IH s f (pre ++ l ++ kCRLF)) as (f' & Hf' & Heq); [done|done| |].
    { rewrite <-He. rewrite (length_app pre (l ++ _)), (length_app l). cbn [length kCRLF]. lia. }
    assert (length (pre ++ l ++ kCRLF) = length pre + length l + 2) as Hlen
      by (rewrite !length_app; cbn; lia).
    assert (length (l ++ kCRLF ++ s) = length l + 2 + length s) as Hlen'
      by (rewrite !length_app; cbn; lia).
    rewrite <-He, Hlen in Heq, Hf'. exists f'. rewrite Hlen'.
    replace (length pre + (length l + 2 + length s) + 2) with
      (length pre + length l + 2 + length s + 2) by lia.
    split; [done|]. rewrite <-Heq.
    replace (pre ++ (l ++ kCRLF ++ s) ++ kCRLF ++ rest) with
      (pre ++ l ++ kCRLF ++ (s ++ kCRLF ++ rest)) by (by rewrite <-!app_assoc).
    rewrite scan_line by done. rewrite Hp.
    destruct (length l =? 0) eqn:E; [|done]. apply Nat.eqb_eq in E. by rewrite E, Nat.add_0_r.
Qed.
Lemma find_boundary b data closing rest :
  CR ∉ b -> Forall (plain_line b) (lines data) ->
  GetNextBoundaryLine b (data ++ kCRLF ++ boundary_line b closing ++ kCRLF ++ rest) =
  Ret (Some (length data + 2, length (boundary_line b closing)), closing).
Proof.
  intros Hb Hok. unfold GetNextBoundaryLine. set (r := boundary_line b closing ++ kCRLF ++ rest).
  destruct (scan_data b r false (lines data) data (S (length (data ++ kCRLF ++ r))) [])
    as (f & Hf & Heq); [done|done|cbn; lia|].
  cbn [app length Nat.add] in Hf, Heq. rewrite Heq.
  destruct f as [|f]; [rewrite !length_app in Hf; cbn in Hf; lia|].
  replace (length data + 2) with (length (data ++ kCRLF)) by (by rewrite length_app).
  replace (data ++ kCRLF ++ r) with ((data ++ kCRLF) ++ r) by (by rewrite <-app_assoc).
  unfold r. rewrite scan_line.
  - rewrite IsBoundary_line, orb_false_r. unfold boundary_line at 1. done.
  - intros t. apply (find_str_fresh CR [LF]). unfold boundary_line. rewrite !not_elem_of_app.
    split; [decide_now|]. split; [done|]. destruct closing; decide_now.
Qed.

(** ** The headers of a part *)

(** The part as the parser stores it. *)
Definition parsed_part (p : FormPart) : FormPart :=
  mkFormPart (fp_name_ p) (fp_file_name_ p) [] [] (fp_data_ p).
(** A part that is read back, for the boundary [b]: its names can be quoted and
    fit on a line, and its data is not empty and has no line that looks like a boundary. *)
Definition part_readable (b : str) (p : FormPart) : Prop :=
  fp_headers_ p = [] /\ quotable (fp_name_ p) /\ quotable (fp_file_name_ p) /\
  CR ∉ fp_name_ p /\ CR ∉ fp_file_name_ p /\ CR ∉ fp_media_type_ p /\
  fp_data_ p <> [] /\ Forall (plain_line b) (lines (fp_data_ p)).

Lemma disposition_trimmed p : trimmed isspace (Part.disposition p).
Proof.
  assert (forall x : str, trimmed isspace (#"form-data" ++ x ++ [DQ])) as H.
  { intros x. split; [done|]. by rewrite !rev_app_distr. }
  unfold Part.disposition. destruct (fp_file_name_ p) as [|c f].
  - rewrite app_nil_r. destruct (fp_name_ p) as [|c n]; [by split|].
    rewrite (app_assoc #"; name="), (app_assoc (_ ++ _)). apply H.
  - rewrite (app_assoc #"; filename="), (app_assoc (_ ++ _)), (app_assoc (match fp_name_ p with
      [] => [] | n => _ end)). apply H.
Qed.
Lemma disposition_no_CR p :
  CR ∉ fp_name_ p -> CR ∉ fp_file_name_ p -> CR ∉ Part.disposition p.
Proof.
  intros Hn Hf. unfold Part.disposition. rewrite !not_elem_of_app. split; [decide_now|].
  split; [destruct (fp_name_ p)|destruct (fp_file_name_ p)]; try by apply not_elem_of_nil.
  all: rewrite !not_elem_of_app; split_and!; try decide_now; done.
Qed.

(** One line of the headers, and the empty line behind them. *)
Lemma part_headers_line f (q : P) part pre l rest :
  line_ok l -> pending_data_ q = pre ++ l ++ kCRLF ++ rest ->
  part_headers_loop (S f) q part (length pre) =
  match Split2 l ":" with
  | None => Ret (part, length (pre ++ l ++ kCRLF), PhError)
  | Some (key, value) =>
      if iequals key kContentDisposition then
        if negb (cd_valid_ (CDisp.make value)) then Ret (part, length (pre ++ l ++ kCRLF), PhError)
        else part_headers_loop f q (dispose part (CDisp.make value)) (length (pre ++ l ++ kCRLF))
      else part_headers_loop f q part (length (pre ++ l ++ kCRLF))
  end.
Proof.
  intros [Hne Hl] Hp. cbn [part_headers_loop]. rewrite (next_line_at q pre l rest Hl Hp).
  replace (length pre + length l + 2) with (length (pre ++ l ++ kCRLF))
    by (rewrite !length_app; cbn; lia).
  by destruct l.
Qed.
Lemma part_headers_end f (q : P) part pre rest :
  pending_data_ q = pre ++ kCRLF ++ rest ->
  part_headers_loop (S f) q part (length pre) = Ret (part, length (pre ++ kCRLF), PhEnded).
Proof.
  intros Hp. cbn [part_headers_loop].
  rewrite (next_line_at q pre [] rest) by first [done|apply not_elem_of_nil].
  by rewrite length_app, Nat.add_0_r.
Qed.

(** The headers a part is written with. *)
Lemma part_header_lines part : fp_headers_ part = [] ->
  fp_headers_ (with_part_headers part) =
  (kContentDisposition, Part.disposition part) ::
  match fp_media_type_ part with [] => [] | m => [(kContentType, m)] end.
Proof.
  intros Hh. unfold with_part_headers, Part.SetHeaders. rewrite Hh.
  by destruct (fp_media_type_ part).
Qed.
Definition named (part : FormPart) : FormPart :=
  mkFormPart (fp_name_ part) (fp_file_name_ part) [] [] [].
Lemma part_headers_read b part (q : P) rest :
  part_readable b part ->
  pending_data_ q = concat (map header_line (fp_headers_ (with_part_headers part))) ++ kCRLF ++ rest ->
  exists off, part_headers_loop (S (length (pending_data_ q))) q FormPart_empty 0 =
      Ret (named part, off, PhEnded) /\ drop off (pending_data_ q) = rest.
Proof.
  intros (Hh & Hqn & Hqf & Hn & Hf & Hm & _) Hp. rewrite part_header_lines in Hp by done.
  pose proof (disposition_roundtrip part Hqn Hqf) as Hcd.
  set (h1 := (kContentDisposition, Part.disposition part)) in *.
  assert (header_ok h1) as Hok.
  { split_and!; [done|decide_now|decide_now|by apply disposition_no_CR|by split|
      apply disposition_trimmed]. }
  pose proof (header_line_ok h1 Hok) as Hl1. pose proof (header_split _ _ Hok) as Hs1.
  cbn [fst snd h1] in Hl1.
  set (l1 := kContentDisposition ++ #": " ++ Part.disposition part) in *.
  assert (3 <= length (pending_data_ q)) as Hlen.
  { rewrite Hp. cbn [map concat]. rewrite !length_app. unfold header_line, h1. cbn [fst snd].
    rewrite !length_app. cbn. lia. }
  destruct (length (pending_data_ q)) as [|[|[|f]]]; [lia..|].
  change 0 with (@length ascii []).
  destruct (fp_media_type_ part) as [|c m] eqn:Em; cbn [map concat] in Hp.
  - assert (pending_data_ q = [] ++ l1 ++ kCRLF ++ kCRLF ++ rest) as Hp1.
    { rewrite Hp. unfold header_line, l1, h1. cbn [fst snd]. by rewrite app_nil_r, <-!app_assoc. }
    rewrite (part_headers_line _ q _ [] l1 _ Hl1 Hp1), Hs1, iequals_refl, Hcd. cbn [negb cd_valid_].
    rewrite (part_headers_end _ q _ _ rest) by (by rewrite Hp1, <-!app_assoc).
    eexists. split; [done|]. rewrite Hp1, !app_assoc. apply drop_app_exact.
  - set (l2 := kContentType ++ #": " ++ c :: m).
    assert (line_ok l2) as Hl2.
    { split; [discriminate|]. unfold l2. rewrite !not_elem_of_app. split_and!; [decide_now|decide_now|done]. }
    assert (Split2 l2 ":" = Some (trim kContentType, trim (SP :: c :: m))) as Hs2.
    { apply (Split2_fresh kContentType ":" (SP :: c :: m)). decide_now. }
    assert (pending_data_ q = [] ++ l1 ++ kCRLF ++ (l2 ++ kCRLF ++ kCRLF ++ rest)) as Hp1.
    { rewrite Hp. unfold header_line, l1, h1, l2. cbn [fst snd].
      by rewrite app_nil_r, <-!app_assoc. }
    rewrite (part_headers_line _ q _ [] l1 _ Hl1 Hp1), Hs1, iequals_refl, Hcd. cbn [negb cd_valid_].
    rewrite (part_headers_line _ q _ _ l2 (kCRLF ++ rest) Hl2) by (by rewrite Hp1, <-!app_assoc).
    rewrite Hs2. change (iequals (trim kContentType) kContentDisposition) with false.
    cbv iota.
    rewrite (part_headers_end _ q _ _ rest) by (by rewrite Hp1, <-!app_assoc).
    exists (length ((([] ++ l1 ++ kCRLF) ++ l2 ++ kCRLF) ++ kCRLF)). split; [reflexivity|].
    rewrite Hp1, !app_assoc. apply drop_app_exact.
Qed.

(** ** The form *)

(** The parser at step [st] with the parts [ps] and the bytes [w] pending. *)
Definition form_state (q : P) (st : Step) (ps : list FormPart) (w : str) : P :=
  set_derived (set_pending (set_message q (Req.set_form_parts (message_ q) ps)) w)
    (mkMultipart st None).
(** What is behind the boundary line before a part, or behind the closing one. *)
Definition behind_boundary (b : str) (ps : list FormPart) : str :=
  match ps with [] => [] | part :: ps' => part_bytes part ++ multipart_body b ps' end.
Definition no_parts (ps : list FormPart) : bool := match ps with [] => true | _ => false end.
Lemma multipart_body_boundary b ps :
  multipart_body b ps = boundary_line b (no_parts ps) ++ kCRLF ++ behind_boundary b ps.
Proof.
  unfold multipart_body, boundary_line, closing_line. destruct ps as [|part ps]; cbn [map concat].
  - cbn [app behind_boundary no_parts]. by rewrite app_nil_r, <-!app_assoc.
  - unfold behind_boundary, multipart_body. cbn [no_parts].
    rewrite app_nil_r. by rewrite <-!app_assoc.
Qed.

Lemma form_part_read b (q : P) part ps ps' :
  boundary q = b -> CR ∉ b -> part_readable b part ->
  exec pending_data_ mpass (form_state q kBoundaryParsed ps (behind_boundary b (part :: ps'))) =
  if no_parts ps' then Some (Done (form_state q kEnded (ps ++ [parsed_part part]) []) true)
  else exec pending_data_ mpass
         (form_state q kBoundaryParsed (ps ++ [parsed_part part]) (behind_boundary b ps')).
Proof.
  intros Hb Hcr Hok. set (q1 := form_state _ _ _ _).
  set (rest := fp_data_ part ++ kCRLF ++ boundary_line b (no_parts ps') ++ kCRLF ++
    behind_boundary b ps').
  assert (pending_data_ q1 = concat (map header_line (fp_headers_ (with_part_headers part))) ++
    kCRLF ++ rest) as Hp.
  { unfold q1, rest. cbn [form_state set_derived set_pending pending_data_ behind_boundary].
    rewrite multipart_body_boundary. unfold part_bytes. by rewrite <-!app_assoc. }
  destruct (part_headers_read b part q1 rest Hok Hp) as (off & Hh & Hoff).
  assert (pending_data_ q1 <> []) as Hne.
  { rewrite Hp. intros [_ [? _]%app_nil]%app_nil. done. }
  pose proof (mpass_headers q1 Hne eq_refl) as H1. change (current_part q1) with FormPart_empty in H1.
  rewrite Hh in H1. cbv zeta in H1. rewrite Hoff in H1.
  rewrite (exec_cont multipart_incremental q1 _ ltac:(by split) H1).
  match type of H1 with _ = Cont ?x => set (q2 := x) in * end.
  destruct Hok as (_ & _ & _ & _ & _ & _ & Hd & Hlines).
  assert (pending_data_ q2 <> []) as Hne2 by (unfold q2, rest; cbn; by destruct (fp_data_ part)).
  pose proof (mpass_data q2 Hne2 eq_refl) as H2.
  change (boundary q2) with (boundary q) in H2. rewrite Hb in H2.
  change (pending_data_ q2) with rest in H2. unfold rest in H2.
  rewrite (find_boundary b _ _ _ Hcr Hlines) in H2. fold rest in H2.
  change (current_part q2) with (named part) in H2.
  assert (length (fp_data_ part) + 2 <=? 2 = false) as Ho.
  { apply Nat.leb_gt. destruct (fp_data_ part); [done|]. cbn. lia. }
  rewrite Ho, Nat.add_sub in H2. cbv zeta in H2.
  assert (take (length (fp_data_ part)) rest = fp_data_ part) as Htake by apply take_app_exact.
  rewrite Htake in H2.
  assert (drop (length (fp_data_ part) + 2 + length (boundary_line b (no_parts ps')) + 2) rest =
    behind_boundary b ps') as Hdrop.
  { set (x := fp_data_ part ++ kCRLF ++ boundary_line b (no_parts ps') ++ kCRLF).
    replace rest with (x ++ behind_boundary b ps') by (unfold rest, x; by rewrite <-!app_assoc).
    replace (_ + 2 + _ + 2) with (length x) by (unfold x; rewrite !length_app; cbn; lia).
    apply drop_app_exact. }
  rewrite Hdrop in H2. destruct (no_parts ps') eqn:E.
  - destruct ps'; [|done]. unfold exec. cbn [run]. by rewrite H2.
  - rewrite (exec_cont multipart_incremental q2 _ ltac:(by split) H2). done.
Qed.
Lemma form_parts_read b (q : P) : forall ps' part ps,
  boundary q = b -> CR ∉ b -> Forall (part_readable b) (part :: ps') ->
  exec pending_data_ mpass (form_state q kBoundaryParsed ps (behind_boundary b (part :: ps'))) =
  Some (Done (form_state q kEnded (ps ++ map parsed_part (part :: ps')) []) true).
Proof.
  induction ps' as [|part' ps' IH]; intros part ps Hb Hcr [Hp Hps]%Forall_cons;
    rewrite form_part_read by done; [done|].
  cbn [no_parts]. rewrite IH by done. by rewrite <-app_assoc.
Qed.
Lemma form_read b (q : P) part ps' ps :
  boundary q = b -> CR ∉ b -> Forall (part_readable b) (part :: ps') ->
  exec pending_data_ mpass (form_state q kStart ps (multipart_body b (part :: ps'))) =
  Some (Done (form_state q kEnded (ps ++ map parsed_part (part :: ps')) []) true).
Proof.
  intros Hb Hcr Hps. set (q1 := form_state _ _ _ _).
  assert (pending_data_ q1 = boundary_line b false ++ kCRLF ++ behind_boundary b (part :: ps')) as Hp
    by (apply (multipart_body_boundary b (part :: ps'))).
  assert (CR ∉ boundary_line b false) as Hl.
  { unfold boundary_line. rewrite !not_elem_of_app. split_and!; [decide_now|done|decide_now]. }
  pose proof (mpass_start q1 ltac:(rewrite Hp; discriminate) eq_refl) as H1.
  rewrite (next_line q1 _ _ Hl Hp) in H1.
  change (boundary (set_pending q1 _)) with (boundary q) in H1. rewrite Hb, IsBoundary_line in H1.
  rewrite (exec_cont multipart_incremental q1 _ ltac:(by split) H1).
  by rewrite <-(form_parts_read b q ps' part ps).
Qed.

(** ** The message *)

(** The headers give the parser the content type and the length. *)
Lemma ctype_of_none hs ct : Hdr.Find hs kContentType = None -> ctype_of hs ct = ct.
Proof.
  induction hs as [|h hs IH]; [done|]. cbn [Hdr.Find]. destruct (iequals (fst h) kContentType) eqn:E;
    [done|]. intros Hf. unfold ctype_of. cbn [fold_left]. rewrite E. by apply IH.
Qed.
Lemma ctype_of_get hs v ct :
  NoDup (hkeys hs) -> fst (Hdr.Get hs kContentType) = v -> v <> [] -> ctype_of hs ct = CType.make v.
Proof.
  intros Hnd Hv Hne. revert ct. unfold Hdr.Get in Hv.
  induction hs as [|h hs IH]; intros ct; [by rewrite <-Hv in Hne|].
  unfold hkeys in Hnd. cbn [map] in Hnd. apply NoDup_cons in Hnd as [Hh Hnd].
  cbn [Hdr.Find] in Hv. unfold ctype_of. cbn [fold_left].
  destruct (iequals (fst h) kContentType) eqn:E; [|by apply IH].
  cbn in Hv. rewrite Hv. apply (ctype_of_none hs). apply Find_None_hkeys.
  apply iequals_eq in E. by rewrite <-E.
Qed.
Lemma has_length_get hs v : fst (Hdr.Get hs kContentLength) = v -> v <> [] -> has_length hs = true.
Proof.
  intros Hv Hne. unfold Hdr.Get in Hv. induction hs as [|h hs IH]; [by rewrite <-Hv in Hne|].
  cbn [Hdr.Find] in Hv. unfold has_length. cbn [existsb].
  destruct (iequals (fst h) kContentLength); [done|]. by apply IH.
Qed.
(** The content type of a form names its boundary. *)
Lemma form_content_type b : b <> [] -> trimmed isspace b ->
  CType.make (#"multipart/form-data; boundary=" ++ b) =
  mkContentType #"multipart/form-data" b true.
Proof.
  intros Hne Ht. unfold CType.make, CType.Init.
  change (#"multipart/form-data; boundary=" ++ b)
    with (#"multipart/form-data" ++ ";"%char :: SP :: #"boundary" ++ "="%char :: b).
  rewrite find_chr_fresh by decide_now. unfold substr. rewrite drop_0, take_app_exact.
  change (drop (length #"multipart/form-data" + 1) (#"multipart/form-data" ++ ";"%char :: SP ::
    #"boundary" ++ "="%char :: b)) with (SP :: #"boundary" ++ "="%char :: b).
  change (trim #"multipart/form-data") with #"multipart/form-data". rewrite seqb_refl.
  assert (trim (SP :: #"boundary" ++ "="%char :: b) = #"boundary" ++ "="%char :: b) as ->.
  { apply trim_if_leading; [done| |discriminate]. split; [done|].
    rewrite rev_app_distr. cbn [rev].
    destruct Ht as [_ Ht]. destruct (rev b) eqn:E; [|done].
    apply (f_equal (@rev ascii)) in E. by rewrite rev_involutive in E. }
  unfold ParseValue. rewrite Split2_fresh by decide_now. unfold trim.
  rewrite (trim_if_trimmed isspace b Ht). by destruct b.
Qed.

(** What the parser makes of the form behind the headers. *)
Section Content.
Context (r0 : Request) (sl : str) (m1 : Request) (hs : Headers) (b : str).
Context (part : FormPart) (ps : list FormPart).
Abbreviation body := (multipart_body b (part :: ps)).
Hypothesis no_form : form_parts_ m1 = [].
Hypothesis starts_ok : starts r0 m1 sl.
Hypothesis not_too_long : (len body <= max_size)%N.
Hypothesis keys_differ : NoDup (hkeys hs).
Hypothesis content_type_is : fst (Hdr.Get hs kContentType) = #"multipart/form-data; boundary=" ++ b.
Hypothesis content_length_is : has_length hs = true.
Hypothesis boundary_ok : b <> [] /\ CR ∉ b /\ trimmed isspace b.
Hypothesis parts_ok : Forall (part_readable b) (part :: ps).
Context (q : P) (behind : behind_headers r0 m1 (mkMultipart kStart None) hs body q).

Lemma behind_form :
  chunked_ q = false /\ content_type_ (req_message (message_ q)) = CType.make
    (#"multipart/form-data; boundary=" ++ b) /\
  length_invalid q = false /\ finished_ q = false /\ p_content_ q = [] /\
  form_parts_ (message_ q) = [] /\ derived q = mkMultipart kStart None.
Proof.
  assert ((len body =? kInvalidLength)%N = false) as Hinv.
  { apply N.eqb_neq. intros E. rewrite E in not_too_long. by apply not_too_long. }
  destruct behind as [Haf _].
  destruct Haf as (_ & _ & a3 & _ & a5 & a6 & a7 & a8 & a9 & _ & a11 & a12 & _).
  cbn in a3, a5, a6, a7, a8, a9, a11, a12. rewrite content_length_is in a11, a12. split_and!; try done.
  - rewrite a5. by apply ctype_of_get.
  - unfold length_invalid. rewrite a11, a12. exact Hinv.
  - by rewrite a3.
Qed.
(** The parser with the first bytes [w] of the form. *)
Abbreviation with_bytes w := (set_pending (set_header_ended q) w).
Lemma form_content w :
  ParseContent (with_bytes w) [] =
  match exec pending_data_ mpass (form_state (with_bytes w) kStart [] w) with
  | Some (Wait q) => Ret (q, true)
  | Some (Done q true) => Ret (Finish q, true)
  | Some (Done q false) => Ret (q, false)
  | _ => OutOfFuel
  end.
Proof.
  destruct behind_form as (Hk & Hct & Hl & _ & _ & Hform & Hd). cbn. unfold ReqParser.ParseContent.
  cbn [set_pending set_header_ended chunked_ message_]. rewrite Hk, Hct.
  rewrite form_content_type by apply boundary_ok. cbn [multipart_].
  rewrite ParseMultipart_exec. change (length_invalid (with_bytes w)) with (length_invalid q).
  rewrite Hl. unfold addp. cbn [set_pending pending_data_]. rewrite app_nil_r.
  assert (form_state (with_bytes w) kStart [] w = with_bytes w) as ->; [|done].
  unfold form_state. destruct q as [[] ? ? ? ? ? ? ? ? ? ?]; cbn in *. by subst.
Qed.
Lemma form_boundary w : boundary (with_bytes w) = b.
Proof.
  destruct behind_form as (_ & Hct & _). unfold boundary. cbn [set_pending set_header_ended message_].
  rewrite Hct. by rewrite form_content_type by apply boundary_ok.
Qed.
Lemma form_complete : content_complete q (fun m =>
  form_parts_ m = map parsed_part (part :: ps) /\ headers_ (req_message m) = hs /\
  method_ m = method_ m1 /\ url_ m = url_ m1).
Proof.
  destruct behind_form as (_ & _ & _ & _ & Hc & _). destruct behind as [Haf Hp].
  unfold content_complete.
  replace (set_header_ended q) with (with_bytes body) by (rewrite <-Hp; by destruct q).
  rewrite form_content, (form_read b _ part ps) by (try apply form_boundary; try apply boundary_ok; done).
  eexists. split; [done|]. split; [apply Finish_frame|].
  unfold Finish. cbn [form_state set_derived set_pending set_message set_finished p_content_
    set_header_ended]. rewrite Hc. cbn.
  destruct Haf as (a1 & _ & a3 & _). cbn in a1, a3. destruct starts_ok as (Hh & _ & _ & _ & Hm1).
  cbn in Hm1, Hh. rewrite Hm1 in a1. cbn in a1. rewrite Hh in a1.
  split_and!; [done|exact a1|by rewrite a3..].
Qed.
Lemma form_waits : content_waits q body.
Proof.
  intros b1 b2 Hb Hb2. destruct behind_form as (Hk & _ & _ & Hf & _).
  set (q1 := form_state (with_bytes b1) kStart [] b1).
  assert (multipart_inv (derived q1)) as Hi by (by split).
  destruct (exec_more multipart_incremental q1 b2 Hi) as (v & Hv & Hcase).
  pose proof (form_read b (with_bytes b1) part ps [] (form_boundary b1) (proj1 (proj2 boundary_ok))
    parts_ok) as Hall.
  assert (addp q1 b2 = form_state (with_bytes b1) kStart [] body) as Hadd.
  { rewrite Hb. done. }
  rewrite <-Hadd in Hall. rewrite form_content. fold q1. rewrite Hv.
  destruct v as [p|p|p ok]; [done| |].
  - exists p. split; [done|]. pose proof (mexec_same_body q1 _ Hi Hv) as Hs. cbn in Hs.
    destruct Hs as (-> & _ & _ & _ & _ & -> & _). done.
  - exfalso. destruct Hcase as (p' & Hp' & Hok). rewrite Hp' in Hall. injection Hall as Hall ->.
    specialize (Hok eq_refl). rewrite Hall in Hok. apply (f_equal pending_data_) in Hok. cbn in Hok.
    symmetry in Hok. by apply app_nil in Hok as [_ ?].
Qed.
End Content.

(** ** Correctness *)

(** What a form part is to the program: its name, file name and data. *)
Definition field (part : FormPart) : str * str * str :=
  (fp_name_ part, fp_file_name_ part, fp_data_ part).

(** C5: a server parses the form a client prepared, when its parts can be read back: for a
    request with form parts that have no headers of their own, whose names can be quoted and whose
    data is not empty and has no line that looks like a boundary, and whose path, query and
    headers fit on their lines, the bytes of [Request::Prepare], cut into any sequence
    of reads, are accepted, and the parsed request has the same method, path, query
    and headers and the same fields: name, file name and data, in order. *)
Theorem multipart_roundtrip can_alloc uuid r r' ds :
  start_line_ (req_message r) = [] -> content_ (req_message r) = [] -> form_parts_ r <> [] ->
  word (method_ r) -> plain_target (path_ (url_ r)) (query_ (url_ r)) ->
  let b := Req.use_boundary uuid r in
  b <> [] -> CR ∉ b -> trimmed isspace b -> Forall (part_readable b) (form_parts_ r) ->
  Req.Prepare uuid r = Ret r' ->
  readable can_alloc (headers_ (req_message r')) (multipart_body b (form_parts_ r)) ->
  concat ds = Msg.CopyPayload (req_message r') ->
  exists p, ParseAll can_alloc (ReqParser.make Req.new) ds = Ret (p, true) /\
    finished_ p = true /\
    method_ (message_ p) = method_ r /\
    url_ (message_ p) = mkUrl [] [] [] (path_ (url_ r)) (query_ (url_ r)) /\
    headers_ (req_message (message_ p)) = headers_ (req_message r') /\
    map field (form_parts_ (message_ p)) = map field (form_parts_ r).
Proof.
  intros Hs Hc Hform Hm Ht b Hb Hcr Htb Hparts Hprep Hread Hds.
  unfold Req.Prepare in Hprep. apply obind_Ret in Hprep as (r1 & H1 & Hprep).
  unfold Req.CreateStartLine in H1. rewrite Hs in H1. destruct (host_ (url_ r)); [done|].
  set (sl := method_ r ++ #" " ++ target_of (path_ (url_ r)) (query_ (url_ r)) ++ #" HTTP/1.1").
  assert (r1 = with_message r (Msg.set_start_line (req_message r) sl)) as ->.
  { assert (forall x y : Request, Ret x = Ret y -> y = x) as Hinj by congruence.
    apply Hinj in H1 as ->. unfold sl, target_of.
    destruct (query_ (url_ r)); by rewrite ?app_nil_r, <- ?app_assoc. }
  clear H1. destruct (form_parts_ r) as [|part ps] eqn:Eps; [done|].
  set (r1 := Req.SetHeader (with_message r (Msg.set_start_line (req_message r) sl)) kHost
    (Req.host_header (with_message r (Msg.set_start_line (req_message r) sl)))) in Hprep.
  assert (form_parts_ r1 = part :: ps) as Eps' by done.
  rewrite Eps' in Hprep. injection Hprep as <-.
  destruct (PrepareForm_spec uuid r1 Hc) as (_ & Hwire & Hlen & _ & Hct).
  rewrite Eps' in Hwire, Hlen. change (Req.use_boundary uuid r1) with b in Hwire, Hlen, Hct.
  assert (start_line_ (req_message (Req.PrepareForm uuid r1)) = sl) as Hsl.
  { by destruct (PrepareForm_message uuid r1) as [_ ->]. }
  rewrite Hwire, Hsl in Hds. set (hs := headers_ (req_message (Req.PrepareForm uuid r1))) in *.
  pose proof (request_starts Req.new (method_ r) _ _ eq_refl Ht Hm) as Hstart. fold sl in Hstart.
  cbv zeta in Hstart. match type of Hstart with starts _ ?m _ => set (m1 := m) in Hstart end.
  destruct (wire_parses_with can_alloc Req.new _ (mkMultipart kStart None) sl hs
    (multipart_body b (part :: ps)) ds (fun m => form_parts_ m = map parsed_part (part :: ps) /\
      headers_ (req_message m) = hs /\ method_ m = method_ r /\
      url_ m = mkUrl [] [] [] (path_ (url_ r)) (query_ (url_ r))) fresh_inv Hstart
    (start_line_no_CR _ _ _ Hm Ht) Hread) as (p & Hp & Hf & Hform' & Hh & Hme & Hu); [|done|].
  - intros q Hq. destruct Hread as (Hmax & _ & _ & _ & Hnd).
    assert (has_length hs = true) as Hl.
    { apply (has_length_get hs _ Hlen). apply to_dec_nonempty. }
    destruct (form_complete Req.new sl m1 hs b part ps eq_refl Hstart Hmax Hnd Hct Hl
      (conj Hb (conj Hcr Htb)) Hparts q Hq) as (pf & H1 & H2 & H3 & H4 & H5 & H6).
    split; [|by apply (form_waits Req.new m1 hs b part ps eq_refl Hmax Hnd Hct Hl
      (conj Hb (conj Hcr Htb)) Hparts q Hq)].
    exists pf. split; [done|]. split; [done|]. split_and!; [done|done|done|].
    rewrite H6. unfold m1. cbn [url_ Request_with]. by apply set_url_target.
  - exists p. split_and!; [done|done|done|done|done|].
    rewrite Hform'. rewrite map_map. by apply map_ext.
Qed.

(** *** Witness: a form with a text and a file, byte for byte *)
Definition sample_form_request : Request :=
  Req.AddFormPart (Req.AddFormPart (Req.make #"POST" #"http://localhost/images")
    (Part.from_data #"faceId" #"7" []))
    (mkFormPart #"image" #"face.jpg" #"image/jpeg" [] (#"--" ++ kCRLF ++ #"JFIF")).
Definition sample_form_prepared : Request :=
  match Req.Prepare #"0f1e" sample_form_request with Ret r' => r' | _ => sample_form_request end.
Ltac readable_now :=
  match goal with |- readable ?a ?hs ?b =>
    let h := eval vm_compute in hs in let b' := eval vm_compute in b in
    assert (readable a h b') as Hnow; [|exact Hnow] end;
  split_and!;
  [ vm_compute; discriminate | reflexivity
  | repeat (apply Forall_cons; split; [unfold header_ok; cbn [fst snd]; header_now |]);
    apply Forall_nil; exact I
  | repeat (apply Forall_cons; split; [unfold header_reads; cbn [fst snd]; header_now |]);
    apply Forall_nil; exact I
  | decide_now ].
Example multipart_roundtrip_witness :
  exists p, ParseAll (fun _ => true) (ReqParser.make Req.new)
      (map (fun c => [c]) (Msg.CopyPayload (req_message sample_form_prepared))) = Ret (p, true) /\
    finished_ p = true /\
    map field (form_parts_ (message_ p)) =
      [(#"faceId", [], #"7"); (#"image", #"face.jpg", #"--" ++ kCRLF ++ #"JFIF")].
Proof.
  assert (forall w : str, concat (map (fun c => [c]) w) = w) as Hc.
  { induction w as [|c w IH]; [done|]. cbn. by rewrite IH. }
  destruct (multipart_roundtrip (fun _ => true) #"0f1e" sample_form_request sample_form_prepared
    (map (fun c => [c]) (Msg.CopyPayload (req_message sample_form_prepared))))
    as (p & H1 & H2 & _ & _ & _ & H3).
  - reflexivity.
  - reflexivity.
  - discriminate.
  - split; [discriminate|split; decide_now].
  - split_and!; [split; [discriminate|split; decide_now]|decide_now|decide_now|reflexivity].
  - discriminate.
  - decide_now.
  - by split.
  - repeat (apply Forall_cons; split;
      [split_and!; [reflexivity|split; [decide_now|by split]|split; [decide_now|by split]|
        decide_now|decide_now|decide_now|discriminate|
        repeat (apply Forall_cons; split; [reflexivity|]); apply Forall_nil; exact I]|]).
    apply Forall_nil. exact I.
  - vm_compute. reflexivity.
  - readable_now.
  - apply Hc.
  - exists p. split; [exact H1|]. split; [exact H2|exact H3].
Defined.
