(* ===== verification/Rest.v ===== *)
(** * REST services and their dispatch

    Models [webcc/rest_service.h], [rest_service.cc],
    [rest_service_manager.h], [rest_service_manager.cc],
    [rest_request_handler.h] and [rest_request_handler.cc], and
    [RestServer::Bind].

    A service is a function from a request and the response it may fill to the
    response; a service may throw.  [std::regex] is a parameter: compiling a
    pattern (with the flags [ECMAScript | icase]) and matching a whole text,
    which gives the sub-matches. *)
From Stdlib Require Import Ascii String.
From stdpp Require Import base tactics list numbers option strings.
From S2P Require Import Prelude Globals Common Url Message.

(** ** Requests and responses of services *)
Abbreviation UrlMatches := (list str).
Record RestRequest := mkRestRequest { http : Request; url_matches : UrlMatches }.

(** [struct RestResponse]: the default constructor leaves [status]
    uninitialised, which is [None]. *)
Record RestResponse := mkRestResponse {
  rr_status : option Status;
  rr_content : str;
  rr_media_type : str;
  rr_charset : str
}.
Definition RestResponse_new : RestResponse := mkRestResponse None [] [] [].

(** [class RestService]: the virtual [Handle]. *)
Abbreviation RestService := (RestRequest -> RestResponse -> outcome RestResponse).

(** [class RestListService]: the virtual functions a service overrides. *)
Record ListService := mkListService {
  list_Get : UrlQuery -> RestResponse -> outcome RestResponse;
  list_Post : str -> RestResponse -> outcome RestResponse
}.
(** The bodies in the header, for a class that does not override them. *)
Definition ListService_base : ListService :=
  mkListService (fun _ r => Ret r) (fun _ r => Ret r).

Record DetailService := mkDetailService {
  detail_Get : UrlMatches -> UrlQuery -> RestResponse -> outcome RestResponse;
  detail_Put : UrlMatches -> str -> RestResponse -> outcome RestResponse;
  detail_Patch : UrlMatches -> str -> RestResponse -> outcome RestResponse;
  detail_Delete : UrlMatches -> RestResponse -> outcome RestResponse
}.
Definition DetailService_base : DetailService :=
  mkDetailService (fun _ _ r => Ret r) (fun _ _ r => Ret r) (fun _ _ r => Ret r)
    (fun _ r => Ret r).

Definition request_query (r : RestRequest) : UrlQuery := Query.parse (query_ (url_ (http r))).
Definition request_content (r : RestRequest) : str := content_ (req_message (http r)).

Definition RestListService_Handle (s : ListService) : RestService := fun request response =>
  let method := method_ (http request) in
  if seqb method kGet then list_Get s (request_query request) response
  else if seqb method kPost then list_Post s (request_content request) response
  else Ret response.

Definition RestDetailService_Handle (s : DetailService) : RestService := fun request response =>
  let method := method_ (http request) in
  if seqb method kGet then
    detail_Get s (url_matches request) (request_query request) response
  else if seqb method kPut then
    detail_Put s (url_matches request) (request_content request) response
  else if seqb method kPatch then
    detail_Patch s (url_matches request) (request_content request) response
  else if seqb method kDelete then
    detail_Delete s (url_matches request) response
  else Ret response.

Section Manager.
Context {Regex : Type} (compile : str -> option Regex)
        (regex_match : Regex -> str -> option (list str)).

(** ** [class RestServiceManager] *)
Record ServiceItem := mkServiceItem {
  si_service : RestService;
  si_url : str;
  si_is_regex : bool;
  si_url_regex : option Regex
}.
Abbreviation ServiceItems := (list ServiceItem).

(** [AddService]: the items afterwards, and the result. *)
Definition AddService (items : ServiceItems) (service : RestService) (url : str)
    (is_regex : bool) : ServiceItems * bool :=
  if negb is_regex then (items ++ [mkServiceItem service url is_regex None], true)
  else match compile url with
       | Some re => (items ++ [mkServiceItem service url is_regex (Some re)], true)
       | None => (items, false)
       end.

(** Does an item match, and with which sub-matches?  An item whose regex was
    not compiled is never in the list. *)
Definition item_match (item : ServiceItem) (url : str) : option UrlMatches :=
  if si_is_regex item then
    match si_url_regex item with Some re => regex_match re url | None => None end
  else if seqb (si_url item) url then Some [] else None.

(** [GetService(url, matches)]: sub-matches are appended to [matches]. *)
Fixpoint GetService (items : ServiceItems) (url : str) (matches : UrlMatches)
    : option RestService * UrlMatches :=
  match items with
  | [] => (None, matches)
  | item :: items' =>
      match item_match item url with
      | Some ms => (Some (si_service item), matches ++ ms)
      | None => GetService items' url matches
      end
  end.

(** ** [class RestRequestHandler] *)

(** [SetContent], built without gzip. *)
Definition Handler_SetContent (response : Response) (content : str) : Response :=
  with_message response (Msg.SetContent (resp_message response) content true).

(** [HandleConnection]: the response handed to [SendResponse].
    [garbage] is what an uninitialised status happens to hold. *)
Definition HandleConnection (garbage : Z) (items : ServiceItems) (request : Request)
    : outcome Response :=
  let path := #"/" ++ path_ (url_ request) in
  let '(service, matches) := GetService items path [] in
  match service with
  | None => Ret (Resp.make (status_int kNotFound))
  | Some service =>
      let! rest_response := service (mkRestRequest request matches) RestResponse_new in
      let response := Resp.make (match rr_status rest_response with
                                 | Some s => status_int s | None => garbage end) in
      Ret (match rr_content rest_response with
           | [] => response
           | content =>
               let response :=
                 match rr_media_type rest_response with
                 | [] => response
                 | media_type =>
                     with_message response (Msg.SetContentType2 (resp_message response)
                       media_type (rr_charset rest_response))
                 end in
               Handler_SetContent response content
           end)
  end.

(** ** Lemmas *)
Lemma GetService_app items items' url matches :
  GetService (items ++ items') url matches =
  match GetService items url matches with
  | (None, _) => GetService items' url matches
  | r => r
  end.
Proof.
  induction items as [|item items IH]; [done|]. cbn [app GetService].
  by destruct (item_match item url).
Qed.
Lemma GetService_None items url matches ms :
  GetService items url matches = (None, ms) <->
  ms = matches /\ Forall (fun item => item_match item url = None) items.
Proof.
  induction items as [|item items IH]; cbn [GetService].
  - split; [intros [= <-]; by split|by intros [-> _]].
  - rewrite Forall_cons. destruct (item_match item url); [split; [done|naive_solver]|].
    rewrite IH. naive_solver.
Qed.
Lemma GetService_Some items url matches s ms :
  GetService items url matches = (Some s, ms) <->
  exists l item l' m, items = l ++ item :: l' /\
    Forall (fun i => item_match i url = None) l /\
    item_match item url = Some m /\ s = si_service item /\ ms = matches ++ m.
Proof.
  induction items as [|item items IH]; cbn [GetService].
  - split; [done|]. by intros ([|? ?] & ? & ? & ? & ? & _).
  - destruct (item_match item url) as [m|] eqn:E.
    + split.
      * intros [= <- <-]. exists [], item, items, m. by split_and!; [|apply Forall_nil| | |].
      * intros ([|i l] & item' & l' & m' & Heq & Hl & Hm & -> & ->); injection Heq as -> ->.
        -- rewrite E in Hm. by injection Hm as ->.
        -- apply Forall_cons in Hl as [Hl _]. by rewrite E in Hl.
    + rewrite IH. split.
      * intros (l & i & l' & m & -> & Hl & ?). exists (item :: l), i, l', m.
        split; [done|]. split; [by apply Forall_cons|done].
      * intros ([|i l] & item' & l' & m' & Heq & Hl & Hm & ?); injection Heq as -> ->.
        -- by rewrite E in Hm.
        -- apply Forall_cons in Hl as [_ Hl]. eauto 10.
Qed.

(** ** Correctness *)

(** Services are chosen in the order they were bound: [GetService] finds a
    service exactly when some bound URL matches, it is the first one that
    matches, and its sub-matches are appended; binding never changes what
    was found before, so a second binding of a matching URL has no effect. *)
Theorem GetService_first_match items url matches service u regex :
  (forall s ms, GetService items url matches = (Some s, ms) ->
     (exists l item l' m, items = l ++ item :: l' /\
        Forall (fun i => item_match i url = None) l /\
        item_match item url = Some m /\ s = si_service item /\ ms = matches ++ m) /\
     GetService (fst (AddService items service u regex)) url matches = (Some s, ms)) /\
  (fst (GetService items url matches) = None ->
     Forall (fun item => item_match item url = None) items).
Proof.
  split.
  - intros s ms H. split; [by apply GetService_Some|].
    unfold AddService. destruct (negb regex); [|destruct (compile u)]; cbn [fst]; try done;
      by rewrite GetService_app, H.
  - destruct (GetService items url matches) as [s ms] eqn:E. cbn. intros ->.
    by apply GetService_None in E as [_ ?].
Qed.

(** what [HandleConnection] answers: 404 without content when no service
    matches the path; otherwise the service's status and content, where a
    content that is not empty comes with its exact Content-Length and, when
    the service gave one, its Content-Type (with the charset). *)
Theorem HandleConnection_answers garbage items request response :
  HandleConnection garbage items request = Ret response ->
  match GetService items (#"/" ++ path_ (url_ request)) [] with
  | (None, _) => response = Resp.make 404
  | (Some service, ms) =>
      exists rr, service (mkRestRequest request ms) RestResponse_new = Ret rr /\
        status_ response = match rr_status rr with Some s => status_int s | None => garbage end /\
        content_ (resp_message response) = rr_content rr /\
        (rr_content rr <> [] ->
           Msg.GetHeader (resp_message response) kContentLength = to_dec (len (rr_content rr)) /\
           Msg.GetHeader (resp_message response) kContentType =
             match rr_media_type rr, rr_charset rr with
             | [], _ => []
             | m, [] => m
             | m, c => m ++ #";charset=" ++ c
             end)
  end.
Proof.
  unfold HandleConnection.
  destruct (GetService items _ []) as [[service|] ms]; [|by intros [= <-]].
  intros (rr & Hrr & H)%obind_Ret. exists rr. split; [done|].
  injection H as <-. destruct rr as [st [|c content] media charset]; [by split_and!|].
  cbn [rr_status rr_content rr_media_type rr_charset].
  destruct media as [|x media]; [by split_and!|].
  destruct charset as [|y charset]; by split_and!.
Qed.
End Manager.
Arguments mkServiceItem {Regex}.
Arguments si_service {Regex}.
Arguments si_url {Regex}.
Arguments si_is_regex {Regex}.
Arguments si_url_regex {Regex}.

(** [Handle] calls the function of the request's method with the parsed
    query or the request content and, for detail services, the URL matches; for
    any other method it changes nothing, so the status stays uninitialised. *)
Theorem Handle_dispatch (ls : ListService) (ds : DetailService) request response :
  let q := request_query request in
  let c := request_content request in
  let ms := url_matches request in
  (method_ (http request) = kGet ->
     RestListService_Handle ls request response = list_Get ls q response /\
     RestDetailService_Handle ds request response = detail_Get ds ms q response) /\
  (method_ (http request) = kPost ->
     RestListService_Handle ls request response = list_Post ls c response /\
     RestDetailService_Handle ds request response = Ret response) /\
  (method_ (http request) = kPut ->
     RestListService_Handle ls request response = Ret response /\
     RestDetailService_Handle ds request response = detail_Put ds ms c response) /\
  (method_ (http request) = kPatch ->
     RestListService_Handle ls request response = Ret response /\
     RestDetailService_Handle ds request response = detail_Patch ds ms c response) /\
  (method_ (http request) = kDelete ->
     RestListService_Handle ls request response = Ret response /\
     RestDetailService_Handle ds request response = detail_Delete ds ms response) /\
  (method_ (http request) ∉ [kGet; kPost; kPut; kPatch; kDelete] ->
     RestListService_Handle ls request response = Ret response /\
     RestDetailService_Handle ds request response = Ret response).
Proof.
  intros q c ms. unfold RestListService_Handle, RestDetailService_Handle.
  split_and!; [intros ->; by split..|].
  rewrite !not_elem_of_cons. intros (H1 & H2 & H3 & H4 & H5 & _).
  apply seqb_neq in H1, H2, H3, H4, H5. by rewrite H1, H2, H3, H4, H5.
Qed.

(** *** Witnesses, with a matcher that knows the one pattern [.*] *)
Definition any_compile (s : str) : option unit := if seqb s #".*" then Some tt else None.
Definition any_match (_ : unit) (s : str) : option (list str) := Some [].
Definition fixed_service (status : Status) (content : str) : RestService := fun _ r =>
  Ret (mkRestResponse (Some status) content kApplicationJson kUtf8).

Example GetService_first_match_witness :
  let s1 := fixed_service kOK #"1" in let s2 := fixed_service kCreated #"2" in
  let items := fst (AddService any_compile [] s1 #"/images" false) in
  GetService any_match (fst (AddService any_compile items s2 #"/images" false)) #"/images" [] =
  (Some s1, []).
Proof.
  intros s1 s2 items.
  exact (proj2 (proj1 (GetService_first_match any_compile any_match items #"/images" [] s2
           #"/images" false) s1 [] eq_refl)).
Defined.

Example HandleConnection_answers_witness :
  let items := fst (AddService any_compile [] (fixed_service kOK #"[]") #"/images" false) in
  let request := Req.set_url (Req.set_method Req.new #"GET") #"/images" in
  exists response, HandleConnection any_match 0 items request = Ret response /\
    exists rr, content_ (resp_message response) = rr_content rr /\ rr_content rr = #"[]".
Proof.
  intros items request. eexists. split; [reflexivity|].
  destruct (HandleConnection_answers any_match 0 items request _ eq_refl) as (rr & H & _ & Hc & _).
  exists rr. split; [exact Hc|]. injection H as <-. reflexivity.
Defined.

Example Handle_dispatch_witness :
  RestListService_Handle ListService_base
    (mkRestRequest (Req.set_method Req.new #"PUT") []) RestResponse_new = Ret RestResponse_new.
Proof.
  exact (proj1 (proj1 (proj2 (proj2 (Handle_dispatch ListService_base DetailService_base
    (mkRestRequest (Req.set_method Req.new #"PUT") []) RestResponse_new))) eq_refl)).
Defined.
