(* ===== verification/Connection.v ===== *)
(** * Server side connections

    Models [webcc/connection.h], [connection.cc], [connection_pool.h] and
    [connection_pool.cc].

    A connection is driven by Asio, which calls [OnRead] and [OnWrite] when an
    operation it started has finished, and by a worker, which calls
    [SendResponse].  Every member function is a function from the connection
    (and what Asio passes) to the connection and the calls it makes on the
    socket, the pool and the request handler, in order. *)
From Stdlib Require Import Ascii String.
From stdpp Require Import base tactics list gmap numbers option strings.
From S2P Require Import Prelude Globals Common Url Message Parser ParserLaws.

(** ** State and effects *)

(** [request_] and the message of [request_parser_] are one object.
    [response_] is null until the first response. *)
Record Conn := mkConn {
  request_parser_ : Parser Request Multipart;
  response_ : option Response
}.
Definition request (c : Conn) : Request := message_ (request_parser_ c).

(** What the member functions call. *)
Inductive Action :=
  | AsyncRead                    (* socket_.async_read_some(buffer_, OnRead) *)
  | AsyncWrite (payload : str)   (* async_write(socket_, payload, OnWrite) *)
  | EnqueueSelf                  (* request_handler_->Enqueue(this) *)
  | PoolClose                    (* pool_->Close(this) *)
  | SocketShutdown
  | SocketClose.

(** The error code a completion handler gets. *)
Inductive ErrorCode := Success | Aborted | OtherError.
#[global] Instance ErrorCode_eq_dec : EqDecision ErrorCode.
Proof. solve_decision. Defined.
#[global] Instance Action_eq_dec : EqDecision Action.
Proof. solve_decision. Defined.

Module Connection.
Definition make : Conn := mkConn (ReqParser.make Req.new) None.

Definition DoRead (c : Conn) : Conn * list Action := (c, [AsyncRead]).
Definition Start (c : Conn) : Conn * list Action :=
  DoRead (mkConn (ReqParser.Init (request_parser_ c) Req.new) (response_ c)).
Definition Close (c : Conn) : Conn * list Action := (c, [SocketClose]).
Definition Shutdown (c : Conn) : Conn * list Action := (c, [SocketShutdown]).

Definition DoWrite (c : Conn) : Conn * list Action :=
  (c, match response_ c with
      | Some r => [AsyncWrite (Msg.CopyPayload (resp_message r))]
      | None => []
      end).
(** [SendResponse]; [date] is the value of [GetTimestamp()]. *)
Definition SendResponse (date : str) (c : Conn) (response : Response) : Conn * list Action :=
  let keep_alive := Msg.IsConnectionKeepAlive (req_message (request c)) in
  let response := Resp.SetHeader response kConnection
                    (if keep_alive then #"Keep-Alive" else #"Close") in
  DoWrite (mkConn (request_parser_ c) (Some (Resp.Prepare date response))).
Definition SendResponse_status (date : str) (c : Conn) (status : Status) : Conn * list Action :=
  SendResponse date c (Resp.make (status_int status)).

(** [OnRead(ec, length)]; [data] are the first [length] bytes of [buffer_].
    An exception of the parser leaves through [io_context::run]. *)
Definition OnRead (can_alloc : N -> bool) (date : str) (c : Conn) (ec : ErrorCode) (data : str)
    : outcome (Conn * list Action) :=
  match ec with
  | Aborted => Ret (c, [])
  | OtherError => Ret (c, [PoolClose])
  | Success =>
      let! (p, ok) := Parse can_alloc (request_parser_ c) data in
      let c := mkConn p (response_ c) in
      Ret (if negb ok then SendResponse_status date c kBadRequest
           else if negb (finished_ p) then DoRead c
           else (c, [EnqueueSelf]))
  end.

Definition OnWrite (c : Conn) (ec : ErrorCode) : Conn * list Action :=
  match ec with
  | Aborted => (c, [])
  | OtherError => (c, [PoolClose])
  | Success =>
      if Msg.IsConnectionKeepAlive (req_message (request c)) then Start c
      else
        let '(c, a) := Shutdown c in
        (c, a ++ [PoolClose])
  end.
End Connection.

(** ** [class ConnectionPool]

    The set of live connections, by identity; [c->Start()] and [c->Close()]
    are returned as calls to make. *)
Abbreviation ConnId := nat.
Inductive PoolCall := CallStart (c : ConnId) | CallClose (c : ConnId).
Module Pool.
Definition Start (pool : gset ConnId) (c : ConnId) : gset ConnId * list PoolCall :=
  ({[c]} ∪ pool, [CallStart c]).
(** Erasing a connection that is not there is no error; it is closed again. *)
Definition Close (pool : gset ConnId) (c : ConnId) : gset ConnId * list PoolCall :=
  (pool ∖ {[c]}, [CallClose c]).
Definition CloseAll (pool : gset ConnId) : gset ConnId * list PoolCall :=
  (∅, map CallClose (elements pool)).
End Pool.

(** ** Lemmas *)
Lemma IsConnectionKeepAlive_default m :
  Msg.HasHeader m kConnection = false -> Msg.IsConnectionKeepAlive m = true.
Proof.
  unfold Msg.HasHeader, Hdr.Has, Msg.IsConnectionKeepAlive, Hdr.Get.
  by destruct (Hdr.Find (headers_ m) kConnection).
Qed.

(** The number of operations a connection leaves in flight: a read, a write or
    the wait in the queue of the workers. *)
Definition is_operation (a : Action) : bool :=
  match a with AsyncRead | AsyncWrite _ | EnqueueSelf => true | _ => false end.
Definition in_flight (l : list Action) : nat := length (List.filter is_operation l).
Definition closes (l : list Action) : Prop := PoolClose ∈ l.

(** ** Correctness *)

(** a connection never has two operations in flight and is never left
    hanging: each completed read, write and response starts exactly one new
    operation, or closes the connection, or (when the operation was cancelled
    because the connection is being closed) does nothing. *)
Theorem one_operation_in_flight can_alloc date c ec data response :
  (forall c' l, Connection.OnRead can_alloc date c ec data = Ret (c', l) ->
     match ec with
     | Aborted => l = []
     | OtherError => l = [PoolClose]
     | Success => in_flight l = 1 /\ ~ closes l
     end) /\
  (let l := snd (Connection.OnWrite c ec) in
     match ec with
     | Aborted => l = []
     | OtherError => l = [PoolClose]
     | Success => if Msg.IsConnectionKeepAlive (req_message (request c)) then l = [AsyncRead]
                  else l = [SocketShutdown; PoolClose]
     end) /\
  (exists payload, snd (Connection.SendResponse date c response) = [AsyncWrite payload]) /\
  snd (Connection.Start c) = [AsyncRead].
Proof.
  split_and!.
  - intros c' l. unfold Connection.OnRead.
    destruct ec; [|by intros [= _ <-]|by intros [= _ <-]].
    intros ([p ok] & _ & H)%obind_Ret.
    assert (l = snd (if negb ok then Connection.SendResponse_status date (mkConn p (response_ c)) kBadRequest
             else if negb (finished_ p) then Connection.DoRead (mkConn p (response_ c))
             else (mkConn p (response_ c), [EnqueueSelf]))) as -> by (by injection H as ->).
    destruct ok; cbn [negb]; [destruct (finished_ p)|]; (split; [done|]);
      unfold closes; cbn; by intros ?%list_elem_of_singleton.
  - destruct ec; [|done|done]. cbn. by destruct (Msg.IsConnectionKeepAlive _).
  - eexists. reflexivity.
  - done.
Qed.

(** C29: What a client gets for a request: the response is sent with a
    [Connection] header that says what the server will do, [Keep-Alive] exactly
    when the request did not ask otherwise, and after the write the server
    does that: it reads the next request into a fresh [Request], or shuts
    the socket down and closes the connection. *)
Theorem keep_alive_announced date c response c' l :
  start_line_ (resp_message response) = [] ->
  Connection.SendResponse date c response = (c', l) ->
  let keep_alive := Msg.IsConnectionKeepAlive (req_message (request c)) in
  (exists r, response_ c' = Some r /\
     l = [AsyncWrite (wire (Resp.status_string (status_ response)) (headers_ (resp_message r))
            (content_ (resp_message response)))] /\
     Msg.GetHeader (resp_message r) kConnection = (if keep_alive then #"Keep-Alive" else #"Close")) /\
  (if keep_alive then
     snd (Connection.OnWrite c' Success) = [AsyncRead] /\
     request (fst (Connection.OnWrite c' Success)) = Req.new
   else snd (Connection.OnWrite c' Success) = [SocketShutdown; PoolClose]).
Proof.
  intros Hs H keep_alive. unfold Connection.SendResponse, Connection.DoWrite in H.
  cbn [response_] in H. fold keep_alive in H.
  apply pair_eq in H as [<- <-]. split.
  - set (r := Resp.SetHeader response kConnection (if keep_alive then #"Keep-Alive" else #"Close")).
    exists (Resp.Prepare date r). split; [done|].
    rewrite (Resp_Prepare_message date r Hs). split.
    + by rewrite CopyPayload_Prepare.
    + unfold Msg.GetHeader.
      cbn [headers_ Msg.Prepare Msg.set_payload Msg.SetHeader Msg.set_headers Msg.set_start_line].
      rewrite !Get_Set. subst r. unfold Resp.SetHeader.
      cbn [resp_message with_message Response_MessageLike Response_with headers_ Msg.SetHeader
           Msg.set_headers]. by rewrite Get_Set; destruct keep_alive.
  - unfold Connection.OnWrite. change (request (mkConn _ _)) with (request c).
    fold keep_alive. by destruct keep_alive.
Qed.
Example keep_alive_announced_witness :
  let c := Connection.make in
  let c' := fst (Connection.SendResponse_status #"now" c kNotFound) in
  snd (Connection.OnWrite c' Success) = [AsyncRead].
Proof.
  intros c c'.
  exact (proj1 (proj2 (keep_alive_announced #"now" c (Resp.make (status_int kNotFound)) c'
    (snd (Connection.SendResponse_status #"now" c kNotFound)) eq_refl (surjective_pairing _)))).
Defined.

(** a connection reads one request after the other only as long as none of
    them is multipart: after a complete multipart request on a kept connection
    the parser of the restarted connection keeps its final step, and once the
    headers of another multipart request are read, any byte of its body makes
    [OnRead] loop for ever: no fuel is enough. *)
Theorem keep_alive_after_multipart c q data :
  Msg.IsConnectionKeepAlive (req_message (request c)) = true ->
  step_ (derived (request_parser_ c)) = kEnded ->
  let c' := fst (Connection.OnWrite c Success) in
  request c' = Req.new /\
  (derived q = derived (request_parser_ c') -> pending_data_ q ++ data <> [] ->
   forall fuel, ReqParser.multipart_loop fuel (addp q data) = OutOfFuel).
Proof.
  intros Hk Hs c'. assert (c' = fst (Connection.Start c)) as Hc'.
  { subst c'. unfold Connection.OnWrite. by rewrite Hk. }
  rewrite Hc'. split; [done|]. intros Hd Hne fuel.
  apply multipart_loop_ended; [|exact Hne]. cbn [addp set_pending derived]. by rewrite Hd.
Qed.

(** A form with one field, as the client of the library writes it, twice on one
    connection. *)
Definition sample_form : str :=
  match Req.Prepare #"XYZ" (Req.AddFormPart (Req.make #"POST" #"http://h/face")
          (Part.from_data #"a" #"1" [])) with
  | Ret r => Msg.CopyPayload (req_message r)
  | _ => []
  end.
Example keep_alive_after_multipart_witness :
  exists c, Connection.OnRead (fun _ => true) [] (fst (Connection.Start Connection.make)) Success
      sample_form = Ret (c, [EnqueueSelf]) /\
    let c' := fst (Connection.OnWrite c Success) in
    Connection.OnRead (fun _ => true) [] c' Success sample_form = OutOfFuel /\
    forall fuel, ReqParser.multipart_loop fuel (addp (request_parser_ c') #"-") = OutOfFuel.
Proof.
  eexists. split; [vm_compute; reflexivity|]. split; [vm_compute; reflexivity|].
  match goal with |- context [Connection.OnWrite ?c Success] =>
    exact (proj2 (keep_alive_after_multipart c (request_parser_ (fst (Connection.OnWrite c Success)))
      #"-" eq_refl eq_refl) eq_refl ltac:(discriminate)) end.
Defined.
