(* ===== verification/Workers.v ===== *)
(** * The queue and the worker threads

    Models [webcc/queue.h], [request_handler.h] and [request_handler.cc].

    The operations of [Queue] are atomic (they hold the mutex), so the threads
    interleave between them.  [wstep] is one step of the main thread (which
    enqueues connections and runs [Stop]) or of a worker in [WorkerRoutine];
    its label says what a client of the system sees. *)
From Stdlib Require Import Ascii String.
From stdpp Require Import base tactics list gmap numbers option strings.
From S2P Require Import Prelude Globals Connection.

(** ** [class Queue] *)
Module Queue.
Section Queue.
Context {T : Type} (null : T).
Definition Push (q : list T) (m : T) : list T := q ++ [m].
Definition Clear (q : list T) : list T := [].
(** [Pop] gives [T()] when the queue is empty. *)
Definition Pop (q : list T) : T * list T :=
  match q with [] => (null, []) | m :: q' => (m, q') end.
(** [PopOrWait]: [None] while the caller waits. *)
Definition PopOrWait (q : list T) : option (T * list T) :=
  match q with [] => None | m :: q' => Some (m, q') end.
End Queue.
End Queue.

(** ** [class RequestHandler] *)

(** A [ConnectionPtr] in the queue; [None] is the null pointer. *)
Abbreviation ConnPtr := (option ConnId).

(** Where a worker is in [WorkerRoutine]: at [PopOrWait], in
    [HandleConnection], between popping a null connection and pushing one for
    the next worker, or behind the loop. *)
Inductive Worker := Idle | Handling (c : ConnId) | Stopping | Stopped.
#[global] Instance Worker_eq_dec : EqDecision Worker.
Proof. solve_decision. Defined.

(** Where the main thread is: running the server, in [Stop] before [Clear],
    before [Push], joining the workers, and behind [Stop]. *)
Inductive Main := Running | StopCalled | Cleared | Joining | Joined.

#[global] Instance Main_eq_dec : EqDecision Main.
Proof. solve_decision. Defined.

(** The handler, with what happened to the connections: those enqueued, those
    a worker took, and those [Clear] dropped, each in order. *)
Record Handler := mkHandler {
  queue_ : list ConnPtr;
  workers_ : list Worker;
  main_ : Main;
  enqueued : list ConnId;
  taken : list ConnId;
  dropped : list ConnId
}.

(** [Start(count)]. *)
Definition Handler_Start (count : nat) : Handler :=
  mkHandler [] (repeat Idle count) Running [] [] [].

Definition set_worker (h : Handler) (i : nat) (w : Worker) : Handler :=
  mkHandler (queue_ h) (<[i := w]> (workers_ h)) (main_ h) (enqueued h) (taken h) (dropped h).
Definition set_queue (h : Handler) (q : list ConnPtr) : Handler :=
  mkHandler q (workers_ h) (main_ h) (enqueued h) (taken h) (dropped h).
Definition set_main (h : Handler) (m : Main) : Handler :=
  mkHandler (queue_ h) (workers_ h) m (enqueued h) (taken h) (dropped h).
(** The connections in the queue, in order. *)
Definition queued (q : list ConnPtr) : list ConnId := omap id q.

(** [Enqueue(connection)]. *)
Definition Enqueue (h : Handler) (c : ConnId) : Handler :=
  mkHandler (Queue.Push (queue_ h) (Some c)) (workers_ h) (main_ h)
    (enqueued h ++ [c]) (taken h) (dropped h).

Inductive Label := Tau | Enqueued (c : ConnId) | Taken (i : nat) (c : ConnId)
  | Done (i : nat) (c : ConnId) | Dropped (cs : list ConnId).

Inductive wstep : Handler -> Label -> Handler -> Prop :=
  (** [Enqueue], called by the main thread when it is not in [Stop] (a read
      that completed before its socket was closed is still handled after it). *)
  | w_enqueue h c :
      main_ h = Running \/ main_ h = Joined ->
      wstep h (Enqueued c) (Enqueue h c)
  (** A worker pops a connection and starts to handle it. *)
  | w_take h i c q :
      workers_ h !! i = Some Idle -> Queue.PopOrWait (queue_ h) = Some (Some c, q) ->
      wstep h (Taken i c)
        (mkHandler q (<[i := Handling c]> (workers_ h)) (main_ h)
           (enqueued h) (taken h ++ [c]) (dropped h))
  (** [HandleConnection] returns. *)
  | w_done h i c :
      workers_ h !! i = Some (Handling c) ->
      wstep h (Done i c) (set_worker h i Idle)
  (** A worker pops a null connection, pushes one for the next, and stops. *)
  | w_null h i q :
      workers_ h !! i = Some Idle -> Queue.PopOrWait (queue_ h) = Some (None, q) ->
      wstep h Tau (set_queue (set_worker h i Stopping) q)
  | w_pass_on h i :
      workers_ h !! i = Some Stopping ->
      wstep h Tau (set_queue (set_worker h i Stopped) (Queue.Push (queue_ h) None))
  (** [Stop]: clear the queue, enqueue a null connection, join the workers. *)
  | w_stop h :
      main_ h = Running -> wstep h Tau (set_main h StopCalled)
  | w_clear h :
      main_ h = StopCalled ->
      wstep h (Dropped (queued (queue_ h)))
        (mkHandler (Queue.Clear (queue_ h)) (workers_ h) Cleared
           (enqueued h) (taken h) (dropped h ++ queued (queue_ h)))
  | w_push h :
      main_ h = Cleared ->
      wstep h Tau (set_main (set_queue h (Queue.Push (queue_ h) None)) Joining)
  | w_join h :
      main_ h = Joining -> Forall (eq Stopped) (workers_ h) ->
      wstep h Tau (set_main h Joined).

(** States reached from [Start(count)]. *)
Inductive wreach (count : nat) : Handler -> Prop :=
  | wr_start : wreach count (Handler_Start count)
  | wr_step h l h' : wreach count h -> wstep h l h' -> wreach count h'.

(** Sequences of steps. *)
Inductive wsteps : Handler -> nat -> Handler -> Prop :=
  | ws_refl h : wsteps h 0 h
  | ws_step h l h' n h'' : wstep h l h' -> wsteps h' n h'' -> wsteps h (S n) h''.

(** ** Invariant *)
Definition nulls (q : list ConnPtr) : nat := length (List.filter (fun m => negb (bool_decide (is_Some m))) q).
Definition is_stopping (w : Worker) : bool := bool_decide (w = Stopping).
Definition is_stopped (w : Worker) : bool := bool_decide (w = Stopped).
Definition count_workers (f : Worker -> bool) (ws : list Worker) : nat := length (List.filter f ws).
Definition token (m : Main) : nat := match m with Joining | Joined => 1 | _ => 0 end.

Lemma nulls_app a b : nulls (a ++ b) = nulls a + nulls b.
Proof. unfold nulls. by rewrite List.filter_app, length_app. Qed.
Lemma count_insert f ws i w w' :
  ws !! i = Some w ->
  count_workers f (<[i := w']> ws) + (if f w then 1 else 0) =
  count_workers f ws + (if f w' then 1 else 0).
Proof.
  revert i; induction ws as [|x ws IH]; intros [|i] H; cbn in H; try done.
  - injection H as ->. unfold count_workers. cbn. destruct (f w), (f w'); cbn; lia.
  - specialize (IH i H). unfold count_workers in *.
    change (<[S i:=w']> (x :: ws)) with (x :: <[i:=w']> ws). cbn [List.filter].
    destruct (f x); cbn [length]; lia.
Qed.

(** The one null connection is in the queue or in the hands of a worker, and
    only after [Stop] has pushed it; before that no worker has stopped.  Nothing is
    enqueued after [Stop] began, connections are taken in the order they were
    enqueued, and what was not taken is queued or was dropped. *)
Record Inv (count : nat) (h : Handler) : Prop := {
  inv_count : length (workers_ h) = count;
  inv_token : nulls (queue_ h) + count_workers is_stopping (workers_ h) = token (main_ h);
  inv_stopped : token (main_ h) = 0 -> count_workers is_stopped (workers_ h) = 0;
  inv_fifo : enqueued h = taken h ++ dropped h ++ queued (queue_ h);
  inv_dropped : main_ h = Running \/ main_ h = StopCalled -> dropped h = [];
  inv_cleared : main_ h = Cleared \/ main_ h = Joining -> queued (queue_ h) = [];
  inv_joined : main_ h = Joined -> Forall (eq Stopped) (workers_ h)
}.

Lemma queued_app a b : queued (a ++ b) = queued a ++ queued b.
Proof. apply omap_app. Qed.

Lemma nulls_cons m q : nulls (m :: q) = (match m with None => 1 | _ => 0 end) + nulls q.
Proof. by destruct m. Qed.
Lemma queued_cons m q : queued (m :: q) = (match m with None => [] | Some c => [c] end) ++ queued q.
Proof. by destruct m. Qed.
Lemma nulls_nil : nulls [] = 0.
Proof. done. Qed.
Lemma queued_nil : queued [] = [].
Proof. done. Qed.

(** The fields of an updated state, and the lists in them. *)
Ltac hsimpl :=
  cbn [queue_ workers_ main_ enqueued taken dropped set_queue set_worker set_main token
       Handler_Start Nat.add] in *;
  unfold Queue.Push, Queue.Clear in *;
  rewrite ?nulls_app, ?queued_app, ?nulls_cons, ?queued_cons, ?nulls_nil, ?queued_nil,
    ?app_nil_r, ?length_insert in *.
(** The counts after worker [i] moved to [w]. *)
Ltac count_now Hi w :=
  pose proof (count_insert is_stopping _ _ _ w Hi);
  pose proof (count_insert is_stopped _ _ _ w Hi);
  repeat match goal with H : context [if ?f ?x then 1 else 0] |- _ =>
    let b := eval lazy in (f x) in change (f x) with b in H; cbn iota in H end; lia.

Lemma Inv_start count : Inv count (Handler_Start count).
Proof.
  assert (forall f, f Idle = false -> count_workers f (repeat Idle count) = 0) as Hc.
  { intros f Hf. induction count; [done|]. unfold count_workers in *. cbn. by rewrite Hf. }
  split; hsimpl; try done; [apply repeat_length|by apply Hc|intros _; by apply Hc].
Qed.

(** A system that has joined its workers has none at work. *)
Lemma not_joined count h i w :
  Inv count h -> workers_ h !! i = Some w -> w <> Stopped -> main_ h <> Joined.
Proof.
  intros I Hi Hw Hm. pose proof (inv_joined _ _ I Hm) as H.
  apply (Forall_lookup_1 _ _ _ _ H) in Hi. congruence.
Qed.

Lemma Inv_step count h l h' : Inv count h -> wstep h l h' -> Inv count h'.
Proof.
  intros I Hs. pose proof (fun i w => not_joined count h i w I) as Hnj.
  destruct I as [Ic It Is If Id Icl Ij].
  destruct Hs as [h c Hm|h i c q Hi Hq|h i c Hi|h i q Hi Hq|h i Hi|h Hm|h Hm|h Hm|h Hm Hall].
  - unfold Enqueue. split; hsimpl; auto; try lia.
    + rewrite If. by rewrite <- !app_assoc.
    + destruct Hm as [-> | ->]; by intros [].
  - destruct (queue_ h) as [|m q'] eqn:E; [done|]. injection Hq as -> ->.
    pose proof (Hnj i _ Hi ltac:(done)) as Hj. split; hsimpl; auto.
    + count_now Hi (Handling c).
    + intros H0. specialize (Is H0). count_now Hi (Handling c).
    + rewrite If. destruct (decide (main_ h = Running \/ main_ h = StopCalled)) as [Hr|Hr].
      * rewrite (Id Hr). by rewrite <- !app_assoc.
      * exfalso. enough ([c] ++ queued q = []) by done. apply Icl.
        destruct (main_ h); naive_solver.
    + intros Hr. specialize (Icl Hr). by destruct (queued q).
    + done.
  - pose proof (Hnj i _ Hi ltac:(done)) as Hj. split; hsimpl; auto; [| |done].
    + count_now Hi Idle.
    + intros H0. specialize (Is H0). count_now Hi Idle.
  - destruct (queue_ h) as [|m q'] eqn:E; [done|]. injection Hq as -> ->.
    pose proof (Hnj i _ Hi ltac:(done)) as Hj. split; hsimpl; auto; [| |done].
    + count_now Hi Stopping.
    + intros H0. specialize (Is H0). count_now Hi Stopping.
  - pose proof (Hnj i _ Hi ltac:(done)) as Hj. split; hsimpl; auto; [| |done].
    + count_now Hi Stopped.
    + intros H0. specialize (Is H0). count_now Hi Stopped.
  - split; hsimpl; rewrite ?Hm in *; auto; naive_solver.
  - split; hsimpl; rewrite ?Hm in *; auto; try (cbn in *; lia); try naive_solver.
  - split; hsimpl; rewrite ?Hm in *; auto; try (cbn in *; lia); naive_solver.
  - split; hsimpl; rewrite ?Hm in *; auto; naive_solver.
Qed.

Lemma wreach_Inv count h : wreach count h -> Inv count h.
Proof.
  induction 1 as [|h l h' _ IH Hs]; [apply Inv_start|by eapply Inv_step].
Qed.

(** ** Shutting down *)

(** The steps a thread has left before it is behind [Stop]. *)
Definition worker_left (w : Worker) : nat :=
  match w with Handling _ => 3 | Idle => 2 | Stopping => 1 | Stopped => 0 end.
Definition main_left (m : Main) : nat :=
  match m with Running => 4 | StopCalled => 3 | Cleared => 2 | Joining => 1 | Joined => 0 end.
Definition steps_left (h : Handler) : nat :=
  main_left (main_ h) + list_sum (map worker_left (workers_ h)) + 2 * length (queued (queue_ h)).

Lemma sum_cons n l : list_sum (n :: l) = n + list_sum l.
Proof. done. Qed.
Lemma left_insert ws i w w' :
  ws !! i = Some w ->
  list_sum (map worker_left (<[i := w']> ws)) + worker_left w =
  list_sum (map worker_left ws) + worker_left w'.
Proof.
  revert i; induction ws as [|x ws IH]; intros [|i] H; cbn in H; try done.
  - injection H as ->. change (<[0:=w']> (w :: ws)) with (w' :: ws). cbn [map]. rewrite !sum_cons. lia.
  - specialize (IH i H). change (<[S i:=w']> (x :: ws)) with (x :: <[i:=w']> ws). cbn [map].
  rewrite !sum_cons. lia.
Qed.

Lemma step_left count h l h' :
  Inv count h -> main_ h <> Running -> main_ h <> Joined -> wstep h l h' ->
  main_ h' <> Running /\ steps_left h' < steps_left h.
Proof.
  intros I Hr Hj Hs. unfold steps_left.
  destruct Hs as [h c Hm|h i c q Hi Hq|h i c Hi|h i q Hi Hq|h i Hi|h Hm|h Hm|h Hm|h Hm Hall];
    try (by rewrite Hm in Hr); try (by destruct Hm); hsimpl; (split; [first [done | by rewrite Hm]|]).
  - pose proof (left_insert _ _ _ (Handling c) Hi). destruct (queue_ h); [done|].
    injection Hq as -> ->. hsimpl. cbn [worker_left main_left app length] in *. lia.
  - pose proof (left_insert _ _ _ Idle Hi). cbn [worker_left main_left] in *. lia.
  - pose proof (left_insert _ _ _ Stopping Hi). destruct (queue_ h); [done|].
    injection Hq as -> ->. hsimpl. cbn [worker_left main_left app length] in *. lia.
  - pose proof (left_insert _ _ _ Stopped Hi). cbn [worker_left main_left] in *. lia.
  - rewrite Hm. cbn [main_left length]. lia.
  - rewrite Hm. cbn [main_left length]. lia.
  - rewrite Hm. cbn [main_left length]. lia.
Qed.

Lemma queue_token count h :
  Inv count h -> main_ h = Joining -> count_workers is_stopping (workers_ h) = 0 ->
  queue_ h = [None].
Proof.
  intros I Ht H0. pose proof (inv_token _ _ I) as Hn. rewrite Ht, H0 in Hn. cbn in Hn.
  assert (queued (queue_ h) = []) as Hq by (apply (inv_cleared _ _ I); auto).
  destruct (queue_ h) as [|[c|] q]; rewrite ?nulls_cons, ?queued_cons in *; [by cbn in Hn|done|].
  destruct q as [|[c|] q]; [done|by rewrite queued_cons in Hq|].
  rewrite nulls_cons in Hn. lia.
Qed.

Lemma no_worker f ws : count_workers f ws = 0 -> Forall (fun w => f w = false) ws.
Proof.
  induction ws as [|w ws IH]; [by constructor|]. unfold count_workers. cbn [List.filter].
  destruct (f w) eqn:E; [done|]. intros H. apply Forall_cons. split; [done|by apply IH].
Qed.

Lemma progress count h :
  Inv count h -> main_ h <> Running -> main_ h <> Joined -> exists l h', wstep h l h'.
Proof.
  intros I Hr Hj. destruct (main_ h) eqn:Hm; try done.
  - eexists _, _. by apply w_clear.
  - eexists _, _. by apply w_push.
  - destruct (decide (Exists (fun w => w <> Stopped) (workers_ h))) as [He|Hn].
    2: { eexists _, _. apply w_join; [done|]. apply not_Exists_Forall in Hn; [|apply _].
         eapply Forall_impl; [exact Hn|]. cbn. intros w Hw. apply dec_stable in Hw. done. }
    apply Exists_exists in He as (w & (i & Hi)%list_elem_of_lookup & Hw).
    destruct w as [|c| |]; [|by eexists _, _; eapply w_done|by eexists _, _; eapply w_pass_on|done].
    destruct (decide (count_workers is_stopping (workers_ h) = 0)) as [H0|H0].
    + eexists _, _. eapply (w_null h i []); [done|].
      by rewrite (queue_token count h I Hm H0).
    + assert (exists j, workers_ h !! j = Some Stopping) as [j Hjs].
      { destruct (decide (Stopping ∈ workers_ h)) as [[j Hin]%list_elem_of_lookup|Hnin]; [eauto|].
        exfalso. apply H0. clear -Hnin. induction (workers_ h) as [|w ws IH]; [done|].
        apply not_elem_of_cons in Hnin as [Hne Hnin]. unfold count_workers. cbn [List.filter].
        unfold is_stopping. rewrite bool_decide_false by done. by apply IH. }
      eexists _, _. by eapply w_pass_on.
Qed.

(** ** Correctness *)

(** C13: connections reach the workers in order and none is lost or taken twice:
    at any time the connections enqueued so far are, in order, those taken by
    workers, then those dropped by [Stop], then those still in the queue; only
    [Stop] drops any, and no worker stops before [Stop] has pushed the null
    connection, of which there is never more than one. *)
Theorem workers_fifo count h :
  wreach count h ->
  length (workers_ h) = count /\
  enqueued h = taken h ++ dropped h ++ queued (queue_ h) /\
  (main_ h = Running -> dropped h = [] /\ Stopped ∉ workers_ h /\ Stopping ∉ workers_ h) /\
  nulls (queue_ h) <= 1.
Proof.
  intros I%wreach_Inv. split; [apply I|]. split; [apply I|]. split.
  - intros Hm. split; [by apply I; left|]. pose proof (inv_token _ _ I) as Ht.
    pose proof (inv_stopped _ _ I) as Hs. rewrite Hm in Ht, Hs. specialize (Hs eq_refl). cbn in Ht.
    assert (count_workers is_stopping (workers_ h) = 0) as H0 by lia.
    apply no_worker in Hs, H0. rewrite Forall_forall in Hs, H0.
    split; intros Hin; [by apply Hs in Hin|by apply H0 in Hin].
  - pose proof (inv_token _ _ I) as Ht. destruct (main_ h); cbn in Ht; lia.
Qed.
Example workers_fifo_witness :
  exists h, wreach 2 h /\ taken h = [7] /\ enqueued h = taken h ++ dropped h ++ queued (queue_ h).
Proof.
  eexists. split.
  - eapply wr_step; [eapply wr_step; [eapply wr_step; [apply wr_start|apply (w_enqueue _ 7)]|
      apply (w_enqueue _ 8)]|apply (w_take _ 0 7 [Some 8])]; first [by left | reflexivity].
  - split; [reflexivity|]. eapply (workers_fifo 2).
    eapply wr_step; [eapply wr_step; [eapply wr_step; [apply wr_start|apply (w_enqueue _ 7)]|
      apply (w_enqueue _ 8)]|apply (w_take _ 0 7 [Some 8])]; first [by left | reflexivity].
Defined.

Lemma joined_stays h n h' :
  wsteps h n h' -> Forall (eq Stopped) (workers_ h) -> main_ h = Joined ->
  main_ h' = Joined /\ taken h' = taken h /\ Forall (eq Stopped) (workers_ h').
Proof.
  induction 1 as [h|h l h1 n h2 H1 _ IH]; intros Hall Hj; [done|].
  assert (forall i w, workers_ h !! i = Some w -> w = Stopped) as Hw.
  { intros i w Hi. by apply (Forall_lookup_1 _ _ _ _ Hall) in Hi. }
  destruct H1 as [h c Hm|h i c q Hi Hq|h i c Hi|h i q Hi Hq|h i Hi|h Hm|h Hm|h Hm|h Hm Hall'];
    try (by apply Hw in Hi); try (by rewrite Hm in Hj); by apply IH.
Qed.

(** C23: [Stop] terminates and stops every worker, provided [HandleConnection]
    returns: once it is called no more than [steps_left] steps of any thread
    can follow before the main thread has joined all workers, some thread can
    always take a step until then, and then every worker has stopped and nothing
    that is still enqueued is ever handled. *)
Theorem stop_terminates count h :
  wreach count h -> main_ h <> Running ->
  (forall n h', wsteps h n h' -> main_ h' <> Joined -> n <= steps_left h) /\
  (main_ h <> Joined -> exists l h', wstep h l h') /\
  (main_ h = Joined -> Forall (eq Stopped) (workers_ h) /\
     forall n h', wsteps h n h' -> taken h' = taken h).
Proof.
  intros I%wreach_Inv Hr. split_and!.
  - intros n h' Hs. revert I Hr. induction Hs as [h|h l h1 n h2 H1 Hs IH]; intros I Hr Hj; [lia|].
    destruct (decide (main_ h = Joined)) as [E|E].
    { destruct Hj. eapply joined_stays; [by eapply ws_step|by apply (inv_joined _ _ I)|done]. }
    destruct (step_left count h l h1 I Hr E H1) as [Hr1 Hlt].
    specialize (IH (Inv_step _ _ _ _ I H1) Hr1 Hj). lia.
  - intros Hj. by apply (progress count).
  - intros Hj. pose proof (inv_joined _ _ I Hj) as Hall. split; [done|].
    intros n h' Hs. by destruct (joined_stays _ _ _ Hs Hall Hj) as (_ & ? & _).
Qed.
Example stop_terminates_witness :
  let h := set_main (Handler_Start 2) StopCalled in
  wreach 2 h /\ (forall n h', wsteps h n h' -> main_ h' <> Joined -> n <= 7).
Proof.
  intros h. assert (wreach 2 h) as H by (eapply wr_step; [apply wr_start|by apply w_stop]).
  split; [exact H|]. exact (proj1 (stop_terminates 2 h H ltac:(discriminate))).
Defined.
