(* ===== verification/Server.v ===== *)
(** * The server

    Models [webcc/server.h], [server.cc] and [rest_server.h], with the
    connections, the pool and the workers it drives.  Operations that Asio has not
    completed yet are in flight, any number of reads and writes per connection, each write
    with the bytes it was given; that there is never more than one is a theorem.

    [sstep] is one step of the server: a completion handler that Asio runs on
    the main thread, a step of a worker, or a step of the handler of the stop
    signal.  The handlers are the functions of [Connection] and [Workers];
    a step carries out the calls they return.  What a request is answered
    (the services, see [Rest.HandleConnection]) is a parameter. *)
From Stdlib Require Import Ascii String.
From stdpp Require Import base tactics list gmap numbers option strings.
From S2P Require Import Prelude Globals Common Url Message Parser ParserLaws Connection Workers.

(** ** State *)

(** A connection, the reads of its socket that are in flight, the payloads of its
    writes that are in flight, and whether its socket is open.  Whether it waits in the
    queue or a worker handles it is the state of the request handler. *)
Record SConn := mkSConn {
  conn : Conn;
  reading : nat;
  writing : list str;
  is_open : bool
}.
(** A connection that was just accepted. *)
Definition new_conn : SConn := mkSConn Connection.make 0 [] true.

(** [closing_] is true while the handler of the stop signal runs. *)
Record Server := mkServer {
  conns : gmap ConnId SConn;
  pool_ : gset ConnId;
  handler_ : Handler;
  accepting_ : bool;
  closing_ : bool;
  crashed_ : bool
}.

(** [acceptor_], and the signals that stop the server. *)
Record Acceptor := mkAcceptor { acc_is_open : bool; acc_listening : bool }.
Definition RegisterSignals : list str := [ #"SIGINT"; #"SIGTERM"; #"SIGQUIT"].
(** The constructor; which calls of the operating system fail is an argument. *)
Definition Server_make (open_fails bind_fails listen_fails : bool) : Acceptor :=
  if open_fails then mkAcceptor false false
  else if bind_fails then mkAcceptor true false
  else if listen_fails then mkAcceptor true false
  else mkAcceptor true true.

(** What [Server::Run] starts: [DoAwaitStop], [DoAccept], and the workers. *)
Definition Server_Run (workers : nat) : Server :=
  mkServer ∅ ∅ (Handler_Start workers) true false false.
(** [Server::Run]; it returns at once when the acceptor is not open. *)
Definition Run (acceptor_ : Acceptor) (workers : nat) : option Server :=
  if acc_is_open acceptor_ then Some (Server_Run workers) else None.
(** A server whose port is taken runs all the same: the acceptor is open, if not bound. *)
Example bind_failure_runs workers :
  Run (Server_make false true false) workers = Run (Server_make false false false) workers /\
  acc_listening (Server_make false true false) = false.
Proof. done. Qed.

Definition set_conn (s : Server) (c : ConnId) (sc : SConn) : Server :=
  mkServer (<[c := sc]> (conns s)) (pool_ s) (handler_ s) (accepting_ s) (closing_ s) (crashed_ s).
Definition set_handler (s : Server) (h : Handler) : Server :=
  mkServer (conns s) (pool_ s) h (accepting_ s) (closing_ s) (crashed_ s).
Definition set_pool (s : Server) (p : gset ConnId) : Server :=
  mkServer (conns s) p (handler_ s) (accepting_ s) (closing_ s) (crashed_ s).
Definition crash (s : Server) : Server :=
  mkServer (conns s) (pool_ s) (handler_ s) (accepting_ s) (closing_ s) true.

Definition set_state (sc : SConn) (cn : Conn) : SConn :=
  mkSConn cn (reading sc) (writing sc) (is_open sc).
Definition close_socket (sc : SConn) : SConn :=
  mkSConn (conn sc) (reading sc) (writing sc) false.

(** What a call of a connection on its socket or the request handler does: it starts an
    operation beside those in flight, or closes the socket. *)
Definition socket_call (c : ConnId) (s : Server) (a : Action) : Server :=
  match conns s !! c with
  | None => s
  | Some sc =>
      match a with
      | AsyncRead => set_conn s c (mkSConn (conn sc) (S (reading sc)) (writing sc) (is_open sc))
      | AsyncWrite payload =>
          set_conn s c (mkSConn (conn sc) (reading sc) (writing sc ++ [payload]) (is_open sc))
      | EnqueueSelf => set_handler s (Enqueue (handler_ s) c)
      | SocketClose => set_conn s c (close_socket sc)
      | SocketShutdown | PoolClose => s
      end
  end.
(** A call the pool makes on a connection. *)
Definition pool_call (s : Server) (p : PoolCall) : Server :=
  let '(c, member) :=
    match p with CallStart c => (c, Connection.Start) | CallClose c => (c, Connection.Close) end in
  match conns s !! c with
  | None => s
  | Some sc =>
      let r := member (conn sc) in
      foldl (socket_call c) (set_conn s c (set_state sc (fst r))) (snd r)
  end.
(** What a function of the pool leaves, and the calls it makes. *)
Definition use_pool (s : Server) (r : gset ConnId * list PoolCall) : Server :=
  foldl pool_call (set_pool s (fst r)) (snd r).
(** One call a connection makes. *)
Definition act (c : ConnId) (s : Server) (a : Action) : Server :=
  match a with
  | PoolClose => use_pool s (Pool.Close (pool_ s) c)
  | _ => socket_call c s a
  end.

(** A completion handler or a worker leaves the connection in the state [fst r], and
    makes the calls [snd r]. *)
Definition run_calls (s : Server) (c : ConnId) (sc : SConn) (r : Conn * list Action) : Server :=
  foldl (act c) (set_conn s c (set_state sc (fst r))) (snd r).

(** [pool_.CloseAll()], the end of the handler of the stop signal. *)
Definition CloseAll (s : Server) : Server :=
  let s := use_pool s (Pool.CloseAll (pool_ s)) in
  mkServer (conns s) (pool_ s) (handler_ s) (accepting_ s) false (crashed_ s).

Section Steps.
Context (can_alloc : N -> bool) (date : str) (handle : Request -> outcome Response).

Inductive sstep : Server -> Server -> Prop :=
  (** [DoAccept]: a client connects, and the pool starts its connection. *)
  | s_accept s c :
      crashed_ s = false -> closing_ s = false -> accepting_ s = true -> conns s !! c = None ->
      sstep s (use_pool (set_conn s c new_conn) (Pool.Start (pool_ s) c))
  (** A read in flight completes; only a closed socket cancels it. *)
  | s_read s c cn n ws open ec data r :
      crashed_ s = false -> closing_ s = false -> conns s !! c = Some (mkSConn cn (S n) ws open) ->
      (ec = Aborted -> open = false) ->
      Connection.OnRead can_alloc date cn ec data = Ret r ->
      sstep s (run_calls s c (mkSConn cn n ws open) r)
  (** An exception of the parser leaves [io_context_.run()]. *)
  | s_read_throws s c cn n ws open ec data e :
      crashed_ s = false -> closing_ s = false -> conns s !! c = Some (mkSConn cn (S n) ws open) ->
      Connection.OnRead can_alloc date cn ec data = Throw e ->
      sstep s (crash s)
  (** A write in flight completes, whichever it is. *)
  | s_write s c cn n ws payload ws' open ec :
      crashed_ s = false -> closing_ s = false ->
      conns s !! c = Some (mkSConn cn n (ws ++ payload :: ws') open) ->
      (ec = Aborted -> open = false) ->
      sstep s (run_calls s c (mkSConn cn n (ws ++ ws') open) (Connection.OnWrite cn ec))
  (** A worker takes a connection, and answers it. *)
  | s_take s i c h :
      crashed_ s = false -> wstep (handler_ s) (Taken i c) h ->
      sstep s (set_handler s h)
  | s_done s i c sc h response :
      crashed_ s = false -> wstep (handler_ s) (Workers.Done i c) h -> conns s !! c = Some sc ->
      handle (request (conn sc)) = Ret response ->
      sstep s (run_calls (set_handler s h) c sc (Connection.SendResponse date (conn sc) response))
  (** An exception of a service ends the process. *)
  | s_done_throws s i c sc h e :
      crashed_ s = false -> wstep (handler_ s) (Workers.Done i c) h -> conns s !! c = Some sc ->
      handle (request (conn sc)) = Throw e ->
      sstep s (crash s)
  (** The stop signal: close the acceptor and call [Stop]. *)
  | s_signal s :
      crashed_ s = false -> closing_ s = false -> main_ (handler_ s) = Running ->
      sstep s (mkServer (conns s) (pool_ s) (set_main (handler_ s) StopCalled) false true
                 (crashed_ s))
  (** [Stop] and the workers go on. *)
  | s_tau s h :
      crashed_ s = false -> wstep (handler_ s) Tau h ->
      (main_ (handler_ s) = Running -> main_ h = Running) ->
      sstep s (set_handler s h)
  | s_drop s cs h :
      crashed_ s = false -> wstep (handler_ s) (Dropped cs) h ->
      sstep s (set_handler s h)
  (** [Stop] has returned: [pool_.CloseAll()]. *)
  | s_close_all s :
      crashed_ s = false -> closing_ s = true -> main_ (handler_ s) = Joined ->
      sstep s (CloseAll s)
  (** [DoAccept]: accepting failed, the next accept is started. *)
  | s_accept_fails s :
      crashed_ s = false -> closing_ s = false -> accepting_ s = true ->
      sstep s s.

Inductive sreach (workers : nat) : Server -> Prop :=
  | sr_run : sreach workers (Server_Run workers)
  | sr_step s s' : sreach workers s -> sstep s s' -> sreach workers s'.
End Steps.

(** ** Invariant *)

(** How often a connection is in the queue, and how many workers handle it. *)
Definition occ (c : ConnId) (h : Handler) : nat :=
  length (List.filter (fun d => bool_decide (d = c)) (queued (queue_ h))).
Definition hnd (c : ConnId) (h : Handler) : nat :=
  count_workers (fun w => bool_decide (w = Handling c)) (workers_ h).
Definition one_if (P : Prop) `{Decision P} : nat := if bool_decide P then 1 else 0.
(** Everything that is under way for a connection. *)
Definition load (c : ConnId) (sc : SConn) (h : Handler) : nat :=
  reading sc + length (writing sc) + occ c h + hnd c h.

(** At most one thing is under way for a connection; the pool holds exactly the open
    connections; as long as no signal came, something is under way for each of
    these; behind the signal handler everything is closed. *)
Record SInv (workers : nat) (s : Server) : Prop := {
  si_handler : Inv workers (handler_ s);
  si_conn c sc : conns s !! c = Some sc ->
    load c sc (handler_ s) <= 1 /\
    (c ∈ pool_ s <-> is_open sc = true) /\
    (main_ (handler_ s) = Running -> is_open sc = true -> load c sc (handler_ s) = 1);
  si_none c : conns s !! c = None ->
    occ c (handler_ s) = 0 /\ hnd c (handler_ s) = 0 /\ c ∉ pool_ s;
  si_running : main_ (handler_ s) = Running -> closing_ s = false;
  si_accepting : main_ (handler_ s) <> Running -> accepting_ s = false;
  si_stopped : closing_ s = false -> main_ (handler_ s) <> Running ->
    main_ (handler_ s) = Joined /\ pool_ s = ∅
}.

Lemma one_if_true P `{Decision P} : P -> one_if P = 1.
Proof. intros. unfold one_if. by rewrite bool_decide_true. Qed.
Lemma one_if_false P `{Decision P} : ~ P -> one_if P = 0.
Proof. intros. unfold one_if. by rewrite bool_decide_false. Qed.

Lemma queued_Push q c : queued (Queue.Push q (Some c)) = queued q ++ [c].
Proof. apply queued_app. Qed.
Lemma occ_Enqueue c d h : occ d (Enqueue h c) = occ d h + one_if (c = d).
Proof.
  unfold occ, Enqueue, one_if. cbn [queue_]. rewrite queued_Push, List.filter_app, length_app.
  cbn [List.filter]. f_equal. by case_bool_decide.
Qed.
Lemma hnd_insert c h i w w' ws :
  workers_ h = ws -> ws !! i = Some w ->
  count_workers (fun w => bool_decide (w = Handling c)) (<[i := w']> ws) + one_if (w = Handling c) =
  hnd c h + one_if (w' = Handling c).
Proof.
  intros <- Hi. unfold hnd, one_if.
  exact (count_insert (fun w => bool_decide (w = Handling c)) _ _ _ w' Hi).
Qed.

(** *** What the calls do *)

(** The calls a completion handler or a worker makes. *)
Inductive calls : list Action -> Prop :=
  | calls_none : calls []
  | calls_read : calls [AsyncRead]
  | calls_write w : calls [AsyncWrite w]
  | calls_enqueue : calls [EnqueueSelf]
  | calls_close : calls [PoolClose]
  | calls_shutdown : calls [SocketShutdown; PoolClose].

Definition conn_after (sc : SConn) (l : list Action) : SConn :=
  match l with
  | [AsyncRead] => mkSConn (conn sc) (S (reading sc)) (writing sc) (is_open sc)
  | [AsyncWrite b] => mkSConn (conn sc) (reading sc) (writing sc ++ [b]) (is_open sc)
  | [PoolClose] | [SocketShutdown; PoolClose] => close_socket sc
  | _ => sc
  end.
Definition pool_after (pool : gset ConnId) (c : ConnId) (l : list Action) : gset ConnId :=
  match l with [PoolClose] | [SocketShutdown; PoolClose] => pool ∖ {[c]} | _ => pool end.
Definition handler_after (h : Handler) (c : ConnId) (l : list Action) : Handler :=
  match l with [EnqueueSelf] => Enqueue h c | _ => h end.
Lemma run_calls_eq s c sc cn l : calls l ->
  run_calls s c sc (cn, l) =
  mkServer (<[c := conn_after (set_state sc cn) l]> (conns s)) (pool_after (pool_ s) c l)
    (handler_after (handler_ s) c l) (accepting_ s) (closing_ s) (crashed_ s).
Proof.
  intros Hl. unfold run_calls, pool_after, handler_after. cbn [fst snd].
  destruct Hl; cbn [foldl];
    unfold act, use_pool, socket_call, set_pool, set_handler; cbn [Pool.Close fst snd foldl];
    unfold pool_call; cbn [conns set_conn Connection.Close fst snd foldl];
    unfold socket_call;
    repeat (cbn [conns set_conn Connection.Close fst snd foldl]; rewrite lookup_insert_eq);
    unfold set_conn; cbn; by rewrite ?insert_insert_eq.
Qed.
(** The pool starts a new connection as a completion handler would go on with one. *)
Lemma accept_eq s c : conns s !! c = None ->
  use_pool (set_conn s c new_conn) (Pool.Start (pool_ s) c) =
  run_calls (set_pool s ({[c]} ∪ pool_ s)) c new_conn (Connection.Start Connection.make).
Proof.
  intros Hc. unfold Connection.Start at 1, Connection.DoRead.
  rewrite run_calls_eq by constructor. unfold use_pool, pool_after, handler_after.
  cbn [Pool.Start fst snd foldl].
  unfold pool_call. cbn [conns set_pool set_conn]. rewrite lookup_insert_eq.
  unfold Connection.Start, Connection.DoRead. cbn [fst snd foldl]. unfold socket_call.
  cbn [conns set_conn]. rewrite lookup_insert_eq. unfold set_conn. cbn.
  by rewrite !insert_insert_eq.
Qed.
(** The pool closes the connections of a list. *)
Lemma close_calls l s :
  foldl pool_call s (map CallClose l) =
  mkServer (map_imap (fun c sc => Some (if decide (c ∈ l) then close_socket sc else sc)) (conns s))
    (pool_ s) (handler_ s) (accepting_ s) (closing_ s) (crashed_ s).
Proof.
  revert s. induction l as [|c l IH]; intros s.
  - destruct s as [m ?????]. cbn. f_equal. apply map_eq. intros d. rewrite map_lookup_imap.
    destruct (m !! d) as [sc|]; cbn; [|done]. by rewrite decide_False by apply not_elem_of_nil.
  - cbn [map foldl]. rewrite IH. unfold pool_call. destruct (conns s !! c) as [sc|] eqn:E.
    + cbn [Connection.Close fst snd foldl]. unfold socket_call. cbn [conns set_conn].
      rewrite lookup_insert_eq. unfold set_conn. cbn. f_equal. apply map_eq. intros d.
      rewrite insert_insert_eq, !map_lookup_imap. destruct (decide (d = c)) as [->|Hne].
      * rewrite lookup_insert_eq, E. cbn. rewrite (decide_True (P := c ∈ c :: l)) by set_solver.
        by case_decide.
      * rewrite lookup_insert_ne by done. destruct (conns s !! d); cbn; [|done].
        f_equal. apply decide_ext. set_solver.
    + f_equal. apply map_eq. intros d. rewrite !map_lookup_imap.
      destruct (conns s !! d) eqn:E'; cbn; [|done]. f_equal. apply decide_ext. set_solver.
Qed.

(** *** What keeps the invariant *)

(** A connection [c] is changed, and of the rest of the server only what concerns it. *)
Lemma SInv_at n s c sc h pool :
  SInv n s -> Inv n h -> main_ h = main_ (handler_ s) ->
  (forall d, d <> c -> occ d h = occ d (handler_ s) /\ hnd d h = hnd d (handler_ s)) ->
  load c sc h <= 1 -> (main_ h = Running -> is_open sc = true -> load c sc h = 1) ->
  (forall d, d <> c -> d ∈ pool <-> d ∈ pool_ s) -> (c ∈ pool <-> is_open sc = true) ->
  (main_ h = Joined -> closing_ s = false -> is_open sc = false) ->
  SInv n (mkServer (<[c := sc]> (conns s)) pool h (accepting_ s) (closing_ s) (crashed_ s)).
Proof.
  intros I Ih Hm Hd Hl Hrun Hp Hpc Hj. split; cbn.
  - done.
  - intros d sc' H. destruct (decide (d = c)) as [->|Hne].
    + rewrite lookup_insert_eq in H. injection H as <-. by split_and!.
    + rewrite lookup_insert_ne in H by done. unfold load. destruct (Hd d Hne) as [-> ->].
      rewrite Hp, Hm by done. by apply I.
  - intros d H. destruct (decide (d = c)) as [->|Hne]; [by rewrite lookup_insert_eq in H|].
    rewrite lookup_insert_ne in H by done. destruct (Hd d Hne) as [-> ->].
    rewrite Hp by done. by apply I.
  - rewrite Hm. apply I.
  - rewrite Hm. apply I.
  - rewrite Hm. intros Hc Hr. destruct (si_stopped _ _ I Hc Hr) as (Hjo & He).
    split; [done|]. rewrite Hm in Hj.
    apply set_eq. intros d. split; [|by intros ?%elem_of_empty].
    destruct (decide (d = c)) as [->|Hne].
    + intros Hin. apply Hpc in Hin. by rewrite Hj in Hin.
    + by rewrite Hp, He by done.
Qed.

(** A connection for which nothing is under way makes its calls. *)
Lemma SInv_calls n s c sc cn l h pool :
  SInv n s -> calls l -> Inv n h -> main_ h = main_ (handler_ s) ->
  (forall d, d <> c -> occ d h = occ d (handler_ s) /\ hnd d h = hnd d (handler_ s)) ->
  load c sc h = 0 ->
  (main_ h = Running \/ main_ h = Joined \/ EnqueueSelf ∉ l) ->
  (forall d, d <> c -> d ∈ pool <-> d ∈ pool_ s) -> (c ∈ pool <-> is_open sc = true) ->
  (l = [] -> is_open sc = false) ->
  (main_ h = Joined -> closing_ s = false -> is_open sc = false) ->
  SInv n (run_calls (mkServer (conns s) pool h (accepting_ s) (closing_ s) (crashed_ s)) c sc (cn, l)).
Proof.
  intros I Hl Ih Hm Hd H0 Hen Hp Hpc Hnil Hj. rewrite run_calls_eq by done.
  cbn [conns pool_ handler_ accepting_ closing_ crashed_].
  unfold pool_after, handler_after, load in *.
  destruct Hl; cbn [conn_after pool_after handler_after];
    apply (SInv_at n s c); unfold load, set_state, close_socket; cbn [conn reading writing is_open length]; rewrite ?length_app; cbn [length];
    try done; try lia.
  - intros _ Ho. by rewrite Hnil in Ho.
  - eapply Inv_step; [exact Ih|]. apply w_enqueue. destruct Hen as [?|[?|He]]; [by left|by right|].
    by destruct He; apply list_elem_of_singleton.
  - intros d Hne. rewrite occ_Enqueue, one_if_false, Nat.add_0_r by done. by apply Hd.
  - rewrite occ_Enqueue, one_if_true by done. change (hnd c (Enqueue h c)) with (hnd c h). lia.
  - rewrite occ_Enqueue, one_if_true by done. change (hnd c (Enqueue h c)) with (hnd c h). lia.
  - intros d Hne. rewrite <-Hp by done. set_solver.
  - set_solver.
  - intros d Hne. rewrite <-Hp by done. set_solver.
  - set_solver.
Qed.

(** *** What the steps of the workers change *)
Lemma occ_cons c m q :
  length (List.filter (fun d => bool_decide (d = c)) (queued (m :: q))) =
  one_if (m = Some c) + length (List.filter (fun d => bool_decide (d = c)) (queued q)).
Proof.
  rewrite queued_cons. destruct m as [d|]; [|by rewrite one_if_false].
  cbn [app List.filter]. unfold one_if. by repeat case_bool_decide; simplify_eq.
Qed.

Lemma wstep_counts h l h' d :
  wstep h l h' ->
  match l with
  | Tau => occ d h' = occ d h /\ hnd d h' = hnd d h
  | Taken i c => occ d h' + one_if (c = d) = occ d h /\ hnd d h' = hnd d h + one_if (c = d) /\
      main_ h' = main_ h
  | Workers.Done i c => occ d h' = occ d h /\ hnd d h' + one_if (c = d) = hnd d h /\
      main_ h' = main_ h
  | Dropped _ => occ d h' = 0 /\ hnd d h' = hnd d h /\ main_ h = StopCalled /\ main_ h' = Cleared
  | Enqueued _ => True
  end.
Proof.
  intros Hs.
  destruct Hs as [h c Hm|h i c q Hi Hq|h i c Hi|h i q Hi Hq|h i Hi|h Hm|h Hm|h Hm|h Hm Hall];
    [done|..].
  - destruct (queue_ h) as [|m q'] eqn:E; [done|]. injection Hq as -> ->.
    pose proof (hnd_insert d h i Idle (Handling c) _ eq_refl Hi) as Hh.
    unfold occ, hnd in *. cbn [queue_ workers_ main_]. rewrite E, occ_cons.
    unfold one_if in *. rewrite (bool_decide_ext (Some c = Some d) (c = d)) by naive_solver.
    rewrite (bool_decide_ext (Handling c = Handling d) (c = d)) in Hh by naive_solver.
    rewrite (bool_decide_false (Idle = Handling d)) in Hh by done. split_and!; [lia|lia|done].
  - pose proof (hnd_insert d h i (Handling c) Idle _ eq_refl Hi) as Hh.
    unfold occ, hnd in *. cbn [queue_ workers_ main_ set_worker]. unfold one_if in *.
    rewrite (bool_decide_ext (Handling c = Handling d) (c = d)) in Hh by naive_solver.
    rewrite (bool_decide_false (Idle = Handling d)) in Hh by done. split_and!; [done|lia|done].
  - destruct (queue_ h) as [|m q'] eqn:E; [done|]. injection Hq as -> ->.
    pose proof (hnd_insert d h i Idle Stopping _ eq_refl Hi) as Hh.
    unfold occ, hnd in *. cbn [queue_ workers_ set_worker set_queue]. rewrite E, occ_cons.
    unfold one_if in *. by rewrite !bool_decide_false in * by done; lia.
  - pose proof (hnd_insert d h i Stopping Stopped _ eq_refl Hi) as Hh.
    unfold occ, hnd in *. cbn [queue_ workers_ set_worker set_queue].
    unfold Queue.Push. rewrite queued_app. cbn [queued omap list_omap id]. rewrite app_nil_r.
    unfold one_if in *. by rewrite !bool_decide_false in * by done; lia.
  - done.
  - by split_and!.
  - unfold occ, hnd. cbn [queue_ workers_ set_main set_queue]. unfold Queue.Push.
    rewrite queued_app. cbn [queued omap list_omap id]. by rewrite app_nil_r.
  - done.
Qed.

(** *** What the connections call *)
Lemma OnRead_calls can_alloc date c ec data r :
  Connection.OnRead can_alloc date c ec data = Ret r ->
  calls (snd r) /\ (snd r = [] -> ec = Aborted).
Proof.
  unfold Connection.OnRead. destruct ec; [|intros [= <-]; by split; [constructor|]..].
  intros ([p ok] & _ & H)%obind_Ret. assert (forall x y : Conn * list Action, Ret x = Ret y -> x = y)
    as Hinj by congruence. apply Hinj in H as <-.
  destruct ok; cbn [negb]; [destruct (finished_ p)|]; (split; [constructor|done]).
Qed.
Lemma OnWrite_calls c ec :
  calls (snd (Connection.OnWrite c ec)) /\ EnqueueSelf ∉ snd (Connection.OnWrite c ec) /\
  (snd (Connection.OnWrite c ec) = [] -> ec = Aborted).
Proof.
  destruct ec; cbn; [destruct (Msg.IsConnectionKeepAlive _); cbn|..];
    (split; [constructor|]; split; [decide_now|done]).
Qed.

(** While the main thread handles completions, no [Stop] is under way. *)
Lemma main_idle n s : SInv n s -> closing_ s = false ->
  main_ (handler_ s) = Running \/ main_ (handler_ s) = Joined.
Proof.
  intros I Hc. destruct (decide (main_ (handler_ s) = Running)) as [?|Hr]; [by left|].
  right. by apply (si_stopped _ _ I Hc Hr).
Qed.
Lemma closed_after_stop n s c sc : SInv n s -> conns s !! c = Some sc ->
  main_ (handler_ s) = Joined -> closing_ s = false -> is_open sc = false.
Proof.
  intros I Hc Hj Hcl. assert (main_ (handler_ s) <> Running) as Hr by congruence.
  destruct (si_stopped _ _ I Hcl Hr) as (_ & He).
  apply not_true_is_false. intros Ho. destruct (si_conn _ _ I c sc Hc) as (_ & Hp & _). apply Hp in Ho.
  rewrite He in Ho. set_solver.
Qed.

Lemma SInv_calls_conn n s c sc r :
  SInv n s -> (exists sc0, conns s !! c = Some sc0 /\ is_open sc = is_open sc0) -> calls (snd r) ->
  load c sc (handler_ s) = 0 ->
  (main_ (handler_ s) = Running \/ main_ (handler_ s) = Joined \/ EnqueueSelf ∉ snd r) ->
  (snd r = [] -> is_open sc = false) -> SInv n (run_calls s c sc r).
Proof.
  intros I (sc0 & Hc & Ho) Hl H0 He Hn. destruct r as [cn l].
  pose proof (SInv_calls n s c sc cn l (handler_ s) (pool_ s) I Hl) as H. destruct s as [m p h x y z].
  cbn in *. rewrite Ho in *. destruct (si_conn _ _ I c sc0 Hc) as (_ & Hp & _).
  apply H; try done; [apply I|]. intros. by apply (closed_after_stop n _ c _ I Hc).
Qed.

(** The steps of the workers and of [Stop] that take nothing from the connections. *)
Lemma SInv_set_handler n s h :
  SInv n s -> Inv n h -> main_ h = main_ (handler_ s) \/ (closing_ s = true /\ main_ h <> Running) ->
  (forall d, occ d h + hnd d h = occ d (handler_ s) + hnd d (handler_ s) \/
     main_ h <> Running /\ occ d h + hnd d h <= occ d (handler_ s) + hnd d (handler_ s)) ->
  (main_ (handler_ s) <> Running -> main_ h <> Running) ->
  SInv n (set_handler s h).
Proof.
  intros I Ih Hm Hd Hr. split; cbn; [done|..].
  - intros c sc Hc. unfold load. destruct (si_conn _ _ I c sc Hc) as (Hl & Hp & Hrun). unfold load in *.
    split_and!; [destruct (Hd c) as [|[_ ?]]; lia|done|]. intros Hh Ho.
    destruct Hm as [Hm|[_ ?]]; [|done]. rewrite Hm in Hh. specialize (Hrun Hh Ho).
    destruct (Hd c) as [|[? _]]; [lia|congruence].
  - intros c Hc. destruct (si_none _ _ I c Hc) as (? & ? & ?).
    destruct (Hd c) as [|[_ ?]]; split_and!; try done; lia.
  - intros Hrun. destruct Hm as [Hm|[_ ?]]; [|done]. apply I. congruence.
  - intros Hrun. apply I. intros Hrun'. destruct Hm as [Hm|[Hm _]]; [congruence|].
    apply I in Hrun'. congruence.
  - intros Hc Hrun. destruct Hm as [Hm|[? _]]; [|congruence]. rewrite Hm in *. by apply I.
Qed.

Lemma wstep_main h h' :
  wstep h Tau h' -> (main_ h = Running -> main_ h' = Running) ->
  main_ h' = main_ h \/ (main_ h <> Running /\ main_ h <> Joined /\ main_ h' <> Running).
Proof.
  intros Hs Hr. inversion Hs; subst; cbn in *; [by left|by left| |right..].
  - exfalso. match goal with H : main_ h = Running |- _ => by specialize (Hr H) end.
  - split_and!; congruence.
  - split_and!; congruence.
Qed.

(** *** The steps keep the invariant *)
Lemma SInv_accept n s c : SInv n s -> closing_ s = false -> accepting_ s = true -> conns s !! c = None ->
  SInv n (use_pool (set_conn s c new_conn) (Pool.Start (pool_ s) c)).
Proof.
  intros I Hcl Ha Hc. rewrite accept_eq by done. unfold Connection.Start at 1, Connection.DoRead.
  destruct (si_none _ _ I c Hc) as (Hq & Hh & Hp).
  apply (SInv_calls n s c); try done; [constructor|apply I|..].
  - unfold load. cbn. lia.
  - destruct (main_idle n s I Hcl); auto.
  - intros d Hd. set_solver.
  - cbn. set_solver.
  - intros Hj _. exfalso. assert (main_ (handler_ s) <> Running) as Hr by congruence.
    pose proof (si_accepting _ _ I Hr). congruence.
Qed.
(** A completion handler runs with its own operation no longer in flight. *)
Lemma SInv_completed n s c sc0 sc r :
  SInv n s -> closing_ s = false -> conns s !! c = Some sc0 -> is_open sc = is_open sc0 ->
  reading sc0 + length (writing sc0) = S (reading sc + length (writing sc)) ->
  calls (snd r) -> (snd r = [] -> is_open sc = false) -> SInv n (run_calls s c sc r).
Proof.
  intros I Hcl Hc Ho Hn Hl Hnil. destruct (si_conn _ _ I c sc0 Hc) as (H1 & _ & _). unfold load in *.
  apply SInv_calls_conn; auto; [by exists sc0|unfold load; lia|].
  destruct (main_idle n s I Hcl); auto.
Qed.
Lemma SInv_done date n s i c sc h response : SInv n s -> wstep (handler_ s) (Workers.Done i c) h ->
  conns s !! c = Some sc ->
  SInv n (run_calls (set_handler s h) c sc (Connection.SendResponse date (conn sc) response)).
Proof.
  intros I Hw Hc. pose proof (fun d => wstep_counts _ _ _ d Hw) as Hd. cbn in Hd.
  destruct (si_conn _ _ I c sc Hc) as (Hl & Hp & Hrun).
  destruct (Hd c) as (Hoc & Hhc & Hmain). rewrite one_if_true in Hhc by done.
  unfold Connection.SendResponse, Connection.DoWrite. cbn [response_].
  apply (SInv_calls n s c); try done; [constructor|by eapply Inv_step; [apply I|]|..].
  - intros d Hne. destruct (Hd d) as (? & ? & _). rewrite !one_if_false in * by done. lia.
  - unfold load in *. lia.
  - right; right. by intros ?%list_elem_of_singleton.
  - intros Hj Hcl. apply (closed_after_stop n s c); [done|done|congruence|done].
Qed.
(** The main thread. *)
Lemma SInv_signal n s : SInv n s -> main_ (handler_ s) = Running ->
  SInv n (mkServer (conns s) (pool_ s) (set_main (handler_ s) StopCalled) false true (crashed_ s)).
Proof.
  intros I Hm. assert (Inv n (set_main (handler_ s) StopCalled)) as Ih.
  { eapply Inv_step; [apply I|]. by apply w_stop. }
  destruct I as [I1 I2 I3 I4 I5 I6]. split; cbn; try done.
  intros c sc Hc. destruct (I2 c sc Hc) as (?&?&?). by split_and!.
Qed.
Lemma SInv_take n s i c h : SInv n s -> wstep (handler_ s) (Taken i c) h -> SInv n (set_handler s h).
Proof.
  intros I Hw. pose proof (fun d => wstep_counts _ _ _ d Hw) as Hd. cbn in Hd.
  destruct (Hd c) as (_ & _ & Hm).
  apply SInv_set_handler; [done|by eapply Inv_step; [apply I|]|by left| |by rewrite Hm].
  intros d. left. destruct (Hd d) as (? & ? & _). lia.
Qed.
Lemma SInv_tau n s h : SInv n s -> wstep (handler_ s) Tau h ->
  (main_ (handler_ s) = Running -> main_ h = Running) -> SInv n (set_handler s h).
Proof.
  intros I Hw Hm. pose proof (fun d => wstep_counts _ _ _ d Hw) as Hd. cbn in Hd.
  assert (forall d, occ d h + hnd d h = occ d (handler_ s) + hnd d (handler_ s) \/
     main_ h <> Running /\ occ d h + hnd d h <= occ d (handler_ s) + hnd d (handler_ s)) as Hsum.
  { intros d. left. by destruct (Hd d) as [-> ->]. }
  destruct (wstep_main _ _ Hw Hm) as [He|(H1 & H2 & H3)].
  - apply SInv_set_handler; auto; [by eapply Inv_step; [apply I|]|by rewrite He].
  - apply SInv_set_handler; auto; [by eapply Inv_step; [apply I|]|].
    right. split; [|done]. apply not_false_is_true. intros Hcl.
    by destruct (main_idle n s I Hcl).
Qed.
Lemma drop_closing n s cs h : SInv n s -> wstep (handler_ s) (Dropped cs) h -> closing_ s = true.
Proof.
  intros I Hw. destruct (wstep_counts _ _ _ 0 Hw) as (_ & _ & Hm & _).
  apply not_false_is_true. intros Hcl. destruct (main_idle n s I Hcl); congruence.
Qed.
Lemma SInv_drop n s cs h : SInv n s -> wstep (handler_ s) (Dropped cs) h -> SInv n (set_handler s h).
Proof.
  intros I Hw. pose proof (fun d => wstep_counts _ _ _ d Hw) as Hd. cbn in Hd.
  pose proof (drop_closing _ _ _ _ I Hw) as Hcl. destruct (Hd 0) as (_ & _ & _ & Hm).
  apply SInv_set_handler; [done|by eapply Inv_step; [apply I|]|right; split; congruence| |congruence].
  intros d. right. destruct (Hd d) as (? & ? & _). split; [congruence|lia].
Qed.
Lemma CloseAll_eq s :
  CloseAll s = mkServer
    (map_imap (fun c sc => Some (if decide (c ∈ pool_ s) then close_socket sc else sc)) (conns s))
    ∅ (handler_ s) (accepting_ s) false (crashed_ s).
Proof.
  unfold CloseAll, use_pool. cbn [Pool.CloseAll fst snd]. rewrite close_calls. cbn. f_equal.
  apply map_eq. intros c. rewrite !map_lookup_imap. destruct (conns s !! c); cbn; [|done].
  f_equal. apply decide_ext. by rewrite elem_of_elements.
Qed.
(** Every open connection is in the pool, so that all are closed. *)
Lemma CloseAll_closes n s c sc : SInv n s -> conns (CloseAll s) !! c = Some sc ->
  exists sc0, conns s !! c = Some sc0 /\ sc = close_socket sc0.
Proof.
  intros I. rewrite CloseAll_eq. cbn. rewrite map_lookup_imap.
  destruct (conns s !! c) as [sc0|] eqn:E; [|done]. cbn. intros [= <-]. exists sc0. split; [done|].
  case_decide as Hin; [done|]. destruct (si_conn _ _ I c sc0 E) as (_ & Hp & _).
  destruct sc0 as [cn r w []]; [|done]. destruct Hin. by apply Hp.
Qed.
Lemma SInv_close_all n s : SInv n s -> main_ (handler_ s) = Joined -> SInv n (CloseAll s).
Proof.
  intros I Hm. pose proof (fun c sc => CloseAll_closes n s c sc I) as Hcl.
  rewrite CloseAll_eq in *. cbn [conns] in Hcl. split; cbn; [apply I|..].
  - intros c sc Hc. destruct (Hcl c sc Hc) as (sc0 & E & ->).
    destruct (si_conn _ _ I c sc0 E) as (Hl & _ & _). unfold load in *. cbn. by split_and!.
  - intros c. rewrite map_lookup_imap. destruct (conns s !! c) eqn:E; [done|]. intros _.
    destruct (si_none _ _ I c E) as (?&?&?). by split_and!.
  - congruence.
  - apply I.
  - done.
Qed.

Section Preserved.
Context (can_alloc : N -> bool) (date : str) (handle : Request -> outcome Response).
Abbreviation step := (sstep can_alloc date handle).

Lemma SInv_step n s s' : SInv n s -> step s s' -> SInv n s'.
Proof.
  intros I Hs.
  destruct Hs as [s c _ Hcl Ha Hc|s c cn k ws open ec data r _ Hcl Hc Hab Hr|s c cn k ws open ec data e _ _ _ _
    |s c cn k ws b ws' open ec _ Hcl Hc Hab|s i c h _ Hw|s i c sc h response _ Hw Hc Hres
    |s i c sc h e _ _ _ _|s _ Hcl Hm|s h _ Hw Hm|s cs h _ Hw|s _ Hcl Hm|s _ _ _].
  - by apply SInv_accept.
  - destruct (OnRead_calls _ _ _ _ _ _ Hr) as [Hl Hn].
    by eapply SInv_completed; eauto.
  - destruct I. by split.
  - destruct (OnWrite_calls cn ec) as (Hl & He & Hn).
    eapply SInv_completed; eauto. cbn. rewrite !length_app. cbn. lia.
  - by eapply SInv_take.
  - by eapply SInv_done.
  - destruct I. by split.
  - by apply SInv_signal.
  - by apply SInv_tau.
  - by eapply SInv_drop.
  - by apply SInv_close_all.
  - exact I.
Qed.
End Preserved.

(** ** Correctness *)
Section Correct.
Context (can_alloc : N -> bool) (date : str) (handle : Request -> outcome Response).

Lemma SInv_run n : SInv n (Server_Run n).
Proof.
  split; cbn; try done; [apply Inv_start|].
  intros c _. split_and!; [done| |set_solver]. unfold hnd. cbn.
  induction n as [|n IH]; [done|]. exact IH.
Qed.
Lemma sreach_SInv n s : sreach can_alloc date handle n s -> SInv n s.
Proof. induction 1 as [|s s' _ IH Hs]; [apply SInv_run|by eapply SInv_step]. Qed.

Lemma count_two (f : Worker -> bool) ws i j w w' :
  i <> j -> ws !! i = Some w -> ws !! j = Some w' -> f w = true -> f w' = true ->
  2 <= count_workers f ws.
Proof.
  intros Hij Hi Hj Hw Hw'.
  pose proof (count_insert f ws i w Idle Hi) as H1.
  destruct (f Idle) eqn:Ef.
  - assert (forall l k x, l !! k = Some x -> f x = true -> 1 <= count_workers f l) as Hone.
    { induction l as [|y l IH]; intros [|k] x Hk Hx; cbn in Hk; try done; unfold count_workers; cbn.
      - injection Hk as ->. rewrite Hx. cbn. lia.
      - destruct (f y); cbn; [lia|]. by apply (IH k x). }
    clear H1. revert i j Hij Hi Hj. induction ws as [|y ws IH]; intros [|i] [|j] Hij Hi Hj;
      cbn in Hi, Hj; try done; unfold count_workers; cbn.
    + injection Hi as ->. rewrite Hw. cbn. pose proof (Hone ws j w' Hj Hw'). unfold count_workers in *. lia.
    + injection Hj as ->. rewrite Hw'. cbn. pose proof (Hone ws i w Hi Hw). unfold count_workers in *. lia.
    + specialize (IH i j ltac:(lia) Hi Hj). unfold count_workers in IH. destruct (f y); cbn; lia.
  - assert (<[i:=Idle]> ws !! j = Some w') as Hj' by (by rewrite list_lookup_insert_ne).
    pose proof (count_insert f _ j w' Idle Hj') as H2. rewrite Hw, Hw', Ef in *. lia.
Qed.

Lemma hnd_pos c h i : workers_ h !! i = Some (Handling c) -> 1 <= hnd c h.
Proof.
  intros Hi. pose proof (hnd_insert c h i _ Idle _ eq_refl Hi) as H.
  rewrite one_if_true, one_if_false in H by done. lia.
Qed.
Lemma occ_pos c h : c ∈ queued (queue_ h) -> 1 <= occ c h.
Proof.
  intros Hin. unfold occ. induction (queued (queue_ h)) as [|d l IH]; [by apply not_elem_of_nil in Hin|].
  cbn [List.filter]. case_bool_decide as Hd; [cbn; lia|].
  apply elem_of_cons in Hin as [->|Hin]; [done|by apply IH].
Qed.

(** C7: At any time at most one thing is under way for a connection: while a worker
    handles it, no other worker does, it is not in the queue, and no read or write of it
    is in flight, so the request is never parsed while a service looks at it; while it
    waits in the queue, it waits there once, and no read or write is in flight;
    and there is never more than one read or write. *)
Theorem connection_exclusive n s c sc :
  sreach can_alloc date handle n s -> conns s !! c = Some sc ->
  (forall i, workers_ (handler_ s) !! i = Some (Handling c) ->
     (forall j, workers_ (handler_ s) !! j = Some (Handling c) -> i = j) /\
     c ∉ queued (queue_ (handler_ s)) /\ reading sc = 0 /\ writing sc = []) /\
  (c ∈ queued (queue_ (handler_ s)) ->
     occ c (handler_ s) = 1 /\ reading sc = 0 /\ writing sc = []) /\
  reading sc + length (writing sc) <= 1.
Proof.
  intros I%sreach_SInv Hc. destruct (si_conn _ _ I c sc Hc) as (Hl & _). unfold load in Hl.
  split_and!.
  - intros i Hi. pose proof (hnd_pos _ _ _ Hi) as H1. split_and!.
    + intros j Hj. destruct (decide (i = j)) as [|Hne]; [done|].
      assert (bool_decide (Handling c = Handling c) = true) as Hf by by apply bool_decide_true.
      pose proof (count_two (fun w => bool_decide (w = Handling c)) _ i j _ _ Hne Hi Hj Hf Hf) as H2.
      fold (hnd c (handler_ s)) in H2. lia.
    + intros Hin%occ_pos. lia.
    + lia.
    + apply nil_length_inv. lia.
  - intros Hin%occ_pos. split_and!; [lia|lia|apply nil_length_inv; lia].
  - lia.
Qed.

(** C20: Connections do not leak: the pool holds exactly the connections whose socket is
    open; until the stop signal exactly one thing is under way for each of them, a
    read, a write, the wait in the queue or the handling by a worker, so that the server
    goes on with it; and behind the handler of the signal no socket is
    open, nothing is accepted any more and every worker has stopped. *)
Theorem no_connection_leaks n s :
  sreach can_alloc date handle n s ->
  (forall c, c ∈ pool_ s <-> exists sc, conns s !! c = Some sc /\ is_open sc = true) /\
  (main_ (handler_ s) = Running -> forall c sc, conns s !! c = Some sc -> is_open sc = true ->
     reading sc + length (writing sc) + occ c (handler_ s) + hnd c (handler_ s) = 1) /\
  (closing_ s = false -> main_ (handler_ s) <> Running ->
     (forall c sc, conns s !! c = Some sc -> is_open sc = false) /\
     accepting_ s = false /\ Forall (eq Stopped) (workers_ (handler_ s))).
Proof.
  intros I%sreach_SInv. split_and!.
  - intros c. split.
    + intros Hin. destruct (conns s !! c) as [sc|] eqn:E.
      * exists sc. split; [done|]. by apply (si_conn _ _ I c sc E).
      * by destruct (si_none _ _ I c E) as (_ & _ & ?).
    + intros (sc & Hc & Ho). by apply (si_conn _ _ I c sc Hc).
  - intros Hm c sc Hc. by apply (si_conn _ _ I c sc Hc).
  - intros Hcl Hr. destruct (si_stopped _ _ I Hcl Hr) as [Hj Hp].
    split_and!; [|by apply I|by apply (inv_joined _ _ (si_handler _ _ I))].
    intros c sc Hc. by eapply closed_after_stop.
Qed.
End Correct.

(** *** Witnesses: a client connects to a server with two workers *)
Definition one_client : Server :=
  use_pool (set_conn (Server_Run 2) 5 new_conn) (Pool.Start ∅ 5).
Lemma one_client_reached can_alloc date handle : sreach can_alloc date handle 2 one_client.
Proof. eapply sr_step; [apply sr_run|]. by apply (s_accept _ _ _ (Server_Run 2) 5). Qed.

Example connection_exclusive_witness :
  exists sc, conns one_client !! 5 = Some sc /\ reading sc = 1 /\ reading sc + length (writing sc) <= 1.
Proof.
  eexists. split; [vm_compute; reflexivity|]. split; [reflexivity|].
  apply (connection_exclusive (fun _ => true) [] (fun _ => Throw LengthError) 2 one_client 5 _
    (one_client_reached _ _ _) eq_refl).
Defined.
Example no_connection_leaks_witness :
  5 ∈ pool_ one_client <-> exists sc, conns one_client !! 5 = Some sc /\ is_open sc = true.
Proof.
  exact (proj1 (no_connection_leaks (fun _ => true) [] (fun _ => Throw LengthError) 2 one_client
    (one_client_reached _ _ _)) 5).
Defined.
