(* ===== verification/ServerSpec.v ===== *)
(** * The server as a set of sessions

    What the server promises its clients, without the queue, the worker threads,
    the connection pool and the event loop: every connection is a session that
    receives a request, answers it, and receives the next one or ends.  The
    refinement theorem says that [Server.sstep] does no more than that, under
    every interleaving; what holds of the sessions then holds of the server. *)
From Stdlib Require Import Ascii String.
From stdpp Require Import base tactics list gmap numbers option strings relations.
From S2P Require Import Prelude Globals Common Url Message Parser ParserLaws Connection Workers Server.

(** ** The specification *)

(** A session: receiving a request (with what the parser has), holding a complete
    request nobody has answered yet, sending the bytes of an answer, given up by
    the stop signal, or closed. *)
Abbreviation RequestParser := (Parser Request Multipart).
Inductive Session :=
  | Receiving (p : RequestParser)
  | Received (p : RequestParser)
  | Answering (p : RequestParser) (bytes : str)
  | GivenUp
  | Closed.

(** [up] until the stop signal; [failed] when an exception ended the process. *)
Record Sessions := mkSessions { sessions : gmap ConnId Session; up : bool; failed : bool }.
Definition set_session (s : Sessions) (c : ConnId) (x : Session) : Sessions :=
  mkSessions (<[c := x]> (sessions s)) (up s) (failed s).

Section Spec.
Context (can_alloc : N -> bool) (date : str) (handle : Request -> outcome Response).

(** The client asked to keep the connection, or did not say. *)
Definition kept (p : RequestParser) : bool := Msg.IsConnectionKeepAlive (req_message (message_ p)).
(** The bytes that answer the request of [p] with [response]: the connection
    header says whether the session goes on. *)
Definition answer_bytes (p : RequestParser) (response : Response) : str :=
  Msg.CopyPayload (resp_message (Resp.Prepare date
    (Resp.SetHeader response kConnection (if kept p then #"Keep-Alive" else #"Close")))).
Definition bad_request : Response := Resp.make (status_int kBadRequest).

(** What one session can do. *)
Inductive session_step : Session -> Session -> Prop :=
  (** Bytes arrive: the request is not complete yet, complete, or no request. *)
  | ss_more p p' data :
      Parse can_alloc p data = Ret (p', true) -> finished_ p' = false ->
      session_step (Receiving p) (Receiving p')
  | ss_request p p' data :
      Parse can_alloc p data = Ret (p', true) -> finished_ p' = true ->
      session_step (Receiving p) (Received p')
  | ss_bad p p' data :
      Parse can_alloc p data = Ret (p', false) ->
      session_step (Receiving p) (Answering p' (answer_bytes p' bad_request))
  (** The request is answered by the services. *)
  | ss_answer p response :
      handle (message_ p) = Ret response ->
      session_step (Received p) (Answering p (answer_bytes p response))
  (** The answer is sent: on to the next request, or the end. *)
  | ss_next p bytes :
      kept p = true ->
      session_step (Answering p bytes) (Receiving (ReqParser.Init p Req.new))
  | ss_end p bytes :
      kept p = false -> session_step (Answering p bytes) Closed
  (** The network fails. *)
  | ss_read_fails p : session_step (Receiving p) Closed
  | ss_write_fails p bytes : session_step (Answering p bytes) Closed.

(** What the server does: a session begins, a session goes on, an exception
    ends the process, the stop signal comes, requests that wait are given up,
    and all sessions are closed.  Behind the signal a read that completed before
    its socket was closed can still throw. *)
Inductive spec_step : Sessions -> Sessions -> Prop :=
  | sp_accept s c :
      failed s = false -> up s = true -> sessions s !! c = None ->
      spec_step s (set_session s c (Receiving (ReqParser.Init (ReqParser.make Req.new) Req.new)))
  | sp_session s c x y :
      failed s = false -> sessions s !! c = Some x -> session_step x y ->
      spec_step s (set_session s c y)
  | sp_read_throws s c p data e :
      failed s = false -> sessions s !! c = Some (Receiving p) \/
        (up s = false /\ sessions s !! c = Some Closed) -> Parse can_alloc p data = Throw e ->
      spec_step s (mkSessions (sessions s) (up s) true)
  | sp_service_throws s c p e :
      failed s = false -> sessions s !! c = Some (Received p) -> handle (message_ p) = Throw e ->
      spec_step s (mkSessions (sessions s) (up s) true)
  | sp_signal s :
      failed s = false -> up s = true -> spec_step s (mkSessions (sessions s) false (failed s))
  | sp_give_up s m :
      failed s = false -> up s = false ->
      map_relation (fun _ x y => y = x \/ (y = GivenUp /\ exists p, x = Received p))
        (fun _ _ => False) (fun _ _ => False) (sessions s) m ->
      spec_step s (mkSessions m (up s) (failed s))
  | sp_close_all s :
      failed s = false -> up s = false ->
      spec_step s (mkSessions ((fun _ => Closed) <$> sessions s) (up s) (failed s)).

Definition spec_init : Sessions := mkSessions ∅ true false.

(** *** What follows for the sessions alone *)

(** Whatever is being sent is the answer of the services to the request that this
    session received, or the rejection of bytes that are no request. *)
Definition answers_own_request (x : Session) : Prop :=
  match x with
  | Answering p bytes =>
      (exists response, handle (message_ p) = Ret response /\ bytes = answer_bytes p response) \/
      bytes = answer_bytes p bad_request
  | _ => True
  end.
Lemma session_step_answers x y : session_step x y -> answers_own_request y.
Proof. destruct 1; cbn; eauto. Qed.
Lemma spec_step_answers s s' :
  map_Forall (fun _ => answers_own_request) (sessions s) -> spec_step s s' ->
  map_Forall (fun _ => answers_own_request) (sessions s').
Proof.
  intros H. destruct 1; cbn in *; try done.
  - by apply map_Forall_insert_2.
  - apply map_Forall_insert_2; [by eapply session_step_answers|done].
  - intros c y Hc. match goal with H : map_relation _ _ _ _ _ |- _ => specialize (H c) end.
    rewrite Hc in *. cbn in *. destruct (sessions s !! c) as [x|] eqn:E; [|done]. cbn in *.
    match goal with H : y = x \/ _ |- _ => destruct H as [->|[-> _]] end; [by eapply H|done].
  - intros c y. rewrite lookup_fmap. destruct (sessions s !! c); [|done]. by intros [= <-].
Qed.
End Spec.

(** ** The refinement *)

(** The session of a connection: the requests in the queue and in the hands of a
    worker are received ones, the answer is what the write in flight was given, a closed
    socket is a closed session, and an open one for which nothing is under way is given up. *)
Definition session (h : Handler) (c : ConnId) (sc : SConn) : Session :=
  let p := request_parser_ (conn sc) in
  if negb (is_open sc) then Closed
  else if 0 <? occ c h + hnd c h then Received p
  else
    match writing sc, reading sc with
    | payload :: _, _ => Answering p payload
    | [], S _ => Receiving p
    | [], O => GivenUp
    end.
Definition sessions_of (s : Server) : Sessions :=
  mkSessions (map_imap (fun c sc => Some (session (handler_ s) c sc)) (conns s))
    (bool_decide (main_ (handler_ s) = Running)) (crashed_ s).

(** *** The calls of a connection, on the sessions *)
Lemma lookup_sessions s c :
  sessions (sessions_of s) !! c = session (handler_ s) c <$> conns s !! c.
Proof. cbn. rewrite map_lookup_imap. by destruct (conns s !! c). Qed.
Lemma lookup_session s c sc :
  conns s !! c = Some sc -> sessions (sessions_of s) !! c = Some (session (handler_ s) c sc).
Proof. intros H. by rewrite lookup_sessions, H. Qed.
Lemma session_unchanged s c sc :
  conns s !! c = Some sc -> set_session (sessions_of s) c (session (handler_ s) c sc) = sessions_of s.
Proof.
  intros H. unfold set_session. rewrite insert_id by by apply lookup_session.
  by destruct (sessions_of s).
Qed.
(** Two handlers hold the same of all connections but [c]. *)
Definition same_but (c : ConnId) (h h' : Handler) : Prop :=
  main_ h' = main_ h /\ forall d, d <> c -> occ d h' = occ d h /\ hnd d h' = hnd d h.
Lemma same_but_refl c h : same_but c h h.
Proof. done. Qed.
Lemma same_but_done c h i h' : wstep h (Workers.Done i c) h' -> same_but c h h'.
Proof.
  intros Hw. split; [by destruct (wstep_counts _ _ _ 0 Hw) as (_ & _ & ?)|]. intros d Hd.
  destruct (wstep_counts _ _ _ d Hw) as (? & ? & _). rewrite one_if_false in * by done. lia.
Qed.
Lemma sessions_of_at s c sc h pool :
  same_but c (handler_ s) h ->
  sessions_of (mkServer (<[c := sc]> (conns s)) pool h (accepting_ s) (closing_ s) (crashed_ s)) =
  set_session (sessions_of s) c (session h c sc).
Proof.
  intros [Hm Hd]. unfold sessions_of, set_session. cbn. rewrite Hm. f_equal. apply map_eq. intros d.
  rewrite map_lookup_imap. destruct (decide (d = c)) as [->|Hne]; [by rewrite !lookup_insert_eq|].
  rewrite !lookup_insert_ne, map_lookup_imap by done. destruct (conns s !! d); cbn; [|done].
  unfold session. by destruct (Hd d Hne) as [-> ->].
Qed.

(** The session of a connection that makes its calls while nothing else is under way. *)
Definition session_after (cn : Conn) (open : bool) (l : list Action) : Session :=
  let p := request_parser_ cn in
  if open then
    match l with
    | [AsyncRead] => Receiving p
    | [AsyncWrite payload] => Answering p payload
    | [EnqueueSelf] => Received p
    | [PoolClose] | [SocketShutdown; PoolClose] => Closed
    | _ => GivenUp
    end
  else Closed.
Lemma run_calls_sessions s c sc cn l h pool :
  calls l -> load c sc h = 0 -> same_but c (handler_ s) h ->
  sessions_of (run_calls
    (mkServer (conns s) pool h (accepting_ s) (closing_ s) (crashed_ s)) c sc (cn, l)) =
  set_session (sessions_of s) c (session_after cn (is_open sc) l).
Proof.
  intros Hl H0 [Hm Hd]. rewrite run_calls_eq by done.
  cbn [set_handler conns pool_ handler_ accepting_ closing_ crashed_].
  rewrite (sessions_of_at s c); cycle 1.
  { destruct Hl; cbn [handler_after]; try (by split). split; [done|]. intros d Hne.
    rewrite occ_Enqueue, one_if_false, Nat.add_0_r by done. by apply Hd. }
  f_equal. unfold load in H0. destruct sc as [cn0 r w o]. cbn [reading writing is_open] in *.
  assert (r = 0 /\ w = [] /\ occ c h = 0 /\ hnd c h = 0) as (-> & -> & Ho & Hh).
  { destruct w; cbn [length] in H0; [split_and!; first [done | lia]|lia]. }
  unfold session, session_after.
  destruct Hl; cbn [handler_after conn_after set_state close_socket conn reading writing is_open app];
    try (rewrite Ho, Hh; by destruct o).
  rewrite occ_Enqueue, one_if_true, Ho by done. by destruct o.
Qed.

Section Refinement.
Context (can_alloc : N -> bool) (date : str) (handle : Request -> outcome Response).
Abbreviation step := (sstep can_alloc date handle).
Abbreviation spec := (spec_step can_alloc date handle).
Abbreviation reach := (sreach can_alloc date handle).

(** A socket is closed only when nothing is under way for its connection, or when
    [Stop] has returned. *)
Definition closed_idle (s : Server) : Prop :=
  forall c sc, conns s !! c = Some sc -> is_open sc = false ->
    load c sc (handler_ s) = 0 \/ main_ (handler_ s) = Joined.
Lemma stays_joined n h l h' :
  Inv n h -> main_ h = Joined -> wstep h l h' -> main_ h' = Joined.
Proof.
  intros I Hm Hs. inversion Hs; subst; cbn; congruence.
Qed.
Lemma closed_idle_handler n s l h :
  SInv n s -> closed_idle s -> wstep (handler_ s) l h ->
  (forall d, occ d h + hnd d h <= occ d (handler_ s) + hnd d (handler_ s)) ->
  closed_idle (set_handler s h).
Proof.
  intros I H Hw Hle c sc Hc Ho. cbn in *. destruct (H c sc Hc Ho) as [H0|Hj].
  - left. specialize (Hle c). unfold load in *. lia.
  - right. by eapply (stays_joined n); [apply I|..].
Qed.
Lemma closed_idle_calls s c sc cn l h pool :
  closed_idle s -> calls l -> load c sc h = 0 -> same_but c (handler_ s) h ->
  (is_open sc = false -> main_ h = Joined) ->
  closed_idle (run_calls (mkServer (conns s) pool h (accepting_ s) (closing_ s) (crashed_ s)) c sc (cn, l)).
Proof.
  intros H Hl H0 [Hm Hd] Hj d sc'. rewrite run_calls_eq by done. cbn [conns handler_].
  destruct (decide (d = c)) as [->|Hne].
  - rewrite lookup_insert_eq. intros [= <-]. unfold load in *.
    destruct Hl; cbn; intros Ho; auto.
  - rewrite lookup_insert_ne by done. intros Hc Ho. destruct (H d sc' Hc Ho) as [Hz|Hz].
    + left. destruct (Hd d Hne). unfold load in *. destruct Hl; cbn [handler_after]; try lia.
      rewrite occ_Enqueue, one_if_false by done. change (hnd d (Enqueue h c)) with (hnd d h). lia.
    + right. rewrite <-Hm in Hz. by destruct Hl.
Qed.

(** What is under way for a connection whose read or write is in flight. *)
Lemma in_flight_load n s c sc0 sc :
  SInv n s -> conns s !! c = Some sc0 ->
  reading sc0 + length (writing sc0) = S (reading sc + length (writing sc)) ->
  load c sc (handler_ s) = 0 /\ occ c (handler_ s) + hnd c (handler_ s) = 0 /\
  load c sc0 (handler_ s) = 1.
Proof. intros I Hc Hn. destruct (si_conn _ _ I c sc0 Hc) as (H1 & _). unfold load in *. lia. Qed.
Lemma handled_load n s i c sc h :
  SInv n s -> closed_idle s -> wstep (handler_ s) (Workers.Done i c) h -> conns s !! c = Some sc ->
  load c sc h = 0 /\ 0 < hnd c (handler_ s) /\ is_open sc = true.
Proof.
  intros I H Hw Hc. destruct (wstep_counts _ _ _ c Hw) as (Ho & Hh & Hm).
  rewrite one_if_true in Hh by done. destruct (si_conn _ _ I c sc Hc) as (Hl & _). unfold load in *.
  split_and!; [lia|lia|]. apply not_false_is_true. intros Hop.
  destruct (H c sc Hc Hop) as [H0|Hj]; [unfold load in H0; lia|].
  inversion Hw; subst. by eapply (not_joined n); [apply I|eassumption|done|].
Qed.

Lemma closed_idle_step n s s' : SInv n s -> closed_idle s -> step s s' -> closed_idle s'.
Proof.
  intros I H Hs.
  destruct Hs as [s c _ Hcl Ha Hc|s c cn k ws open ec data [cn' l] _ Hcl Hc Hab Hr
    |s c cn k ws open ec data e _ _ _ _|s c cn k ws b ws' open ec _ Hcl Hc Hab|s i c h _ Hw
    |s i c sc h response _ Hw Hc Hres|s i c sc h e _ _ _ _|s _ Hcl Hm|s h _ Hw Hm|s cs h _ Hw
    |s _ Hcl Hm|s _ _ _].
  - rewrite accept_eq by done. unfold Connection.Start at 1, Connection.DoRead.
    destruct (si_none _ _ I c Hc) as (Hq & Hh & _).
    apply (closed_idle_calls s c); [done|constructor| |by apply same_but_refl|done].
    unfold load. cbn. lia.
  - apply OnRead_calls in Hr as [Hl _]. destruct s as [m p h x y z].
    destruct (in_flight_load _ _ _ _ (mkSConn cn k ws open) I Hc) as (H0 & _ & H1); [done|].
    apply (closed_idle_calls (mkServer m p h x y z)); auto using same_but_refl. cbn. intros Ho.
    destruct (H c _ Hc Ho); [congruence|done].
  - exact H.
  - destruct (OnWrite_calls cn ec) as [Hl _]. destruct s as [m p h x y z].
    destruct (Connection.OnWrite cn ec) as [cn' l].
    destruct (in_flight_load _ _ _ _ (mkSConn cn k (ws ++ ws') open) I Hc) as (H0 & _ & H1);
      [cbn; rewrite !length_app; cbn; lia|].
    apply (closed_idle_calls (mkServer m p h x y z)); auto using same_but_refl. cbn. intros Ho.
    destruct (H c _ Hc Ho); [congruence|done].
  - eapply closed_idle_handler; eauto. intros d. destruct (wstep_counts _ _ _ d Hw) as (? & ? & _). lia.
  - destruct (handled_load _ _ _ _ _ _ I H Hw Hc) as (H0 & _ & Ho).
    apply (closed_idle_calls s c); [done|apply calls_write|done|by eapply same_but_done|congruence].
  - exact H.
  - intros c sc Hc Ho. cbn in *. destruct (H c sc Hc Ho) as [|Hj]; [by left|congruence].
  - eapply closed_idle_handler; eauto. intros d. destruct (wstep_counts _ _ _ d Hw) as [-> ->]. done.
  - eapply closed_idle_handler; eauto. intros d. destruct (wstep_counts _ _ _ d Hw) as (? & ? & _). lia.
  - intros c sc _ _. right. by rewrite CloseAll_eq.
  - exact H.
Qed.

(** *** Each step of the server is one of the sessions, or none *)
Lemma accept_refines n s c :
  SInv n s -> crashed_ s = false -> accepting_ s = true -> conns s !! c = None ->
  spec (sessions_of s) (sessions_of (use_pool (set_conn s c new_conn) (Pool.Start (pool_ s) c))).
Proof.
  intros I Hcr Ha Hc. rewrite accept_eq by done. unfold Connection.Start at 1, Connection.DoRead.
  destruct (si_none _ _ I c Hc) as (Hq & Hh & _). unfold set_pool.
  rewrite (run_calls_sessions s); [|constructor|unfold load; cbn; lia|apply same_but_refl].
  apply (sp_accept _ _ _ (sessions_of s)).
  - done.
  - apply bool_decide_eq_true. destruct (decide (main_ (handler_ s) = Running)) as [|Hr]; [done|].
    apply (si_accepting _ _ I) in Hr. congruence.
  - by rewrite lookup_sessions, Hc.
Qed.
(** The handler of an operation that completes runs with nothing under way. *)
Lemma completed_refines n s c sc0 sc cn l :
  SInv n s -> crashed_ s = false -> conns s !! c = Some sc0 ->
  reading sc0 + length (writing sc0) = S (reading sc + length (writing sc)) ->
  is_open sc = is_open sc0 -> calls l ->
  (is_open sc0 = true ->
     session_step can_alloc date handle (session (handler_ s) c sc0) (session_after cn true l)) ->
  sessions_of (run_calls s c sc (cn, l)) = sessions_of s \/
  spec (sessions_of s) (sessions_of (run_calls s c sc (cn, l))).
Proof.
  intros I Hcr Hc Hn Ho Hl Hstep.
  destruct (in_flight_load _ _ _ _ sc I Hc Hn) as (H0 & _ & _).
  assert (sessions_of (run_calls s c sc (cn, l)) =
    set_session (sessions_of s) c (session_after cn (is_open sc) l)) as ->.
  { pose proof (run_calls_sessions s c sc cn l (handler_ s) (pool_ s) Hl H0 (same_but_refl _ _)) as H.
    by destruct s. }
  rewrite Ho. destruct (is_open sc0) eqn:E.
  - right. eapply sp_session; [done|by apply lookup_session|by apply Hstep].
  - left. rewrite <-(session_unchanged s c sc0) at 2 by done. unfold session. by rewrite E.
Qed.
Lemma reading_session n s c cn k ws : SInv n s -> conns s !! c = Some (mkSConn cn (S k) ws true) ->
  session (handler_ s) c (mkSConn cn (S k) ws true) = Receiving (request_parser_ cn).
Proof.
  intros I Hc. destruct (si_conn _ _ I c _ Hc) as (H1 & _). unfold load in H1. cbn in H1.
  unfold session. cbn. destruct ws; cbn in H1; [|lia].
  by replace (occ c (handler_ s) + hnd c (handler_ s)) with 0 by lia.
Qed.
Lemma writing_session n s c cn k ws b ws' : SInv n s ->
  conns s !! c = Some (mkSConn cn k (ws ++ b :: ws') true) ->
  session (handler_ s) c (mkSConn cn k (ws ++ b :: ws') true) = Answering (request_parser_ cn) b.
Proof.
  intros I Hc. destruct (si_conn _ _ I c _ Hc) as (H1 & _). unfold load in H1. cbn in H1.
  rewrite length_app in H1. cbn in H1. destruct ws; cbn in H1; [|lia].
  unfold session. cbn. by replace (occ c (handler_ s) + hnd c (handler_ s)) with 0 by lia.
Qed.
Lemma read_session_step cn data cn' l :
  Connection.OnRead can_alloc date cn Success data = Ret (cn', l) ->
  session_step can_alloc date handle (Receiving (request_parser_ cn)) (session_after cn' true l).
Proof.
  intros Hr. cbn in Hr. apply obind_Ret in Hr as ([p ok] & Hp & Hr).
  destruct ok; cbn in Hr; [destruct (finished_ p) eqn:Hf|]; injection Hr as <- <-; cbn.
  - by eapply ss_request.
  - by eapply ss_more.
  - by eapply ss_bad.
Qed.
Lemma write_session_step cn b :
  let r := Connection.OnWrite cn Success in
  session_step can_alloc date handle (Answering (request_parser_ cn) b) (session_after (fst r) true (snd r)).
Proof.
  cbn. destruct (Msg.IsConnectionKeepAlive (req_message (request cn))) eqn:Hk; cbn;
    [by apply ss_next|by apply ss_end].
Qed.

Lemma throw_refines n s c cn k ws open data e :
  SInv n s -> closed_idle s -> crashed_ s = false -> conns s !! c = Some (mkSConn cn (S k) ws open) ->
  Parse can_alloc (request_parser_ cn) data = Throw e ->
  spec (sessions_of s) (sessions_of (crash s)).
Proof.
  intros I H Hcr Hc Hp.
  apply (sp_read_throws _ _ _ (sessions_of s) c (request_parser_ cn) data e); [done| |done].
  rewrite (lookup_session _ _ _ Hc). destruct open; [left; by erewrite reading_session|].
  right. split; [|done]. apply bool_decide_eq_false.
  destruct (H c _ Hc eq_refl) as [H0|]; [unfold load in H0; cbn in H0; lia|congruence].
Qed.
(** What the workers do to the queue alone. *)
Lemma same_sums_sessions s h :
  (forall d, occ d h + hnd d h = occ d (handler_ s) + hnd d (handler_ s)) ->
  (main_ h = Running <-> main_ (handler_ s) = Running) ->
  sessions_of (set_handler s h) = sessions_of s.
Proof.
  intros Hd Hm. unfold sessions_of. cbn. rewrite (bool_decide_ext _ _ Hm). f_equal.
  apply map_eq. intros c. rewrite !map_lookup_imap. destruct (conns s !! c); cbn; [|done].
  unfold session. by rewrite Hd.
Qed.
Lemma drop_refines n s cs h :
  SInv n s -> crashed_ s = false -> wstep (handler_ s) (Dropped cs) h ->
  spec (sessions_of s) (sessions_of (set_handler s h)).
Proof.
  intros I Hcr Hw. pose proof (fun d => wstep_counts _ _ _ d Hw) as Hd. cbn in Hd.
  destruct (Hd 0) as (_ & _ & Hm & Hm').
  replace (sessions_of (set_handler s h)) with
    (mkSessions (sessions (sessions_of (set_handler s h))) (up (sessions_of s)) (failed (sessions_of s)));
    [|unfold sessions_of; cbn; by rewrite Hm, Hm'].
  apply (sp_give_up _ _ _ (sessions_of s)); [done|by apply bool_decide_eq_false; rewrite Hm|].
  intros c. rewrite !lookup_sessions. cbn [set_handler conns handler_].
  destruct (conns s !! c) as [sc|] eqn:E; [|done]. cbn. destruct (Hd c) as (Hoc & Hhc & _).
  destruct (si_conn _ _ I c sc E) as (Hl & _). unfold load in Hl. unfold session.
  destruct (is_open sc); [cbn|by left]. rewrite Hoc, Hhc.
  destruct (occ c (handler_ s)) as [|k] eqn:Ek; [by left|]. right.
  assert (hnd c (handler_ s) = 0 /\ reading sc = 0 /\ length (writing sc) = 0) as (-> & -> & Hwr) by lia.
  apply nil_length_inv in Hwr. rewrite Hwr. cbn. split; [done|by eexists].
Qed.

(** The worker's answer, or its exception. *)
Lemma handled_session n s i c sc h : SInv n s -> closed_idle s -> wstep (handler_ s) (Workers.Done i c) h ->
  conns s !! c = Some sc -> session (handler_ s) c sc = Received (request_parser_ (conn sc)).
Proof.
  intros I H Hw Hc. destruct (handled_load _ _ _ _ _ _ I H Hw Hc) as (_ & Hh & Ho).
  unfold session. rewrite Ho. destruct (Nat.ltb_spec 0 (occ c (handler_ s) + hnd c (handler_ s))); [done|lia].
Qed.
Lemma answer_refines n s i c sc h response : SInv n s -> closed_idle s -> crashed_ s = false ->
  wstep (handler_ s) (Workers.Done i c) h -> conns s !! c = Some sc ->
  handle (request (conn sc)) = Ret response ->
  spec (sessions_of s)
    (sessions_of (run_calls (set_handler s h) c sc (Connection.SendResponse date (conn sc) response))).
Proof.
  intros I H Hcr Hw Hc Hres. destruct (handled_load _ _ _ _ _ _ I H Hw Hc) as (H0 & _ & Ho).
  unfold Connection.SendResponse, Connection.DoWrite. cbn [response_].
  unfold set_handler.
  rewrite (run_calls_sessions s); [|constructor|done|by eapply same_but_done].
  eapply sp_session; [done|by apply lookup_session|].
  rewrite (handled_session _ _ _ _ _ _ I H Hw Hc), Ho. by apply ss_answer.
Qed.
Lemma close_all_refines n s : SInv n s -> crashed_ s = false -> main_ (handler_ s) = Joined ->
  spec (sessions_of s) (sessions_of (CloseAll s)).
Proof.
  intros I Hcr Hm.
  assert (sessions_of (CloseAll s) = mkSessions ((fun _ => Closed) <$> sessions (sessions_of s))
    (up (sessions_of s)) (failed (sessions_of s))) as ->.
  { pose proof (fun c sc => CloseAll_closes n s c sc I) as Hcl. unfold sessions_of at 1.
    f_equal; [|by rewrite CloseAll_eq..]. apply map_eq. intros c.
    rewrite lookup_fmap, lookup_sessions, map_lookup_imap.
    destruct (conns (CloseAll s) !! c) as [sc|] eqn:E.
    - destruct (Hcl c sc E) as (sc0 & -> & ->). done.
    - rewrite CloseAll_eq in E. cbn in E. rewrite map_lookup_imap in E.
      by destruct (conns s !! c). }
  apply sp_close_all; [done|]. by apply bool_decide_eq_false; rewrite Hm.
Qed.

Lemma step_refines n s s' :
  SInv n s -> closed_idle s -> step s s' ->
  sessions_of s' = sessions_of s \/ spec (sessions_of s) (sessions_of s').
Proof.
  intros I H Hs.
  destruct Hs as [s c Hcr Hcl Ha Hc|s c cn k ws open ec data [cn' l] Hcr Hcl Hc Hab Hr
    |s c cn k ws open ec data e Hcr Hcl Hc Hr|s c cn k ws b ws' open ec Hcr Hcl Hc Hab|s i c h Hcr Hw
    |s i c sc h response Hcr Hw Hc Hres|s i c sc h e Hcr Hw Hc Hres|s Hcr Hcl Hm|s h Hcr Hw Hm
    |s cs h Hcr Hw|s Hcr Hcl Hm|s _ _ _].
  - right. by eapply accept_refines.
  - pose proof (OnRead_calls _ _ _ _ _ _ Hr) as [Hl _].
    eapply completed_refines; eauto. cbn. intros ->. rewrite (reading_session _ _ _ _ _ _ I Hc).
    destruct ec; [by eapply read_session_step|by specialize (Hab eq_refl)|].
    injection Hr as <- <-. apply ss_read_fails.
  - right. destruct ec; [|done..]. cbn in Hr.
    destruct (Parse can_alloc (request_parser_ cn) data) as [[]| |] eqn:E; try done.
    by eapply throw_refines.
  - destruct (OnWrite_calls cn ec) as [Hl _]. pose proof (write_session_step cn b) as Hw.
    assert (forall open', open = true -> open' = open -> session_step can_alloc date handle
      (session (handler_ s) c (mkSConn cn k (ws ++ b :: ws') open'))
      (session_after (fst (Connection.OnWrite cn ec)) true (snd (Connection.OnWrite cn ec)))) as Hstep.
    { intros open' -> ->. rewrite (writing_session _ _ _ _ _ _ _ _ I Hc).
      destruct ec; [exact Hw|by specialize (Hab eq_refl)|apply ss_write_fails]. }
    destruct (Connection.OnWrite cn ec) as [cn' l].
    eapply completed_refines; eauto. cbn. rewrite !length_app. cbn. lia.
  - left. pose proof (fun d => wstep_counts _ _ _ d Hw) as Hd. cbn in Hd.
    destruct (Hd c) as (_ & _ & Hm). apply same_sums_sessions; [|by rewrite Hm].
    intros d. destruct (Hd d) as (? & ? & _). lia.
  - right. by eapply answer_refines.
  - right. apply (sp_service_throws _ _ _ (sessions_of s) c (request_parser_ (conn sc)) e); [done| |exact Hres].
    rewrite (lookup_session _ _ _ Hc). by erewrite handled_session.
  - right. unfold sessions_of. cbn. rewrite Hm.
    by apply (sp_signal _ _ _ (mkSessions _ true (crashed_ s))).
  - left. apply same_sums_sessions; [intros d; by destruct (wstep_counts _ _ _ d Hw) as [-> ->]|].
    destruct (wstep_main _ _ Hw Hm) as [->|(? & _ & ?)]; done.
  - right. by eapply drop_refines.
  - right. by eapply close_all_refines.
  - by left.
Qed.
Lemma reach_idle n s : reach n s -> SInv n s /\ closed_idle s.
Proof.
  intros Hr. split; [by eapply sreach_SInv|].
  induction Hr as [|s s' Hr IH Hs]; [by intros c sc Hc|].
  eapply closed_idle_step; [by eapply sreach_SInv|done|done].
Qed.
Lemma reach_refines n s : reach n s -> rtc spec spec_init (sessions_of s).
Proof.
  induction 1 as [|s s' Hr IH Hs].
  - done.
  - destruct (reach_idle _ _ Hr) as [I Hi].
    destruct (step_refines _ _ _ I Hi Hs) as [->|Hsp]; [done|]. by eapply rtc_r.
Qed.

(** ** Correctness *)

(** C3: The server, with its event loop, queue, worker threads and pool, implements
    the sessions: it begins with none, and under every interleaving each of its
    steps is one step of the sessions or leaves them as they are.  So every state it
    reaches shows sessions that the specification allows. *)
Theorem server_refines_sessions n :
  sessions_of (Server_Run n) = spec_init /\
  (forall s s', reach n s -> step s s' ->
     sessions_of s' = sessions_of s \/ spec (sessions_of s) (sessions_of s')) /\
  (forall s, reach n s -> rtc spec spec_init (sessions_of s)).
Proof.
  split_and!.
  - done.
  - intros s s' Hr Hs. destruct (reach_idle _ _ Hr). by eapply step_refines.
  - apply reach_refines.
Qed.

(** C10: No client is sent the answer to another's request: the bytes that the write
    in flight of an open connection was given are those of the services' answer to the
    request that this connection holds, with the [Connection] header that fits this request, or
    the rejection of what was no request. *)
Theorem answers_match_requests n s c sc bytes :
  reach n s -> conns s !! c = Some sc -> is_open sc = true -> bytes ∈ writing sc ->
  let p := request_parser_ (conn sc) in
  (exists response, handle (message_ p) = Ret response /\ bytes = answer_bytes date p response) \/
  bytes = answer_bytes date p bad_request.
Proof.
  intros Hr Hc Ho Hb p.
  assert (map_Forall (fun _ => answers_own_request date handle) (sessions (sessions_of s))) as H.
  { assert (forall x y, rtc spec x y -> map_Forall (fun _ => answers_own_request date handle) (sessions x) ->
      map_Forall (fun _ => answers_own_request date handle) (sessions y)) as Hrtc.
    { induction 1; [done|]. eauto using spec_step_answers. }
    eapply Hrtc; [by eapply reach_refines|by apply map_Forall_empty]. }
  specialize (H c _ (lookup_session _ _ _ Hc)). destruct sc as [cn k ws o]. cbn in Ho, Hb. subst o.
  apply list_elem_of_split in Hb as (ws1 & ws2 & ->).
  destruct (reach_idle _ _ Hr) as [I _]. by rewrite (writing_session _ _ _ _ _ _ _ _ I Hc) in H.
Qed.
End Refinement.

(** *** Witness: a client of a server with two workers sends a request, which a
    worker takes and answers *)
Definition greeting : Request -> outcome Response := fun _ => Ret (Resp.make 200).
Definition conn_at (s : Server) (c : ConnId) : SConn :=
  default (close_socket new_conn) (conns s !! c).
(** The read in flight of a connection completes with [data]. *)
Definition reads (s : Server) (c : ConnId) (data : str) : Server :=
  let sc := conn_at s c in
  match Connection.OnRead (fun _ => true) [] (conn sc) Success data with
  | Ret r => run_calls s c (mkSConn (conn sc) (pred (reading sc)) (writing sc) (is_open sc)) r
  | _ => s
  end.
Definition simple_get : str := #"GET /images HTTP/1.1" ++ [CR; LF; CR; LF].
Definition asked : Server := reads one_client 5 simple_get.
Definition taken_by (s : Server) (i : nat) (c : ConnId) : Server :=
  let h := handler_ s in
  set_handler s (mkHandler (tail (queue_ h)) (<[i := Handling c]> (workers_ h)) (main_ h)
    (enqueued h) (Workers.taken h ++ [c]) (dropped h)).
Definition answered (s : Server) (i : nat) (c : ConnId) (response : Response) : Server :=
  run_calls (set_handler s (set_worker (handler_ s) i Idle)) c (conn_at s c)
    (Connection.SendResponse [] (conn (conn_at s c)) response).
Definition served : Server := answered (taken_by asked 0 5) 0 5 (Resp.make 200).
Lemma asked_reached : sreach (fun _ => true) [] greeting 2 asked.
Proof.
  eapply sr_step; [apply one_client_reached|]. unfold asked, reads.
  destruct (Connection.OnRead _ _ _ _ _) as [r| |] eqn:E; [|vm_compute in E; discriminate..].
  by apply (s_read _ _ _ one_client 5 (conn (conn_at one_client 5)) 0 [] true Success simple_get r).
Qed.
Lemma served_reached : sreach (fun _ => true) [] greeting 2 served.
Proof.
  assert (sreach (fun _ => true) [] greeting 2 (taken_by asked 0 5)) as Ht.
  { eapply sr_step; [exact asked_reached|].
    apply (s_take _ _ _ asked 0 5); [vm_compute; reflexivity|].
    by apply (w_take (handler_ asked) 0 5 []); vm_compute. }
  eapply sr_step; [exact Ht|].
  apply (s_done _ _ _ (taken_by asked 0 5) 0 5); [vm_compute; reflexivity| |vm_compute; reflexivity|done].
  by apply w_done; vm_compute.
Qed.
Example answers_match_requests_witness :
  exists sc bytes, conns served !! 5 = Some sc /\ writing sc = [bytes] /\
    let p := request_parser_ (conn sc) in
    (exists response, greeting (message_ p) = Ret response /\ bytes = answer_bytes [] p response) \/
    bytes = answer_bytes [] p bad_request.
Proof.
  eexists (conn_at served 5), _. split; [vm_compute; reflexivity|]. split; [vm_compute; reflexivity|].
  apply (answers_match_requests (fun _ => true) [] greeting 2 served 5 (conn_at served 5) _
    served_reached); [vm_compute; reflexivity..|]. apply list_elem_of_singleton. reflexivity.
Defined.
