(* ===== verification/ServerLive.v ===== *)
(** * Every request is answered

    Liveness of the server.  A run is an infinite sequence of states, each the
    next step of [Server.sstep] behind the one before.  It is fair when a worker
    that waits does not wait for ever beside a queue that is not empty, which is
    what the condition variable of [queue.h] provides, and when the services
    return, so that no worker handles a connection for ever.  In such a run every
    complete request is answered, until the stop signal comes. *)
From Stdlib Require Import Ascii String.
From stdpp Require Import base tactics list gmap numbers option strings relations.
From S2P Require Import Prelude Globals Common Url Message Parser ParserLaws Connection Workers Server ServerSpec.

Section Live.
Context (can_alloc : N -> bool) (date : str) (handle : Request -> outcome Response).
Abbreviation step := (sstep can_alloc date handle).
Abbreviation spec := (spec_step can_alloc date handle).
Abbreviation reach := (sreach can_alloc date handle).

(** ** Runs and fairness *)
Definition run_of (run : nat -> Server) : Prop := forall k, step (run k) (run (S k)).
(** A worker takes the connection at the front of the queue. *)
Definition takes (h h' : Handler) : Prop := exists i c, wstep h (Taken i c) h'.
Definition fair (run : nat -> Server) : Prop :=
  (forall k, exists m, takes (handler_ (run (k + m))) (handler_ (run (S (k + m)))) \/
     ~ exists h', takes (handler_ (run (k + m))) h') /\
  (forall k i c, workers_ (handler_ (run k)) !! i = Some (Handling c) ->
     exists m, workers_ (handler_ (run (k + m))) !! i <> Some (Handling c)).
(** The one write in flight of a connection was given these bytes, in answer to the request
    that its parser [p] holds. *)
Definition sending (c : ConnId) (p : RequestParser) (bytes : str) (s : Server) : Prop :=
  exists sc, conns s !! c = Some sc /\ is_open sc = true /\ request_parser_ (conn sc) = p /\
    writing sc = [bytes].
(** No stop signal. *)
Definition keeps_running (run : nat -> Server) : Prop :=
  forall k, main_ (handler_ (run k)) = Running.

(** ** What a step does to the queue and the workers before the signal *)
Inductive moved (h h' : Handler) : Prop :=
  | mv_keep : h' = h -> moved h h'
  | mv_enqueue c : h' = Enqueue h c -> moved h h'
  | mv_take i c : wstep h (Taken i c) h' -> moved h h'
  | mv_done i c : wstep h (Workers.Done i c) h' -> moved h h'.

Lemma handler_after_moved h c l : calls l -> moved h (handler_after h c l).
Proof. destruct 1; cbn; first [by apply mv_keep|by eapply mv_enqueue]. Qed.
Lemma run_calls_moved s c sc r : calls (snd r) -> moved (handler_ s) (handler_ (run_calls s c sc r)).
Proof.
  destruct r as [cn l]. cbn [snd]. intros Hl. rewrite run_calls_eq by done.
  by apply handler_after_moved.
Qed.

(** While the server runs no null connection is in the queue, and no worker has
    popped one. *)
Lemma running_workers n h i w :
  Inv n h -> main_ h = Running -> workers_ h !! i = Some w -> w = Idle \/ exists c, w = Handling c.
Proof.
  intros I Hm Hi. pose proof (inv_token _ _ I) as Ht. pose proof (inv_stopped _ _ I) as Hs.
  rewrite Hm in Ht, Hs. specialize (Hs eq_refl). cbn in Ht.
  assert (count_workers is_stopping (workers_ h) = 0) as H0 by lia.
  apply no_worker in Hs, H0. rewrite Forall_lookup in Hs, H0.
  specialize (Hs i w Hi). specialize (H0 i w Hi). destruct w; eauto; done.
Qed.
Lemma running_tau n h h' :
  Inv n h -> main_ h = Running -> main_ h' = Running -> ~ wstep h Tau h'.
Proof.
  intros I Hm Hm' Hs. inversion Hs as [| | |? i q Hi Hq|? i Hi|? _|?|? H|? H _]; subst; cbn in *.
  - pose proof (inv_token _ _ I) as Ht. rewrite Hm in Ht. cbn in Ht.
    destruct (queue_ h) as [|m q']; [done|]. injection Hq as -> ->. rewrite nulls_cons in Ht. lia.
  - by destruct (running_workers _ _ _ _ I Hm Hi) as [|[]].
  - done.
  - congruence.
  - congruence.
Qed.

Lemma step_moved n s s' :
  SInv n s -> main_ (handler_ s) = Running -> main_ (handler_ s') = Running -> step s s' ->
  moved (handler_ s) (handler_ s').
Proof.
  intros I Hm Hm' Hs. pose proof (si_handler _ _ I) as Ih.
  destruct Hs as [s c _ Hcl Ha Hc|s c cn k ws open ec data r _ Hcl Hc Hab Hr|s c cn k ws open ec data e _ _ _ _
    |s c cn k ws b ws' open ec _ Hcl Hc Hab|s i c h _ Hw|s i c sc h response _ Hw Hc Hres
    |s i c sc h e _ _ _ _|s _ Hcl _|s h _ Hw _|s cs h _ Hw|s _ Hcl Hj|s _ _ _].
  - rewrite accept_eq by done. apply (run_calls_moved (set_pool s _)). constructor.
  - apply run_calls_moved. by apply OnRead_calls in Hr as [].
  - by apply mv_keep.
  - apply run_calls_moved. by destruct (OnWrite_calls cn ec).
  - by eapply mv_take.
  - unfold Connection.SendResponse, Connection.DoWrite. cbn [response_].
    rewrite run_calls_eq by constructor. by eapply mv_done.
  - by apply mv_keep.
  - done.
  - cbn in Hm'. by destruct (running_tau _ _ _ Ih Hm Hm').
  - inversion Hw. congruence.
  - congruence.
  - by apply mv_keep.
Qed.

(** ** The queue and the workers along a fair run *)
Lemma taken_step h i c h' : wstep h (Taken i c) h' ->
  workers_ h !! i = Some Idle /\ workers_ h' = <[i := Handling c]> (workers_ h) /\
  queue_ h = Some c :: queue_ h'.
Proof.
  intros Hw. inversion Hw as [|? ? ? q Hi Hq| | | | | | |]; subst. cbn.
  destruct (queue_ h); [done|]. by injection Hq as -> ->.
Qed.
Lemma done_step h i c h' : wstep h (Workers.Done i c) h' ->
  workers_ h !! i = Some (Handling c) /\ workers_ h' = <[i := Idle]> (workers_ h) /\
  queue_ h' = queue_ h.
Proof. intros Hw. by inversion Hw; subst. Qed.
Section Run.
Context (n : nat) (run : nat -> Server).
Hypothesis workers_exist : 0 < n.
Hypothesis starts : reach n (run 0).
Hypothesis is_run : run_of run.
Hypothesis is_fair : fair run.
Hypothesis running : keeps_running run.
Abbreviation at_ k := (handler_ (run k)).
(** A worker takes a connection in step [k]. *)
Abbreviation taking k := (takes (at_ k) (at_ (S k))).

Lemma run_reach k : reach n (run k).
Proof. induction k as [|k IH]; [exact starts|]. by eapply sr_step; [exact IH|]. Qed.
Lemma run_inv k : SInv n (run k).
Proof. eapply sreach_SInv, run_reach. Qed.
Lemma run_moved k : moved (at_ k) (at_ (S k)).
Proof. apply (step_moved n); auto using run_inv. Qed.

(** What every step keeps in which no worker takes a connection, holds until one does. *)
Lemma until (R : nat -> Prop) k m :
  R k -> (forall j, R j -> taking j \/ R (S j)) ->
  R (k + m) \/ exists j, k <= j < k + m /\ taking j /\ R j.
Proof.
  intros Hk Hs. induction m as [|m [IH|(j & Hj & H)]].
  - left. by rewrite Nat.add_0_r.
  - destruct (Hs _ IH); [right; exists (k + m); split; [lia|done]|left].
    by rewrite Nat.add_succ_r.
  - right. exists j. split; [lia|done].
Qed.

(** The connections [pre] wait before [c]; a worker waits. *)
Definition waits pre (c : ConnId) (h : Handler) : Prop :=
  exists post, queue_ h = pre ++ Some c :: post.
Definition idle i (h : Handler) : Prop := workers_ h !! i = Some Idle.

Lemma waits_moved pre c j : waits pre c (at_ j) -> taking j \/ waits pre c (at_ (S j)).
Proof.
  intros [post Hq]. destruct (run_moved j) as [->|d ->|i d Hw|i d Hw].
  - right. by exists post.
  - right. exists (post ++ [Some d]). unfold Enqueue, Queue.Push. cbn. by rewrite Hq, <-app_assoc.
  - left. by exists i, d.
  - right. exists post. by destruct (done_step _ _ _ _ Hw) as (_ & _ & ->).
Qed.
Lemma idle_moved i j : idle i (at_ j) -> taking j \/ idle i (at_ (S j)).
Proof.
  unfold idle. intros Hi. destruct (run_moved j) as [->|d ->|i' d Hw|i' d Hw]; [by right|by right|..].
  - left. by exists i', d.
  - right. destruct (done_step _ _ _ _ Hw) as (Hi' & -> & _).
    rewrite list_lookup_insert_ne; [done|]. intros ->. congruence.
Qed.

(** An idle worker beside a connection: somebody takes one. *)
Lemma idle_takes pre c i k :
  waits pre c (at_ k) -> idle i (at_ k) -> exists j, k <= j /\ taking j /\ waits pre c (at_ j).
Proof.
  intros Hq Hi. destruct (proj1 is_fair k) as [m Hm].
  destruct (until (fun j => waits pre c (at_ j) /\ idle i (at_ j)) k m) as [[Hq' Hi']|(j & Hj & H & ? & _)].
  - done.
  - intros j [H1 H2]. destruct (waits_moved _ _ _ H1), (idle_moved _ _ H2); auto.
  - destruct Hm as [Hm|Hm]; [exists (k + m); split; [lia|done]|]. exfalso. apply Hm.
    destruct Hq' as [post Hq']. destruct pre as [|[d|] pre].
    + eexists _, i, c. by apply (w_take _ i c post); [|rewrite Hq'].
    + eexists _, i, d. by apply (w_take _ i d (pre ++ Some c :: post)); [|rewrite Hq'].
    + exfalso. pose proof (inv_token _ _ (si_handler _ _ (run_inv (k + m)))) as Ht.
      rewrite running, Hq' in Ht. cbn in Ht. discriminate.
  - exists j. split; [lia|done].
Qed.

(** A worker that handles a connection finishes. *)
Lemma handling_done i c k :
  workers_ (at_ k) !! i = Some (Handling c) ->
  exists j, k <= j /\ wstep (at_ j) (Workers.Done i c) (at_ (S j)).
Proof.
  intros Hi. destruct (proj2 is_fair k i c Hi) as [m Hm].
  assert (exists j, k <= j /\ workers_ (at_ j) !! i = Some (Handling c) /\
    workers_ (at_ (S j)) !! i <> Some (Handling c)) as (j & Hj & H & Hn).
  { revert k Hi Hm. induction m as [|m IH]; intros k Hi Hm; [by rewrite Nat.add_0_r in Hm|].
    destruct (decide (workers_ (at_ (S k)) !! i = Some (Handling c))) as [HS|HS]; [|by exists k].
    destruct (IH (S k) HS) as (j & ? & ?); [by rewrite Nat.add_succ_comm|]. exists j. split; [lia|done]. }
  exists j. split; [done|]. destruct (run_moved j) as [He|d He|i' d Hw|i' d Hw].
  - by rewrite He in Hn.
  - by rewrite He in Hn.
  - destruct (taken_step _ _ _ _ Hw) as (Hi' & He & _). rewrite He in Hn.
    rewrite list_lookup_insert_ne in Hn; [done|]. intros ->. congruence.
  - destruct (done_step _ _ _ _ Hw) as (Hi' & He & _). rewrite He in Hn.
    destruct (decide (i' = i)) as [->|Hne].
    + assert (d = c) as ->; [congruence|done].
    + by rewrite list_lookup_insert_ne in Hn.
Qed.

(** As long as a connection waits, somebody takes one. *)
Lemma waits_takes pre c k : waits pre c (at_ k) -> exists j, k <= j /\ taking j /\ waits pre c (at_ j).
Proof.
  intros Hq. pose proof (si_handler _ _ (run_inv k)) as I.
  destruct (lookup_lt_is_Some_2 (workers_ (at_ k)) 0) as [w Hw]; [by rewrite (inv_count _ _ I)|].
  destruct (running_workers _ _ _ _ I (running k) Hw) as [->|[d ->]]; [by eapply idle_takes|].
  destruct (handling_done _ _ _ Hw) as (j & Hj & Hd).
  replace j with (k + (j - k)) in * by lia.
  destruct (until (fun j => waits pre c (at_ j)) k (S (j - k)) Hq (waits_moved pre c))
    as [Hq'|(j' & ? & ?)].
  - destruct (idle_takes pre c 0 _ Hq') as (j' & ? & ?); [|exists j'; split; [lia|done]].
    rewrite Nat.add_succ_r. destruct (done_step _ _ _ _ Hd) as (Hi & He & _).
    unfold idle. rewrite He. apply list_lookup_insert_eq. by eapply lookup_lt_Some.
  - exists j'. split; [lia|done].
Qed.

(** A connection that waits is taken, after those before it. *)
Lemma waits_taken pre : forall c k, waits pre c (at_ k) ->
  exists i j, k <= j /\ wstep (at_ j) (Taken i c) (at_ (S j)).
Proof.
  induction pre as [|m pre IH]; intros c k Hq;
    destruct (waits_takes _ _ _ Hq) as (j & Hj & (i & d & Hw) & post & Hq').
  - exists i, j. split; [done|]. assert (d = c) as ->; [|done].
    destruct (taken_step _ _ _ _ Hw) as (_ & _ & Hp). rewrite Hq' in Hp. by injection Hp.
  - destruct (IH c (S j)) as (i' & j' & ? & ?); [|exists i', j'; split; [lia|done]].
    exists post. destruct (taken_step _ _ _ _ Hw) as (_ & _ & Hp). rewrite Hq' in Hp.
    by injection Hp as _ <-.
Qed.

(** A connection in the queue or in the hands of a worker is given back by a worker. *)
Lemma received_done c k :
  0 < occ c (at_ k) + hnd c (at_ k) ->
  exists i j, k <= j /\ wstep (at_ j) (Workers.Done i c) (at_ (S j)).
Proof.
  intros H0.
  assert (forall l j, workers_ (at_ l) !! j = Some (Handling c) -> k <= l ->
    exists i j, k <= j /\ wstep (at_ j) (Workers.Done i c) (at_ (S j))) as Hdone.
  { intros l i Hi Hl. destruct (handling_done _ _ _ Hi) as (j & ? & ?). exists i, j. split; [lia|done]. }
  destruct (decide (hnd c (at_ k) = 0)) as [Hh|Hh].
  - assert (Some c ∈ queue_ (at_ k)) as (pre & post & Hq)%list_elem_of_split.
    { apply dec_stable. intros Hn. assert (occ c (at_ k) <> 0) as Ho by lia. apply Ho.
      unfold occ. clear -Hn.
      induction (queue_ (at_ k)) as [|m q IH]; [done|]. apply not_elem_of_cons in Hn as [Hm Hn].
      rewrite occ_cons, one_if_false by done. by apply IH. }
    destruct (waits_taken pre c k) as (i & j & Hj & Hw); [by exists post|].
    apply (Hdone (S j) i); [|lia]. destruct (taken_step _ _ _ _ Hw) as (Hi & -> & _).
    apply list_lookup_insert_eq. by eapply lookup_lt_Some.
  - assert (Handling c ∈ workers_ (at_ k)) as [i Hi]%list_elem_of_lookup; [|by eapply Hdone].
    apply dec_stable. intros Hn. apply Hh. unfold hnd. clear -Hn.
    induction (workers_ (at_ k)) as [|w ws IH]; [done|]. apply not_elem_of_cons in Hn as [Hw Hn].
    unfold count_workers. cbn [List.filter]. rewrite bool_decide_false by done. by apply IH.
Qed.

(** ** The sessions along a fair run *)
Lemma received_load h c sc p : session h c sc = Received p -> 0 < occ c h + hnd c h.
Proof.
  unfold session. destruct (is_open sc); [cbn|done].
  destruct (occ c h + hnd c h); [|lia]. cbn. by destruct (writing sc), (reading sc).
Qed.
(** A request waits for its answer, or is answered. *)
Lemma received_step x y c p :
  spec x y -> up x = true -> sessions x !! c = Some (Received p) ->
  sessions y !! c = Some (Received p) \/
  exists response, handle (message_ p) = Ret response /\
    sessions y !! c = Some (Answering p (answer_bytes date p response)).
Proof.
  intros Hs Hup Hc. destruct Hs as [s d _ _ Hd|s d u v _ Hd Hs|s d q data e _ _ _|s d q e _ _ _
    |s _ _|s m _ Hd _|s _ Hd]; cbn in *; try (by left); try congruence.
  - left. rewrite lookup_insert_ne; [done|]. intros ->. congruence.
  - destruct (decide (d = c)) as [->|Hne]; [|left; by rewrite lookup_insert_ne].
    assert (u = Received p) as -> by congruence.
    right. inversion Hs; subst. eexists. split; [done|]. by rewrite lookup_insert_eq.
Qed.
Lemma run_received c p k :
  sessions (sessions_of (run k)) !! c = Some (Received p) ->
  sessions (sessions_of (run (S k))) !! c = Some (Received p) \/
  exists response, handle (message_ p) = Ret response /\
    sessions (sessions_of (run (S k))) !! c = Some (Answering p (answer_bytes date p response)).
Proof.
  intros Hc. destruct (reach_idle _ _ _ _ _ (run_reach k)) as [I Hi].
  destruct (step_refines _ _ _ _ _ _ I Hi (is_run k)) as [->|Hs]; [by left|].
  apply (received_step _ _ _ _ Hs); [|done]. by apply bool_decide_eq_true, running.
Qed.
(** A connection a worker has given back holds no request any more. *)
Lemma done_not_received i c p j :
  wstep (at_ j) (Workers.Done i c) (at_ (S j)) ->
  sessions (sessions_of (run (S j))) !! c <> Some (Received p).
Proof.
  intros Hw Hc. rewrite lookup_sessions in Hc.
  destruct (conns (run (S j)) !! c) as [sc'|] eqn:E'; [|done]. injection Hc as Hl%received_load.
  destruct (wstep_counts _ _ _ c Hw) as (Ho & Hh & _). rewrite one_if_true in Hh by done.
  destruct (conns (run j) !! c) as [sc|] eqn:E.
  - destruct (si_conn _ _ (run_inv j) c sc E) as (H1 & _). unfold load in H1. lia.
  - destruct (si_none _ _ (run_inv j) c E) as (? & ? & _). lia.
Qed.

(** An answering session is an open connection with one write in flight, of its bytes. *)
Lemma answering_conn c p bytes k :
  sessions (sessions_of (run k)) !! c = Some (Answering p bytes) -> sending c p bytes (run k).
Proof.
  rewrite lookup_sessions. destruct (conns (run k) !! c) as [[cn r ws o]|] eqn:E; [|done].
  cbn. intros [= H]. exists (mkSConn cn r ws o). split; [done|]. cbn.
  destruct (si_conn _ _ (run_inv k) c _ E) as (H1 & _). unfold load in H1. cbn in H1.
  unfold session in H. cbn in H. destruct o; [|done].
  destruct (_ + _); [|done]. destruct ws as [|b ws]; [by destruct r|].
  cbn in H1. destruct ws; cbn in H1; [|lia]. by simplify_eq/=.
Qed.
Lemma received_answered c p k :
  sessions (sessions_of (run k)) !! c = Some (Received p) ->
  exists k' response, k < k' /\ handle (message_ p) = Ret response /\
    sending c p (answer_bytes date p response) (run k').
Proof.
  intros Hc. enough (exists k' response, k < k' /\ handle (message_ p) = Ret response /\
    sessions (sessions_of (run k')) !! c = Some (Answering p (answer_bytes date p response)))
    as (k' & response & ? & ? & ?%answering_conn) by (by exists k', response).
  assert (0 < occ c (at_ k) + hnd c (at_ k)) as H0.
  { rewrite lookup_sessions in Hc. destruct (conns (run k) !! c); [|done].
    by injection Hc as ?%received_load. }
  destruct (received_done _ _ H0) as (i & j & Hj & Hw).
  assert (forall m, sessions (sessions_of (run (k + m))) !! c = Some (Received p) \/
    exists k' response, k < k' /\ handle (message_ p) = Ret response /\
      sessions (sessions_of (run k')) !! c = Some (Answering p (answer_bytes date p response))) as Hm.
  { induction m as [|m [IH|IH]]; [left; by rewrite Nat.add_0_r| |by right].
    rewrite Nat.add_succ_r. destruct (run_received _ _ _ IH) as [?|(r & ? & ?)]; [by left|right].
    exists (S (k + m)), r. split; [lia|done]. }
  destruct (Hm (S (j - k))) as [Hr|?]; [|done].
  replace (k + S (j - k)) with (S j) in Hr by lia. by apply (done_not_received i c p j) in Hr.
Qed.
End Run.

(** ** Correctness *)

(** C11: Every request is answered: on a server with a worker, in a fair run without
    the stop signal, a session that holds a complete request comes to a write in flight
    with the bytes of the answer that the services give to this very request, however many
    connections there are and whatever else they do. *)
Theorem requests_get_answered n run c p k :
  0 < n -> reach n (run 0) -> run_of run -> fair run -> keeps_running run ->
  sessions (sessions_of (run k)) !! c = Some (Received p) ->
  exists k' response, k < k' /\ handle (message_ p) = Ret response /\
    sending c p (answer_bytes date p response) (run k').
Proof. intros Hn Hr Hrun Hf Hk. by apply (received_answered n). Qed.
End Live.

(** *** Witness: the one request a server with two workers has received is taken and
    answered; then the server waits for clients, whose connections fail *)
Definition one_request (s : Server) (response : Response) (k : nat) : Server :=
  match k with
  | 0 => s
  | 1 => taken_by s 0 5
  | _ => answered (taken_by s 0 5) 0 5 response
  end.
(** The states of a server that received the request of its connection 5. *)
Definition one_received (s : Server) (sc : SConn) : Prop :=
  crashed_ s = false /\ closing_ s = false /\ accepting_ s = true /\ main_ (handler_ s) = Running /\
  queue_ (handler_ s) = [Some 5] /\ workers_ (handler_ s) = [Idle; Idle] /\ conns s !! 5 = Some sc.
Lemma one_request_conn s sc : one_received s sc ->
  conns (taken_by s 0 5) !! 5 = Some sc.
Proof. by intros (_ & _ & _ & _ & _ & _ & Hc). Qed.
Lemma one_request_end s sc response : one_received s sc ->
  let e := answered (taken_by s 0 5) 0 5 response in
  crashed_ e = false /\ closing_ e = false /\ accepting_ e = true /\ main_ (handler_ e) = Running /\
  queue_ (handler_ e) = [] /\ workers_ (handler_ e) = [Idle; Idle].
Proof.
  intros H. pose proof (one_request_conn s sc H) as Hc. destruct H as (? & ? & ? & ? & Hq & Hw & _).
  cbv zeta. unfold answered, conn_at. rewrite Hc. cbn [default].
  unfold Connection.SendResponse, Connection.DoWrite. cbn [response_].
  rewrite run_calls_eq by constructor. cbn. rewrite Hq, Hw. by split_and!.
Qed.
Lemma one_request_runs can_alloc handle s sc response :
  one_received s sc -> handle (request (conn sc)) = Ret response ->
  run_of can_alloc [] handle (one_request s response).
Proof.
  intros H Hres. pose proof (one_request_conn s sc H) as Hc.
  destruct (one_request_end s sc response H) as (? & ? & ? & _). destruct H as (? & _ & _ & _ & Hq & Hw & Hs).
  intros [|[|k]]; cbn [one_request].
  - unfold taken_by. apply (s_take _ _ _ s 0 5); [done|]. rewrite Hq. by apply (w_take (handler_ s) 0 5 []); [rewrite Hw|rewrite Hq].
  - unfold answered, conn_at. rewrite Hc. cbn [default].
    apply (s_done _ _ _ (taken_by s 0 5) 0 5 _ _ response); [done| |done|done].
    apply w_done. cbn. by rewrite Hw.
  - by apply s_accept_fails.
Qed.
Lemma one_request_fair s sc response : one_received s sc -> fair (one_request s response).
Proof.
  intros H. destruct (one_request_end s sc response H) as (_ & _ & _ & _ & Hq & Hw).
  assert (forall k, one_request s response (k + 2) = answered (taken_by s 0 5) 0 5 response) as He
    by (intros k; by rewrite Nat.add_comm).
  split.
  - intros k. exists 2. right. intros (h' & i & c & Ht%taken_step). rewrite He in Ht.
    destruct Ht as (_ & _ & Ht). by rewrite Hq in Ht.
  - intros k i c _. exists 2. rewrite He, Hw. by destruct i as [|[|]].
Qed.
Lemma one_request_keeps_running s sc response :
  one_received s sc -> keeps_running (one_request s response).
Proof.
  intros H. destruct (one_request_end s sc response H) as (_ & _ & _ & ? & _).
  destruct H as (_ & _ & _ & ? & _). by intros [|[|k]].
Qed.

Lemma asked_received : one_received asked (conn_at asked 5).
Proof. split_and!; vm_compute; reflexivity. Qed.
Example requests_get_answered_witness :
  exists p k' response, greeting (message_ p) = Ret response /\
    sending 5 p (answer_bytes [] p response) (one_request asked (Resp.make 200) k').
Proof.
  exists (request_parser_ (conn (conn_at asked 5))).
  destruct (requests_get_answered (fun _ => true) [] greeting 2 (one_request asked (Resp.make 200)) 5
    (request_parser_ (conn (conn_at asked 5))) 0 ltac:(lia) asked_reached
    (one_request_runs _ greeting _ _ _ asked_received eq_refl) (one_request_fair _ _ _ asked_received)
    (one_request_keeps_running _ _ _ asked_received)) as (k' & r & _ & H1 & H2).
  - vm_compute. reflexivity.
  - exists k', r. split; [exact H1|exact H2].
Defined.
