(* ===== verification/Client.v ===== *)
(** * The HTTP client

    Models [webcc/client.h], [client.cc], [client_pool.h], [client_pool.cc],
    [request_builder.h], [request_builder.cc], [client_session.h] and
    [client_session.cc].

    What the network does during one [Client::Request] is a parameter ([Net]):
    whether resolving, connecting and writing succeed, and the completions that
    [io_context_.run_one()] delivers while the response is read.  When they are
    used up and the response is not complete the call still blocks, which is the
    result [OutOfFuel]. *)
From Stdlib Require Import Ascii String Sorted.
From stdpp Require Import base tactics list sets numbers option strings.
From S2P Require Import Prelude Globals Base64 Common Url Message Parser ParserLaws ParserProps.

(** ** [class Client] *)
Record Client := mkClient {
  cl_response : Response;
  cl_parser : Parser Response unit;
  cl_ssl_verify : bool;
  cl_buffer_size : N;
  cl_timeout : Z;
  closed_ : bool;
  timer_canceled_ : bool;
  timed_out_ : bool;
  error_ : Error
}.

(** What [io_context_.run_one()] runs while a response is read: the handler of the read, with
    data or an error; the handler of the deadline timer when its time has come ([Expired],
    also when it was queued before the timer was cancelled); or that handler with
    [operation_aborted], or before its time because the timer was set anew
    ([TimerIdle]). *)
Inductive Completion := Received (data : str) | ReadFailed | Expired | TimerIdle.
#[global] Instance Completion_eq_dec : EqDecision Completion.
Proof. solve_decision. Defined.
Record Net := mkNet {
  resolve_ok : bool;
  connect_ok : bool;
  write_ok : bool;
  completions : list Completion
}.

Definition Response_new : Response := Resp.make (status_int kOK).

Module Client.
(** [response_] and the message of [response_parser_] are one object. *)
Definition make : Client :=
  mkClient Response_new (RespParser.make Response_new) true (N.of_nat kBufferSize) kMaxReadSeconds
    false false false kNoError.
Definition set_ssl_verify (c : Client) (v : bool) : Client :=
  mkClient (cl_response c) (cl_parser c) v (cl_buffer_size c) (cl_timeout c) (closed_ c)
    (timer_canceled_ c) (timed_out_ c) (error_ c).
Definition set_buffer_size (c : Client) (v : N) : Client :=
  if (0 <? v)%N then
    mkClient (cl_response c) (cl_parser c) (cl_ssl_verify c) v (cl_timeout c) (closed_ c)
      (timer_canceled_ c) (timed_out_ c) (error_ c)
  else c.
Definition set_timeout (c : Client) (v : Z) : Client :=
  if (0 <? v)%Z then
    mkClient (cl_response c) (cl_parser c) (cl_ssl_verify c) (cl_buffer_size c) v (closed_ c)
      (timer_canceled_ c) (timed_out_ c) (error_ c)
  else c.
Definition set_error (c : Client) (e : Error) : Client :=
  mkClient (cl_response c) (cl_parser c) (cl_ssl_verify c) (cl_buffer_size c) (cl_timeout c)
    (closed_ c) (timer_canceled_ c) (timed_out_ c) e.
Definition set_timed_out (c : Client) : Client :=
  mkClient (cl_response c) (cl_parser c) (cl_ssl_verify c) (cl_buffer_size c) (cl_timeout c)
    (closed_ c) (timer_canceled_ c) true (error_ c).
Definition set_parser (c : Client) (p : Parser Response unit) : Client :=
  mkClient (message_ p) p (cl_ssl_verify c) (cl_buffer_size c) (cl_timeout c)
    (closed_ c) (timer_canceled_ c) (timed_out_ c) (error_ c).

(** [Close]: nothing when it is closed already. *)
Definition Close (c : Client) : Client :=
  if closed_ c then c
  else mkClient (cl_response c) (cl_parser c) (cl_ssl_verify c) (cl_buffer_size c) (cl_timeout c)
         true (timer_canceled_ c) (timed_out_ c) (error_ c).
Definition CancelTimer (c : Client) : Client :=
  if timer_canceled_ c then c
  else mkClient (cl_response c) (cl_parser c) (cl_ssl_verify c) (cl_buffer_size c) (cl_timeout c)
         (closed_ c) true (timed_out_ c) (error_ c).

(** [OnTimer] when the deadline has passed: nothing on a closed client. *)
Definition OnTimer (c : Client) : Client :=
  if closed_ c then c else Close (set_timed_out c).

Section IO.
Context (can_alloc : N -> bool) (net : Net).

Definition DoConnect (c : Client) (request : Request) (default_port : str) : Client * Error :=
  if negb (resolve_ok net) then (c, kHostResolveError)
  else if negb (connect_ok net) then (Close c, kEndpointConnectError)
  else (c, kNoError).
(** [Connect], with the port the socket is connected to. *)
Definition Connect (c : Client) (request : Request) : Client * Error * str :=
  if seqb (scheme_ (url_ request)) #"https" then
    (DoConnect c request kPort443, Req.port request kPort443)
  else (DoConnect c request kPort80, Req.port request kPort80).
Definition WriteReqeust (c : Client) (request : Request) : Client * Error :=
  if negb (write_ok net) then (Close c, kSocketWriteError) else (c, kNoError).

(** [DoReadResponse]: the read handler starts the next read.  The timer that expires closes
  the socket, and the loop goes on to the completion of the read, which fails unless
  its data was there already.  The result of a handler that throws is the exception, and
  the client it leaves; what the parser had taken of the data is not kept, as the next request
  resets the parser. *)
Fixpoint DoReadResponse (c : Client) (cs : list Completion) : Client * outcome Error :=
  match cs with
  | [] => (c, OutOfFuel)
  | TimerIdle :: cs => DoReadResponse c cs
  | Expired :: cs => DoReadResponse (OnTimer c) cs
  | ReadFailed :: _ | Received [] :: _ => (Close (CancelTimer c), Ret kSocketReadError)
  | Received data :: cs =>
      let c := CancelTimer c in
      match Parse can_alloc (cl_parser c) data with
      | OutOfFuel => (c, OutOfFuel)
      | Throw e => (c, Throw e)
      | Ret (p, ok) =>
          let c := set_parser c p in
          if negb ok then (Close c, Ret kHttpError)
          else if finished_ p then
            (if Msg.IsConnectionKeepAlive (resp_message (cl_response c)) then c else Close c,
             Ret kNoError)
          else if negb (closed_ c) then DoReadResponse c cs
          else (c, Ret kNoError)
      end
  end.
Definition ReadResponse (c : Client) : Client * outcome Error :=
  DoReadResponse c (completions net).

(** [Request]: the client afterwards and the result. *)
Definition Request_ (c : Client) (request : Request) (connect : bool) : Client * outcome bool :=
  let c := mkClient Response_new (RespParser.Init (cl_parser c) Response_new) (cl_ssl_verify c)
             (cl_buffer_size c) (cl_timeout c) false false false kNoError in
  let '(c, e) := if connect then fst (Connect c request) else (c, kNoError) in
  if decide (e <> kNoError) then (set_error c e, Ret false)
  else
    let '(c, e) := WriteReqeust c request in
    if decide (e <> kNoError) then (set_error c e, Ret false)
    else
      match ReadResponse c with
      | (c, Ret e) => (set_error c e, Ret (bool_decide (e = kNoError)))
      | (c, Throw e) => (c, Throw e)
      | (c, OutOfFuel) => (c, OutOfFuel)
      end.
End IO.
End Client.

(** ** [class ClientPool] *)
Record Key := mkKey { k_scheme : str; k_host : str; k_port : str }.
#[global] Instance Key_eq_dec : EqDecision Key.
Proof. solve_decision. Defined.
Definition Key_make (u : Url) : Key := mkKey (scheme_ u) (host_ u) (port_ u).
Definition Key_eqb (a b : Key) : bool :=
  seqb (k_scheme a) (k_scheme b) && seqb (k_host a) (k_host b) && seqb (k_port a) (k_port b).

(** [Key::operator<], by which [std::map] orders the clients. *)
Definition Key_ltb (a b : Key) : bool :=
  if str_ltb (k_scheme a) (k_scheme b) then true
  else if str_ltb (k_host a) (k_host b) then true
  else if str_ltb (k_port a) (k_port b) then true
  else false.

(** The pool: [std::map] keeps its elements sorted by [<], looks for a key by [<] alone and
    takes two keys for the same when neither is less than the other.  The standard asks
    that [<] is a strict weak order; it is one on keys no two of which are each less than
    the other, and an operation with another key is undefined behaviour. *)
Module ClientPool.
Abbreviation Pool := (list (Key * Client)).
Definition comparable (p : Pool) (key : Key) : bool :=
  forallb (fun kc => negb (Key_ltb (fst kc) key && Key_ltb key (fst kc))) p.
Definition checked {A} (p : Pool) (key : Key) (a : A) : outcome A :=
  if comparable p key then Ret a else Throw UndefinedBehaviour.
Fixpoint find (p : Pool) (key : Key) : option Client :=
  match p with
  | [] => None
  | (k, c) :: p' =>
      if Key_ltb k key then find p' key else if Key_ltb key k then None else Some c
  end.
Fixpoint insert (p : Pool) (key : Key) (client : Client) : Pool :=
  match p with
  | [] => [(key, client)]
  | (k, c) :: p' =>
      if Key_ltb k key then (k, c) :: insert p' key client
      else if Key_ltb key k then (key, client) :: p else (k, client) :: p'
  end.
Fixpoint erase (p : Pool) (key : Key) : Pool :=
  match p with
  | [] => []
  | (k, c) :: p' =>
      if Key_ltb k key then (k, c) :: erase p' key else if Key_ltb key k then p else p'
  end.

Definition Get (p : Pool) (key : Key) : outcome (option Client) := checked p key (find p key).
Definition Remove (p : Pool) (key : Key) : outcome Pool := checked p key (erase p key).
(** [clients_[key] = client]. *)
Definition Add (p : Pool) (key : Key) (client : Client) : outcome Pool :=
  checked p key (insert p key client).
(** The destructor closes every client. *)
Definition destroy (p : Pool) : list Client := map (fun kc => Client.Close (snd kc)) p.
End ClientPool.

(** ** [class RequestBuilder] *)
Record Builder := mkBuilder {
  b_method : str;
  b_url : str;
  b_parameters : list str;
  b_data : str;
  b_json : bool;
  b_form_parts : list FormPart;
  b_gzip : bool;
  b_headers : list str;
  b_keep_alive : bool
}.
(** A loop [for (i = 1; i < v.size(); i += 2)] over [v[i - 1], v[i]]. *)
Fixpoint for_pairs {S} (f : S -> str -> str -> S) (l : list str) (s : S) : S :=
  match l with
  | k :: v :: l => for_pairs f l (f s k v)
  | _ => s
  end.

Module Builder.
Definition new : Builder := mkBuilder [] [] [] [] false [] false [] true.
Definition Method (b : Builder) (m : str) : Builder :=
  mkBuilder m (b_url b) (b_parameters b) (b_data b) (b_json b) (b_form_parts b) (b_gzip b) (b_headers b)
    (b_keep_alive b).
Definition Url (b : Builder) (u : str) : Builder :=
  mkBuilder (b_method b) u (b_parameters b) (b_data b) (b_json b) (b_form_parts b) (b_gzip b) (b_headers b)
    (b_keep_alive b).
Definition Query (b : Builder) (key value : str) : Builder :=
  mkBuilder (b_method b) (b_url b) (b_parameters b ++ [key; value]) (b_data b) (b_json b)
    (b_form_parts b) (b_gzip b) (b_headers b) (b_keep_alive b).
Definition Data (b : Builder) (d : str) : Builder :=
  mkBuilder (b_method b) (b_url b) (b_parameters b) d (b_json b) (b_form_parts b) (b_gzip b) (b_headers b)
    (b_keep_alive b).
Definition Json (b : Builder) (j : bool) : Builder :=
  mkBuilder (b_method b) (b_url b) (b_parameters b) (b_data b) j (b_form_parts b) (b_gzip b) (b_headers b)
    (b_keep_alive b).
Definition Form (b : Builder) (p : FormPart) : Builder :=
  mkBuilder (b_method b) (b_url b) (b_parameters b) (b_data b) (b_json b) (b_form_parts b ++ [p])
    (b_gzip b) (b_headers b) (b_keep_alive b).
Definition Form_data (b : Builder) (name data media_type : str) : Builder :=
  Form b (Part.from_data name data media_type).
Definition File (read_file : str -> option str) (filename extension : str -> str)
    (b : Builder) (name path media_type : str) : outcome Builder :=
  let! part := Part.from_file read_file filename extension name path media_type in
  Ret (Form b part).
Definition Gzip (b : Builder) (gzip : bool) : Builder :=
  mkBuilder (b_method b) (b_url b) (b_parameters b) (b_data b) (b_json b) (b_form_parts b) gzip
    (b_headers b) (b_keep_alive b).
Definition Header (b : Builder) (key value : str) : Builder :=
  mkBuilder (b_method b) (b_url b) (b_parameters b) (b_data b) (b_json b) (b_form_parts b) (b_gzip b)
    (b_headers b ++ [key; value]) (b_keep_alive b).
Definition KeepAlive (b : Builder) (k : bool) : Builder :=
  mkBuilder (b_method b) (b_url b) (b_parameters b) (b_data b) (b_json b) (b_form_parts b) (b_gzip b)
    (b_headers b) k.
Definition Auth (b : Builder) (type credentials : str) : Builder :=
  Header b kAuthorization (type ++ #" " ++ credentials).
Definition AuthBasic (b : Builder) (login password : str) : Builder :=
  Auth b #"Basic" (Webcc.Base64Encode (login ++ #":" ++ password)).
Definition AuthToken (b : Builder) (token : str) : Builder := Auth b #"Token" token.

(** [SetContent], built without gzip. *)
Definition SetContent (r : Request) (data : str) : Request :=
  with_message r (Msg.SetContent (req_message r) data true).
(** [operator()()]. *)
Definition build (b : Builder) : Request :=
  let r := Req.make (b_method b) (b_url b) in
  let r := for_pairs Req.AddQuery (b_parameters b) r in
  let r := for_pairs Req.SetHeader (b_headers b) r in
  let r := if negb (b_keep_alive b) then Req.SetHeader r kConnection #"Close" else r in
  match b_data b with
  | _ :: _ =>
      let r := SetContent r (b_data b) in
      if b_json b then
        with_message r (Msg.SetContentType2 (req_message r) kApplicationJson [])
      else r
  | [] => match b_form_parts b with [] => r | ps => Req.set_form_parts r ps end
  end.
End Builder.

(** ** [class ClientSession] *)
Record Session := mkSession {
  s_content_type : str;
  s_charset : str;
  s_headers : Headers;
  s_ssl_verify : bool;
  s_buffer_size : N;
  s_timeout : Z;
  s_pool : ClientPool.Pool
}.

Module Session.
Definition InitHeaders (hs : Headers) : Headers :=
  let hs := Hdr.Set_ hs kUserAgent UserAgent in
  let hs := Hdr.Set_ hs kAcceptEncoding #"identity" in
  let hs := Hdr.Set_ hs kAccept #"*/*" in
  Hdr.Set_ hs kConnection #"Keep-Alive".
Definition make : Session := mkSession [] [] (InitHeaders []) true 0 0 [].
Definition set_pool (s : Session) (p : ClientPool.Pool) : Session :=
  mkSession (s_content_type s) (s_charset s) (s_headers s) (s_ssl_verify s) (s_buffer_size s)
    (s_timeout s) p.
Definition set_headers (s : Session) (h : Headers) : Session :=
  mkSession (s_content_type s) (s_charset s) h (s_ssl_verify s) (s_buffer_size s)
    (s_timeout s) (s_pool s).
Definition SetHeader (s : Session) (key value : str) : Session :=
  set_headers s (Hdr.Set_ (s_headers s) key value).
Definition Auth (s : Session) (type credentials : str) : Session :=
  SetHeader s kAuthorization (type ++ #" " ++ credentials).
Definition AuthBasic (s : Session) (login password : str) : Session :=
  Auth s #"Basic" (Webcc.Base64Encode (login ++ #":" ++ password)).
Definition AuthToken (s : Session) (token : str) : Session := Auth s #"Token" token.

(** The headers [Request] adds to a request. *)
Definition add_header (r : Request) (h : Header) : Request :=
  if negb (Msg.HasHeader (req_message r) (fst h)) then Req.SetHeader r (fst h) (snd h) else r.
Definition add_headers (s : Session) (r : Request) : Request :=
  let r := fold_left add_header (s_headers s) r in
  match s_content_type s with
  | [] => r
  | t => if negb (Msg.HasHeader (req_message r) kContentType) then
           with_message r (Msg.SetContentType2 (req_message r) t (s_charset s))
         else r
  end.

Section IO.
Context (can_alloc : N -> bool).

(** The attempts of [Send]: a reused connection that cannot be written to is made anew.
  [net1] and [net2] are what the network does during the first and the second. *)
Definition attempt (net1 net2 : Net) (client : Client) (request : Request) (reuse : bool)
    : Client * outcome bool :=
  match Client.Request_ can_alloc net1 client request (negb reuse) with
  | (client, Ret false) =>
      if reuse && bool_decide (error_ client = kSocketWriteError) then
        Client.Request_ can_alloc net2 client request true
      else (client, Ret false)
  | r => r
  end.
Definition with_pool {A} (s : Session) (pool : outcome ClientPool.Pool) (res : outcome A)
    : Session * outcome A :=
  match pool with
  | Ret pool => (set_pool s pool, res)
  | Throw e => (s, Throw e)
  | OutOfFuel => (s, OutOfFuel)
  end.
(** [Send]: the session afterwards and the response or exception.  A pooled client is shared
  with the pool, which sees all that happens to it, also when the attempt ends with an
  exception. *)
Definition Send (net1 net2 : Net) (s : Session) (request : Request)
    : Session * outcome Response :=
  let key := Key_make (url_ request) in
  match ClientPool.Get (s_pool s) key with
  | Throw e => (s, Throw e)
  | OutOfFuel => (s, OutOfFuel)
  | Ret found =>
      let reuse := match found with Some _ => true | None => false end in
      let client := match found with Some c => c | None => Client.make end in
      let client := Client.set_ssl_verify client (s_ssl_verify s) in
      let client := Client.set_buffer_size client (s_buffer_size s) in
      let client := Client.set_timeout client (s_timeout s) in
      let '(client, ok) := attempt net1 net2 client request reuse in
      let s := if reuse then set_pool s (ClientPool.insert (s_pool s) key client) else s in
      match ok with
      | Throw e => (s, Throw e)
      | OutOfFuel => (s, OutOfFuel)
      | Ret false =>
          with_pool s (if reuse then ClientPool.Remove (s_pool s) key else Ret (s_pool s))
            (Throw (WebccException (make_Exception (error_ client) [] (timed_out_ client))))
      | Ret true =>
          with_pool s
            (if reuse then
               if closed_ client then ClientPool.Remove (s_pool s) key else Ret (s_pool s)
             else if negb (closed_ client) then ClientPool.Add (s_pool s) key client
             else Ret (s_pool s))
            (Ret (cl_response client))
      end
  end.

(** [Request]; [uuid] is the value of [RandomUuid()]. *)
Definition Request_ (uuid : str) (net1 net2 : Net) (s : Session) (request : Request)
    : Session * outcome Response :=
  match Req.Prepare uuid (add_headers s request) with
  | Ret request => Send net1 net2 s request
  | Throw e => (s, Throw e)
  | OutOfFuel => (s, OutOfFuel)
  end.
End IO.

(** The shortcuts: the requests they build. *)
Definition SetHeaders (headers : list str) (b : Builder) : Builder :=
  for_pairs Builder.Header headers b.
Definition get_request (url : str) (parameters headers : list str) : Request :=
  let b := Builder.Url (Builder.Method Builder.new kGet) url in
  let b := for_pairs Builder.Query parameters b in
  Builder.build (SetHeaders headers b).
Definition data_request (method url data : str) (json : bool) (headers : list str) : Request :=
  let b := SetHeaders headers (Builder.Url (Builder.Method Builder.new method) url) in
  Builder.build (Builder.Json (Builder.Data b data) json).
Definition post_request := data_request kPost.
Definition put_request := data_request kPut.
Definition patch_request := data_request kPatch.
Definition delete_request (url : str) (headers : list str) : Request :=
  Builder.build (SetHeaders headers (Builder.Url (Builder.Method Builder.new kDelete) url)).
End Session.

(** ** Lemmas *)
Lemma Close_closed c : closed_ (Client.Close c) = true.
Proof. unfold Client.Close. by destruct (closed_ c) eqn:E. Qed.
Lemma CancelTimer_closed c : closed_ (Client.CancelTimer c) = closed_ c.
Proof. unfold Client.CancelTimer. by destruct (timer_canceled_ c). Qed.
Lemma Close_frame c :
  timed_out_ (Client.Close c) = timed_out_ c /\ cl_response (Client.Close c) = cl_response c /\
  cl_parser (Client.Close c) = cl_parser c.
Proof. unfold Client.Close. by destruct (closed_ c). Qed.
Lemma CancelTimer_frame c :
  timed_out_ (Client.CancelTimer c) = timed_out_ c /\ cl_parser (Client.CancelTimer c) = cl_parser c /\
  timer_canceled_ (Client.CancelTimer c) = true.
Proof. unfold Client.CancelTimer. by destruct (timer_canceled_ c) eqn:E. Qed.

(** Reading ends with no error, in which case the response is complete and the socket is open
    exactly when the server keeps the connection, or with an error and the socket closed;
    when the deadline has passed the socket is closed. *)
Definition read_result (c : Client) (e : Error) : Prop :=
  match e with
  | kNoError => cl_response c = message_ (cl_parser c) /\
      (timed_out_ c = false -> finished_ (cl_parser c) = true /\
       closed_ c = negb (Msg.IsConnectionKeepAlive (resp_message (cl_response c))))
  | kSocketReadError | kHttpError => closed_ c = true
  | _ => False
  end.
(** The deadline may have passed, which closes the socket. *)
Definition timeout_closes (c : Client) : Prop := timed_out_ c = true -> closed_ c = true.
Lemma timeout_closes_Close c : timeout_closes (Client.Close c).
Proof. intros _. apply Close_closed. Qed.
Lemma timeout_closes_OnTimer c : timeout_closes c -> timeout_closes (Client.OnTimer c).
Proof.
  unfold Client.OnTimer. destruct (closed_ c) eqn:E; [done|]. intros _. apply timeout_closes_Close.
Qed.
Lemma timeout_closes_CancelTimer c : timeout_closes c -> timeout_closes (Client.CancelTimer c).
Proof.
  unfold timeout_closes. by rewrite CancelTimer_closed, (proj1 (CancelTimer_frame c)).
Qed.
Lemma OnTimer_open c : timeout_closes c -> closed_ c = false -> closed_ (Client.OnTimer c) = true.
Proof. intros _ H. unfold Client.OnTimer. rewrite H. apply Close_closed. Qed.

Lemma DoReadResponse_result can_alloc cs : forall c c' e,
  timeout_closes c -> (closed_ c = true -> timed_out_ c = true) ->
  Client.DoReadResponse can_alloc c cs = (c', Ret e) ->
  read_result c' e /\ timeout_closes c'.
Proof.
  induction cs as [|x cs IH]; intros c c' e Ht Hc H; cbn [Client.DoReadResponse] in H; [done|].
  assert (forall e', (Client.Close (Client.CancelTimer c), Ret kSocketReadError) = (c', Ret e') ->
    read_result c' e' /\ timeout_closes c') as Hfail.
  { intros e' [= <- <-]. split; [apply Close_closed|apply timeout_closes_Close]. }
  destruct x as [[|b data]| | |]; [by apply Hfail| |by apply Hfail| |by apply (IH c)].
  - destruct (Parse _ _ _) as [[p ok]|e'|]; [|done..].
    assert (timeout_closes (Client.set_parser (Client.CancelTimer c) p)) as Ht1
      by exact (timeout_closes_CancelTimer c Ht).
    assert (closed_ (Client.set_parser (Client.CancelTimer c) p) = true ->
      timed_out_ (Client.set_parser (Client.CancelTimer c) p) = true) as Hc1.
    { cbn [closed_ timed_out_ Client.set_parser].
      by rewrite CancelTimer_closed, (proj1 (CancelTimer_frame c)). }
    assert (cl_response (Client.set_parser (Client.CancelTimer c) p) =
            message_ (cl_parser (Client.set_parser (Client.CancelTimer c) p))) as Hr1 by done.
    change p with (cl_parser (Client.set_parser (Client.CancelTimer c) p)) in H at 2.
    set (c1 := Client.set_parser (Client.CancelTimer c) p) in *. clearbody c1.
    destruct ok; cbn [negb] in H.
    + destruct (finished_ (cl_parser c1)) eqn:Hf.
      * destruct (Msg.IsConnectionKeepAlive _) eqn:Hk; apply pair_eq in H as [<- [= <-]].
        -- split; [|done]. split; [done|]. intros Hto. split; [done|]. rewrite Hk.
           destruct (closed_ c1); [by rewrite Hc1 in Hto|done].
        -- split; [|apply timeout_closes_Close]. destruct (Close_frame c1) as (Hto & Hre & Hpa).
           split; [congruence|]. intros _. rewrite Hpa, Hre, Hk, Close_closed. by split.
      * destruct (closed_ c1) eqn:Hc2; cbn [negb] in H.
        -- apply pair_eq in H as [<- [= <-]]. split; [|done]. split; [done|].
           intros Hto. by rewrite Hc1 in Hto.
        -- apply IH in H; [done|done|]. by rewrite Hc2.
    + apply pair_eq in H as [<- [= <-]]. split; [apply Close_closed|apply timeout_closes_Close].
  - apply IH in H; [done|by apply timeout_closes_OnTimer|]. intros _.
    unfold Client.OnTimer. destruct (closed_ c) eqn:E; [by apply Hc|].
    by rewrite (proj1 (Close_frame _)).
Qed.
(** The client is timed out only when the deadline passed while it was reading. *)
Lemma DoReadResponse_timed_out can_alloc cs : forall c,
  timed_out_ c = false -> Expired ∉ cs ->
  timed_out_ (fst (Client.DoReadResponse can_alloc c cs)) = false.
Proof.
  induction cs as [|x cs IH]; intros c Hc Hx; cbn [Client.DoReadResponse]; [done|].
  apply not_elem_of_cons in Hx as [Hx Hcs].
  assert (forall c, timed_out_ c = false -> timed_out_ (Client.Close c) = false) as Hcl
    by (intros c0 H0; by rewrite (proj1 (Close_frame c0))).
  assert (timed_out_ (Client.CancelTimer c) = false) as Hca by (by rewrite (proj1 (CancelTimer_frame c))).
  destruct x as [[|b data]| | |]; [by apply Hcl| |by apply Hcl|done|by apply IH].
  destruct (Parse _ _ _) as [[p ok]|e'|]; [|done..].
  set (c1 := Client.set_parser (Client.CancelTimer c) p).
  assert (timed_out_ c1 = false) as Hc1 by done. clearbody c1.
  destruct (negb ok); [by apply Hcl|]. destruct (finished_ p).
  - destruct (Msg.IsConnectionKeepAlive _); [done|by apply Hcl].
  - destruct (negb (closed_ c1)); [by apply IH|done].
Qed.

(** Data that arrives is parsed like a sequence of reads. *)
Lemma DoReadResponse_data can_alloc ds : forall c p,
  closed_ c = false -> Forall (fun d => d <> []) ds ->
  ParseAll can_alloc (cl_parser c) ds = Ret (p, true) -> finished_ p = true ->
  finished_ (cl_parser c) = false ->
  exists c', Client.DoReadResponse can_alloc c (map Received ds) = (c', Ret kNoError) /\
    cl_parser c' = p /\ cl_response c' = message_ p /\
    closed_ c' = negb (Msg.IsConnectionKeepAlive (resp_message (message_ p))).
Proof.
  induction ds as [|d ds IH]; intros c p Hc Hne H Hf Hnf; cbn [ParseAll map Client.DoReadResponse] in *.
  { injection H as <-. congruence. }
  apply Forall_cons in Hne as [Hd Hne]. destruct d as [|b d]; [done|].
  destruct (CancelTimer_frame c) as (_ & -> & _).
  apply obind_Ret in H as ([q ok] & -> & H).
  destruct ok; cbn [negb orb] in *; [|by injection H].
  destruct (finished_ q) eqn:Hq.
  - injection H as <-. eexists. split; [reflexivity|].
    cbn [cl_response Client.set_parser]. destruct (Msg.IsConnectionKeepAlive _).
    + split_and!; [done|done|]. cbn. by rewrite CancelTimer_closed.
    + match goal with |- context [Client.Close ?c] => destruct (Close_frame c) as (_ & -> & ->) end.
      rewrite Close_closed. by split_and!.
  - cbn [closed_ Client.set_parser]. rewrite CancelTimer_closed, Hc. cbn [negb].
    apply IH; try done. cbn. by rewrite CancelTimer_closed.
Qed.

(** ** Correctness *)

Lemma request_result can_alloc net c request connect c' ok :
  Client.Request_ can_alloc net c request connect = (c', Ret ok) ->
  (ok = true <-> error_ c' = kNoError) /\
  (timed_out_ c' = true -> closed_ c' = true /\ Expired ∈ completions net) /\
  match error_ c' with
  | kNoError => cl_response c' = message_ (cl_parser c') /\
      (timed_out_ c' = false -> finished_ (cl_parser c') = true /\
       closed_ c' = negb (Msg.IsConnectionKeepAlive (resp_message (cl_response c'))))
  | kHostResolveError => connect = true /\ resolve_ok net = false /\ closed_ c' = false
  | kEndpointConnectError => connect = true /\ connect_ok net = false /\ closed_ c' = true
  | kSocketWriteError => write_ok net = false /\ closed_ c' = true
  | kSocketReadError | kHttpError => closed_ c' = true
  | _ => False
  end.
Proof.
  unfold Client.Request_. set (c0 := mkClient _ _ _ _ _ _ _ _ _).
  assert (closed_ c0 = false /\ timed_out_ c0 = false) as [Hc0 Ht0] by done. clearbody c0.
  destruct (if connect then fst (Client.Connect net c0 request) else (c0, kNoError)) as [c1 e1] eqn:E1.
  assert ((e1 = kNoError /\ c1 = c0) \/ (connect = true /\ timed_out_ c1 = false /\
     ((e1 = kHostResolveError /\ resolve_ok net = false /\ closed_ c1 = false) \/
      (e1 = kEndpointConnectError /\ connect_ok net = false /\ closed_ c1 = true)))) as H1.
  { destruct connect; [|injection E1 as <- <-; by left]. unfold Client.Connect in E1.
    assert (Client.DoConnect net c0 request kPort80 = (c1, e1)) as E2.
    { by destruct (seqb _ _). }
    unfold Client.DoConnect in E2.
    destruct (resolve_ok net); cbn [negb] in E2; [|injection E2 as <- <-; right; by auto 6].
    destruct (connect_ok net); cbn [negb] in E2; [injection E2 as <- <-; by left|].
    right. apply pair_eq in E2 as [<- <-]. split; [done|].
    split; [by rewrite (proj1 (Close_frame c0))|]. right. by rewrite Close_closed. }
  destruct H1 as [[-> ->]|(-> & Ht1 & He1)].
  2: { rewrite decide_True by (destruct He1 as [[-> _]|[-> _]]; done). intros [= <- <-].
       destruct He1 as [[-> [Hr Hcl]]|[-> [Hr Hcl]]]; cbn; rewrite Ht1; naive_solver. }
  rewrite decide_False by auto. unfold Client.WriteReqeust.
  destruct (write_ok net) eqn:Hw; cbn [negb].
  2: { rewrite decide_True by done. intros H. apply pair_eq in H as [<- [= <-]].
       cbn. rewrite Close_closed, (proj1 (Close_frame c0)), Ht0. naive_solver. }
  rewrite decide_False by auto. unfold Client.ReadResponse.
  pose proof (DoReadResponse_timed_out can_alloc (completions net) c0 Ht0) as Hto.
  destruct (Client.DoReadResponse can_alloc c0 (completions net)) as [c2 [e2|e2|]] eqn:E2; [|done..].
  apply DoReadResponse_result in E2 as [H2 Hcl];
    [|unfold timeout_closes; by rewrite Ht0|by rewrite Hc0].
  intros H. apply pair_eq in H as [<- [= <-]]. cbn [error_ timed_out_ closed_ Client.set_error fst] in *.
  split; [by rewrite bool_decide_eq_true|]. split.
  - intros Ht. split; [by apply Hcl|]. destruct (decide (Expired ∈ completions net)) as [|Hn]; [done|].
    by rewrite Hto in Ht.
  - by destruct e2.
Qed.
(** C24: how [Client::Request] ends on every branch.  It returns true exactly when there is no
    error.  Without an error, and unless the deadline passed while the last data was already
    there, the response is complete and the socket is open exactly when the response keeps the
    connection.  When the host is not resolved the socket is left alone; after any other error it
    is closed.  The client is timed out only when the deadline passed, and then the socket is
    closed. *)
Theorem client_request_result can_alloc net c request connect c' ok :
  Client.Request_ can_alloc net c request connect = (c', Ret ok) ->
  (ok = true <-> error_ c' = kNoError) /\
  (timed_out_ c' = true -> closed_ c' = true /\ Expired ∈ completions net) /\
  match error_ c' with
  | kNoError => cl_response c' = message_ (cl_parser c') /\
      (timed_out_ c' = false -> finished_ (cl_parser c') = true /\
       closed_ c' = negb (Msg.IsConnectionKeepAlive (resp_message (cl_response c'))))
  | kHostResolveError => connect = true /\ resolve_ok net = false /\ closed_ c' = false
  | kEndpointConnectError => connect = true /\ connect_ok net = false /\ closed_ c' = true
  | kSocketWriteError => write_ok net = false /\ closed_ c' = true
  | kSocketReadError | kHttpError => closed_ c' = true
  | _ => False
  end.
Proof. apply request_result. Qed.
Example client_request_result_witness :
  exists c, Client.Request_ (fun _ => true) (mkNet true true true [Received #"HTTP/1.1 200";
    Expired; ReadFailed])
    Client.make (Req.make #"GET" #"http://h/") true = (c, Ret false) /\
    error_ c = kSocketReadError /\ closed_ c = true.
Proof.
  eexists. split; [vm_compute; reflexivity|]. split; [reflexivity|].
  match goal with |- closed_ ?c = _ =>
    exact (proj2 (proj2 (client_request_result (fun _ => true)
      (mkNet true true true [Received #"HTTP/1.1 200"; Expired; ReadFailed]) Client.make
      (Req.make #"GET" #"http://h/") true c false ltac:(vm_compute; reflexivity)))) end.
Defined.

(** When the deadline passes while data is there already, the handler of the read finds the
    socket closed and reports no error: [Request] returns true with half a response. *)
Example timeout_may_succeed :
  let c := Client.Request_ (fun _ => true)
    (mkNet true true true [Expired; Received #"HTTP/1.1 200"]) Client.make
    (Req.make #"GET" #"http://h/") true in
  snd c = Ret true /\ finished_ (cl_parser (fst c)) = false /\ timed_out_ (fst c) = true.
Proof. by vm_compute. Qed.

(** A client parses a prepared response from any reads. *)
Lemma client_receives can_alloc c request date r s ds :
  start_line_ (resp_message r) = [] -> status_ r = status_int s ->
  sendable can_alloc (headers_ (resp_message (Resp.Prepare date r))) (content_ (resp_message r)) ->
  concat ds = Msg.CopyPayload (resp_message (Resp.Prepare date r)) ->
  Forall (fun d => d <> []) ds ->
  exists c', Client.Request_ can_alloc (mkNet true true true (map Received ds)) c request true =
      (c', Ret true) /\
    status_ (cl_response c') = status_int s /\
    headers_ (resp_message (cl_response c')) = headers_ (resp_message (Resp.Prepare date r)) /\
    content_ (resp_message (cl_response c')) = content_ (resp_message r) /\
    closed_ c' = negb (Msg.IsConnectionKeepAlive (resp_message (Resp.Prepare date r))).
Proof.
  intros Hs Hst Hsend Hds Hne.
  destruct (response_parsed can_alloc date r s (status_int kOK) ds Hs Hst Hsend Hds)
    as (p & Hp & Hf & Hstat & Hh & Hco).
  unfold Client.Request_. set (c0 := mkClient _ _ _ _ _ _ _ _ _).
  assert (cl_parser c0 = RespParser.make Response_new) as Hp0.
  { unfold c0. cbn [cl_parser]. unfold RespParser.Init, Parser_Init, RespParser.make, Parser_make.
    unfold set_message, Reset. cbn. by destruct (derived (cl_parser c)). }
  assert (closed_ c0 = false) as Hc0 by done. clearbody c0.
  assert (fst (Client.Connect (mkNet true true true (map Received ds)) c0 request) = (c0, kNoError))
    as -> by (unfold Client.Connect; by destruct (seqb _ _)).
  rewrite decide_False by auto. cbn [Client.WriteReqeust write_ok negb]. rewrite decide_False by auto.
  unfold Client.ReadResponse. cbn [completions].
  destruct (DoReadResponse_data can_alloc ds c0 p Hc0 Hne) as (c' & -> & Hcp & Hcr & Hcl).
  { rewrite Hp0. exact Hp. }
  { exact Hf. }
  { by rewrite Hp0. }
  eexists. split; [reflexivity|]. cbn [cl_response closed_ Client.set_error]. rewrite Hcr, Hcl.
  split_and!; [done..|]. unfold Msg.IsConnectionKeepAlive. by rewrite Hh.
Qed.

(** C15: a client gets the response a server sent: when the network delivers the
    bytes of a prepared response in any non-empty pieces, [Client::Request]
    returns true with the same status, headers and content, and the socket is
    closed exactly when the response does not keep the connection. *)
Theorem client_gets_response can_alloc c request date r s ds :
  start_line_ (resp_message r) = [] -> status_ r = status_int s ->
  sendable can_alloc (headers_ (resp_message (Resp.Prepare date r))) (content_ (resp_message r)) ->
  concat ds = Msg.CopyPayload (resp_message (Resp.Prepare date r)) ->
  Forall (fun d => d <> []) ds ->
  exists c', Client.Request_ can_alloc (mkNet true true true (map Received ds)) c request true =
      (c', Ret true) /\
    status_ (cl_response c') = status_int s /\
    headers_ (resp_message (cl_response c')) = headers_ (resp_message (Resp.Prepare date r)) /\
    content_ (resp_message (cl_response c')) = content_ (resp_message r) /\
    closed_ c' = negb (Msg.IsConnectionKeepAlive (resp_message (Resp.Prepare date r))).
Proof. apply client_receives. Qed.
Example client_gets_response_witness :
  let r := mkResponse (Msg.SetContent Message_new #"{}" true) 201 in
  exists c', Client.Request_ (fun _ => true)
      (mkNet true true true (map Received [Msg.CopyPayload (resp_message (Resp.Prepare #"now" r))]))
      Client.make (Req.make #"GET" #"http://h/") true = (c', Ret true) /\
    status_ (cl_response c') = 201%Z /\ content_ (resp_message (cl_response c')) = #"{}" /\
    closed_ c' = false.
Proof.
  intros r.
  edestruct (client_gets_response (fun _ => true) Client.make (Req.make #"GET" #"http://h/") #"now" r
    kCreated [Msg.CopyPayload (resp_message (Resp.Prepare #"now" r))])
    as (c' & H1 & H2 & _ & H4 & H5); [reflexivity|reflexivity| |apply app_nil_r| |].
  - sendable_now.
  - apply Forall_cons. split; [vm_compute; discriminate|by apply Forall_nil].
  - exists c'. split_and!; [exact H1|exact H2|exact H4|exact H5].
Defined.

(** The timer is cancelled by the first read that completes: when it is not queued yet, a server
    can stall the client for ever from then on, whatever [timeout_] is. *)
Theorem timeout_ends_with_first_read can_alloc c data p n :
  data <> [] -> closed_ c = false -> Parse can_alloc (cl_parser c) data = Ret (p, true) ->
  finished_ p = false ->
  let r := Client.DoReadResponse can_alloc c (Received data :: repeat TimerIdle n) in
  snd r = OutOfFuel /\ timer_canceled_ (fst r) = true.
Proof.
  intros Hd Hc Hp Hf. cbn [Client.DoReadResponse]. destruct data as [|b data]; [done|].
  destruct (CancelTimer_frame c) as (_ & -> & Ht). rewrite Hp. cbn [negb]. rewrite Hf.
  cbn [closed_ Client.set_parser]. rewrite CancelTimer_closed, Hc. cbn [negb].
  assert (timer_canceled_ (Client.set_parser (Client.CancelTimer c) p) = true) as Ht' by exact Ht.
  induction n as [|n IH]; [done|]. exact IH.
Qed.

(** *** The order of the keys *)

(** [Key::operator<] is not an ordering: two keys may each be less than the other,
    which [std::map] does not allow. *)
Theorem key_order_not_asymmetric a b :
  str_ltb (k_scheme a) (k_scheme b) = true -> str_ltb (k_host b) (k_host a) = true ->
  Key_ltb a b = true /\ Key_ltb b a = true.
Proof.
  intros H1 H2. unfold Key_ltb. rewrite H1, H2. by destruct (str_ltb (k_scheme b) (k_scheme a)).
Qed.
Lemma Key_ltb_false a b : Key_ltb a b = false <->
  str_ltb (k_scheme a) (k_scheme b) = false /\ str_ltb (k_host a) (k_host b) = false /\
  str_ltb (k_port a) (k_port b) = false.
Proof. unfold Key_ltb. repeat case_match; naive_solver. Qed.
Lemma Key_ltb_irrefl a : Key_ltb a a = false.
Proof. apply Key_ltb_false. by rewrite !str_ltb_irrefl. Qed.
Lemma Key_ltb_total a b : Key_ltb a b = false -> Key_ltb b a = false -> a = b.
Proof.
  intros (H1 & H2 & H3)%Key_ltb_false (H4 & H5 & H6)%Key_ltb_false.
  destruct a, b; cbn in *. f_equal; by apply str_ltb_total.
Qed.
Lemma str_leb_trans a b c : str_ltb b a = false -> str_ltb c b = false -> str_ltb c a = false.
Proof.
  intros H1 H2. destruct (str_ltb c a) eqn:E; [|done]. destruct (str_ltb a b) eqn:E2.
  - by rewrite (str_ltb_trans _ _ _ E E2) in H2.
  - rewrite (str_ltb_total _ _ E2 H1) in E. by rewrite E in H2.
Qed.
(** On keys that are not each less than the other it is a strict total order. *)
Definition below (a b : Key) : Prop := Key_ltb a b = true /\ Key_ltb b a = false.
Lemma below_trans a b c : below a b -> below b c -> below a c.
Proof.
  intros [H1 H2] [H3 H4]. assert (Key_ltb c a = false) as Hca.
  { apply Key_ltb_false in H2 as (? & ? & ?), H4 as (? & ? & ?). apply Key_ltb_false.
    split_and!; by eapply str_leb_trans. }
  split; [|done]. destruct (Key_ltb a c) eqn:E; [done|].
  rewrite <- (Key_ltb_total a c E Hca) in H3. by rewrite H3 in H2.
Qed.
Lemma below_irrefl a : ~ below a a.
Proof. intros [H _]. by rewrite Key_ltb_irrefl in H. Qed.

(** *** The pool *)

(** The keys of a pool are sorted, so that every two of them can be compared. *)
Definition pool_keys (p : ClientPool.Pool) : list Key := map fst p.
Definition pool_ok (p : ClientPool.Pool) : Prop := StronglySorted below (pool_keys p).

(** Where a key is in a pool of more than one element. *)
Lemma key_cases k0 c0 p key : ClientPool.comparable ((k0, c0) :: p) key = true ->
  ClientPool.comparable p key = true /\
  (below k0 key \/ below key k0 \/ k0 = key).
Proof.
  unfold ClientPool.comparable. cbn [forallb fst]. intros [H Hp]%andb_true_iff. split; [done|].
  unfold below. destruct (Key_ltb k0 key) eqn:E1, (Key_ltb key k0) eqn:E2; cbn in H; [done|auto..].
  right. right. by apply Key_ltb_total.
Qed.
Lemma pool_cons k0 c0 p : pool_ok ((k0, c0) :: p) <->
  pool_ok p /\ (forall k c, (k, c) ∈ p -> below k0 k).
Proof.
  unfold pool_ok. cbn [pool_keys map fst]. split.
  - intros [Hp Hf]%StronglySorted_inv. split; [done|]. intros k c H. rewrite Forall_forall in Hf.
    apply Hf. change k with (fst (k, c)). by apply list_elem_of_fmap_2.
  - intros [Hp Hf]. constructor; [done|]. apply Forall_forall. intros k H.
    apply list_elem_of_fmap in H as ([k' c] & -> & H). by eapply Hf.
Qed.
Lemma find_spec p key c : pool_ok p -> ClientPool.comparable p key = true ->
  ClientPool.find p key = Some c <-> (key, c) ∈ p.
Proof.
  induction p as [|[k0 c0] p IH]; intros Hok Hcmp; [by split; [|intros ?%elem_of_nil]|].
  apply pool_cons in Hok as [Hok Hb]. cbn [ClientPool.find]. rewrite elem_of_cons.
  apply key_cases in Hcmp as [Hcmp [[H1 H2]|[[H1 H2]|H1]]].
  - rewrite H1, IH by done. split; [auto|]. intros [[= -> ->]|H]; [|done].
    by rewrite Key_ltb_irrefl in H1.
  - rewrite H1, H2. split; [done|]. intros [[= -> ->]|H]; [by rewrite Key_ltb_irrefl in H1|].
    destruct (below_irrefl key). eapply (below_trans _ k0); [done|by eapply Hb].
  - subst. rewrite Key_ltb_irrefl. split; [intros [= ->]; by left|].
    intros [[= ->]|H]; [done|]. by destruct (below_irrefl key (Hb _ _ H)).
Qed.
Lemma insert_spec p key c k' c' : pool_ok p -> ClientPool.comparable p key = true ->
  (k', c') ∈ ClientPool.insert p key c <->
  (k' = key /\ c' = c) \/ (k' <> key /\ (k', c') ∈ p).
Proof.
  induction p as [|[k0 c0] p IH]; intros Hok Hcmp; cbn [ClientPool.insert].
  { rewrite list_elem_of_singleton. set_solver. }
  apply pool_cons in Hok as [Hok Hb].
  apply key_cases in Hcmp as [Hcmp [[H1 H2]|[[H1 H2]|H1]]].
  - assert (k0 <> key) as Hk0 by (intros ->; by rewrite Key_ltb_irrefl in H1).
    rewrite H1, !elem_of_cons, IH by done. naive_solver.
  - assert (k0 <> key) as Hk0 by (intros ->; by rewrite Key_ltb_irrefl in H1).
    assert (forall c1, (key, c1) ∉ p) as Hn.
    { intros c1 Hin. destruct (below_irrefl key). eapply (below_trans _ k0); [done|by eapply Hb]. }
    rewrite H1, H2, !elem_of_cons. split.
    + intros [[= -> ->]|[[= -> ->]|H]]; [by left|right; by auto|].
      right. split; [intros ->; by eapply Hn|by right].
    + intros [[-> ->]|[Hne Hin]]; [by left|by right].
  - subst. rewrite Key_ltb_irrefl, !elem_of_cons. split.
    + intros [[= -> ->]|H]; [by left|]. right. split; [|by right].
      intros ->. by destruct (below_irrefl key (Hb _ _ H)).
    + intros [[-> ->]|[Hne [[= -> ->]|Hin]]]; [by left|done|by right].
Qed.
Lemma erase_spec p key k' c' : pool_ok p -> ClientPool.comparable p key = true ->
  (k', c') ∈ ClientPool.erase p key <-> k' <> key /\ (k', c') ∈ p.
Proof.
  induction p as [|[k0 c0] p IH]; intros Hok Hcmp; cbn [ClientPool.erase].
  { set_solver. }
  apply pool_cons in Hok as [Hok Hb].
  apply key_cases in Hcmp as [Hcmp [[H1 H2]|[[H1 H2]|H1]]].
  - assert (k0 <> key) as Hk0 by (intros ->; by rewrite Key_ltb_irrefl in H1).
    rewrite H1, !elem_of_cons, IH by done. naive_solver.
  - rewrite H1, H2. split; [|by intros [_ ?]]. intros H. split; [|done]. intros ->.
    apply elem_of_cons in H as [[= -> ->]|H]; [by rewrite Key_ltb_irrefl in H1|].
    destruct (below_irrefl key). eapply (below_trans _ k0); [done|by eapply Hb].
  - subst. rewrite Key_ltb_irrefl, !elem_of_cons. split.
    + intros H. split; [|by right]. intros ->. by destruct (below_irrefl key (Hb _ _ H)).
    + intros [Hne [[= -> ->]|H]]; done.
Qed.
Lemma insert_ok p key c : pool_ok p -> ClientPool.comparable p key = true ->
  pool_ok (ClientPool.insert p key c).
Proof.
  induction p as [|[k0 c0] p IH]; intros Hok Hcmp; cbn [ClientPool.insert].
  { apply pool_cons. split; [done|]. intros k c1 H. by apply elem_of_nil in H. }
  pose proof Hok as [Hok' Hb]%pool_cons.
  apply key_cases in Hcmp as [Hcmp [[H1 H2]|[[H1 H2]|H1]]].
  - rewrite H1. apply pool_cons. split; [by apply IH|]. intros k c1 H.
    apply insert_spec in H as [[-> ->]|[_ H]]; [done|by eapply Hb|done|done].
  - rewrite H1, H2. apply pool_cons. split; [done|]. intros k c1 [[= -> ->]|H]%elem_of_cons; [done|].
    eapply (below_trans _ k0); [done|by eapply Hb].
  - subst. rewrite Key_ltb_irrefl. by apply pool_cons.
Qed.
Lemma erase_ok p key : pool_ok p -> ClientPool.comparable p key = true ->
  pool_ok (ClientPool.erase p key).
Proof.
  induction p as [|[k0 c0] p IH]; intros Hok Hcmp; cbn [ClientPool.erase]; [done|].
  pose proof Hok as [Hok' Hb]%pool_cons.
  apply key_cases in Hcmp as [Hcmp [[H1 H2]|[[H1 H2]|H1]]].
  - rewrite H1. apply pool_cons. split; [by apply IH|]. intros k c1 H.
    apply erase_spec in H as [_ H]; [by eapply Hb|done|done].
  - by rewrite H1, H2.
  - subst. by rewrite Key_ltb_irrefl.
Qed.
Lemma insert_comparable p key c : ClientPool.comparable p key = true -> pool_ok p ->
  ClientPool.comparable (ClientPool.insert p key c) key = true.
Proof.
  intros Hcmp Hok. unfold ClientPool.comparable in *. apply forallb_forall. intros [k c1] H.
  apply list_elem_of_In, insert_spec in H as [[-> ->]|[_ H]]; [by cbn; rewrite Key_ltb_irrefl| |done|done].
  rewrite forallb_forall in Hcmp. by apply Hcmp, list_elem_of_In.
Qed.

(** Only the parser throws. *)
Lemma DoReadResponse_throws can_alloc cs : forall c e,
  snd (Client.DoReadResponse can_alloc c cs) = Throw e -> e = LengthError.
Proof.
  induction cs as [|x cs IH]; intros c e H; cbn [Client.DoReadResponse] in H; [done|].
  destruct x as [[|b d]| | |]; try done; [|by eapply IH..].
  assert (inv (M := Response) (derived (cl_parser (Client.CancelTimer c)))) as Hi by done.
  destruct (Parse_returns can_alloc (cl_parser (Client.CancelTimer c)) (b :: d) Hi)
    as [(p & ok & Hp & _)|Hp]; rewrite Hp in H; [|by injection H].
  destruct (negb ok); [done|]. destruct (finished_ p); [done|].
  destruct (negb _); [by eapply IH|done].
Qed.
Lemma request_throws can_alloc net c request connect c' e :
  Client.Request_ can_alloc net c request connect = (c', Throw e) -> e = LengthError.
Proof.
  unfold Client.Request_. destruct (if connect then _ else _) as [c1 e1].
  destruct (decide (e1 <> kNoError)); [done|]. unfold Client.WriteReqeust.
  destruct (negb (write_ok net)); [by rewrite decide_True|]. destruct (decide _); [done|].
  unfold Client.ReadResponse. pose proof (DoReadResponse_throws can_alloc (completions net) c1) as H.
  destruct (Client.DoReadResponse can_alloc c1 (completions net)) as [c2 [e2|e2|]]; [done| |done].
  intros [= <- <-]. by apply H.
Qed.

(** How the attempts of [Send] end. *)
Lemma attempt_result can_alloc net1 net2 client request reuse :
  match Session.attempt can_alloc net1 net2 client request reuse with
  | (c, Ret true) =>
      (closed_ c = false -> Msg.IsConnectionKeepAlive (resp_message (cl_response c)) = true) /\
      (closed_ c = true -> Msg.IsConnectionKeepAlive (resp_message (cl_response c)) = true ->
       Expired ∈ completions net1 ++ completions net2)
  | (c, Throw e) => e = LengthError
  | _ => True
  end.
Proof.
  unfold Session.attempt.
  assert (forall net c0 conn c1, Client.Request_ can_alloc net c0 request conn = (c1, Ret true) ->
    (closed_ c1 = false -> Msg.IsConnectionKeepAlive (resp_message (cl_response c1)) = true) /\
    (closed_ c1 = true -> Msg.IsConnectionKeepAlive (resp_message (cl_response c1)) = true ->
     Expired ∈ completions net)) as Hok.
  { intros net c0 conn c1 H. apply request_result in H as ([H _] & Ht & Hm).
    rewrite (H eq_refl) in Hm. destruct Hm as [_ Hm].
    destruct (timed_out_ c1); [destruct (Ht eq_refl) as [-> ?]; by split|].
    destruct (Hm eq_refl) as [_ ->]. split; by destruct (Msg.IsConnectionKeepAlive _). }
  destruct (Client.Request_ can_alloc net1 client request (negb reuse)) as [c [[]|e|]] eqn:E.
  - destruct (Hok _ _ _ _ E) as [H1 H2]. split; [done|]. intros. apply elem_of_app. left. by apply H2.
  - destruct (_ && _); [|done].
    destruct (Client.Request_ can_alloc net2 c request true) as [c2 [[]|e|]] eqn:E2; [|done| |done].
    + destruct (Hok _ _ _ _ E2) as [H1 H2]. split; [done|]. intros. apply elem_of_app. right. by apply H2.
    + by apply request_throws in E2.
  - by apply request_throws in E.
  - done.
Qed.

(** *** [Send] and the pool *)
Definition keeps (r : Response) : bool := Msg.IsConnectionKeepAlive (resp_message r).
Lemma elem_keys p k : k ∈ pool_keys p <-> exists c, (k, c) ∈ p.
Proof.
  unfold pool_keys. rewrite list_elem_of_fmap. split; [intros ([k' c] & -> & H); eauto|].
  intros [c H]. by exists (k, c).
Qed.
(** What the pool holds for a key, and that it is as it was for the other keys. *)
Definition only_touches (key : Key) (p p' : ClientPool.Pool) : Prop :=
  pool_ok p' /\ ClientPool.comparable p' key = true /\
  forall k c, k <> key -> (k, c) ∈ p' <-> (k, c) ∈ p.
Lemma only_touches_refl key p : pool_ok p -> ClientPool.comparable p key = true ->
  only_touches key p p.
Proof. intros H1 H2. by split_and!. Qed.
Lemma only_touches_insert key p p' c : only_touches key p p' ->
  only_touches key p (ClientPool.insert p' key c) /\ (key, c) ∈ ClientPool.insert p' key c.
Proof.
  intros (Hok & Hcmp & H). unfold only_touches. split; [split_and!|].
  - by apply insert_ok.
  - by apply insert_comparable.
  - intros k c' Hne. rewrite insert_spec, <- H by done. naive_solver.
  - apply insert_spec; [done..|]. by left.
Qed.
Lemma erase_comparable p key : ClientPool.comparable p key = true -> pool_ok p ->
  ClientPool.comparable (ClientPool.erase p key) key = true.
Proof.
  intros Hcmp Hok. unfold ClientPool.comparable in *. apply forallb_forall. intros [k c1] H.
  apply list_elem_of_In, erase_spec in H as [_ H]; [|done|done].
  rewrite forallb_forall in Hcmp. by apply Hcmp, list_elem_of_In.
Qed.
Lemma only_touches_erase key p p' : only_touches key p p' ->
  only_touches key p (ClientPool.erase p' key) /\ key ∉ pool_keys (ClientPool.erase p' key).
Proof.
  intros (Hok & Hcmp & H). unfold only_touches. split; [split_and!|].
  - by apply erase_ok.
  - by apply erase_comparable.
  - intros k c' Hne. rewrite erase_spec, <- H by done. naive_solver.
  - rewrite elem_keys. intros (c & Hin). by apply erase_spec in Hin as [? _].
Qed.
Lemma checked_ok {A} p key (a : A) : ClientPool.comparable p key = true ->
  ClientPool.checked p key a = Ret a.
Proof. intros H. unfold ClientPool.checked. by rewrite H. Qed.

(** C25: the connection pool of a session, whose keys are sorted by an order that is one on them.
    [Send] keeps it that way and touches the entry of its own server only.  After it returned a
    response the pool holds the open connection it came over, or no connection to that server
    when the response, or the deadline, closed it; after its exception the pool
    holds no connection to that server; when the parser throws, the pool holds one exactly when it
    held one before. *)
Theorem send_keeps_pool can_alloc net1 net2 s request s' res :
  let key := Key_make (url_ request) in
  pool_ok (s_pool s) -> ClientPool.comparable (s_pool s) key = true ->
  Session.Send can_alloc net1 net2 s request = (s', res) ->
  s' = Session.set_pool s (s_pool s') /\ pool_ok (s_pool s') /\
  (forall k c, k <> key -> (k, c) ∈ s_pool s' <-> (k, c) ∈ s_pool s) /\
  match res with
  | Ret r =>
      (exists c, (key, c) ∈ s_pool s' /\ cl_response c = r /\ closed_ c = false /\ keeps r = true) \/
      (key ∉ pool_keys (s_pool s') /\
       (keeps r = true -> Expired ∈ completions net1 ++ completions net2))
  | Throw (WebccException _) => key ∉ pool_keys (s_pool s')
  | Throw e => e = LengthError /\ (key ∈ pool_keys (s_pool s') <-> key ∈ pool_keys (s_pool s))
  | OutOfFuel => True
  end.
Proof.
  intros key Hok Hcmp H. unfold Session.Send in H. fold key in H.
  unfold ClientPool.Get in H. rewrite checked_ok in H by done.
  set (found := ClientPool.find (s_pool s) key) in *.
  set (reuse := match found with Some _ => true | None => false end) in *.
  set (client := Client.set_timeout _ _) in H.
  pose proof (attempt_result can_alloc net1 net2 client request reuse) as Ha.
  destruct (Session.attempt can_alloc net1 net2 client request reuse) as [c r].
  set (s1 := if reuse then Session.set_pool s (ClientPool.insert (s_pool s) key c) else s) in H.
  pose proof (only_touches_refl key _ Hok Hcmp) as Ht.
  assert (s1 = Session.set_pool s (s_pool s1) /\ only_touches key (s_pool s) (s_pool s1) /\
    (reuse = true -> (key, c) ∈ s_pool s1) /\ (reuse = false -> key ∉ pool_keys (s_pool s1)) /\
    (key ∈ pool_keys (s_pool s1) <-> key ∈ pool_keys (s_pool s))) as (Hs1 & Ht1 & Hin & Hnot & Hsame).
  { unfold s1. subst reuse. destruct found as [c0|] eqn:Hf.
    - destruct (only_touches_insert key _ _ c Ht) as [H1 H2]. split_and!; try done.
      rewrite !elem_keys. split; intros _; [|by exists c]. exists c0. by apply find_spec.
    - split_and!; [by destruct s|done|done| |done]. intros _ Hk. apply elem_keys in Hk as [c0 Hk].
      apply find_spec in Hk; [|done|done]. unfold found in Hf. congruence. }
  clearbody s1. destruct (only_touches_insert key _ _ c Ht1) as [Hti Hini].
  destruct (only_touches_erase key _ _ Ht1) as [Hte Hnote]. pose proof Ht1 as (_ & Hcmp1 & _).
  assert (forall p, Session.set_pool s1 p = Session.set_pool s p) as Hset by (intros p; by rewrite Hs1).
  unfold ClientPool.Remove, ClientPool.Add in H. rewrite !checked_ok in H by done.
  destruct r as [[]|e|].
  - destruct Ha as [Ho Hcl]. unfold Session.with_pool in H.
    destruct reuse, (closed_ c) eqn:Hc; cbn [negb] in H; apply pair_eq in H as [<- <-];
      rewrite Hset; (split; [done|]); cbn [s_pool Session.set_pool];
      first [destruct Hte as (? & _ & ?)|idtac]; first [destruct Hti as (? & _ & ?)|idtac];
      destruct Ht1 as (? & _ & ?); (split; [done|]; split; [done|]).
    + right. by split; [|apply Hcl].
    + left. exists c. split_and!; [by apply Hin|done|done|by apply Ho].
    + right. by split; [apply Hnot|apply Hcl].
    + left. exists c. split_and!; [done|done|done|by apply Ho].
  - unfold Session.with_pool in H. destruct reuse; apply pair_eq in H as [<- <-];
      rewrite Hset; (split; [done|]); cbn [s_pool Session.set_pool].
    + destruct Hte as (? & _ & ?). by split_and!.
    + destruct Ht1 as (? & _ & ?). split_and!; [done|done|by apply Hnot].
  - apply pair_eq in H as [<- <-]. destruct Ht1 as (? & _ & ?). subst e. by split_and!.
  - apply pair_eq in H as [<- <-]. destruct Ht1 as (? & _ & ?). by split_and!.
Qed.
Example send_keeps_pool_witness :
  let r := Req.make #"GET" #"http://h/" in
  let net := mkNet true true true [Received (#"HTTP/1.1 204 No Content" ++ kCRLF ++ kCRLF)] in
  exists s' r', Session.Send (fun _ => true) net net Session.make r = (s', Ret r') /\
    pool_ok (s_pool s').
Proof.
  intros r net. eexists _, _. split; [vm_compute; reflexivity|].
  eapply (send_keeps_pool (fun _ => true) net net Session.make r);
    [constructor|reflexivity|vm_compute; reflexivity].
Defined.

(** With a key that cannot be compared with one of the pool the behaviour is undefined: so it is
    for a session that has a connection to [http://b/] and is asked for [https://a/]. *)
Theorem send_undefined can_alloc net1 net2 s request :
  ClientPool.comparable (s_pool s) (Key_make (url_ request)) = false ->
  Session.Send can_alloc net1 net2 s request = (s, Throw UndefinedBehaviour).
Proof. intros H. unfold Session.Send, ClientPool.Get, ClientPool.checked. by rewrite H. Qed.
Example two_servers_undefined :
  let net := mkNet true true true [Received (#"HTTP/1.1 204 No Content" ++ kCRLF ++ kCRLF)] in
  let send s url := Session.Send (fun _ => true) net net s (Req.make #"GET" url) in
  snd (send (fst (send Session.make #"http://b/")) #"https://a/") = Throw UndefinedBehaviour.
Proof. by vm_compute. Qed.

(** A reused connection on which the parser throws stays in the pool, open, with what is left of
    that response to be read as the next one. *)
Example exception_keeps_connection :
  let answer := #"HTTP/1.1 204 No Content" ++ kCRLF ++ kCRLF in
  let chunked := #"HTTP/1.1 200 OK" ++ kCRLF ++ #"Transfer-Encoding: chunked" ++ kCRLF ++ kCRLF in
  let send cs s := Session.Send (fun _ => true) (mkNet true true true cs) (mkNet true true true [])
    s (Req.make #"GET" #"http://b/") in
  let s := fst (send [Received answer] Session.make) in
  let '(s', res) := send [Received (chunked ++ #"5"); Received (kCRLF ++ #"hello")] s in
  res = Throw LengthError /\
  map (fun kc => closed_ (snd kc)) (s_pool s') = [false].
Proof. by vm_compute. Qed.

Lemma Set_other_header hs key v k :
  Hdr.Has hs key = false -> Hdr.Has hs k = true -> Hdr.Get (Hdr.Set_ hs key v) k = Hdr.Get hs k.
Proof.
  intros Hkey Hk. rewrite Get_Set. destruct (iequals key k) eqn:E; [|done].
  unfold Hdr.Has in *. rewrite (Find_Proper hs hs eq_refl key k E) in Hkey. by rewrite Hkey in Hk.
Qed.
Lemma Get_Has hs k : snd (Hdr.Get hs k) = Hdr.Has hs k.
Proof. unfold Hdr.Get, Hdr.Has. by destruct (Hdr.Find hs k). Qed.

(** a request keeps its own headers: [Session::Request] adds a session header,
    or the session's content type, only under a key the request does not have. *)
Theorem session_headers s r k :
  Msg.HasHeader (req_message r) k = true ->
  Msg.GetHeader (req_message (Session.add_headers s r)) k = Msg.GetHeader (req_message r) k.
Proof.
  unfold Msg.HasHeader, Msg.GetHeader. intros Hk.
  assert (forall hs r, Hdr.Has (headers_ (req_message r)) k = true ->
    Hdr.Get (headers_ (req_message (fold_left Session.add_header hs r))) k =
    Hdr.Get (headers_ (req_message r)) k) as Hall.
  { induction hs as [|h hs IH]; intros r0 H; [done|]. cbn [fold_left].
    assert (Hdr.Get (headers_ (req_message (Session.add_header r0 h))) k =
            Hdr.Get (headers_ (req_message r0)) k) as Hone.
    { unfold Session.add_header. destruct (negb _) eqn:E; [|done].
      apply negb_true_iff in E. by apply Set_other_header. }
    rewrite IH; [done|]. by rewrite <- Get_Has, Hone, Get_Has. }
  unfold Session.add_headers. rewrite <- (Hall (s_headers s) r Hk).
  destruct (s_content_type s) as [|x t]; [done|]. destruct (negb _) eqn:E; [|done].
  apply negb_true_iff in E. f_equal.
  assert (Hdr.Has (headers_ (req_message (fold_left Session.add_header (s_headers s) r))) k = true)
    as Hk' by (by rewrite <- Get_Has, Hall, Get_Has).
  unfold Msg.SetContentType2. destruct (s_charset s); by apply Set_other_header.
Qed.
Example session_headers_witness :
  let r := Req.SetHeader (Req.make #"GET" #"http://h/") #"accept" #"text/html" in
  Msg.GetHeader (req_message (Session.add_headers Session.make r)) kAccept = #"text/html".
Proof. intros r. exact (session_headers Session.make r kAccept eq_refl). Defined.
