(* ===== verification/GzipContent.v ===== *)
(** * Compressed contents

    Models the code behind [#if WEBCC_ENABLE_GZIP] in [webcc/parser.cc],
    [request_builder.cc], [rest_request_handler.cc] and [client_session.cc].  The program is
    built with [WEBCC_ENABLE_GZIP] 0, which [Parser], [Client] and [Rest] model; the
    definitions here are the same functions of a build with 1. *)
From Stdlib Require Import Ascii String.
From stdpp Require Import base tactics list numbers option strings.
From S2P Require Import Prelude Globals Gzip Common Url Message Parser ParserLaws ParserProps Rest Client.

Section Build.
Context `{!Zlib} (fuel : nat).

(** [RequestBuilder::SetContent]. *)
Definition Builder_SetContent (gzip_ : bool) (r : Request) (data : str) : outcome Request :=
  if gzip_ && (kGzipThreshold <? len data)%N then
    let! (ok, compressed) := Compress fuel data in
    if ok : bool then
      let r := with_message r (Msg.SetContent (req_message r) compressed true) in
      Ret (Req.SetHeader r kContentEncoding #"gzip")
    else Ret (Builder.SetContent r data)
  else Ret (Builder.SetContent r data).

(** [RestRequestHandler::SetContent]. *)
Definition Handler_SetContent_gzip (request : Request) (response : Response) (content : str)
    : outcome Response :=
  if (kGzipThreshold <? len content)%N && Msg.AcceptEncodingGzip (req_message request) then
    let! (ok, compressed) := Compress fuel content in
    if ok : bool then
      let response := Resp.SetHeader response kContentEncoding #"gzip" in
      Ret (with_message response (Msg.SetContent (resp_message response) compressed true))
    else Ret (Handler_SetContent response content)
  else Ret (Handler_SetContent response content).

(** [ClientSession::InitHeaders]. *)
Definition InitHeaders_gzip (hs : Headers) : Headers :=
  let hs := Hdr.Set_ hs kUserAgent UserAgent in
  let hs := Hdr.Set_ hs kAcceptEncoding #"gzip, deflate" in
  let hs := Hdr.Set_ hs kAccept #"*/*" in
  Hdr.Set_ hs kConnection #"Keep-Alive".

(** What [Parser::Finish] does to the message once its length is set: the result
    [false] is that of a content that cannot be decompressed. *)
Definition finish_content (m : Message) (content : str) : outcome (Message * bool) :=
  match Msg.GetContentEncoding m with
  | kUnknown => Ret (Msg.SetContent m content false, true)
  | _ =>
      let! (ok, decompressed) := Decompress fuel content in
      if negb ok then Ret (m, false) else Ret (Msg.SetContent m decompressed false, true)
  end.

(** [Parser::Finish]: the content of the parser is moved to the message, unless it was
    decompressed from it. *)
Definition Finish_gzip {M X} `{!MessageLike M} (p : Parser M X) : outcome (Parser M X * bool) :=
  let p := set_finished p in
  match p_content_ p with
  | [] => Ret (p, true)
  | _ =>
      let p := on_message p (fun m => Msg.set_content_length m (p_content_length_ p)) in
      let! (m, ok) := finish_content (as_message (message_ p)) (p_content_ p) in
      let p := on_message p (fun _ => m) in
      Ret (if IsContentCompressed p then p else set_p_content p [], ok)
  end.
End Build.

(** ** Lemmas *)

(** A message carries [data] when a receiver that decompresses finds it. *)
Definition carries `{!Zlib} (fuel : nat) (m : Message) (data : str) : Prop :=
  exists m', finish_content fuel m (content_ m) = Ret (m', true) /\ content_ m' = data.

Lemma carries_same `{!Zlib} fuel m m' data :
  Msg.GetContentEncoding m = Msg.GetContentEncoding m' -> content_ m = content_ m' ->
  carries fuel m data -> carries fuel m' data.
Proof.
  unfold carries, finish_content. intros <- <- (x & Hx & <-).
  destruct (Msg.GetContentEncoding m).
  1: { injection Hx as <-. by eexists. }
  all: destruct (Decompress fuel (content_ m)) as [[[] d]| |]; try done;
    injection Hx as <-; by eexists.
Qed.
Lemma carries_plain `{!Zlib} fuel m : Msg.GetContentEncoding m = kUnknown ->
  carries fuel m (content_ m).
Proof. intros He. unfold carries, finish_content. rewrite He. by eexists. Qed.
Lemma carries_gzip `{!Zlib} fuel m data : Msg.GetContentEncoding m = kGzip ->
  Decompress fuel (content_ m) = Ret (true, data) -> carries fuel m data.
Proof.
  intros He Hd. unfold carries, finish_content. rewrite He, Hd. cbn [obind negb]. by eexists.
Qed.

Lemma encoding_of_headers m m' : headers_ m = headers_ m' ->
  Msg.GetContentEncoding m = Msg.GetContentEncoding m'.
Proof. unfold Msg.GetContentEncoding, Msg.GetHeader. by intros ->. Qed.
Lemma encoding_gzip m hs : headers_ m = Hdr.Set_ hs kContentEncoding #"gzip" ->
  Msg.GetContentEncoding m = kGzip.
Proof. intros H. unfold Msg.GetContentEncoding, Msg.GetHeader. by rewrite H, Get_Set. Qed.
Lemma encoding_other m hs k v : headers_ m = Hdr.Set_ hs k v -> iequals k kContentEncoding = false ->
  Msg.GetContentEncoding m = Msg.GetContentEncoding (Msg.set_headers m hs).
Proof. intros H Hk. unfold Msg.GetContentEncoding, Msg.GetHeader. by rewrite H, Get_Set, Hk. Qed.

(** Preparing a request does not change the encoding of its content. *)
Lemma Prepare_encoding uuid r r' : form_parts_ r = [] -> Req.Prepare uuid r = Ret r' ->
  Msg.GetContentEncoding (req_message r') = Msg.GetContentEncoding (req_message r).
Proof.
  intros Hf (r1 & Hr1 & Hr)%obind_Ret. apply CreateStartLine_Ret in Hr1 as [sl ->].
  cbn [form_parts_ Req.SetHeader with_message Request_MessageLike Request_with] in Hr.
  rewrite Hf in Hr. injection Hr as <-.
  unfold Msg.GetContentEncoding, Msg.GetHeader.
  cbn [req_message with_message Request_MessageLike Request_with Msg.Prepare Msg.set_payload headers_
       Msg.SetHeader Msg.set_headers Msg.set_start_line].
  by rewrite Get_Set.
Qed.

(** Contents that zlib and the fuel of the loops are enough for. *)
Definition compressible `{!Zlib} `{!Format} `{!DeflateLaws} (fuel : nat) (data : str) : Prop :=
  (len data < 4294967296)%N /\ (deflateBound (len data) < 4294967296)%N /\
  (deflateBound (len data) < N.of_nat fuel)%N /\ length data < fuel /\
  compress_undisturbed fuel data = true.

Section Laws.
Context `{!Zlib} `{!Format} `{!DeflateLaws} `{!InflateLaws} (fuel : nat).
Hypothesis inflate_starts : fst (inflateInit2 (MAX_WBITS + 32)) = Z_OK.

(** A content beyond the threshold is compressed to one that decompresses to it. *)
Lemma threshold_roundtrip data : (kGzipThreshold < len data)%N -> compressible fuel data ->
  exists z, Compress fuel data = Ret (true, z) /\ Decompress fuel z = Ret (true, data).
Proof.
  unfold kGzipThreshold. intros Ht (Hlen & Hbd & Hfu & Hsz & Hu).
  destruct (Compress_spec fuel data ltac:(lia) Hfu Hu) as (z & Hc & Hz).
  exists z. split; [done|].
  pose proof (deflate_bound_end data z Hz). apply Decompress_spec; [done|lia| |done|done].
  unfold max_size. lia.
Qed.

Lemma Builder_SetContent_carries gz r data :
  Msg.GetContentEncoding (req_message r) = kUnknown -> compressible fuel data ->
  exists r', Builder_SetContent fuel gz r data = Ret r' /\ carries fuel (req_message r') data /\
    start_line_ (req_message r') = start_line_ (req_message r) /\
    method_ r' = method_ r /\ url_ r' = url_ r /\ form_parts_ r' = form_parts_ r.
Proof.
  intros Hu Hc. unfold Builder_SetContent.
  assert (carries fuel (req_message (Builder.SetContent r data)) data) as Hplain.
  { apply (carries_plain fuel (req_message (Builder.SetContent r data))).
    rewrite (encoding_other _ (headers_ (req_message r)) kContentLength (to_dec (len data)));
      [exact Hu|done|done]. }
  destruct (gz && _) eqn:E; [|by eexists].
  apply andb_true_iff in E as [_ E%N.ltb_lt].
  destruct (threshold_roundtrip data E Hc) as (z & -> & Hz). cbn [obind].
  eexists. split; [reflexivity|]. split; [|done].
  apply carries_gzip; [by eapply encoding_gzip|done].
Qed.

(** A response is compressed only for a client that accepts it. *)
Lemma Handler_SetContent_carries request response data :
  Msg.GetContentEncoding (resp_message response) = kUnknown -> compressible fuel data ->
  exists r', Handler_SetContent_gzip fuel request response data = Ret r' /\
    carries fuel (resp_message r') data /\ status_ r' = status_ response /\
    (Msg.AcceptEncodingGzip (req_message request) = false -> content_ (resp_message r') = data).
Proof.
  intros Hu Hc. unfold Handler_SetContent_gzip.
  assert (carries fuel (resp_message (Handler_SetContent response data)) data) as Hplain.
  { apply (carries_plain fuel (resp_message (Handler_SetContent response data))).
    rewrite (encoding_other _ (headers_ (resp_message response)) kContentLength (to_dec (len data)));
      [exact Hu|done|done]. }
  destruct (_ && _) eqn:E; [|by eexists].
  apply andb_true_iff in E as [E%N.ltb_lt Ha].
  destruct (threshold_roundtrip data E Hc) as (z & -> & Hz). cbn [obind].
  eexists. split; [reflexivity|]. split; [|split; [done|by rewrite Ha]].
  apply carries_gzip; [|exact Hz].
  match goal with |- Msg.GetContentEncoding ?m = _ =>
    rewrite (encoding_other m (Hdr.Set_ (headers_ (resp_message response)) kContentEncoding #"gzip")
      kContentLength (to_dec (len z))) by done end.
  by eapply encoding_gzip.
Qed.

End Laws.

(** [Finish] of a build with gzip hands over what [finish_content] makes of the content that
    [Finish] of a build without it hands over; when it cannot be decompressed, the parser
    has finished all the same and the message keeps the content it had. *)
Lemma Finish_gzip_Finish `{!Zlib} fuel {M X} `{!MessageLike M} (p : Parser M X) :
  p_content_ p <> [] ->
  let m := as_message (message_ (Finish p)) in
  match finish_content fuel m (content_ m) with
  | Ret (m', ok) => exists q, Finish_gzip fuel p = Ret (q, ok) /\ finished_ q = true /\
      headers_ (as_message (message_ q)) = headers_ m /\
      content_ (as_message (message_ q)) =
        if ok then content_ m' else content_ (as_message (message_ p))
  | Throw e => Finish_gzip fuel p = Throw e
  | OutOfFuel => Finish_gzip fuel p = OutOfFuel
  end.
Proof.
  intros Hne. cbv zeta. set (m0 := Msg.set_content_length (as_message (message_ p)) (p_content_length_ p)).
  assert (as_message (message_ (Finish p)) = Msg.SetContent m0 (p_content_ p) false) as ->.
  { unfold Finish. cbn [p_content_ set_finished]. destruct (p_content_ p) eqn:E; [done|].
    destruct (negb _); unfold on_message, set_message, set_p_content; cbn [message_ p_content_ set_finished];
      rewrite !as_with, E; done. }
  assert (Finish_gzip fuel p =
    let! (m, ok) := finish_content fuel m0 (p_content_ p) in
    let q := on_message (on_message (set_finished p) (fun _ => m0)) (fun _ => m) in
    Ret (if IsContentCompressed q then q else set_p_content q [], ok)) as ->.
  { unfold Finish_gzip. cbn [p_content_ set_finished]. destruct (p_content_ p) eqn:E; [done|].
    unfold on_message, set_message. cbn [message_ p_content_ set_finished].
    rewrite !as_with, E. done. }
  assert (forall m, as_message (message_ (on_message (on_message (set_finished p) (fun _ => m0)) (fun _ => m)))
    = m) as Hm.
  { intros m. unfold on_message, set_message. cbn [message_]. by rewrite !as_with. }
  assert (forall m (ok : bool), headers_ m = headers_ m0 -> exists q,
    Ret (if IsContentCompressed (on_message (on_message (set_finished p) (fun _ => m0)) (fun _ => m))
         then on_message (on_message (set_finished p) (fun _ => m0)) (fun _ => m)
         else set_p_content (on_message (on_message (set_finished p) (fun _ => m0)) (fun _ => m)) [], ok)
      = Ret (q, ok) /\ finished_ q = true /\ headers_ (as_message (message_ q)) = headers_ m0 /\
    content_ (as_message (message_ q)) = content_ m) as Hq.
  { intros m ok Hh. eexists. split; [reflexivity|].
    destruct (IsContentCompressed _); cbn [finished_ message_ set_p_content];
      rewrite Hm; by split_and!. }
  unfold finish_content. change (content_ (Msg.SetContent m0 (p_content_ p) false)) with (p_content_ p).
  rewrite <- (encoding_of_headers m0 (Msg.SetContent m0 (p_content_ p) false)) by done.
  destruct (Msg.GetContentEncoding m0); cbn [obind];
    [|destruct (Decompress fuel (p_content_ p)) as [[[] d]| |]; cbn [obind negb]; try done..].
  all: cbv beta; match goal with |- exists q, Ret (if IsContentCompressed (on_message _ (fun _ =>
    ?m)) then _ else _, ?ok) = _ /\ _ =>
    destruct (Hq m ok eq_refl) as (q & E & Hf & Hh & Hc) end;
    exists q; split; [exact E|]; by rewrite Hf, Hh, Hc.
Qed.

(** ** Correctness *)

(** Compressed requests over the wire: the content that [RequestBuilder] is given, whether it is
    compressed or not, arrives: the parser of [Parser], which does not decompress, is fed the
    bytes of the prepared request in any reads and finishes, and [finish_content] of what it
    received gives back the original bytes; [Finish_gzip_Finish] says that this is what [Finish]
    of the build with gzip does to it. *)
Theorem gzip_over_the_wire `{!Zlib} `{!Format} `{!DeflateLaws} `{!InflateLaws}
    fuel can_alloc uuid gz r data r1 r' ds :
  fst (inflateInit2 (MAX_WBITS + 32)) = Z_OK -> compressible fuel data ->
  Msg.GetContentEncoding (req_message r) = kUnknown ->
  start_line_ (req_message r) = [] -> form_parts_ r = [] ->
  word (method_ r) -> plain_target (path_ (url_ r)) (query_ (url_ r)) ->
  Builder_SetContent fuel gz r data = Ret r1 -> Req.Prepare uuid r1 = Ret r' ->
  sendable can_alloc (headers_ (req_message r')) (content_ (req_message r1)) ->
  concat ds = Msg.CopyPayload (req_message r') ->
  exists p m, ParseAll can_alloc (ReqParser.make Req.new) ds = Ret (p, true) /\
    finished_ p = true /\
    finish_content fuel (req_message (message_ p)) (content_ (req_message (message_ p))) =
      Ret (m, true) /\
    content_ m = data.
Proof.
  intros Hi Hc Hu Hs Hf Hw Ht Hb Hp Hsend Hds.
  destruct (Builder_SetContent_carries fuel Hi gz r data Hu Hc) as (r2 & Hr2 & Hcar & Hs2 & Hm2 & Hu2 & Hf2).
  rewrite Hb in Hr2. injection Hr2 as <-.
  destruct (request_parsed can_alloc uuid r1 r' ds) as (p & Hpa & Hfin & _ & _ & Hh & Hcont);
    try done; [by rewrite Hs2|by rewrite Hf2|by rewrite Hm2|by rewrite Hu2|].
  destruct (carries_same fuel (req_message r1) (req_message (message_ p)) data) as (m & Hm & Hd);
    [| |exact Hcar|].
  - rewrite (encoding_of_headers (req_message (message_ p)) (req_message r')) by done.
    symmetry. apply (Prepare_encoding uuid r1 r'); [by rewrite Hf2|done].
  - done.
  - by exists p, m.
Qed.
Example gzip_over_the_wire_witness :
  let data := repeat "a"%char 1500 in
  let r := Req.make #"POST" #"http://h/images" in
  exists r1 r' p m, Builder_SetContent 1600 true r data = Ret r1 /\
    Msg.GetContentEncoding (req_message r1) = kGzip /\ Req.Prepare [] r1 = Ret r' /\
    ParseAll (fun _ => true) (ReqParser.make Req.new) [Msg.CopyPayload (req_message r')] =
      Ret (p, true) /\
    finish_content 1600 (req_message (message_ p)) (content_ (req_message (message_ p))) =
      Ret (m, true) /\
    content_ m = data.
Proof.
  intros data r.
  destruct (Builder_SetContent 1600 true r data) as [r1| |] eqn:E1; [|vm_compute in E1; discriminate..].
  destruct (Req.Prepare [] r1) as [r'| |] eqn:E2;
    [|vm_compute in E1; injection E1 as <-; vm_compute in E2; discriminate..].
  destruct (gzip_over_the_wire 1600 (fun _ => true) [] true r data r1 r' [Msg.CopyPayload (req_message r')])
    as (p & m & H1 & _ & H2 & H3); [reflexivity| |reflexivity|reflexivity|reflexivity| | |exact
      E1|exact E2| |apply app_nil_r|].
  - split_and!; [reflexivity|reflexivity|reflexivity|apply Nat.ltb_lt; vm_compute; reflexivity|vm_compute; reflexivity].
  - split; [discriminate|]. split; decide_now.
  - split_and!; [split; [discriminate|split; decide_now]|decide_now|decide_now|reflexivity].
  - vm_compute in E1. injection E1 as <-. vm_compute in E2. injection E2 as <-. sendable_now.
  - exists r1, r', p, m. split_and!; [reflexivity| |exact E2|exact H1|exact H2|exact H3].
    vm_compute in E1. injection E1 as <-. reflexivity.
Defined.
