(* ===== verification/Sockets.v ===== *)
(** * Sockets and TLS, and the client over them

    Models [webcc/socket.h] and [socket.cc], and the functions of [client.cc] with their
    calls of the socket; [Client] has the same functions with the results of the network as an
    argument, and [SocketsProps] shows that this is the same.

    What Boost.Asio and OpenSSL are asked to do is a sequence of calls; what they answer is the
    parameter [asio], which may depend on all the calls before. *)
From Stdlib Require Import Ascii String.
From stdpp Require Import base tactics list numbers option strings.
From S2P Require Import Prelude Globals Common Url Message Parser Client.

(** ** Calls of the library *)
Inductive AsioCall :=
  | Resolve (host port : str)             (* resolver.resolve *)
  | TcpConnect (host port : str)          (* asio::connect, with the endpoints of a name *)
  | TcpWrite (bytes : str)                (* asio::write on the TCP socket *)
  | TcpReadSome                           (* async_read_some on the TCP socket *)
  | TcpClose
  | SetDefaultVerifyPaths
  | SetVerifyMode (peer : bool)
  | SetVerifyCallback (host : str)        (* rfc2818_verification(host) *)
  | TlsHandshake
  | TlsWrite (bytes : str)
  | TlsReadSome.
(** The answer: an error code, with its message, or none. *)
Definition error_code : Type := option str.
Definition Asio : Type := list AsioCall -> AsioCall -> error_code.
Abbreviation Trace := (list AsioCall).

Section Library.
Context (asio : Asio).

(** A call appends itself to the trace. *)
Definition call (tr : Trace) (c : AsioCall) : Trace * error_code := (tr ++ [c], asio tr c).

(** ** [class SocketBase]: the virtual functions *)
Record Endpoints := mkEndpoints { ep_host : str; ep_port : str }.
Class SocketBase (S : Type) := {
  Connect : S -> str -> Endpoints -> Trace -> Trace * error_code;
  Write : S -> Request -> Trace -> Trace * error_code;
  AsyncReadSome : S -> Trace -> Trace;
  Close : S -> Trace -> Trace * error_code
}.

(** *** [class Socket] *)
Inductive Socket := mkSocket.
Definition Socket_Connect (_ : Socket) (host : str) (endpoints : Endpoints) (tr : Trace) :=
  call tr (TcpConnect (ep_host endpoints) (ep_port endpoints)).
Definition Socket_Write (_ : Socket) (request : Request) (tr : Trace) :=
  call tr (TcpWrite (Msg.CopyPayload (req_message request))).
Definition Socket_AsyncReadSome (_ : Socket) (tr : Trace) : Trace := fst (call tr TcpReadSome).
Definition Socket_Close (_ : Socket) (tr : Trace) := call tr TcpClose.
#[global] Instance Socket_SocketBase : SocketBase Socket := {
  Connect := Socket_Connect; Write := Socket_Write;
  AsyncReadSome := Socket_AsyncReadSome; Close := Socket_Close
}.

(** *** [class SslSocket] *)
Record SslSocket := mkSslSocket { ssl_verify_ : bool }.
Definition SslSocket_make (ssl_verify : bool) (tr : Trace) : SslSocket * Trace :=
  (mkSslSocket ssl_verify, fst (call tr SetDefaultVerifyPaths)).
Definition Handshake (s : SslSocket) (host : str) (tr : Trace) : Trace * error_code :=
  let tr := if ssl_verify_ s then fst (call tr (SetVerifyMode true))
            else fst (call tr (SetVerifyMode false)) in
  let tr := fst (call tr (SetVerifyCallback host)) in
  call tr TlsHandshake.
Definition SslSocket_Connect (s : SslSocket) (host : str) (endpoints : Endpoints) (tr : Trace) :=
  let '(tr, ec) := call tr (TcpConnect (ep_host endpoints) (ep_port endpoints)) in
  match ec with
  | Some _ => (tr, ec)
  | None => Handshake s host tr
  end.
Definition SslSocket_Write (_ : SslSocket) (request : Request) (tr : Trace) :=
  call tr (TlsWrite (Msg.CopyPayload (req_message request))).
Definition SslSocket_AsyncReadSome (_ : SslSocket) (tr : Trace) : Trace := fst (call tr TlsReadSome).
(** [lowest_layer().close]. *)
Definition SslSocket_Close (_ : SslSocket) (tr : Trace) := call tr TcpClose.
#[global] Instance SslSocket_SocketBase : SocketBase SslSocket := {
  Connect := SslSocket_Connect; Write := SslSocket_Write;
  AsyncReadSome := SslSocket_AsyncReadSome; Close := SslSocket_Close
}.

(** *** A pointer to the base class *)
Inductive AnySocket := ASocket (s : Socket) | ASslSocket (s : SslSocket).
#[global] Instance AnySocket_SocketBase : SocketBase AnySocket := {
  Connect s := match s with ASocket s => Connect s | ASslSocket s => Connect s end;
  Write s := match s with ASocket s => Write s | ASslSocket s => Write s end;
  AsyncReadSome s := match s with ASocket s => AsyncReadSome s | ASslSocket s => AsyncReadSome s end;
  Close s := match s with ASocket s => Close s | ASslSocket s => Close s end
}.

(** ** [class Client] with its socket *)

(** [socket_] is null until the first connect; using it then is undefined behaviour. *)
Record ClientIO := mkClientIO {
  io_client : Client;
  socket_ : option AnySocket;
  io_trace : Trace
}.
Definition null_socket {A} : outcome A := Throw UndefinedBehaviour.
Definition set_client (c : ClientIO) (cl : Client) : ClientIO :=
  mkClientIO cl (socket_ c) (io_trace c).

(** [Client::Close]; [Client.Close] is its effect on the members. *)
Definition Client_Close (c : ClientIO) : outcome ClientIO :=
  if closed_ (io_client c) then Ret c
  else match socket_ c with
       | None => null_socket
       | Some s => Ret (mkClientIO (Client.Close (io_client c)) (socket_ c)
                          (fst (Close s (io_trace c))))
       end.

(** [Client::DoConnect]. *)
Definition Client_DoConnect (c : ClientIO) (request : Request) (default_port : str)
    : outcome (ClientIO * Error) :=
  let port := Req.port request default_port in
  let host := host_ (url_ request) in
  let '(tr, ec) := call (io_trace c) (Resolve host port) in
  let c := mkClientIO (io_client c) (socket_ c) tr in
  match ec with
  | Some _ => Ret (c, kHostResolveError)
  | None =>
      match socket_ c with
      | None => null_socket
      | Some s =>
          let '(tr, ec) := Connect s host (mkEndpoints host port) (io_trace c) in
          let c := mkClientIO (io_client c) (socket_ c) tr in
          match ec with
          | Some _ => let! c := Client_Close c in Ret (c, kEndpointConnectError)
          | None => Ret (c, kNoError)
          end
      end
  end.

(** [Client::Connect], built with [WEBCC_ENABLE_SSL]. *)
Definition Client_Connect (c : ClientIO) (request : Request) : outcome (ClientIO * Error) :=
  if seqb (scheme_ (url_ request)) #"https" then
    let '(s, tr) := SslSocket_make (cl_ssl_verify (io_client c)) (io_trace c) in
    Client_DoConnect (mkClientIO (io_client c) (Some (ASslSocket s)) tr) request kPort443
  else
    Client_DoConnect (mkClientIO (io_client c) (Some (ASocket mkSocket)) (io_trace c)) request kPort80.

(** [Client::WriteReqeust]. *)
Definition Client_WriteReqeust (c : ClientIO) (request : Request) : outcome (ClientIO * Error) :=
  match socket_ c with
  | None => null_socket
  | Some s =>
      let '(tr, ec) := Write s request (io_trace c) in
      let c := mkClientIO (io_client c) (socket_ c) tr in
      match ec with
      | Some _ => let! c := Client_Close c in Ret (c, kSocketWriteError)
      | None => Ret (c, kNoError)
      end
  end.

(** [Client::DoReadResponse]: starts a read, whose completion is one of [cs] (see
    [Client.DoReadResponse]). *)
Section Read.
Context (can_alloc : N -> bool).
Definition start_read (c : ClientIO) : outcome ClientIO :=
  match socket_ c with
  | None => null_socket
  | Some s => Ret (mkClientIO (io_client c) (socket_ c) (AsyncReadSome s (io_trace c)))
  end.
Definition on_client (c : ClientIO) (f : Client -> Client) : ClientIO := set_client c (f (io_client c)).
(** [OnTimer] when the deadline has passed. *)
Definition Client_OnTimer (c : ClientIO) : outcome ClientIO :=
  if closed_ (io_client c) then Ret c else Client_Close (on_client c Client.set_timed_out).
(** The completions of the read that was started. *)
Fixpoint read_completes (c : ClientIO) (cs : list Completion) : outcome (ClientIO * Error) :=
  match cs with
  | [] => OutOfFuel
  | TimerIdle :: cs => read_completes c cs
  | Expired :: cs => let! c := Client_OnTimer c in read_completes c cs
  | ReadFailed :: _ | Received [] :: _ =>
      let! c := Client_Close (on_client c Client.CancelTimer) in Ret (c, kSocketReadError)
  | Received data :: cs =>
      let c := on_client c Client.CancelTimer in
      let! (p, ok) := Parse can_alloc (cl_parser (io_client c)) data in
      let c := on_client c (fun cl => Client.set_parser cl p) in
      if negb ok then let! c := Client_Close c in Ret (c, kHttpError)
      else if finished_ p then
        let! c := if Msg.IsConnectionKeepAlive (resp_message (cl_response (io_client c))) then Ret c
                  else Client_Close c in
        Ret (c, kNoError)
      else if negb (closed_ (io_client c)) then
        let! c := start_read c in read_completes c cs
      else Ret (c, kNoError)
  end.
Definition Client_ReadResponse (c : ClientIO) (cs : list Completion) : outcome (ClientIO * Error) :=
  let! c := start_read c in read_completes c cs.

(** [Client::Request]. *)
Definition Client_Request (c : ClientIO) (request : Request) (connect : bool) (cs : list Completion)
    : outcome (ClientIO * bool) :=
  let cl := io_client c in
  let c := set_client c
    (mkClient Response_new (RespParser.Init (cl_parser cl) Response_new) (cl_ssl_verify cl)
       (cl_buffer_size cl) (cl_timeout cl) false false false kNoError) in
  let! (c, e) := if connect then Client_Connect c request else Ret (c, kNoError) in
  if decide (e <> kNoError) then Ret (on_client c (fun cl => Client.set_error cl e), false)
  else
    let! (c, e) := Client_WriteReqeust c request in
    if decide (e <> kNoError) then Ret (on_client c (fun cl => Client.set_error cl e), false)
    else
      let! (c, e) := Client_ReadResponse c cs in
      Ret (on_client c (fun cl => Client.set_error cl e), bool_decide (e = kNoError)).
End Read.
End Library.
