(* ===== verification/SocketsProps.v ===== *)
(** * Sockets and TLS: properties

    The client over its sockets is the client of [Client], whose network is what the
    library answers; and a request over HTTPS is written inside TLS only, behind a handshake
    that succeeded. *)
From Stdlib Require Import Ascii String.
From stdpp Require Import base tactics list sets numbers option strings.
From S2P Require Import Prelude Globals Common Url Message Parser Client Sockets.

Section Properties.
Context (asio : Asio) (can_alloc : N -> bool).
#[local] Instance any_socket : SocketBase AnySocket := AnySocket_SocketBase asio.

(** ** Reading *)

(** What a socket is asked for once the request is written. *)
Definition reading (s : AnySocket) (a : AsioCall) : Prop :=
  a = TcpClose \/ a = match s with ASocket _ => TcpReadSome | ASslSocket _ => TlsReadSome end.
(** [c'] is [c] after the calls [tail], with the members [cl]. *)
Definition advanced (c c' : ClientIO) (cl : Client) (P : AsioCall -> Prop) : Prop :=
  io_client c' = cl /\ socket_ c' = socket_ c /\
  exists tail, io_trace c' = io_trace c ++ tail /\ Forall P tail.
Lemma advanced_trans P c1 c2 c3 cl2 cl3 :
  advanced c1 c2 cl2 P -> advanced c2 c3 cl3 P -> advanced c1 c3 cl3 P.
Proof.
  intros (_ & Hs1 & t1 & Ht1 & H1) (Hc & Hs2 & t2 & Ht2 & H2). split; [done|]. split; [congruence|].
  exists (t1 ++ t2). rewrite Ht2, Ht1, app_assoc. split; [done|by apply Forall_app].
Qed.
Lemma advanced_client P c (f : Client -> Client) : advanced c (on_client c f) (f (io_client c)) P.
Proof. split; [done|]. split; [done|]. exists []. split; [by rewrite app_nil_r|by apply Forall_nil]. Qed.

(** A computation of the client over sockets does to the members what the other one does. *)
Definition follows {A} (P : AsioCall -> Prop) (c : ClientIO) (m : outcome (ClientIO * A))
    (m' : Client * outcome A) : Prop :=
  match m' with
  | (cl, Ret a) => exists c', m = Ret (c', a) /\ advanced c c' cl P
  | (_, Throw e) => m = Throw e
  | (_, OutOfFuel) => m = OutOfFuel
  end.
Lemma calls_follow_weaken {A} (P : AsioCall -> Prop) c1 c2 cl (m : outcome (ClientIO * A)) m' :
  advanced c1 c2 cl P -> follows P c2 m m' -> follows P c1 m m'.
Proof.
  unfold follows. intros Ha H. destruct m' as [cl' [a| |]]; [|done..].
  destruct H as (c' & -> & H). exists c'. split; [done|]. by eapply advanced_trans.
Qed.

Lemma Client_Close_advanced c s : socket_ c = Some s ->
  exists c', Client_Close asio c = Ret c' /\ advanced c c' (Client.Close (io_client c)) (reading s).
Proof.
  intros Hs. unfold Client_Close. destruct (closed_ (io_client c)) eqn:E.
  - exists c. split; [done|]. split; [by unfold Client.Close; rewrite E|]. split; [done|].
    exists []. split; [by rewrite app_nil_r|by apply Forall_nil].
  - rewrite Hs. eexists. split; [reflexivity|]. split; [done|]. split; [done|].
    exists [TcpClose]. split; [by destruct s|]. apply Forall_singleton. by left.
Qed.
Lemma start_read_advanced c s : socket_ c = Some s ->
  exists c', start_read asio c = Ret c' /\ advanced c c' (io_client c) (reading s).
Proof.
  intros Hs. unfold start_read. rewrite Hs. eexists. split; [reflexivity|].
  split; [done|]. split; [done|]. destruct s as [s|s].
  - exists [TcpReadSome]. split; [done|]. apply Forall_singleton. by right.
  - exists [TlsReadSome]. split; [done|]. apply Forall_singleton. by right.
Qed.

(** Closing behind a change of the members, and ending with [a]. *)
Lemma close_follows {A} c s (f : Client -> Client) (a : A) : socket_ c = Some s ->
  follows (reading s) c (let! c := Client_Close asio (on_client c f) in Ret (c, a))
    (Client.Close (f (io_client c)), Ret a).
Proof.
  intros Hs. destruct (Client_Close_advanced (on_client c f) s Hs) as (c' & -> & Ha). cbn.
  exists c'. split; [done|]. eapply advanced_trans; [apply (advanced_client _ c f)|done].
Qed.
Lemma follows_Ret {A} P c (f : Client -> Client) (a : A) :
  follows P c (Ret (on_client c f, a)) (f (io_client c), Ret a).
Proof. eexists. split; [done|]. apply advanced_client. Qed.

Lemma read_follows cs : forall c s, socket_ c = Some s ->
  follows (reading s) c (read_completes asio can_alloc c cs)
    (Client.DoReadResponse can_alloc (io_client c) cs).
Proof.
  induction cs as [|x cs IH]; intros c s Hs; [done|].
  destruct x as [data| | |]; cbn [read_completes Client.DoReadResponse].
  - destruct data as [|b data]; [by apply (close_follows c s Client.CancelTimer)|].
    set (c1 := on_client c Client.CancelTimer).
    change (cl_parser (io_client c1)) with (cl_parser (Client.CancelTimer (io_client c))).
    destruct (Parse _ _ _) as [[p ok]| |]; cbn [obind]; [|done..].
    set (f := fun cl => Client.set_parser (Client.CancelTimer cl) p).
    change (on_client c1 (fun cl => Client.set_parser cl p)) with (on_client c f).
    change (Client.set_parser (Client.CancelTimer (io_client c)) p) with (f (io_client c)).
    destruct (negb ok); [by apply (close_follows c s f)|].
    change (io_client (on_client c f)) with (f (io_client c)).
    destruct (finished_ p).
    + destruct (Msg.IsConnectionKeepAlive _); [apply follows_Ret|by apply (close_follows c s f)].
    + destruct (negb (closed_ (f (io_client c)))); [|apply follows_Ret].
      destruct (start_read_advanced (on_client c f) s Hs) as (c2 & -> & Ha). cbn [obind].
      eapply calls_follow_weaken; [apply (advanced_client _ c f)|].
      eapply calls_follow_weaken; [exact Ha|].
      destruct Ha as (Hc & Hs2 & _). rewrite <- (Hc : io_client c2 = f (io_client c)).
      apply IH. by rewrite Hs2.
  - by apply (close_follows c s Client.CancelTimer).
  - unfold Client_OnTimer, Client.OnTimer. destruct (closed_ (io_client c)); cbn [obind].
    + by apply IH.
    + destruct (Client_Close_advanced (on_client c Client.set_timed_out) s Hs) as (c2 & -> & Ha).
      cbn [obind]. eapply calls_follow_weaken; [apply (advanced_client _ c Client.set_timed_out)|].
      eapply calls_follow_weaken; [exact Ha|]. destruct Ha as (Hc & Hs2 & _).
      change (io_client (on_client c Client.set_timed_out)) with (Client.set_timed_out (io_client c)) in Hc.
      rewrite <- Hc. apply IH. by rewrite Hs2.
  - by apply IH.
Qed.

(** ** The network that the library makes *)

(** The socket [Connect] creates for a request, and the trace behind its constructor. *)
Definition new_socket (c : ClientIO) (request : Request) : AnySocket * Trace :=
  if seqb (scheme_ (url_ request)) #"https" then
    let '(s, tr) := SslSocket_make asio (cl_ssl_verify (io_client c)) (io_trace c) in (ASslSocket s, tr)
  else (ASocket mkSocket, io_trace c).
Definition request_port (request : Request) : str :=
  Req.port request (if seqb (scheme_ (url_ request)) #"https" then kPort443 else kPort80).
Definition is_ok (ec : error_code) : bool := match ec with None => true | Some _ => false end.

(** What the library answers while a request is made. *)
Definition net_of (c : ClientIO) (request : Request) (connect : bool) (cs : list Completion) : Net :=
  let host := host_ (url_ request) in
  let port := request_port request in
  let '(s, tr0) := new_socket c request in
  let '(tr1, ec1) := call asio tr0 (Resolve host port) in
  let '(tr2, ec2) := Connect s host (mkEndpoints host port) tr1 in
  let '(s, tr) := if connect then (Some s, tr2) else (socket_ c, io_trace c) in
  mkNet (is_ok ec1) (is_ok ec2)
    (match s with Some s => is_ok (snd (Write s request tr)) | None => false end) cs.

(** ** Connecting and writing *)
Lemma follows_end {A} (P : AsioCall -> Prop) c c' cl (a : A) :
  advanced c c' cl P -> follows P c (Ret (c', a)) (cl, Ret a).
Proof. intros H. by exists c'. Qed.

Lemma Client_Close_members c s : socket_ c = Some s ->
  exists c', Client_Close asio c = Ret c' /\ io_client c' = Client.Close (io_client c) /\
    socket_ c' = Some s.
Proof.
  intros Hs. destruct (Client_Close_advanced c s Hs) as (c' & H & Hc & Hs' & _).
  exists c'. split_and!; [done|done|congruence].
Qed.

Lemma DoConnect_members c request s tr default_port cs :
  let host := host_ (url_ request) in
  let port := Req.port request default_port in
  let '(tr1, ec1) := call asio tr (Resolve host port) in
  let '(tr2, ec2) := Connect s host (mkEndpoints host port) tr1 in
  let net := mkNet (is_ok ec1) (is_ok ec2) (is_ok (snd (Write s request tr2))) cs in
  let r := Client.DoConnect net (io_client c) request default_port in
  exists c', Client_DoConnect asio (mkClientIO (io_client c) (Some s) tr) request default_port =
      Ret (c', snd r) /\
    io_client c' = fst r /\ socket_ c' = Some s /\
    (snd r = kNoError -> write_ok net = is_ok (snd (Write s request (io_trace c')))).
Proof.
  cbv zeta. unfold Client_DoConnect, Client.DoConnect. cbn [io_trace io_client socket_].
  destruct (call asio tr _) as [tr1 ec1]. destruct ec1 as [e|].
  { destruct (Connect _ _ _ _) as [tr2 ec2]. cbn.
    eexists. split; [reflexivity|]. by split_and!. }
  fold any_socket. destruct (Connect _ _ _ _) as [tr2 ec2]. destruct ec2 as [e|].
  { cbn [is_ok resolve_ok connect_ok negb fst snd].
    destruct (Client_Close_members (mkClientIO (io_client c) (Some s) tr2) s eq_refl)
      as (c' & -> & H1 & H2). exists c'. by split_and!. }
  cbn [is_ok resolve_ok connect_ok negb fst snd].
  eexists. split; [reflexivity|]. by split_and!.
Qed.

Lemma Client_Connect_members c request cs :
  let net := net_of c request true cs in
  exists c', Client_Connect asio c request = Ret (c', snd (fst (Client.Connect net (io_client c) request))) /\
    io_client c' = fst (fst (Client.Connect net (io_client c) request)) /\
    socket_ c' = Some (fst (new_socket c request)) /\
    (snd (fst (Client.Connect net (io_client c) request)) = kNoError ->
     write_ok net = is_ok (snd (Write (fst (new_socket c request)) request (io_trace c')))).
Proof.
  cbv zeta. unfold Client_Connect, Client.Connect, net_of, request_port, new_socket.
  destruct (seqb (scheme_ (url_ request)) #"https"); unfold SslSocket_make; cbn [fst snd].
  all: match goal with |- context [Client_DoConnect _ (mkClientIO _ (Some ?s) ?tr) _ ?port] =>
    pose proof (DoConnect_members c request s tr port cs) as H; cbv zeta in H;
    destruct (call asio tr _) as [tr1 ec1]; destruct (Connect s _ _ tr1) as [tr2 ec2];
    exact H end.
Qed.

(** Writing and reading, on the socket there is. *)
Lemma write_follows c s request net cs : socket_ c = Some s ->
  write_ok net = is_ok (snd (Write s request (io_trace c))) -> completions net = cs ->
  let m' := let '(cl, e) := Client.WriteReqeust net (io_client c) request in
    if decide (e <> kNoError) then (Client.set_error cl e, Ret false)
    else match Client.ReadResponse can_alloc net cl with
         | (cl, Ret e) => (Client.set_error cl e, Ret (bool_decide (e = kNoError)))
         | (cl, Throw e) => (cl, Throw e)
         | (cl, OutOfFuel) => (cl, OutOfFuel)
         end in
  let m := let! (c, e) := Client_WriteReqeust asio c request in
    if decide (e <> kNoError) then Ret (on_client c (fun cl => Client.set_error cl e), false)
    else let! (c, e) := Client_ReadResponse asio can_alloc c cs in
         Ret (on_client c (fun cl => Client.set_error cl e), bool_decide (e = kNoError)) in
  match m' with
  | (cl, Ret ok) => exists c', m = Ret (c', ok) /\ io_client c' = cl /\ socket_ c' = Some s
  | (_, Throw e) => m = Throw e
  | (_, OutOfFuel) => m = OutOfFuel
  end.
Proof.
  intros Hs Hw Hcs. cbv zeta. unfold Client.WriteReqeust, Client_WriteReqeust. rewrite Hs, Hw.
  fold any_socket. destruct (Write s request (io_trace c)) as [tr ec]. cbn [snd].
  destruct ec as [e|]; cbn [is_ok negb].
  - destruct (Client_Close_members (mkClientIO (io_client c) (Some s) tr) s eq_refl)
      as (c' & -> & H1 & H2). cbn [obind]. rewrite !decide_True by done.
    eexists. split; [reflexivity|]. cbn. by rewrite H1.
  - cbn [obind]. rewrite !decide_False by auto. unfold Client_ReadResponse, Client.ReadResponse.
    destruct (start_read_advanced (mkClientIO (io_client c) (Some s) tr) s eq_refl)
      as (c1 & -> & Hc1 & Hs1 & _). cbn [obind]. rewrite Hcs.
    pose proof (read_follows cs c1 s Hs1) as Hr. rewrite Hc1 in Hr. cbn [io_client] in Hr.
    unfold follows in Hr.
    destruct (Client.DoReadResponse can_alloc (io_client c) cs) as [cl [e| |]]; cbn [obind].
    + destruct Hr as (c2 & -> & Hc2 & Hs2 & _). cbn [obind]. eexists. split; [reflexivity|].
      cbn. rewrite Hc2, Hs2, Hs1. done.
    + by rewrite Hr.
    + by rewrite Hr.
Qed.

(** The client over its sockets refines the client of [Client]: [Client::Request], with its
    socket created by the scheme of the URL, does to the members of the client, on every branch,
    what [Client.Request_] does whose network is what Asio and OpenSSL answer to the calls of
    the socket; so what [Client] shows of a request holds over both kinds of sockets. *)
Theorem sockets_implement_net c request connect cs :
  (connect = false -> socket_ c <> None) ->
  let m' := Client.Request_ can_alloc (net_of c request connect cs) (io_client c) request connect in
  let m := Client_Request asio can_alloc c request connect cs in
  match m' with
  | (cl, Ret ok) => exists c', m = Ret (c', ok) /\ io_client c' = cl /\
      socket_ c' = (if connect then Some (fst (new_socket c request)) else socket_ c)
  | (_, Throw e) => m = Throw e
  | (_, OutOfFuel) => m = OutOfFuel
  end.
Proof.
  intros Hsock. cbv zeta. unfold Client.Request_, Client_Request.
  set (cl0 := mkClient _ _ _ _ _ _ _ _ _). set (c0 := set_client c cl0).
  assert (net_of c request connect cs = net_of c0 request connect cs) as -> by done.
  change cl0 with (io_client c0). destruct connect.
  - destruct (Client_Connect_members c0 request cs) as (c1 & -> & Hc1 & Hs1 & Hw).
    destruct (Client.Connect _ (io_client c0) request) as [[cl1 e1] port]. cbn [fst snd obind] in *.
    destruct (decide (e1 <> kNoError)) as [He|He].
    + eexists. split; [reflexivity|]. cbn. rewrite Hc1. by split_and!.
    + apply dec_stable in He. specialize (Hw He). subst cl1.
      pose proof (write_follows c1 _ request (net_of c0 request true cs) cs Hs1 Hw) as H.
      cbv zeta in H. apply H. unfold net_of. by repeat case_match.
  - cbn [obind]. rewrite !decide_False by auto.
    destruct (socket_ c) as [s|] eqn:Hs; [|by specialize (Hsock eq_refl)].
    pose proof (write_follows c0 s request (net_of c0 request false cs) cs Hs) as H. cbv zeta in H.
    apply H; unfold net_of; repeat case_match; simplify_eq/=; congruence.
Qed.

(** ** What is asked of the library for a request over HTTPS *)

(** The calls behind which the request may be written. *)
Definition tls_setup (c : ClientIO) (request : Request) : Trace :=
  let host := host_ (url_ request) in
  let port := Req.port request kPort443 in
  [SetDefaultVerifyPaths; Resolve host port; TcpConnect host port;
   SetVerifyMode (cl_ssl_verify (io_client c)); SetVerifyCallback host; TlsHandshake].
Definition answered (tr : Trace) (calls : Trace) (a : AsioCall) : Prop :=
  exists before after, calls = before ++ a :: after /\ asio (tr ++ before) a = None.

(** Writing and reading over a TLS socket: the payload first, then reads and the close. *)
Lemma write_trace c sv request cs c' ok : socket_ c = Some (ASslSocket sv) ->
  (let! (c, e) := Client_WriteReqeust asio c request in
   if decide (e <> kNoError) then Ret (on_client c (fun cl => Client.set_error cl e), false)
   else let! (c, e) := Client_ReadResponse asio can_alloc c cs in
        Ret (on_client c (fun cl => Client.set_error cl e), bool_decide (e = kNoError))) = Ret (c', ok) ->
  exists rest, Forall (reading (ASslSocket sv)) rest /\
    io_trace c' = io_trace c ++ TlsWrite (Msg.CopyPayload (req_message request)) :: rest.
Proof.
  intros Hs H. unfold Client_WriteReqeust in H. rewrite Hs in H.
  cbn [Write AnySocket_SocketBase SslSocket_SocketBase] in H. unfold SslSocket_Write, call in H.
  set (w := TlsWrite _) in *. destruct (asio (io_trace c) w) as [e|].
  - destruct (Client_Close_advanced (mkClientIO (io_client c) (Some (ASslSocket sv)) (io_trace c ++ [w]))
      (ASslSocket sv) eq_refl) as (c1 & Hc1 & _ & _ & tail & Ht & Hf).
    rewrite Hc1 in H. cbn [obind] in H. rewrite decide_True in H by done. injection H as <- <-.
    exists tail. split; [done|]. cbn. rewrite Ht. cbn. by rewrite <- app_assoc.
  - cbn [obind] in H. rewrite decide_False in H by auto. unfold Client_ReadResponse in H.
    destruct (start_read_advanced (mkClientIO (io_client c) (Some (ASslSocket sv)) (io_trace c ++ [w]))
      (ASslSocket sv) eq_refl) as (c1 & Hc1 & Hm1 & Hs1 & t1 & Ht1 & Hf1).
    rewrite Hc1 in H. cbn [obind] in H. pose proof (read_follows cs c1 _ Hs1) as Hr. unfold follows in Hr.
    destruct (Client.DoReadResponse can_alloc (io_client c1) cs) as [cl [e| |]];
      [|rewrite Hr in H; done..].
    destruct Hr as (c2 & Hc2 & _ & _ & t2 & Ht2 & Hf2). rewrite Hc2 in H. injection H as <- <-.
    exists (t1 ++ t2). split; [by apply Forall_app|]. cbn. rewrite Ht2, Ht1. cbn.
    by rewrite <- !app_assoc.
Qed.

(** Calls that send nothing of a request. *)
Definition no_request (tail : Trace) : Prop :=
  forall bytes, TlsWrite bytes ∉ tail /\ TcpWrite bytes ∉ tail.
Lemma reading_no_request s tail : Forall (reading s) tail -> no_request tail.
Proof.
  intros Hf bytes. rewrite Forall_forall in Hf.
  split; intros Hin; apply Hf in Hin as [|]; by destruct s.
Qed.
Lemma no_request_app a b : no_request a -> no_request b -> no_request (a ++ b).
Proof.
  intros Ha Hb bytes. rewrite !not_elem_of_app. split; split; (apply Ha || apply Hb).
Qed.

(** A failed connect: the socket is closed. *)
Lemma connect_fails c s tail c' e :
  (let! c := Client_Close asio (mkClientIO (io_client c) (Some s) (io_trace c ++ tail)) in
   Ret (c, kEndpointConnectError)) = Ret (c', e) -> no_request tail ->
  socket_ c' = Some s /\ e <> kNoError /\
  exists tail', io_trace c' = io_trace c ++ tail' /\ no_request tail'.
Proof.
  intros Hc Ht.
  destruct (Client_Close_advanced (mkClientIO (io_client c) (Some s) (io_trace c ++ tail)) s eq_refl)
    as (c1 & Hc1 & _ & Hs1 & t1 & Ht1 & Hf1).
  rewrite Hc1 in Hc. injection Hc as <- <-. split; [by rewrite Hs1|]. split; [done|].
  exists (tail ++ t1). split; [by rewrite Ht1, app_assoc|].
  apply no_request_app; [done|by eapply reading_no_request].
Qed.

(** What [Connect] asks for. *)
Lemma connect_trace c request c' e :
  seqb (scheme_ (url_ request)) #"https" = true ->
  Client_Connect asio c request = Ret (c', e) ->
  exists sv, socket_ c' = Some (ASslSocket sv) /\
  if decide (e = kNoError) then
    io_trace c' = io_trace c ++ tls_setup c request /\
    answered (io_trace c) (tls_setup c request) TlsHandshake
  else exists tail, io_trace c' = io_trace c ++ tail /\ no_request tail.
Proof.
  intros Hh H. unfold Client_Connect in H. rewrite Hh in H.
  unfold SslSocket_make, Client_DoConnect, call in H. cbn [fst io_trace io_client socket_] in H.
  set (host := host_ (url_ request)) in *. set (port := Req.port request kPort443) in *.
  set (sv := mkSslSocket (cl_ssl_verify (io_client c))) in *. exists sv.
  destruct (asio (io_trace c ++ [SetDefaultVerifyPaths]) (Resolve host port)).
  { injection H as <- <-. split; [done|]. rewrite decide_False by done.
    eexists. split; [cbn; by rewrite <- app_assoc|]. intros bytes. split; set_solver. }
  cbn [Connect AnySocket_SocketBase SslSocket_SocketBase] in H.
  unfold SslSocket_Connect, Handshake, call in H. cbn [fst ep_host ep_port sv ssl_verify_] in H.
  rewrite <- !app_assoc in H. cbn [app] in H.
  destruct (asio _ (TcpConnect host port)).
  { apply connect_fails in H as (H1 & H2 & H3); [|intros bytes; split; set_solver].
    split; [done|]. by rewrite decide_False. }
  replace (if cl_ssl_verify (io_client c) then _ else _)
    with (io_trace c ++ [SetDefaultVerifyPaths; Resolve host port; TcpConnect host port;
            SetVerifyMode (cl_ssl_verify (io_client c))]) in H by (by destruct (cl_ssl_verify _)).
  rewrite <- !app_assoc in H. cbn [app] in H.
  destruct (asio _ TlsHandshake) eqn:E.
  { apply connect_fails in H as (H1 & H2 & H3); [|intros bytes; split; set_solver].
    split; [done|]. by rewrite decide_False. }
  injection H as <- <-. split; [done|]. rewrite decide_True by done. split; [done|].
  by eexists [_; _; _; _; _], [].
Qed.

(** ** Correctness *)

(** C28: A request over HTTPS is sent inside TLS only: no byte is written to the TCP socket, and the
    payload is written, once, behind a handshake that succeeded and for which the
    verification of the peer was set as [set_ssl_verify] says, for the host of the URL; when any of
    this fails nothing is written. *)
Theorem https_request_inside_tls c request cs c' ok :
  seqb (scheme_ (url_ request)) #"https" = true ->
  Client_Request asio can_alloc c request true cs = Ret (c', ok) ->
  exists tail, io_trace c' = io_trace c ++ tail /\
    ((ok = false /\ no_request tail) \/
     (exists rest, answered (io_trace c) (tls_setup c request) TlsHandshake /\
       tail = tls_setup c request ++ TlsWrite (Msg.CopyPayload (req_message request)) :: rest /\
       no_request rest)).
Proof.
  intros Hh H. unfold Client_Request in H. cbv zeta in H.
  set (c0 := set_client c _) in H.
  destruct (Client_Connect asio c0 request) as [[c1 e]| |] eqn:Hc; [|done..]. cbn [obind] in H.
  apply connect_trace in Hc as (sv & Hs & Hc); [|done].
  destruct (decide (e = kNoError)) as [->|He].
  - rewrite decide_False in H by auto. destruct Hc as [Ht Ha].
    apply (write_trace c1 sv) in H as (rest & Hrest & Ht2); [|done].
    exists (tls_setup c request ++ TlsWrite (Msg.CopyPayload (req_message request)) :: rest).
    split; [rewrite Ht2, Ht; cbn; by rewrite <- app_assoc|]. right. exists rest.
    split; [exact Ha|]. split; [done|by eapply reading_no_request].
  - rewrite decide_True in H by done. injection H as <- <-.
    destruct Hc as (tail & Ht & Hn). exists tail. split; [exact Ht|]. by left.
Qed.
End Properties.

(** A handshake that fails is reported as a failed connect. *)
Example handshake_failure_is_connect_error :
  let asio : Asio := fun tr a => match a with TlsHandshake => Some #"certificate" | _ => None end in
  match Client_Request asio (fun _ => true) (mkClientIO Client.make None [])
          (Req.make #"GET" #"https://h/") true [] with
  | Ret (c', ok) => ok = false /\ error_ (io_client c') = kEndpointConnectError /\
      closed_ (io_client c') = true
  | _ => False
  end.
Proof. by vm_compute. Qed.

Example https_request_inside_tls_witness :
  let asio : Asio := fun tr a => None in
  let c := mkClientIO Client.make None [] in
  let r := Req.make #"GET" #"https://h/" in
  exists c' ok, Client_Request asio (fun _ => true) c r true [ReadFailed] = Ret (c', ok) /\
    exists tail, io_trace c' = [] ++ tail /\ (ok = false /\ no_request tail \/
      exists rest, answered asio [] (tls_setup c r) TlsHandshake /\
        tail = tls_setup c r ++ TlsWrite (Msg.CopyPayload (req_message r)) :: rest /\ no_request rest).
Proof.
  intros asio c r. eexists _, _. split; [vm_compute; reflexivity|].
  exact (https_request_inside_tls asio (fun _ => true) c r [ReadFailed] _ _ eq_refl
    ltac:(vm_compute; reflexivity)).
Defined.
