(* ===== verification/Double.v ===== *)
(** * Doubles

    The values of type [double] and the functions of the C library that the
    JSON code applies to them: [sscanf] with [%lf], [snprintf] with [%.*g] and
    [%.*f], [modf], the conversions from and to integers, comparison.  A double
    is a [spec_float] with 53 bits of mantissa, from the Standard Library, which
    rounds to nearest, ties to even. *)
From Stdlib Require Import Ascii String SpecFloat.
From stdpp Require Import base tactics list numbers option strings.
From S2P Require Import Prelude.
Open Scope Z_scope.

Abbreviation double := spec_float.

Definition isnan (d : double) : bool := match d with S754_nan => true | _ => false end.
Definition isfinite (d : double) : bool :=
  match d with S754_finite _ _ _ | S754_zero _ => true | _ => false end.
Definition quiet_NaN : double := S754_nan.
Definition infinity (neg : bool) : double := S754_infinity neg.

(** Comparisons; they are false on NaN. *)
Definition d_eqb (a b : double) : bool := SFeqb a b.
Definition d_ltb (a b : double) : bool := SFltb a b.
Definition d_leb (a b : double) : bool := SFleb a b.

(** [static_cast<double>] of an integer. *)
Definition of_int (z : Z) : double := binary_normalize 53 1024 z 0 false.

(** Conversion to an integer, towards zero (the callers check the range). *)
Definition to_int (d : double) : Z :=
  match d with
  | S754_finite s m e =>
      let a := if 0 <=? e then Z.pos m * 2 ^ e else Z.pos m / 2 ^ (- e) in
      if s then - a else a
  | _ => 0
  end.

(** [modf(d, &integral_part) == 0.0]. *)
Definition IsIntegral (d : double) : bool :=
  match d with
  | S754_nan => false
  | S754_zero _ | S754_infinity _ => true
  | S754_finite _ m e => (0 <=? e) || (Z.pos m mod 2 ^ (- e) =? 0)
  end.

(** ** Reading a decimal number *)

(** The correctly rounded value of [m * 10^e].  The magnitude is compared with
    the range of doubles first: with [d] digits, [10^(d-1+e) <= m * 10^e], and
    [m * 10^e < 10^(d+e)]. *)
Fixpoint count_digits (fuel : nat) (n : Z) : Z :=
  match fuel with
  | O => 0
  | S fuel' => if n <? 10 then 1 else 1 + count_digits fuel' (n / 10)
  end.
(** A number below [2^k] has at most [k] decimal digits. *)
Definition digits10 (n : Z) : Z := count_digits (Z.to_nat (Z.log2 n + 1)) n.
Definition of_decimal (neg : bool) (m e : Z) : double :=
  match m with
  | Z.pos p =>
      let d := digits10 m in
      if 310 <? d + e then S754_infinity neg
      else if d + e <? -330 then S754_zero neg
      else if 0 <=? e then binary_round 53 1024 neg (Z.to_pos (m * 10 ^ e)) 0
      else let '(q, e2, l) := SFdiv_core_binary 53 1024 m 0 (10 ^ (- e)) 0 in
           binary_round_aux 53 1024 neg q e2 l
  | _ => S754_zero neg
  end.

(** A run of decimal digits: its value on top of [acc], how many there are, and
    the rest. *)
Fixpoint scan_digits (acc : Z) (n : nat) (s : str) : Z * nat * str :=
  match s with
  | c :: s' => if isdigit c then scan_digits (acc * 10 + (code c - 48)) (S n) s' else (acc, n, s)
  | [] => (acc, n, [])
  end.
Definition scan_sign (s : str) : bool * str :=
  match s with
  | c :: s' => if ceqb c "-" then (true, s') else if ceqb c "+" then (false, s') else (false, s)
  | [] => (false, s)
  end.
(** The exponent; an [e] without digits behind it is ignored. *)
Definition scan_exponent (s : str) : Z :=
  match s with
  | c :: s' =>
      if ceqb c "e" || ceqb c "E" then
        let '(neg, s1) := scan_sign s' in
        let '(x, n, _) := scan_digits 0 0 s1 in
        if neg then - x else x
      else 0
  | [] => 0
  end.
(** [sscanf(s, "%lf", &d)] on text without white space, hexadecimal numbers and
    the names of special values; [None] when nothing is converted. *)
Definition sscanf_lf (s : str) : option double :=
  let '(neg, s1) := scan_sign s in
  let '(m, n, s2) := scan_digits 0 0 s1 in
  let '(m, k, s3) :=
    match s2 with
    | c :: s3 => if ceqb c "." then scan_digits m 0 s3 else (m, 0%nat, s2)
    | [] => (m, 0%nat, s2)
    end in
  if (n + k =? 0)%nat then None
  else Some (of_decimal neg m (scan_exponent s3 - Z.of_nat k)).

(** ** Printing *)

(** The decimal digits of a number of any size. *)
Definition to_dec_any (n : Z) : str :=
  dec_digits (Z.to_nat (Z.log2 n + 1)) (Z.to_N n) [].

(** [num / den], rounded to nearest, ties to even. *)
Definition round_half_even (num den : Z) : Z :=
  let q := num / den in
  let r := num mod den in
  match 2 * r ?= den with
  | Lt => q
  | Gt => q + 1
  | Eq => if Z.even q then q else q + 1
  end.

(** The absolute value of a finite double as a fraction. *)
Definition fraction (m : positive) (e : Z) : Z * Z :=
  if 0 <=? e then (Z.pos m * 2 ^ e, 1) else (Z.pos m, 2 ^ (- e)).

(** The decimal exponent [x] with [10^x <= num/den < 10^(x+1)]. *)
Fixpoint neg_exponent (fuel : nat) (num den : Z) : Z :=
  match fuel with
  | O => 0
  | S fuel' => if den <=? num then 0 else neg_exponent fuel' (num * 10) den - 1
  end.
Definition exponent10 (num den : Z) : Z :=
  if den <=? num then digits10 (num / den) - 1 else neg_exponent 400 num den.

(** [num/den * 10^k], rounded. *)
Definition scaled (num den k : Z) : Z :=
  if 0 <=? k then round_half_even (num * 10 ^ k) den else round_half_even num (den * 10 ^ (- k)).

Definition strip_zeros (s : str) : str := rev (drop_while (fun c => ceqb c "0") (rev s)).
(** Digits before and behind the decimal point, which goes when nothing is left behind it. *)
Definition with_point (i f : str) : str := match f with [] => i | _ => i ++ #"." ++ f end.

(** [%.*g] of the fraction. *)
Definition print_g (precision : Z) (num den : Z) : str :=
  let p := Z.max 1 precision in
  let x := exponent10 num den in
  let n := scaled num den (p - 1 - x) in
  let '(n, x) := if n =? 10 ^ p then (10 ^ (p - 1), x + 1) else (n, x) in
  let ds := to_dec_any n in
  if (-4 <=? x) && (x <? p) then
    if 0 <=? x then
      with_point (take (Z.to_nat (x + 1)) ds) (strip_zeros (drop (Z.to_nat (x + 1)) ds))
    else with_point #"0" (strip_zeros (repeat "0"%char (Z.to_nat (- x - 1)) ++ ds))
  else
    let a := Z.abs x in
    with_point (take 1 ds) (strip_zeros (drop 1 ds)) ++ #"e" ++ (if x <? 0 then #"-" else #"+")
    ++ (if a <? 10 then #"0" else #"") ++ to_dec_any a.

(** [%.*f] of the fraction. *)
Definition print_f (precision : Z) (num den : Z) : str :=
  let ds := to_dec_any (scaled num den precision) in
  let k := Z.to_nat precision in
  let ds := repeat "0"%char (S k - length ds) ++ ds in
  with_point (take (length ds - k) ds) (drop (length ds - k) ds).

(** [snprintf] of a finite double with [%.*g] or [%.*f]. *)
Definition snprintf_double (general : bool) (precision : Z) (d : double) : str :=
  let '(neg, num, den) :=
    match d with
    | S754_finite s m e => let '(num, den) := fraction m e in (s, num, den)
    | S754_zero s => (s, 0, 1)
    | _ => (false, 0, 1)
    end in
  (if neg : bool then #"-" else []) ++
  (if general then
     match num with Z0 => #"0" | _ => print_g precision num den end
   else print_f precision num den).

Example print_tenth : snprintf_double true 17 (of_decimal false 1 (-1)) = #"0.10000000000000001".
Proof. vm_compute. reflexivity. Qed.
Example print_large : snprintf_double true 17 (of_decimal true 12345 20) = #"-1.2345e+24".
Proof. vm_compute. reflexivity. Qed.
Example print_small : snprintf_double true 17 (of_decimal false 1234 (-8)) = #"1.234e-05".
Proof. vm_compute. reflexivity. Qed.
Example print_integer :
  snprintf_double true 17 (of_int 123456789012345678) = #"1.2345678901234568e+17".
Proof. vm_compute. reflexivity. Qed.
Example print_half : snprintf_double true 17 (of_decimal false 5 (-1)) = #"0.5".
Proof. vm_compute. reflexivity. Qed.
Example print_fixed : snprintf_double false 3 (of_decimal false 12345 (-4)) = #"1.234".
Proof. vm_compute. reflexivity. Qed.
Example scan_small : sscanf_lf #"4.9406564584124654e-324" = Some (S754_finite false 1 (-1074)).
Proof. vm_compute. reflexivity. Qed.
Example scan_max : option_map (snprintf_double true 17) (sscanf_lf #"1.7976931348623157e308") =
  Some #"1.7976931348623157e+308".
Proof. vm_compute. reflexivity. Qed.
