(* ===== verification/JsonText.v ===== *)
(** * JSON: the text of scalar values

    Models the parts of [json/jsoncpp.cpp] that turn numbers, characters and
    strings into text: the helpers of [json_tool.h] and the functions in front of
    the writers.  The theorems are about quoted strings. *)
From Stdlib Require Import Ascii String.
From stdpp Require Import base tactics list numbers option strings.
From S2P Require Import Prelude Double.
Open Scope Z_scope.


(** ** [json_tool.h] *)

(** [codePointToUTF8]; an [unsigned int] beyond the last code point gives the
    empty string. *)
Definition codePointToUTF8 (cp : Z) : str :=
  if cp <=? 0x7f then [chr cp]
  else if cp <=? 0x7FF then
    [chr (Z.lor 0xC0 (Z.land 0x1f (Z.shiftr cp 6))); chr (Z.lor 0x80 (Z.land 0x3f cp))]
  else if cp <=? 0xFFFF then
    [chr (Z.lor 0xE0 (Z.land 0xf (Z.shiftr cp 12)));
     chr (Z.lor 0x80 (Z.land 0x3f (Z.shiftr cp 6)));
     chr (Z.lor 0x80 (Z.land 0x3f cp))]
  else if cp <=? 0x10FFFF then
    [chr (Z.lor 0xF0 (Z.land 0x7 (Z.shiftr cp 18)));
     chr (Z.lor 0x80 (Z.land 0x3f (Z.shiftr cp 12)));
     chr (Z.lor 0x80 (Z.land 0x3f (Z.shiftr cp 6)));
     chr (Z.lor 0x80 (Z.land 0x3f cp))]
  else [].

(** [uintToString]: the digits of a [LargestUInt], the last one first; 20 rounds
    of the loop are enough for 64 bits. *)
Definition uintToString (value : Z) : str := dec_digits 20 (Z.to_N value) [].

Definition fixNumericLocale (s : str) : str := map (fun c => if ceqb c "," then "."%char else c) s.

(** [fixZerosInTheEnd] on the reversed buffer. *)
Fixpoint fixZeros_rev (r : str) : str :=
  match r with
  | [] => []
  | c :: r' =>
      if negb (ceqb c "0") then r
      else match r' with
           | d :: _ => if ceqb d "." then r else fixZeros_rev r'
           | [] => fixZeros_rev r'
           end
  end.
Definition fixZerosInTheEnd (s : str) : str := rev (fixZeros_rev (rev s)).

(** ** [valueToString] *)
Definition valueToString_int (value : Z) : str :=
  if value =? -9223372036854775808 then "-"%char :: uintToString 9223372036854775808
  else if value <? 0 then "-"%char :: uintToString (- value)
  else uintToString value.
Definition valueToString_uint (value : Z) : str := uintToString value.

Inductive PrecisionType := significantDigits | decimalPlaces.

(** The special floats, with and without [useSpecialFloats]. *)
Definition special_rep (useSpecialFloats : bool) (value : double) : str :=
  if isnan value then (if useSpecialFloats then #"NaN" else #"null")
  else if d_ltb value (of_int 0) then (if useSpecialFloats then #"-Infinity" else #"-1e+9999")
  else (if useSpecialFloats then #"Infinity" else #"1e+9999").

Definition valueToString_double (value : double) (useSpecialFloats : bool) (precision : Z)
    (precisionType : PrecisionType) : str :=
  if negb (isfinite value) then special_rep useSpecialFloats value
  else
    let buffer := snprintf_double
                    (match precisionType with significantDigits => true | _ => false end)
                    precision value in
    let buffer := fixNumericLocale buffer in
    let buffer := match precisionType with
                  | decimalPlaces => fixZerosInTheEnd buffer
                  | significantDigits => buffer
                  end in
    if existsb (fun c => ceqb c ".") buffer || existsb (fun c => ceqb c "e") buffer
    then buffer else buffer ++ #".0".

Definition valueToString_bool (value : bool) : str := if value then #"true" else #"false".

(** ** Quoted strings *)
Definition isAnyCharRequiredQuoting (s : str) : bool :=
  existsb (fun c => ceqb c "\" || ceqb c DQ || (schar c <? 32) || (code c <? 0x80)) s.

Definition REPLACEMENT_CHARACTER : Z := 0xFFFD.
(** The bits of [s[i]] that a continuation byte carries. *)
Definition cont (s : str) (i : nat) : Z := Z.land (code (nth i s NUL)) 0x3F.

(** [utf8ToCodepoint]: the code point at the head of [s] and by how much the
    pointer moved. *)
Definition utf8ToCodepoint (s : str) : Z * nat :=
  let firstByte := code (hd NUL s) in
  if firstByte <? 0x80 then (firstByte, 0%nat)
  else if firstByte <? 0xE0 then
    if (length s <? 2)%nat then (REPLACEMENT_CHARACTER, 0%nat)
    else
      let calculated := Z.lor (Z.shiftl (Z.land firstByte 0x1F) 6) (cont s 1) in
      (if calculated <? 0x80 then REPLACEMENT_CHARACTER else calculated, 1%nat)
  else if firstByte <? 0xF0 then
    if (length s <? 3)%nat then (REPLACEMENT_CHARACTER, 0%nat)
    else
      let calculated := Z.lor (Z.lor (Z.shiftl (Z.land firstByte 0x0F) 12)
                          (Z.shiftl (cont s 1) 6)) (cont s 2) in
      (if (0xD800 <=? calculated) && (calculated <=? 0xDFFF) then REPLACEMENT_CHARACTER
       else if calculated <? 0x800 then REPLACEMENT_CHARACTER else calculated, 2%nat)
  else if firstByte <? 0xF8 then
    if (length s <? 4)%nat then (REPLACEMENT_CHARACTER, 0%nat)
    else
      let calculated := Z.lor (Z.lor (Z.lor (Z.shiftl (Z.land firstByte 0x07) 18)
                          (Z.shiftl (cont s 1) 12)) (Z.shiftl (cont s 2) 6)) (cont s 3) in
      (if calculated <? 0x10000 then REPLACEMENT_CHARACTER else calculated, 3%nat)
  else (REPLACEMENT_CHARACTER, 0%nat).

Definition hex2 : str :=
  #"000102030405060708090a0b0c0d0e0f" ++ #"101112131415161718191a1b1c1d1e1f" ++
  #"202122232425262728292a2b2c2d2e2f" ++ #"303132333435363738393a3b3c3d3e3f" ++
  #"404142434445464748494a4b4c4d4e4f" ++ #"505152535455565758595a5b5c5d5e5f" ++
  #"606162636465666768696a6b6c6d6e6f" ++ #"707172737475767778797a7b7c7d7e7f" ++
  #"808182838485868788898a8b8c8d8e8f" ++ #"909192939495969798999a9b9c9d9e9f" ++
  #"a0a1a2a3a4a5a6a7a8a9aaabacadaeaf" ++ #"b0b1b2b3b4b5b6b7b8b9babbbcbdbebf" ++
  #"c0c1c2c3c4c5c6c7c8c9cacbcccdcecf" ++ #"d0d1d2d3d4d5d6d7d8d9dadbdcdddedf" ++
  #"e0e1e2e3e4e5e6e7e8e9eaebecedeeef" ++ #"f0f1f2f3f4f5f6f7f8f9fafbfcfdfeff".
Definition hex2_at (i : Z) : ascii := nth (Z.to_nat i) hex2 NUL.

Definition toHex16Bit (x : Z) : str :=
  let hi := Z.land (Z.shiftr x 8) 0xff in
  let lo := Z.land x 0xff in
  [hex2_at (2 * hi); hex2_at (2 * hi + 1); hex2_at (2 * lo); hex2_at (2 * lo + 1)].

(** What is written for a code point. *)
Definition quote_codepoint (cp : Z) : str :=
  if (cp <? 0x80) && (0x20 <=? cp) then [chr cp]
  else if cp <? 0x10000 then #"\u" ++ toHex16Bit cp
  else
    let cp := cp - 0x10000 in
    #"\u" ++ toHex16Bit (Z.shiftr cp 10 + 0xD800) ++ #"\u" ++ toHex16Bit (Z.land cp 0x3FF + 0xDC00).

(** The short escape sequences. *)
Definition short_escape (c : ascii) : option ascii :=
  if ceqb c DQ then Some DQ
  else if ceqb c "\" then Some "\"%char
  else if ceqb c "008" then Some "b"%char
  else if ceqb c "012" then Some "f"%char
  else if ceqb c LF then Some "n"%char
  else if ceqb c CR then Some "r"%char
  else if ceqb c HT then Some "t"%char
  else None.

(** The loop of [valueToQuotedStringN]; [skip] bytes belong to the code point
    that was just written. *)
Fixpoint quote_loop (skip : nat) (s : str) : str :=
  match s with
  | [] => []
  | c :: s' =>
      match skip with
      | S k => quote_loop k s'
      | O =>
          match short_escape c with
          | Some e => "\"%char :: e :: quote_loop 0 s'
          | None =>
              let '(cp, k) := utf8ToCodepoint s in
              quote_codepoint cp ++ quote_loop k s'
          end
      end
  end.
Definition valueToQuotedStringN (value : str) : str :=
  if negb (isAnyCharRequiredQuoting value) then [DQ] ++ c_str value ++ [DQ]
  else [DQ] ++ quote_loop 0 value ++ [DQ].
