(* ===== verification/JsonUtf8.v ===== *)
(** * UTF-8

    The encoding of code points as a reference definition, and the proofs that
    [codePointToUTF8] computes it and that [utf8ToCodepoint] inverts it. *)
From Stdlib Require Import Ascii String.
From stdpp Require Import base tactics list numbers option strings.
From S2P Require Import Prelude Globals Double JsonText.
Open Scope Z_scope.

(** ** Bits *)
Lemma land_mod a n : 0 <= n -> Z.land a (2 ^ n - 1) = a mod 2 ^ n.
Proof. intros H. by rewrite <-Z.land_ones, Z.ones_equiv, <-Z.sub_1_r. Qed.
(** A number and the bits below it. *)
Lemma lor_add a b n : 0 <= n -> 0 <= b < 2 ^ n -> Z.lor (Z.shiftl a n) b = a * 2 ^ n + b.
Proof.
  intros Hn Hb. rewrite <-(Z.shiftl_mul_pow2 a n), <-Z.add_lor_land by done.
  replace (Z.land (Z.shiftl a n) b) with 0; [lia|]. symmetry. apply Z.bits_inj'. intros k Hk.
  rewrite Z.land_spec, Z.bits_0. destruct (Z.lt_ge_cases k n) as [H|H].
  - by rewrite Z.shiftl_spec_low.
  - rewrite <-(Z.mod_small b (2 ^ n)) by done. rewrite Z.mod_pow2_bits_high by lia.
    apply andb_false_r.
Qed.
Lemma six_bits a b : 0 <= b < 64 -> Z.lor (Z.shiftl a 6) b = a * 64 + b.
Proof. intros H. by apply (lor_add a b 6). Qed.
Lemma twelve_bits a b c :
  0 <= b < 64 -> 0 <= c < 64 ->
  Z.lor (Z.lor (Z.shiftl a 12) (Z.shiftl b 6)) c = (a * 64 + b) * 64 + c.
Proof.
  intros Hb Hc. change 12 with (6 + 6). rewrite <-Z.shiftl_shiftl, <-Z.shiftl_lor by done.
  by rewrite (six_bits a b), six_bits.
Qed.
Lemma eighteen_bits a b c d :
  0 <= b < 64 -> 0 <= c < 64 -> 0 <= d < 64 ->
  Z.lor (Z.lor (Z.lor (Z.shiftl a 18) (Z.shiftl b 12)) (Z.shiftl c 6)) d =
  ((a * 64 + b) * 64 + c) * 64 + d.
Proof.
  intros Hb Hc Hd. change 18 with (12 + 6). change (Z.shiftl b 12) with (Z.shiftl b (6 + 6)).
  rewrite <-!Z.shiftl_shiftl, <-!Z.shiftl_lor by done.
  rewrite (twelve_bits a b c) by done. by rewrite six_bits.
Qed.

(** ** UTF-8 *)

(** The Unicode scalar values, and the bytes of a code point. *)
Definition scalar (cp : Z) : Prop := 0 <= cp <= 0x10FFFF /\ ~ 0xD800 <= cp <= 0xDFFF.
Definition trail (x : Z) : ascii := chr (128 + x mod 64).
Definition utf8_bytes (cp : Z) : str :=
  if cp <? 0x80 then [chr cp]
  else if cp <? 0x800 then [chr (192 + cp / 64); trail cp]
  else if cp <? 0x10000 then [chr (224 + cp / 4096); trail (cp / 64); trail cp]
  else [chr (240 + cp / 262144); trail (cp / 4096); trail (cp / 64); trail cp].
(** Text in UTF-8: the concatenation of encoded scalar values. *)
Inductive utf8 : str -> Prop :=
  | utf8_nil : utf8 []
  | utf8_cons cp s : scalar cp -> utf8 s -> utf8 (utf8_bytes cp ++ s).

Lemma trail_byte x : chr (Z.lor 0x80 (Z.land 0x3f x)) = trail x.
Proof.
  unfold trail. f_equal. rewrite Z.land_comm. change 0x3f with (2 ^ 6 - 1).
  rewrite land_mod by done. change (2 ^ 6) with 64.
  apply Z.eqb_eq, (range_forall (fun z => Z.lor 128 z =? 128 + z) 64); [done|].
  by apply Z.mod_pos_bound.
Qed.
Lemma utf8_bytes_one cp : cp < 0x80 -> utf8_bytes cp = [chr cp].
Proof. intros H. unfold utf8_bytes. by apply Z.ltb_lt in H as ->. Qed.
Lemma utf8_one cp : cp <= 0x7f -> codePointToUTF8 cp = [chr cp].
Proof. intros H. unfold codePointToUTF8. by apply Z.leb_le in H as ->. Qed.
Lemma utf8_two cp : 0x80 <= cp <= 0x7FF -> codePointToUTF8 cp = [chr (192 + cp / 64); trail cp].
Proof.
  intros H. unfold codePointToUTF8. rewrite trail_byte.
  assert (cp <=? 0x7f = false) as -> by (apply Z.leb_gt; lia).
  assert (cp <=? 0x7FF = true) as -> by (apply Z.leb_le; lia).
  rewrite Z.shiftr_div_pow2 by done. change (2 ^ 6) with 64. do 2 f_equal.
  apply Z.eqb_eq, (range_forall (fun z => Z.lor 0xC0 (Z.land 0x1f z) =? 192 + z) 32); [done|]. dlia.
Qed.
Lemma utf8_three cp :
  0x800 <= cp <= 0xFFFF ->
  codePointToUTF8 cp = [chr (224 + cp / 4096); trail (cp / 64); trail cp].
Proof.
  intros H. unfold codePointToUTF8. rewrite !trail_byte, !Z.shiftr_div_pow2 by done.
  assert (cp <=? 0x7f = false) as -> by (apply Z.leb_gt; lia).
  assert (cp <=? 0x7FF = false) as -> by (apply Z.leb_gt; lia).
  assert (cp <=? 0xFFFF = true) as -> by (apply Z.leb_le; lia).
  change (2 ^ 6) with 64. change (2 ^ 12) with 4096. do 2 f_equal.
  apply Z.eqb_eq, (range_forall (fun z => Z.lor 0xE0 (Z.land 0xf z) =? 224 + z) 16); [done|]. dlia.
Qed.
Lemma utf8_four cp :
  0x10000 <= cp <= 0x10FFFF ->
  codePointToUTF8 cp = [chr (240 + cp / 262144); trail (cp / 4096); trail (cp / 64); trail cp].
Proof.
  intros H. unfold codePointToUTF8. rewrite !trail_byte, !Z.shiftr_div_pow2 by done.
  assert (cp <=? 0x7f = false) as -> by (apply Z.leb_gt; lia).
  assert (cp <=? 0x7FF = false) as -> by (apply Z.leb_gt; lia).
  assert (cp <=? 0xFFFF = false) as -> by (apply Z.leb_gt; lia).
  assert (cp <=? 0x10FFFF = true) as -> by (apply Z.leb_le; lia).
  change (2 ^ 6) with 64. change (2 ^ 12) with 4096. change (2 ^ 18) with 262144. do 2 f_equal.
  apply Z.eqb_eq, (range_forall (fun z => Z.lor 0xF0 (Z.land 0x7 z) =? 240 + z) 5); [done|]. dlia.
Qed.

Lemma codePointToUTF8_bytes cp : cp <= 0x10FFFF -> codePointToUTF8 cp = utf8_bytes cp.
Proof.
  intros H. unfold utf8_bytes.
  destruct (cp <? 0x80) eqn:E1; [apply Z.ltb_lt in E1; by apply utf8_one; lia|apply Z.ltb_ge in E1].
  destruct (cp <? 0x800) eqn:E2; [apply Z.ltb_lt in E2; by apply utf8_two; lia|apply Z.ltb_ge in E2].
  destruct (cp <? 0x10000) eqn:E3; [apply Z.ltb_lt in E3; by apply utf8_three; lia|apply Z.ltb_ge in E3].
  apply utf8_four. lia.
Qed.

(** The bits of a following byte. *)
Lemma cont_range s i : 0 <= cont s i < 64.
Proof.
  unfold cont. change 0x3F with (2 ^ 6 - 1). rewrite land_mod by done. by apply Z.mod_pos_bound.
Qed.
Lemma cont_trail s i x : nth i s NUL = trail x -> cont s i = x mod 64.
Proof.
  intros H. unfold cont. rewrite H. unfold trail. change 0x3F with (2 ^ 6 - 1).
  rewrite land_mod by done. change (2 ^ 6) with 64. rewrite code_chr by dlia. dlia.
Qed.

(** What [utf8ToCodepoint] gives for any bytes. *)
Lemma utf8ToCodepoint_range s cp k :
  utf8ToCodepoint s = (cp, k) ->
  0 <= cp <= 0x1FFFFF /\ ~ 0xD800 <= cp <= 0xDFFF /\
  (cp < 0x80 -> cp = code (hd NUL s) /\ k = 0%nat).
Proof.
  unfold utf8ToCodepoint. set (fb := code (hd NUL s)).
  assert (Hfb : 0 <= fb < 256) by apply code_range.
  pose proof (cont_range s 1) as H1. pose proof (cont_range s 2) as H2.
  pose proof (cont_range s 3) as H3. unfold REPLACEMENT_CHARACTER.
  destruct (fb <? 0x80) eqn:E1; [intros [= <- <-]; apply Z.ltb_lt in E1; lia|].
  destruct (fb <? 0xE0) eqn:E2.
  { destruct (length s <? 2)%nat; [intros [= <- <-]; lia|].
    rewrite six_bits by done. change 0x1F with (2 ^ 5 - 1). rewrite land_mod by done.
    destruct (_ + _ <? 0x80) eqn:E; intros [= <- <-]; [lia|]. apply Z.ltb_ge in E.
    pose proof (Z.mod_pos_bound fb 32 eq_refl). change (2 ^ 5) with 32 in *. lia. }
  destruct (fb <? 0xF0) eqn:E3.
  { destruct (length s <? 3)%nat; [intros [= <- <-]; lia|].
    rewrite twelve_bits by done. change 0x0F with (2 ^ 4 - 1). rewrite land_mod by done.
    change (2 ^ 4) with 16.
    destruct (_ && _) eqn:E; [intros [= <- <-]; lia|].
    destruct (_ + _ <? 0x800) eqn:E'; intros [= <- <-]; [lia|]. apply Z.ltb_ge in E'.
    apply andb_false_iff in E. rewrite !Z.leb_gt in E.
    pose proof (Z.mod_pos_bound fb 16 eq_refl). lia. }
  destruct (fb <? 0xF8) eqn:E4; [|intros [= <- <-]; lia].
  destruct (length s <? 4)%nat; [intros [= <- <-]; lia|].
  rewrite eighteen_bits by done. change 0x07 with (2 ^ 3 - 1). rewrite land_mod by done.
  change (2 ^ 3) with 8.
  destruct (_ + _ <? 0x10000) eqn:E; intros [= <- <-]; [lia|]. apply Z.ltb_ge in E.
  pose proof (Z.mod_pos_bound fb 8 eq_refl). lia.
Qed.
(** It is the inverse of [codePointToUTF8]. *)
Lemma utf8ToCodepoint_encoded cp rest :
  scalar cp -> 0x80 <= cp ->
  exists c k, codePointToUTF8 cp = c :: k /\
    utf8ToCodepoint (codePointToUTF8 cp ++ rest) = (cp, length k).
Proof.
  intros [Hcp Hs] Hge. unfold utf8ToCodepoint.
  destruct (Z.le_gt_cases cp 0x7FF); [|destruct (Z.le_gt_cases cp 0xFFFF)].
  - rewrite utf8_two by lia. eexists _, _. split; [done|]. cbn [app hd length Nat.ltb Nat.leb].
    rewrite (cont_trail _ 1 cp) by done. rewrite code_chr by dlia.
    rewrite (proj2 (Z.ltb_ge _ _)) by dlia. rewrite (proj2 (Z.ltb_lt _ _)) by dlia.
    rewrite six_bits by (by apply Z.mod_pos_bound).
    change 0x1F with (2 ^ 5 - 1). rewrite land_mod by done. change (2 ^ 5) with 32.
    assert ((192 + cp / 64) mod 32 * 64 + cp mod 64 = cp) as -> by dlia.
    by rewrite (proj2 (Z.ltb_ge _ _)) by lia.
  - rewrite utf8_three by lia. eexists _, _. split; [done|]. cbn [app hd length Nat.ltb Nat.leb].
    rewrite (cont_trail _ 1 (cp / 64)), (cont_trail _ 2 cp) by done. rewrite code_chr by dlia.
    rewrite (proj2 (Z.ltb_ge _ _)) by dlia. rewrite (proj2 (Z.ltb_ge _ _)) by dlia.
    rewrite (proj2 (Z.ltb_lt _ _)) by dlia.
    rewrite twelve_bits by (by apply Z.mod_pos_bound).
    change 0x0F with (2 ^ 4 - 1). rewrite land_mod by done. change (2 ^ 4) with 16.
    assert (((224 + cp / 4096) mod 16 * 64 + (cp / 64) mod 64) * 64 + cp mod 64 = cp) as -> by dlia.
    assert ((0xD800 <=? cp) && (cp <=? 0xDFFF) = false) as ->.
    { apply andb_false_iff. rewrite !Z.leb_gt. lia. }
    by rewrite (proj2 (Z.ltb_ge _ _)) by lia.
  - rewrite utf8_four by lia. eexists _, _. split; [done|]. cbn [app hd length Nat.ltb Nat.leb].
    rewrite (cont_trail _ 1 (cp / 4096)), (cont_trail _ 2 (cp / 64)), (cont_trail _ 3 cp) by done.
    rewrite code_chr by dlia.
    rewrite (proj2 (Z.ltb_ge _ _)) by dlia. rewrite (proj2 (Z.ltb_ge _ _)) by dlia.
    rewrite (proj2 (Z.ltb_ge _ _)) by dlia. rewrite (proj2 (Z.ltb_lt _ _)) by dlia.
    rewrite eighteen_bits by (by apply Z.mod_pos_bound).
    change 0x07 with (2 ^ 3 - 1). rewrite land_mod by done. change (2 ^ 3) with 8.
    assert ((((240 + cp / 262144) mod 8 * 64 + (cp / 4096) mod 64) * 64 + (cp / 64) mod 64) * 64
            + cp mod 64 = cp) as -> by dlia.
    by rewrite (proj2 (Z.ltb_ge _ _)) by lia.
Qed.
Lemma utf8_ascii s : Forall (fun c => code c < 0x80) s -> utf8 s.
Proof.
  induction 1 as [|c s Hc _ IH]; [constructor|].
  rewrite <-(chr_code c). change (chr (code c) :: s) with ([chr (code c)] ++ s).
  pose proof (code_range c). rewrite <-utf8_bytes_one by lia. constructor; [split; lia|done].
Qed.
