(* ===== verification/JsonValue.v ===== *)
(** * JSON: values

    Models [class Value] of [json/jsoncpp.cpp] ([json.h]): its payload, comments
    and offsets, and the operations on them.  An object or array is the sorted
    association list that [std::map<CZString, Value>] keeps; the ownership of
    strings ([CZString] policies, [allocated_]) is in [JsonMemory].  A reference
    to a member, [Value&], is a step from its parent: [upd_child] writes through
    it.  The theorems are about the map. *)
From Stdlib Require Import Ascii String SpecFloat.
From stdpp Require Import base tactics list numbers option strings.
From S2P Require Import Prelude Globals Double JsonText.
Open Scope Z_scope.

(** ** Integer limits *)
Definition minInt : Z := -2147483648.
Definition maxInt : Z := 2147483647.
Definition maxUInt : Z := 4294967295.
Definition minInt64 : Z := -9223372036854775808.
Definition maxInt64 : Z := 9223372036854775807.
Definition maxUInt64 : Z := 18446744073709551615.
Definition minLargestInt : Z := minInt64.
Definition maxLargestInt : Z := maxInt64.
Definition maxLargestUInt : Z := maxUInt64.
Definition defaultRealPrecision : Z := 17.
Definition maxUInt64AsDouble : double := of_int 18446744073709551615.

(** Conversion to an unsigned or signed integer of [w] bits. *)
Definition wrap_u (w z : Z) : Z := z mod 2 ^ w.
Definition wrap_s (w z : Z) : Z :=
  let u := z mod 2 ^ w in if u <? 2 ^ (w - 1) then u else u - 2 ^ w.

(** ** Errors *)
Definition throwLogicError {A} (msg : str) : outcome A := Throw (JsonLogicError msg).
Definition throwRuntimeError {A} (msg : str) : outcome A := Throw (JsonRuntimeError msg).
(** [JSON_ASSERT_MESSAGE] in front of the rest of a function. *)
Definition json_assert {A} (condition : bool) (msg : str) (k : outcome A) : outcome A :=
  if condition then k else throwLogicError msg.

(** ** [CZString] and the map of members *)

(** The constructor keeps 30 bits of the length. *)
Definition CZString (s : str) : str := take (N.to_nat (len s mod 2 ^ 30)) s.

Fixpoint memcmp (a b : str) (n : nat) : comparison :=
  match n, a, b with
  | S n', x :: a', y :: b' =>
      match code x ?= code y with Eq => memcmp a' b' n' | c => c end
  | _, _, _ => Eq
  end.
Definition CZString_ltb (a b : str) : bool :=
  match memcmp a b (Nat.min (length a) (length b)) with
  | Lt => true
  | Gt => false
  | Eq => (length a <? length b)%nat
  end.
Definition CZString_eqb (a b : str) : bool :=
  if negb (length a =? length b)%nat then false
  else match memcmp a b (length a) with Eq => true | _ => false end.

(** The operations of [std::map] with the order [ltb] on an association list. *)
Section Map.
Context {K V : Type} (ltb : K -> K -> bool).
Fixpoint map_find (k : K) (m : list (K * V)) : option V :=
  match m with
  | [] => None
  | (k', v) :: m' => if ltb k' k then map_find k m' else if ltb k k' then None else Some v
  end.
(** [lower_bound], then [insert] there when the key is new. *)
Fixpoint map_insert_new (k : K) (v : V) (m : list (K * V)) : list (K * V) :=
  match m with
  | [] => [(k, v)]
  | (k', v') :: m' =>
      if ltb k' k then (k', v') :: map_insert_new k v m'
      else if ltb k k' then (k, v) :: m else m
  end.
(** Writing through a reference to the value of [k]. *)
Fixpoint map_upd (k : K) (f : V -> V) (m : list (K * V)) : list (K * V) :=
  match m with
  | [] => []
  | (k', v') :: m' =>
      if ltb k' k then (k', v') :: map_upd k f m'
      else if ltb k k' then m else (k', f v') :: m'
  end.
Fixpoint map_erase (k : K) (m : list (K * V)) : list (K * V) :=
  match m with
  | [] => []
  | (k', v') :: m' =>
      if ltb k' k then (k', v') :: map_erase k m'
      else if ltb k k' then m else m'
  end.
End Map.

(** ** [class Value] *)
Inductive ValueType := TNull | TInt | TUInt | TReal | TString | TBoolean | TArray | TObject.
#[global] Instance ValueType_eq_dec : EqDecision ValueType.
Proof. solve_decision. Defined.

Inductive CommentPlacement := commentBefore | commentAfterOnSameLine | commentAfter.
(** The three slots; no array of comments is three empty slots. *)
Record Comments := mkComments { c_before : str; c_same_line : str; c_after : str }.
Definition no_comments : Comments := mkComments [] [] [].

Inductive Payload (V : Type) :=
  | nullValue
  | intValue (z : Z)
  | uintValue (z : Z)
  | realValue (d : double)
  | stringValue (s : str)
  | booleanValue (b : bool)
  | arrayValue (m : list (N * V))
  | objectValue (m : list (str * V)).
Arguments nullValue {V}.
Arguments intValue {V} z.
Arguments uintValue {V} z.
Arguments realValue {V} d.
Arguments stringValue {V} s.
Arguments booleanValue {V} b.
Arguments arrayValue {V} m.
Arguments objectValue {V} m.

Inductive Value := mkValue (p : Payload Value) (c : Comments) (start limit : Z).
Definition payload (v : Value) : Payload Value := let 'mkValue p _ _ _ := v in p.
Definition comments_ (v : Value) : Comments := let 'mkValue _ c _ _ := v in c.
Definition start_ (v : Value) : Z := let 'mkValue _ _ s _ := v in s.
Definition limit_ (v : Value) : Z := let 'mkValue _ _ _ l := v in l.

Definition type (v : Value) : ValueType :=
  match payload v with
  | nullValue => TNull | intValue _ => TInt | uintValue _ => TUInt | realValue _ => TReal
  | stringValue _ => TString | booleanValue _ => TBoolean | arrayValue _ => TArray
  | objectValue _ => TObject
  end.

(** *** Constructors *)
Definition initBasic (p : Payload Value) : Value := mkValue p no_comments 0 0.
Definition Value_make (t : ValueType) : Value :=
  initBasic (match t with
             | TNull => nullValue | TInt => intValue 0 | TUInt => uintValue 0
             | TReal => realValue (S754_zero false) | TString => stringValue []
             | TBoolean => booleanValue false | TArray => arrayValue [] | TObject => objectValue []
             end).
Definition nullSingleton : Value := Value_make TNull.
Definition Value_int (z : Z) : Value := initBasic (intValue z).
Definition Value_uint (z : Z) : Value := initBasic (uintValue z).
Definition Value_double (d : double) : Value := initBasic (realValue d).
Definition Value_bool (b : bool) : Value := initBasic (booleanValue b).

(** [duplicateAndPrefixStringValue]: what the copy holds; the length is an
    [unsigned int]. *)
Definition duplicateAndPrefixStringValue (s : str) : outcome str :=
  let length := wrap_u 32 (Z.of_N (len s)) in
  json_assert (length <=? maxInt - 4 - 1)
    #"in Json::Value::duplicateAndPrefixStringValue(): length too big for prefixing"
    (Ret (take (Z.to_nat length) s)).
Definition Value_String (s : str) : outcome Value :=
  let! s := duplicateAndPrefixStringValue s in Ret (initBasic (stringValue s)).
Definition Value_cstr (s : str) : outcome Value := Value_String (c_str s).

(** *** Payload, comments and offsets *)
(** [swapPayload(other)] and [swap(other)] as far as [*this] is concerned. *)
Definition swapPayload (v other : Value) : Value :=
  mkValue (payload other) (comments_ v) (start_ v) (limit_ v).
Definition set_payload (v : Value) (p : Payload Value) : Value :=
  mkValue p (comments_ v) (start_ v) (limit_ v).
Definition setOffsetStart (v : Value) (start : Z) : Value :=
  mkValue (payload v) (comments_ v) start (limit_ v).
Definition setOffsetLimit (v : Value) (limit : Z) : Value :=
  mkValue (payload v) (comments_ v) (start_ v) limit.

Definition getOffsetStart (v : Value) : Z := start_ v.
Definition getOffsetLimit (v : Value) : Z := limit_ v.
(** [swap(other)] and [copy(other)]: payload, comments and offsets. *)
Definition dupMeta (v other : Value) : Value :=
  mkValue (payload v) (comments_ other) (start_ other) (limit_ other).
Definition copyPayload (v other : Value) : Value := set_payload v (payload other).
Definition copy (v other : Value) : Value := dupMeta (copyPayload v other) other.
Definition swap (v other : Value) : Value * Value :=
  (dupMeta (swapPayload v other) other, dupMeta (swapPayload other v) v).

Definition Comments_get (c : Comments) (slot : CommentPlacement) : str :=
  match slot with
  | commentBefore => c_before c | commentAfterOnSameLine => c_same_line c | commentAfter => c_after c
  end.
Definition Comments_has (c : Comments) (slot : CommentPlacement) : bool :=
  match Comments_get c slot with [] => false | _ => true end.
Definition Comments_set (c : Comments) (slot : CommentPlacement) (comment : str) : Comments :=
  match slot with
  | commentBefore => mkComments comment (c_same_line c) (c_after c)
  | commentAfterOnSameLine => mkComments (c_before c) comment (c_after c)
  | commentAfter => mkComments (c_before c) (c_same_line c) comment
  end.
Definition hasComment (v : Value) (slot : CommentPlacement) : bool := Comments_has (comments_ v) slot.
Definition getComment (v : Value) (slot : CommentPlacement) : str := Comments_get (comments_ v) slot.

Definition back_is (c : ascii) (s : str) : bool :=
  match rev s with x :: _ => ceqb x c | [] => false end.
Definition setComment (v : Value) (comment : str) (placement : CommentPlacement) : outcome Value :=
  let comment := if back_is LF comment then removelast comment else comment in
  json_assert (match comment with [] => false | _ => true end) #"assert json failed"
    (json_assert (ceqb (hd NUL comment) NUL || ceqb (hd NUL comment) "/")
       #"in Json::Value::setComment(): Comments must start with /"
       (Ret (mkValue (payload v) (Comments_set (comments_ v) placement comment)
               (start_ v) (limit_ v)))).

(** *** Types *)
Definition isNull (v : Value) : bool := bool_decide (type v = TNull).
Definition isBool (v : Value) : bool := bool_decide (type v = TBoolean).
Definition isString (v : Value) : bool := bool_decide (type v = TString).
Definition isArray (v : Value) : bool := bool_decide (type v = TArray).
Definition isObject (v : Value) : bool := bool_decide (type v = TObject).
(** [operator bool]. *)
Definition to_bool (v : Value) : bool := negb (isNull v).

(** [integerToDouble] of a [UInt64] (the macro [JSON_USE_INT64_DOUBLE_CONVERSION] is set
    for gcc from version 6); of the other types it is [of_int]. *)
Definition integerToDouble (value : Z) : double :=
  SFadd 53 1024 (SFmul 53 1024 (of_int (wrap_s 64 (value / 2))) (of_int 2))
    (of_int (wrap_s 64 (Z.land value 1))).
(** [InRange] with bounds that are converted to [double]. *)
Definition InRange (d : double) (lo hi : Z) : bool :=
  d_leb (of_int lo) d && d_leb d (of_int hi).
(** [real >= lo && real < hi && IsIntegral(real)]. *)
Definition integral_below (d lo hi : double) : bool :=
  d_leb lo d && d_ltb d hi && IsIntegral d.

Definition isInt (v : Value) : bool :=
  match payload v with
  | intValue z => (minInt <=? z) && (z <=? maxInt)
  | uintValue z => z <=? maxInt
  | realValue d => InRange d minInt maxInt && IsIntegral d
  | _ => false
  end.
Definition isUInt (v : Value) : bool :=
  match payload v with
  | intValue z => (0 <=? z) && (wrap_u 64 z <=? maxUInt)
  | uintValue z => z <=? maxUInt
  | realValue d => InRange d 0 maxUInt && IsIntegral d
  | _ => false
  end.
Definition isInt64 (v : Value) : bool :=
  match payload v with
  | intValue _ => true
  | uintValue z => z <=? maxInt64
  | realValue d => integral_below d (of_int minInt64) (of_int maxInt64)
  | _ => false
  end.
Definition isUInt64 (v : Value) : bool :=
  match payload v with
  | intValue z => 0 <=? z
  | uintValue _ => true
  | realValue d => integral_below d (of_int 0) maxUInt64AsDouble
  | _ => false
  end.
Definition isIntegral (v : Value) : bool :=
  match payload v with
  | intValue _ | uintValue _ => true
  | realValue d => integral_below d (of_int minInt64) maxUInt64AsDouble
  | _ => false
  end.
Definition isDouble (v : Value) : bool :=
  bool_decide (type v = TInt) || bool_decide (type v = TUInt) || bool_decide (type v = TReal).
Definition isNumeric (v : Value) : bool := isDouble v.

(** *** Conversions *)

(** The cast of a double to an integer type: undefined when the type does not hold the number
    that is left when its fraction is dropped. *)
Definition cast_double (d : double) (lo hi : Z) : outcome Z :=
  if (lo <=? to_int d) && (to_int d <=? hi) then Ret (to_int d) else Throw UndefinedBehaviour.
Definition asString (v : Value) : outcome str :=
  match payload v with
  | nullValue => Ret []
  | stringValue s => Ret s
  | booleanValue b => Ret (if b then #"true" else #"false")
  | intValue z => Ret (valueToString_int z)
  | uintValue z => Ret (valueToString_uint z)
  | realValue d => Ret (valueToString_double d false defaultRealPrecision significantDigits)
  | _ => throwLogicError #"Type is not convertible to string"
  end.
Definition asInt (v : Value) : outcome Z :=
  match payload v with
  | intValue z => json_assert (isInt v) #"LargestInt out of Int range" (Ret (wrap_s 32 z))
  | uintValue z => json_assert (isInt v) #"LargestUInt out of Int range" (Ret (wrap_s 32 z))
  | realValue d => json_assert (InRange d minInt maxInt) #"double out of Int range"
        (cast_double d minInt maxInt)
  | nullValue => Ret 0
  | booleanValue b => Ret (if b then 1 else 0)
  | _ => throwLogicError #"Value is not convertible to Int."
  end.
Definition asUInt (v : Value) : outcome Z :=
  match payload v with
  | intValue z => json_assert (isUInt v) #"LargestInt out of UInt range" (Ret (wrap_u 32 z))
  | uintValue z => json_assert (isUInt v) #"LargestUInt out of UInt range" (Ret (wrap_u 32 z))
  | realValue d => json_assert (InRange d 0 maxUInt) #"double out of UInt range"
        (cast_double d 0 maxUInt)
  | nullValue => Ret 0
  | booleanValue b => Ret (if b then 1 else 0)
  | _ => throwLogicError #"Value is not convertible to UInt."
  end.
Definition asInt64 (v : Value) : outcome Z :=
  match payload v with
  | intValue z => Ret z
  | uintValue z => json_assert (isInt64 v) #"LargestUInt out of Int64 range" (Ret z)
  | realValue d =>
      json_assert (InRange d minInt64 maxInt64) #"double out of Int64 range"
        (cast_double d minInt64 maxInt64)
  | nullValue => Ret 0
  | booleanValue b => Ret (if b then 1 else 0)
  | _ => throwLogicError #"Value is not convertible to Int64."
  end.
Definition asUInt64 (v : Value) : outcome Z :=
  match payload v with
  | intValue z => json_assert (isUInt64 v) #"LargestInt out of UInt64 range" (Ret z)
  | uintValue z => Ret z
  | realValue d =>
      json_assert (d_leb (of_int 0) d && d_leb d (integerToDouble maxUInt64))
        #"double out of UInt64 range" (cast_double d 0 maxUInt64)
  | nullValue => Ret 0
  | booleanValue b => Ret (if b then 1 else 0)
  | _ => throwLogicError #"Value is not convertible to UInt64."
  end.
Definition asLargestInt (v : Value) : outcome Z := asInt64 v.
Definition asLargestUInt (v : Value) : outcome Z := asUInt64 v.
Definition asDouble (v : Value) : outcome double :=
  match payload v with
  | intValue z => Ret (of_int z)
  | uintValue z => Ret (integerToDouble z)
  | realValue d => Ret d
  | nullValue => Ret (S754_zero false)
  | booleanValue b => Ret (of_int (if b then 1 else 0))
  | _ => throwLogicError #"Value is not convertible to double."
  end.
Definition asBool (v : Value) : outcome bool :=
  match payload v with
  | booleanValue b => Ret b
  | nullValue => Ret false
  | intValue z | uintValue z => Ret (negb (z =? 0))
  | realValue d => Ret (negb (d_eqb d (S754_zero false)))
  | _ => throwLogicError #"Value is not convertible to bool."
  end.
(** The type [float]: 24 bits of mantissa. *)
Definition to_float (d : double) : spec_float :=
  match d with S754_finite s m e => binary_round 24 128 s m e | _ => d end.
Definition asFloat (v : Value) : outcome spec_float :=
  match payload v with
  | intValue z => Ret (binary_normalize 24 128 z 0 false)
  | uintValue z => Ret (to_float (integerToDouble z))
  | realValue d => Ret (to_float d)
  | nullValue => Ret (S754_zero false)
  | booleanValue b => Ret (binary_normalize 24 128 (if b then 1 else 0) 0 false)
  | _ => throwLogicError #"Value is not convertible to float."
  end.
(** What a reader of the C string sees. *)
Definition asCString (v : Value) : outcome str :=
  match payload v with
  | stringValue s => Ret (c_str s)
  | _ => throwLogicError #"in Json::Value::asCString(): requires stringValue"
  end.
Definition getString (v : Value) : option str :=
  match payload v with stringValue s => Some s | _ => None end.

(** *** Size *)
Definition ArrayIndex_wrap (i : N) : N := (i mod 4294967296)%N.
Definition size (v : Value) : N :=
  match payload v with
  | arrayValue m =>
      match rev m with (i, _) :: _ => ArrayIndex_wrap (i + 1) | [] => 0%N end
  | objectValue m => ArrayIndex_wrap (N.of_nat (length m))
  | _ => 0%N
  end.
Definition empty (v : Value) : bool :=
  if isNull v || isArray v || isObject v then (size v =? 0)%N else false.
Definition isValidIndex (v : Value) (index : N) : bool := (index <? size v)%N.

(** [isConvertibleTo(other)]; [asDouble() == 0.0] is only evaluated on numbers. *)
Definition isConvertibleTo (v : Value) (other : ValueType) : bool :=
  match other with
  | TNull =>
      (isNumeric v && match asDouble v with Ret d => d_eqb d (S754_zero false) | _ => false end)
      || match payload v with
         | booleanValue b => negb b
         | stringValue s => match s with [] => true | _ => false end
         | arrayValue m => match m with [] => true | _ => false end
         | objectValue m => match m with [] => true | _ => false end
         | nullValue => true
         | _ => false
         end
  | TInt =>
      isInt v || match payload v with realValue d => InRange d minInt maxInt | _ => false end
      || isBool v || isNull v
  | TUInt =>
      isUInt v || match payload v with realValue d => InRange d 0 maxUInt | _ => false end
      || isBool v || isNull v
  | TReal => isNumeric v || isBool v || isNull v
  | TBoolean => isNumeric v || isBool v || isNull v
  | TString => isNumeric v || isBool v || isString v || isNull v
  | TArray => isArray v || isNull v
  | TObject => isObject v || isNull v
  end.

(** *** Members

    A reference obtained with [operator[]] is the parent and a step. *)
Inductive step := Key (k : str) | Index (i : N).
#[global] Instance step_eq_dec : EqDecision step.
Proof. solve_decision. Defined.

Definition get_child (v : Value) (s : step) : option Value :=
  match s, payload v with
  | Key k, objectValue m => map_find CZString_ltb k m
  | Index i, arrayValue m => map_find N.ltb i m
  | _, _ => None
  end.
Definition upd_child (s : step) (f : Value -> Value) (v : Value) : Value :=
  match s, payload v with
  | Key k, objectValue m => set_payload v (objectValue (map_upd CZString_ltb k f m))
  | Index i, arrayValue m => set_payload v (arrayValue (map_upd N.ltb i f m))
  | _, _ => v
  end.

(** [*this = Value(type)] when the value is null. *)
Definition null_to (t : ValueType) (v : Value) : Value := if isNull v then Value_make t else v.

(** [operator[](ArrayIndex)]: the element exists afterwards. *)
Definition index_ref (v : Value) (index : N) : outcome Value :=
  json_assert (isNull v || isArray v) #"in Json::Value::operator[](ArrayIndex): requires arrayValue"
    (let v := null_to TArray v in
     match payload v with
     | arrayValue m => Ret (set_payload v (arrayValue (map_insert_new N.ltb index nullSingleton m)))
     | _ => Ret v
     end).
(** [operator[](ArrayIndex) const]. *)
Definition index_const (v : Value) (index : N) : outcome Value :=
  json_assert (isNull v || isArray v)
    #"in Json::Value::operator[](ArrayIndex)const: requires arrayValue"
    (Ret (default nullSingleton (get_child v (Index index)))).

(** [resolveReference(key, end)]. *)
Definition resolveReference (v : Value) (key : str) : outcome Value :=
  json_assert (isNull v || isObject v)
    #"in Json::Value::resolveReference(key, end): requires objectValue"
    (let v := null_to TObject v in
     match payload v with
     | objectValue m =>
         Ret (set_payload v (objectValue (map_insert_new CZString_ltb (CZString key) nullSingleton m)))
     | _ => Ret v
     end).
Definition find (v : Value) (key : str) : outcome (option Value) :=
  json_assert (isNull v || isObject v)
    #"in Json::Value::find(begin, end): requires objectValue or nullValue"
    (Ret (get_child v (Key (CZString key)))).
(** [operator[](key) const]. *)
Definition member_const (v : Value) (key : str) : outcome Value :=
  let! found := find v key in Ret (default nullSingleton found).
(** Assignment through [operator[](key)]. *)
Definition set_member (v : Value) (key : str) (value : Value) : outcome Value :=
  let! v := resolveReference v key in
  Ret (upd_child (Key (CZString key)) (fun _ => value) v).
Definition append (v value : Value) : outcome Value :=
  let index := size v in
  let! v := index_ref v index in
  Ret (upd_child (Index index) (fun _ => value) v).
Definition get (v : Value) (key : str) (defaultValue : Value) : outcome Value :=
  let! found := find v key in Ret (default defaultValue found).
Definition isMember (v : Value) (key : str) : outcome bool :=
  let! found := find v key in Ret (match found with Some _ => true | None => false end).
Definition getMemberNames (v : Value) : outcome (list str) :=
  json_assert (isNull v || isObject v)
    #"in Json::Value::getMemberNames(), value must be objectValue"
    (Ret (match payload v with objectValue m => map fst m | _ => [] end)).

(** The loop both builders have in [validate(invalid)]: the members of [settings] that are
    no option go to [invalid]; whether it is empty then, and [invalid]. *)
Definition invalid_key (valid_keys : list str) (settings : Value) (inv : outcome Value) (key : str)
    : outcome Value :=
  let! inv := inv in
  if existsb (fun valid => bool_decide (valid = key)) valid_keys then Ret inv
  else let! v := member_const settings key in set_member inv key v.
Definition validate_keys (valid_keys : list str) (settings inv : Value) : outcome (bool * Value) :=
  let! keys := getMemberNames settings in
  let! inv := fold_left (invalid_key valid_keys settings) keys (Ret inv) in
  Ret (empty inv, inv).

(** [get(index, defaultValue)], and [operator[]] with a signed index. *)
Definition get_index (v : Value) (index : N) (defaultValue : Value) : outcome Value :=
  json_assert (isNull v || isArray v)
    #"in Json::Value::operator[](ArrayIndex)const: requires arrayValue"
    (Ret (default defaultValue (get_child v (Index index)))).
Definition index_int (v : Value) (index : Z) : outcome Value :=
  json_assert (0 <=? index) #"in Json::Value::operator[](int index): index cannot be negative"
    (index_ref v (Z.to_N index)).
Definition index_int_const (v : Value) (index : Z) : outcome Value :=
  json_assert (0 <=? index) #"in Json::Value::operator[](int index) const: index cannot be negative"
    (index_const v (Z.to_N index)).
(** [demand(begin, end)]. *)
Definition demand (v : Value) (key : str) : outcome Value :=
  json_assert (isNull v || isObject v)
    #"in Json::Value::demand(begin, end): requires objectValue or nullValue"
    (resolveReference v key).

(** [removeMember(begin, end, removed)]: whether a member was removed, which one,
    and the value without it. *)
Definition removeMember (v : Value) (key : str) : option Value * Value :=
  match payload v with
  | objectValue m =>
      match map_find CZString_ltb (CZString key) m with
      | Some removed => (Some removed, set_payload v (objectValue (map_erase CZString_ltb (CZString key) m)))
      | None => (None, v)
      end
  | _ => (None, v)
  end.
(** [void removeMember(key)]: the key ends at its first NUL, also that of a [String]. *)
Definition removeMember_cstr (v : Value) (key : str) : outcome Value :=
  json_assert (isNull v || isObject v) #"in Json::Value::removeMember(): requires objectValue"
    (Ret (match payload v with
          | objectValue m => set_payload v (objectValue (map_erase CZString_ltb (CZString (c_str key)) m))
          | _ => v
          end)).
(** [removeIndex(index, removed)]: the elements behind are moved one place left; what
    [operator[](i + 1)] does not find it makes.  [oldSize - 1] is an [ArrayIndex]. *)
Definition shift_left (m : list (N * Value)) (i : N) : list (N * Value) :=
  let m := map_insert_new N.ltb (i + 1)%N nullSingleton m in
  let next := default nullSingleton (map_find N.ltb (i + 1)%N m) in
  map_upd N.ltb i (fun _ => next) (map_insert_new N.ltb i nullSingleton m).
Definition last_index (oldSize : N) : N := ArrayIndex_wrap (oldSize + 4294967295).
Definition indices_between (i j : N) : list N := map N.of_nat (seq (N.to_nat i) (N.to_nat (j - i))).
Definition removeIndex (v : Value) (index : N) : option Value * Value :=
  match payload v with
  | arrayValue m =>
      match map_find N.ltb index m with
      | Some removed =>
          let last := last_index (size v) in
          let m := fold_left shift_left (indices_between index last) m in
          (Some removed, set_payload v (arrayValue (map_erase N.ltb last m)))
      | None => (None, v)
      end
  | _ => (None, v)
  end.

Definition clear (v : Value) : outcome Value :=
  json_assert (isNull v || isArray v || isObject v)
    #"in Json::Value::clear(): requires complex value"
    (Ret (mkValue (match payload v with
                   | arrayValue _ => arrayValue [] | objectValue _ => objectValue [] | p => p
                   end) (comments_ v) 0 0)).
Definition resize (v : Value) (newSize : N) : outcome Value :=
  json_assert (isNull v || isArray v) #"in Json::Value::resize(): requires arrayValue"
    (let v := null_to TArray v in
     let oldSize := size v in
     if (newSize =? 0)%N then clear v
     else if (oldSize <? newSize)%N then index_ref v (newSize - 1)
     else
       let v := match payload v with
                | arrayValue m =>
                    set_payload v (arrayValue (fold_left (fun m i => map_erase N.ltb i m)
                      (indices_between newSize oldSize) m))
                | _ => v
                end in
       json_assert (size v =? newSize)%N #"assert json failed" (Ret v)).

(** [operator==]. *)
Fixpoint Value_eqb (a b : Value) {struct a} : bool :=
  match a, b with
  | mkValue p _ _ _, mkValue q _ _ _ =>
      match p, q with
      | nullValue, nullValue => true
      | intValue x, intValue y => x =? y
      | uintValue x, uintValue y => x =? y
      | realValue x, realValue y => d_eqb x y
      | booleanValue x, booleanValue y => Bool.eqb x y
      | stringValue x, stringValue y => seqb x y
      | arrayValue m, arrayValue m' =>
          (fix go (m m' : list (N * Value)) : bool :=
             match m, m' with
             | [], [] => true
             | (k, x) :: m, (k', y) :: m' => (k =? k')%N && Value_eqb x y && go m m'
             | _, _ => false
             end) m m'
      | objectValue m, objectValue m' =>
          (fix go (m m' : list (str * Value)) : bool :=
             match m, m' with
             | [], [] => true
             | (k, x) :: m, (k', y) :: m' => CZString_eqb k k' && Value_eqb x y && go m m'
             | _, _ => false
             end) m m'
      | _, _ => false
      end
  end.

(** [integerToDouble] rounds without the last bit: the nearest double is another. *)
Example integerToDouble_rounds_twice :
  let z := 2 ^ 63 + 2 ^ 10 + 1 in
  to_int (integerToDouble z) = 2 ^ 63 /\ to_int (of_int z) = 2 ^ 63 + 2 ^ 11.
Proof. vm_compute. done. Qed.
