(* ===== verification/JsonWriter.v ===== *)
(** * JSON: the writer

    Models [struct BuiltStyledStreamWriter], [StreamWriterBuilder] and
    [writeString] of [json/jsoncpp.cpp].  The stream is the text written so far.
    [writeValue] has fuel for the depth of the value. *)
From Stdlib Require Import Ascii String.
From stdpp Require Import base tactics list numbers option strings.
From S2P Require Import Prelude Globals Double JsonText JsonValue.
Open Scope Z_scope.

(** ** State *)
Inductive CommentStyle := CommentsNone | CommentsMost | CommentsAll.
#[global] Instance CommentStyle_eq_dec : EqDecision CommentStyle.
Proof. solve_decision. Defined.

(** The members that the constructor sets and nothing changes. *)
Record Style := mkStyle {
  indentation_ : str;
  cs_ : CommentStyle;
  colonSymbol_ : str;
  nullSymbol_ : str;
  endingLineFeedSymbol_ : str;
  useSpecialFloats_ : bool;
  precision_ : Z;
  precisionType_ : PrecisionType
}.
Definition rightMargin_ : Z := 74.

Record Writer := mkWriter {
  sout_ : str;
  childValues_ : list str;
  indentString_ : str;
  addChildValues_ : bool;
  indented_ : bool
}.
Definition put (w : Writer) (s : str) : Writer :=
  mkWriter (sout_ w ++ s) (childValues_ w) (indentString_ w) (addChildValues_ w) (indented_ w).
Definition set_indented (w : Writer) (b : bool) : Writer :=
  mkWriter (sout_ w) (childValues_ w) (indentString_ w) (addChildValues_ w) b.
Definition set_add (w : Writer) (b : bool) : Writer :=
  mkWriter (sout_ w) (childValues_ w) (indentString_ w) b (indented_ w).
Definition set_children (w : Writer) (c : list str) : Writer :=
  mkWriter (sout_ w) c (indentString_ w) (addChildValues_ w) (indented_ w).
Definition set_indentString (w : Writer) (s : str) : Writer :=
  mkWriter (sout_ w) (childValues_ w) s (addChildValues_ w) (indented_ w).

Definition hasCommentForValue (v : Value) : bool :=
  hasComment v commentBefore || hasComment v commentAfterOnSameLine || hasComment v commentAfter.

Section Writing.
Context (st : Style).

Definition pushValue (w : Writer) (value : str) : Writer :=
  if addChildValues_ w then set_children w (childValues_ w ++ [value]) else put w value.
Definition writeIndent (w : Writer) : Writer :=
  match indentation_ st with [] => w | _ => put w (LF :: indentString_ w) end.
Definition unless_indented (w : Writer) : Writer := if indented_ w then w else writeIndent w.
Definition writeWithIndent (w : Writer) (value : str) : Writer :=
  set_indented (put (unless_indented w) value) false.
Definition indent (w : Writer) : Writer := set_indentString w (indentString_ w ++ indentation_ st).
Definition unindent (w : Writer) : Writer :=
  set_indentString w (take (length (indentString_ w) - length (indentation_ st)) (indentString_ w)).

(** The loop over the characters of a comment. *)
Fixpoint comment_text (indentString : str) (comment : str) : str :=
  match comment with
  | [] => []
  | c :: rest =>
      c :: (if ceqb c LF && match rest with d :: _ => ceqb d "/" | [] => false end
            then indentString else []) ++ comment_text indentString rest
  end.
Definition writeCommentBeforeValue (w : Writer) (v : Value) : Writer :=
  if bool_decide (cs_ st = CommentsNone) then w
  else if negb (hasComment v commentBefore) then w
  else
    let w := unless_indented w in
    set_indented (put w (comment_text (indentString_ w) (getComment v commentBefore))) false.
Definition writeCommentAfterValueOnSameLine (w : Writer) (v : Value) : Writer :=
  if bool_decide (cs_ st = CommentsNone) then w
  else
    let w := if hasComment v commentAfterOnSameLine
             then put w (#" " ++ getComment v commentAfterOnSameLine) else w in
    if hasComment v commentAfter then put (writeIndent w) (getComment v commentAfter) else w.

(** The functions that call [writeValue], which is [rec]. *)
Section Rec.
Context (rec : Writer -> Value -> outcome Writer).

(** The loop over the members of an object. *)
Fixpoint members_loop (w : Writer) (v : Value) (members : list str) : outcome Writer :=
  match members with
  | [] => Ret w
  | name :: members' =>
      let! childValue := member_const v name in
      let w := writeCommentBeforeValue w childValue in
      let w := writeWithIndent w (valueToQuotedStringN name) in
      let w := put w (colonSymbol_ st) in
      let! w := rec w childValue in
      match members' with
      | [] => Ret (writeCommentAfterValueOnSameLine w childValue)
      | _ => members_loop (writeCommentAfterValueOnSameLine (put w #",") childValue) v members'
      end
  end.
Definition writeObjectValue (w : Writer) (v : Value) : outcome Writer :=
  let! members := getMemberNames v in
  match members with
  | [] => Ret (pushValue w #"{}")
  | _ =>
      let w := indent (writeWithIndent w #"{") in
      let! w := members_loop w v members in
      Ret (writeWithIndent (unindent w) #"}")
  end.

Definition indices (n : N) : list N := map N.of_nat (seq 0 (N.to_nat n)).

(** The two loops of [isMultilineArray]. *)
Fixpoint any_composite (v : Value) (ix : list N) : outcome bool :=
  match ix with
  | [] => Ret false
  | i :: ix =>
      let! childValue := index_const v i in
      if (isArray childValue || isObject childValue) && negb (empty childValue) then Ret true
      else any_composite v ix
  end.
Fixpoint measure_loop (w : Writer) (v : Value) (ix : list N) (isMultiLine : bool) (lineLength : Z)
    : outcome (Writer * bool * Z) :=
  match ix with
  | [] => Ret (w, isMultiLine, lineLength)
  | i :: ix =>
      let! childValue := index_const v i in
      let isMultiLine := isMultiLine || hasCommentForValue childValue in
      let! w := rec w childValue in
      let lineLength :=
        wrap_u 32 (lineLength + Z.of_nat (length (nth (N.to_nat i) (childValues_ w) []))) in
      measure_loop w v ix isMultiLine lineLength
  end.
Definition isMultilineArray (w : Writer) (v : Value) : outcome (Writer * bool) :=
  let n := size v in
  let w := set_children w [] in
  let! isMultiLine :=
    (if rightMargin_ <=? wrap_u 32 (Z.of_N n * 3) then Ret true else any_composite v (indices n)) in
  if isMultiLine : bool then Ret (w, true)
  else
    let w := set_add w true in
    let! (w, isMultiLine, lineLength) :=
      measure_loop w v (indices n) false (wrap_u 32 (4 + (Z.of_N n - 1) * 2)) in
    Ret (set_add w false, isMultiLine || (rightMargin_ <=? lineLength)).

(** The loop over the elements of an array that takes several lines. *)
Fixpoint elements_loop (w : Writer) (v : Value) (hasChildValue : bool) (ix : list N)
    : outcome Writer :=
  match ix with
  | [] => Ret w
  | i :: ix' =>
      let! childValue := index_const v i in
      let w := writeCommentBeforeValue w childValue in
      let! w :=
        (if hasChildValue then Ret (writeWithIndent w (nth (N.to_nat i) (childValues_ w) []))
         else
           let w := set_indented (unless_indented w) true in
           let! w := rec w childValue in
           Ret (set_indented w false)) in
      match ix' with
      | [] => Ret (writeCommentAfterValueOnSameLine w childValue)
      | _ =>
          elements_loop (writeCommentAfterValueOnSameLine (put w #",") childValue) v
            hasChildValue ix'
      end
  end.
Definition single_line (w : Writer) (ix : list N) : Writer :=
  let sep := match indentation_ st with [] => #"," | _ => #", " end in
  let pad := match indentation_ st with [] => [] | _ => #" " end in
  let w := put (put w #"[") pad in
  let w := fold_left (fun w i =>
             put (if (0 <? i)%N then put w sep else w) (nth (N.to_nat i) (childValues_ w) [])) ix w in
  put (put w pad) #"]".
Definition writeArrayValue (w : Writer) (v : Value) : outcome Writer :=
  let n := size v in
  if (n =? 0)%N then Ret (pushValue w #"[]")
  else
    let! (w, isMultiLine) :=
      (if bool_decide (cs_ st = CommentsAll) then Ret (w, true) else isMultilineArray w v) in
    if isMultiLine : bool then
      let w := indent (writeWithIndent w #"[") in
      let hasChildValue := match childValues_ w with [] => false | _ => true end in
      let! w := elements_loop w v hasChildValue (indices n) in
      Ret (writeWithIndent (unindent w) #"]")
    else Ret (single_line w (indices n)).
End Rec.

Fixpoint writeValue (fuel : nat) (w : Writer) (v : Value) : outcome Writer :=
  match fuel with
  | O => OutOfFuel
  | S fuel' =>
      match payload v with
      | nullValue => Ret (pushValue w (nullSymbol_ st))
      | intValue _ =>
          let! z := asLargestInt v in Ret (pushValue w (valueToString_int z))
      | uintValue _ =>
          let! z := asLargestUInt v in Ret (pushValue w (valueToString_uint z))
      | realValue _ =>
          let! d := asDouble v in
          Ret (pushValue w (valueToString_double d (useSpecialFloats_ st) (precision_ st)
                 (precisionType_ st)))
      | stringValue _ =>
          match getString v with
          | Some s => Ret (pushValue w (valueToQuotedStringN s))
          | None => Ret (pushValue w [])
          end
      | booleanValue _ =>
          let! b := asBool v in Ret (pushValue w (valueToString_bool b))
      | arrayValue _ => writeArrayValue (writeValue fuel') w v
      | objectValue _ => writeObjectValue (writeValue fuel') w v
      end
  end.

(** [write(root, sout)]: the text written. *)
Definition write (fuel : nat) (root : Value) : outcome str :=
  let w := mkWriter [] [] [] false true in
  let w := writeCommentBeforeValue w root in
  let w := set_indented (unless_indented w) true in
  let! w := writeValue fuel w root in
  let w := writeCommentAfterValueOnSameLine w root in
  Ret (sout_ (put w (endingLineFeedSymbol_ st))).
End Writing.

(** ** [StreamWriterBuilder] *)
Definition set_cstr (settings : Value) (key value : str) : outcome Value :=
  let! v := Value_cstr value in set_member settings key v.
Definition getValidWriterKeys : list str :=
  [#"indentation"; #"commentStyle"; #"enableYAMLCompatibility"; #"dropNullPlaceholders";
   #"useSpecialFloats"; #"precision"; #"precisionType"].
Definition writer_validate (settings invalid : Value) : outcome (bool * Value) :=
  validate_keys getValidWriterKeys settings invalid.
Definition setDefaults (settings : Value) : outcome Value :=
  let! s := set_cstr settings #"commentStyle" #"All" in
  let! s := set_cstr s #"indentation" [HT] in
  let! s := set_member s #"enableYAMLCompatibility" (Value_bool false) in
  let! s := set_member s #"dropNullPlaceholders" (Value_bool false) in
  let! s := set_member s #"useSpecialFloats" (Value_bool false) in
  let! s := set_member s #"precision" (Value_int 17) in
  set_cstr s #"precisionType" #"significant".
Definition newStreamWriter (settings : Value) : outcome Style :=
  let! indentation := (let! v := member_const settings #"indentation" in asString v) in
  let! cs_str := (let! v := member_const settings #"commentStyle" in asString v) in
  let! pt_str := (let! v := member_const settings #"precisionType" in asString v) in
  let! eyc := (let! v := member_const settings #"enableYAMLCompatibility" in asBool v) in
  let! dnp := (let! v := member_const settings #"dropNullPlaceholders" in asBool v) in
  let! usf := (let! v := member_const settings #"useSpecialFloats" in asBool v) in
  let! pre := (let! v := member_const settings #"precision" in asUInt v) in
  let! cs := (if seqb cs_str #"All" then Ret CommentsAll
              else if seqb cs_str #"None" then Ret CommentsNone
              else throwRuntimeError #"commentStyle must be 'All' or 'None'") in
  let! precisionType :=
    (if seqb pt_str #"significant" then Ret significantDigits
     else if seqb pt_str #"decimal" then Ret decimalPlaces
     else throwRuntimeError #"precisionType must be 'significant' or 'decimal'") in
  let colonSymbol := if eyc : bool then #": "
                     else match indentation with [] => #":" | _ => #" : " end in
  let nullSymbol := if dnp : bool then [] else #"null" in
  Ret (mkStyle indentation cs colonSymbol nullSymbol [] usf (Z.min pre 17) precisionType).
(** The style of a default-constructed builder. *)
Definition default_style : Style :=
  mkStyle [HT] CommentsAll #" : " #"null" [] false 17 significantDigits.

(** The depth of a value: with this much fuel the writer is never short of it. *)
Fixpoint depth (v : Value) : nat :=
  let 'mkValue p _ _ _ := v in
  match p with
  | arrayValue m => S (list_max (map (fun kv => depth (snd kv)) m))
  | objectValue m => S (list_max (map (fun kv => depth (snd kv)) m))
  | _ => 1
  end%nat.
(** [writeString(factory, root)]. *)
Definition writeString (settings root : Value) : outcome str :=
  let! st := newStreamWriter settings in write st (S (depth root)) root.

Lemma default_writer :
  (let! s := setDefaults nullSingleton in newStreamWriter s) = Ret default_style.
Proof. vm_compute. reflexivity. Qed.
Example write_sample :
  (let! s := setDefaults nullSingleton in
   let! v := set_member nullSingleton #"b" (Value_int (-5)) in
   let! a := append (Value_make TArray) (Value_uint 18446744073709551615) in
   let! a := append a (Value_double (of_decimal false 15 (-1))) in
   let! v := set_member v #"a" a in
   let! v := set_member v #"c" (Value_make TObject) in
   writeString s v) =
  Ret (#"{" ++ [LF; HT; DQ] ++ #"a" ++ [DQ] ++ #" : " ++ [LF; HT] ++ #"[" ++ [LF; HT; HT] ++
       #"18446744073709551615," ++ [LF; HT; HT] ++ #"1.5" ++ [LF; HT] ++ #"]," ++ [LF; HT; DQ] ++
       #"b" ++ [DQ] ++ #" : -5," ++ [LF; HT; DQ] ++ #"c" ++ [DQ] ++ #" : {}" ++ [LF] ++ #"}").
Proof. vm_compute. reflexivity. Qed.
