(* ===== verification/JsonWriters.v ===== *)
(** * JSON: the older writers

    Models [class FastWriter], [class StyledWriter] and [class StyledStreamWriter]
    of [json/jsoncpp.cpp], a Module each; [operator<<] and [Value::toStyledString], which
    use [StreamWriterBuilder].  As in [JsonWriter] the document is the text written so far,
    and the recursion has fuel for the depth of the value. *)
From Stdlib Require Import Ascii String.
From stdpp Require Import base tactics list numbers option strings.
From S2P Require Import Prelude Globals Double JsonText JsonValue JsonWriter.
Open Scope Z_scope.

(** [valueToString(double)] with its default arguments; [valueToQuotedString]. *)
Definition valueToString_default (value : double) : str :=
  valueToString_double value false defaultRealPrecision significantDigits.
Definition valueToQuotedString (value : str) : str := valueToQuotedStringN (c_str value).

Definition toStyledString (v : Value) : outcome str :=
  let! settings := setDefaults nullSingleton in
  let out := if hasComment v commentBefore then [LF] else [] in
  let! s := writeString settings v in
  Ret (out ++ s ++ [LF]).
(** [operator<<]: what is added to the stream. *)
Definition stream_out (root : Value) : outcome str :=
  let! settings := setDefaults nullSingleton in
  let! st := newStreamWriter settings in write st (S (depth root)) root.

(** ** [FastWriter] *)
Module Fast.
Record FastWriter := mkFastWriter {
  yamlCompatibilityEnabled_ : bool;
  dropNullPlaceholders_ : bool;
  omitEndingLineFeed_ : bool
}.
Definition FastWriter_default : FastWriter := mkFastWriter false false false.
Definition enableYAMLCompatibility (w : FastWriter) : FastWriter :=
  mkFastWriter true (dropNullPlaceholders_ w) (omitEndingLineFeed_ w).
Definition dropNullPlaceholders (w : FastWriter) : FastWriter :=
  mkFastWriter (yamlCompatibilityEnabled_ w) true (omitEndingLineFeed_ w).
Definition omitEndingLineFeed (w : FastWriter) : FastWriter :=
  mkFastWriter (yamlCompatibilityEnabled_ w) (dropNullPlaceholders_ w) true.

Section Writing.
Context (self : FastWriter).

Section Rec.
Context (rec : str -> Value -> outcome str).

Fixpoint elements_loop (document_ : str) (v : Value) (ix : list N) : outcome str :=
  match ix with
  | [] => Ret document_
  | index :: ix =>
      let document_ := if (0 <? index)%N then document_ ++ #"," else document_ in
      let! childValue := index_const v index in
      let! document_ := rec document_ childValue in
      elements_loop document_ v ix
  end.
Fixpoint members_loop (document_ : str) (v : Value) (begin : bool) (members : list str)
    : outcome str :=
  match members with
  | [] => Ret document_
  | name :: members =>
      let document_ := if begin then document_ else document_ ++ #"," in
      let document_ := document_ ++ valueToQuotedStringN name in
      let document_ := document_ ++ if yamlCompatibilityEnabled_ self then #": " else #":" in
      let! childValue := member_const v name in
      let! document_ := rec document_ childValue in
      members_loop document_ v false members
  end.
End Rec.

Fixpoint writeValue (fuel : nat) (document_ : str) (v : Value) : outcome str :=
  match fuel with
  | O => OutOfFuel
  | S fuel' =>
      match payload v with
      | nullValue => Ret (if dropNullPlaceholders_ self then document_ else document_ ++ #"null")
      | intValue _ => let! z := asLargestInt v in Ret (document_ ++ valueToString_int z)
      | uintValue _ => let! z := asLargestUInt v in Ret (document_ ++ valueToString_uint z)
      | realValue _ => let! d := asDouble v in Ret (document_ ++ valueToString_default d)
      | stringValue _ =>
          match getString v with
          | Some s => Ret (document_ ++ valueToQuotedStringN s)
          | None => Ret document_
          end
      | booleanValue _ => let! b := asBool v in Ret (document_ ++ valueToString_bool b)
      | arrayValue _ =>
          let document_ := document_ ++ #"[" in
          let! document_ := elements_loop (writeValue fuel') document_ v (indices (size v)) in
          Ret (document_ ++ #"]")
      | objectValue _ =>
          let! members := getMemberNames v in
          let document_ := document_ ++ #"{" in
          let! document_ := members_loop (writeValue fuel') document_ v true members in
          Ret (document_ ++ #"}")
      end
  end.
Definition write (fuel : nat) (root : Value) : outcome str :=
  let! document_ := writeValue fuel [] root in
  Ret (if omitEndingLineFeed_ self then document_ else document_ ++ [LF]).
End Writing.
End Fast.

(** ** [StyledStreamWriter]

    The members are those of [Writer] in [JsonWriter]; [indented_] tells whether the
    indentation has been written. *)
Module Stream.
Section Writing.
Context (indentation : str).

Definition writeIndent (w : Writer) : Writer := put w (LF :: indentString_ w).
Definition unless_indented (w : Writer) : Writer := if indented_ w then w else writeIndent w.
Definition writeWithIndent (w : Writer) (value : str) : Writer :=
  set_indented (put (unless_indented w) value) false.
Definition indent (w : Writer) : Writer := set_indentString w (indentString_ w ++ indentation).
Definition unindent (w : Writer) : Writer :=
  set_indentString w (take (length (indentString_ w) - length indentation) (indentString_ w)).
Definition writeCommentBeforeValue (w : Writer) (root : Value) : Writer :=
  if negb (hasComment root commentBefore) then w
  else
    let w := unless_indented w in
    set_indented (put w (comment_text (indentString_ w) (getComment root commentBefore))) false.
Definition writeCommentAfterValueOnSameLine (w : Writer) (root : Value) : Writer :=
  let w := if hasComment root commentAfterOnSameLine
           then put w (#" " ++ getComment root commentAfterOnSameLine) else w in
  let w := if hasComment root commentAfter
           then put (writeIndent w) (getComment root commentAfter) else w in
  set_indented w false.

Section Rec.
Context (rec : Writer -> Value -> outcome Writer).

Fixpoint members_loop (w : Writer) (v : Value) (members : list str) : outcome Writer :=
  match members with
  | [] => Ret w
  | name :: members' =>
      let! childValue := member_const v name in
      let w := writeCommentBeforeValue w childValue in
      let w := writeWithIndent w (valueToQuotedString name) in
      let w := put w #" : " in
      let! w := rec w childValue in
      match members' with
      | [] => Ret (writeCommentAfterValueOnSameLine w childValue)
      | _ => members_loop (writeCommentAfterValueOnSameLine (put w #",") childValue) v members'
      end
  end.
Definition writeObjectValue (w : Writer) (v : Value) : outcome Writer :=
  let! members := getMemberNames v in
  match members with
  | [] => Ret (pushValue w #"{}")
  | _ =>
      let w := indent (writeWithIndent w #"{") in
      let! w := members_loop w v members in
      Ret (writeWithIndent (unindent w) #"}")
  end.
Fixpoint measure_loop (w : Writer) (v : Value) (ix : list N) (isMultiLine : bool) (lineLength : Z)
    : outcome (Writer * bool * Z) :=
  match ix with
  | [] => Ret (w, isMultiLine, lineLength)
  | i :: ix =>
      let! childValue := index_const v i in
      let isMultiLine := isMultiLine || hasCommentForValue childValue in
      let! w := rec w childValue in
      let lineLength :=
        wrap_u 32 (lineLength + Z.of_nat (length (nth (N.to_nat i) (childValues_ w) []))) in
      measure_loop w v ix isMultiLine lineLength
  end.
Definition isMultilineArray (w : Writer) (v : Value) : outcome (Writer * bool) :=
  let n := size v in
  let w := set_children w [] in
  let! isMultiLine :=
    (if rightMargin_ <=? wrap_u 32 (Z.of_N n * 3) then Ret true else any_composite v (indices n)) in
  if isMultiLine : bool then Ret (w, true)
  else
    let w := set_add w true in
    let! (w, isMultiLine, lineLength) :=
      measure_loop w v (indices n) false (wrap_u 32 (4 + (Z.of_N n - 1) * 2)) in
    Ret (set_add w false, isMultiLine || (rightMargin_ <=? lineLength)).
Fixpoint elements_loop (w : Writer) (v : Value) (hasChildValue : bool) (ix : list N)
    : outcome Writer :=
  match ix with
  | [] => Ret w
  | i :: ix' =>
      let! childValue := index_const v i in
      let w := writeCommentBeforeValue w childValue in
      let! w :=
        (if hasChildValue then Ret (writeWithIndent w (nth (N.to_nat i) (childValues_ w) []))
         else
           let w := set_indented (unless_indented w) true in
           let! w := rec w childValue in
           Ret (set_indented w false)) in
      match ix' with
      | [] => Ret (writeCommentAfterValueOnSameLine w childValue)
      | _ =>
          elements_loop (writeCommentAfterValueOnSameLine (put w #",") childValue) v
            hasChildValue ix'
      end
  end.
Definition single_line (w : Writer) (ix : list N) : Writer :=
  let w := put w #"[ " in
  let w := fold_left (fun w i =>
             put (if (0 <? i)%N then put w #", " else w) (nth (N.to_nat i) (childValues_ w) [])) ix w in
  put w #" ]".
Definition writeArrayValue (w : Writer) (v : Value) : outcome Writer :=
  let n := size v in
  if (n =? 0)%N then Ret (pushValue w #"[]")
  else
    let! (w, isArrayMultiLine) := isMultilineArray w v in
    if isArrayMultiLine : bool then
      let w := indent (writeWithIndent w #"[") in
      let hasChildValue := match childValues_ w with [] => false | _ => true end in
      let! w := elements_loop w v hasChildValue (indices n) in
      Ret (writeWithIndent (unindent w) #"]")
    else Ret (single_line w (indices n)).
End Rec.

Fixpoint writeValue (fuel : nat) (w : Writer) (v : Value) : outcome Writer :=
  match fuel with
  | O => OutOfFuel
  | S fuel' =>
      match payload v with
      | nullValue => Ret (pushValue w #"null")
      | intValue _ => let! z := asLargestInt v in Ret (pushValue w (valueToString_int z))
      | uintValue _ => let! z := asLargestUInt v in Ret (pushValue w (valueToString_uint z))
      | realValue _ => let! d := asDouble v in Ret (pushValue w (valueToString_default d))
      | stringValue _ =>
          match getString v with
          | Some s => Ret (pushValue w (valueToQuotedStringN s))
          | None => Ret (pushValue w [])
          end
      | booleanValue _ => let! b := asBool v in Ret (pushValue w (valueToString_bool b))
      | arrayValue _ => writeArrayValue (writeValue fuel') w v
      | objectValue _ => writeObjectValue (writeValue fuel') w v
      end
  end.
(** [write(out, root)] of a new writer: the text written. *)
Definition write (fuel : nat) (root : Value) : outcome str :=
  let w := mkWriter [] [] [] false true in
  let w := writeCommentBeforeValue w root in
  let w := set_indented (unless_indented w) true in
  let! w := writeValue fuel w root in
  let w := writeCommentAfterValueOnSameLine w root in
  Ret (sout_ (put w [LF])).
End Writing.
End Stream.

(** ** [StyledWriter]

    There is no stream: whether a line has its indentation is seen from the last
    character of the document. *)
Module Styled.
Record StyledWriter := mkStyledWriter {
  document_ : str;
  childValues_ : list str;
  indentString_ : str;
  addChildValues_ : bool
}.
Definition indentSize_ : nat := 3.
Definition put (w : StyledWriter) (s : str) : StyledWriter :=
  mkStyledWriter (document_ w ++ s) (childValues_ w) (indentString_ w) (addChildValues_ w).
Definition set_children (w : StyledWriter) (c : list str) : StyledWriter :=
  mkStyledWriter (document_ w) c (indentString_ w) (addChildValues_ w).
Definition set_indentString (w : StyledWriter) (s : str) : StyledWriter :=
  mkStyledWriter (document_ w) (childValues_ w) s (addChildValues_ w).
Definition set_add (w : StyledWriter) (b : bool) : StyledWriter :=
  mkStyledWriter (document_ w) (childValues_ w) (indentString_ w) b.

Definition pushValue (w : StyledWriter) (value : str) : StyledWriter :=
  if addChildValues_ w then set_children w (childValues_ w ++ [value]) else put w value.
Definition writeIndent (w : StyledWriter) : StyledWriter :=
  match rev (document_ w) with
  | [] => put w (indentString_ w)
  | last :: _ =>
      if ceqb last SP then w
      else put (if ceqb last LF then w else put w [LF]) (indentString_ w)
  end.
Definition writeWithIndent (w : StyledWriter) (value : str) : StyledWriter :=
  put (writeIndent w) value.
Definition indent (w : StyledWriter) : StyledWriter :=
  set_indentString w (indentString_ w ++ repeat SP indentSize_).
Definition unindent (w : StyledWriter) : StyledWriter :=
  set_indentString w (take (length (indentString_ w) - indentSize_) (indentString_ w)).
Fixpoint comment_loop (w : StyledWriter) (comment : str) : StyledWriter :=
  match comment with
  | [] => w
  | c :: rest =>
      let w := put w [c] in
      let w := if ceqb c LF && match rest with d :: _ => ceqb d "/" | [] => false end
               then writeIndent w else w in
      comment_loop w rest
  end.
Definition writeCommentBeforeValue (w : StyledWriter) (root : Value) : StyledWriter :=
  if negb (hasComment root commentBefore) then w
  else put (comment_loop (writeIndent (put w [LF])) (getComment root commentBefore)) [LF].
Definition writeCommentAfterValueOnSameLine (w : StyledWriter) (root : Value) : StyledWriter :=
  let w := if hasComment root commentAfterOnSameLine
           then put w (#" " ++ getComment root commentAfterOnSameLine) else w in
  if hasComment root commentAfter
  then put (put (put w [LF]) (getComment root commentAfter)) [LF] else w.

Section Rec.
Context (rec : StyledWriter -> Value -> outcome StyledWriter).

Fixpoint members_loop (w : StyledWriter) (v : Value) (members : list str) : outcome StyledWriter :=
  match members with
  | [] => Ret w
  | name :: members' =>
      let! childValue := member_const v name in
      let w := writeCommentBeforeValue w childValue in
      let w := writeWithIndent w (valueToQuotedString name) in
      let w := put w #" : " in
      let! w := rec w childValue in
      match members' with
      | [] => Ret (writeCommentAfterValueOnSameLine w childValue)
      | _ => members_loop (writeCommentAfterValueOnSameLine (put w #",") childValue) v members'
      end
  end.
Definition writeObjectValue (w : StyledWriter) (v : Value) : outcome StyledWriter :=
  let! members := getMemberNames v in
  match members with
  | [] => Ret (pushValue w #"{}")
  | _ =>
      let w := indent (writeWithIndent w #"{") in
      let! w := members_loop w v members in
      Ret (writeWithIndent (unindent w) #"}")
  end.
Fixpoint measure_loop (w : StyledWriter) (v : Value) (ix : list N) (isMultiLine : bool)
    (lineLength : Z) : outcome (StyledWriter * bool * Z) :=
  match ix with
  | [] => Ret (w, isMultiLine, lineLength)
  | i :: ix =>
      let! childValue := index_const v i in
      let isMultiLine := isMultiLine || hasCommentForValue childValue in
      let! w := rec w childValue in
      let lineLength :=
        wrap_u 32 (lineLength + Z.of_nat (length (nth (N.to_nat i) (childValues_ w) []))) in
      measure_loop w v ix isMultiLine lineLength
  end.
Definition isMultilineArray (w : StyledWriter) (v : Value) : outcome (StyledWriter * bool) :=
  let n := size v in
  let w := set_children w [] in
  let! isMultiLine :=
    (if rightMargin_ <=? wrap_u 32 (Z.of_N n * 3) then Ret true else any_composite v (indices n)) in
  if isMultiLine : bool then Ret (w, true)
  else
    let w := set_add w true in
    let! (w, isMultiLine, lineLength) :=
      measure_loop w v (indices n) false (wrap_u 32 (4 + (Z.of_N n - 1) * 2)) in
    Ret (set_add w false, isMultiLine || (rightMargin_ <=? lineLength)).
Fixpoint elements_loop (w : StyledWriter) (v : Value) (hasChildValue : bool) (ix : list N)
    : outcome StyledWriter :=
  match ix with
  | [] => Ret w
  | i :: ix' =>
      let! childValue := index_const v i in
      let w := writeCommentBeforeValue w childValue in
      let! w :=
        (if hasChildValue then Ret (writeWithIndent w (nth (N.to_nat i) (childValues_ w) []))
         else let! w := rec (writeIndent w) childValue in Ret w) in
      match ix' with
      | [] => Ret (writeCommentAfterValueOnSameLine w childValue)
      | _ =>
          elements_loop (writeCommentAfterValueOnSameLine (put w #",") childValue) v
            hasChildValue ix'
      end
  end.
Definition single_line (w : StyledWriter) (ix : list N) : StyledWriter :=
  let w := put w #"[ " in
  let w := fold_left (fun w i =>
             put (if (0 <? i)%N then put w #", " else w) (nth (N.to_nat i) (childValues_ w) [])) ix w in
  put w #" ]".
Definition writeArrayValue (w : StyledWriter) (v : Value) : outcome StyledWriter :=
  let n := size v in
  if (n =? 0)%N then Ret (pushValue w #"[]")
  else
    let! (w, isArrayMultiLine) := isMultilineArray w v in
    if isArrayMultiLine : bool then
      let w := indent (writeWithIndent w #"[") in
      let hasChildValue := match childValues_ w with [] => false | _ => true end in
      let! w := elements_loop w v hasChildValue (indices n) in
      Ret (writeWithIndent (unindent w) #"]")
    else Ret (single_line w (indices n)).
End Rec.

Fixpoint writeValue (fuel : nat) (w : StyledWriter) (v : Value) : outcome StyledWriter :=
  match fuel with
  | O => OutOfFuel
  | S fuel' =>
      match payload v with
      | nullValue => Ret (pushValue w #"null")
      | intValue _ => let! z := asLargestInt v in Ret (pushValue w (valueToString_int z))
      | uintValue _ => let! z := asLargestUInt v in Ret (pushValue w (valueToString_uint z))
      | realValue _ => let! d := asDouble v in Ret (pushValue w (valueToString_default d))
      | stringValue _ =>
          match getString v with
          | Some s => Ret (pushValue w (valueToQuotedStringN s))
          | None => Ret (pushValue w [])
          end
      | booleanValue _ => let! b := asBool v in Ret (pushValue w (valueToString_bool b))
      | arrayValue _ => writeArrayValue (writeValue fuel') w v
      | objectValue _ => writeObjectValue (writeValue fuel') w v
      end
  end.
(** [write(root)] of a new writer. *)
Definition write (fuel : nat) (root : Value) : outcome str :=
  let w := mkStyledWriter [] [] [] false in
  let w := writeCommentBeforeValue w root in
  let! w := writeValue fuel w root in
  let w := writeCommentAfterValueOnSameLine w root in
  Ret (document_ (put w [LF])).
End Styled.

(** The four writers on one value: where they break lines. *)
Definition four_ways : Value :=
  initBasic (objectValue
    [(#"a", initBasic (arrayValue [(0%N, Value_int 1); (1%N, Value_bool true)]));
     (#"b", initBasic (objectValue [(#"c", nullSingleton)]))]).
Example fast_sample : Fast.write Fast.FastWriter_default 3 four_ways =
  Ret (#"{" ++ [DQ] ++ #"a" ++ [DQ] ++ #":[1,true]," ++ [DQ] ++ #"b" ++ [DQ] ++ #":{" ++ [DQ] ++ #"c"
       ++ [DQ] ++ #":null}}" ++ [LF]).
Proof. vm_compute. reflexivity. Qed.
Example stream_sample : Stream.write [HT] 3 four_ways =
  Ret (#"{" ++ [LF; HT; DQ] ++ #"a" ++ [DQ] ++ #" : [ 1, true ]," ++ [LF; HT; DQ] ++ #"b" ++ [DQ] ++
       #" : " ++ [LF; HT] ++ #"{" ++ [LF; HT; HT; DQ] ++ #"c" ++ [DQ] ++ #" : null" ++ [LF; HT] ++
       #"}" ++ [LF] ++ #"}" ++ [LF]).
Proof. vm_compute. reflexivity. Qed.
Example styled_sample : Styled.write 3 four_ways =
  Ret (#"{" ++ [LF] ++ #"   " ++ [DQ] ++ #"a" ++ [DQ] ++ #" : [ 1, true ]," ++ [LF] ++ #"   " ++ [DQ] ++
       #"b" ++ [DQ] ++ #" : {" ++ [LF] ++ #"      " ++ [DQ] ++ #"c" ++ [DQ] ++ #" : null" ++ [LF] ++
       #"   }" ++ [LF] ++ #"}" ++ [LF]).
Proof. vm_compute. reflexivity. Qed.
