(* ===== verification/JsonReader.v ===== *)
(** * JSON: the reader

    Models [class OurReader], [CharReaderBuilder] and [parseFromStream] of
    [json/jsoncpp.cpp].  A [Location], a pointer into the document, is the text
    from it to [end_]; the stack [nodes_] of pointers to values and the pointer
    [lastValue_] are paths of steps from the root, the innermost step first.
    Loops have fuel for the characters that are left, [readValue] for the levels
    the stack may still grow; [JsonReaderLaws] shows that both are enough. *)
From Stdlib Require Import Ascii String.
From stdpp Require Import base tactics list numbers option strings.
From S2P Require Import Prelude Globals Double JsonText JsonValue.
Open Scope Z_scope.

(** ** Data *)
Record OurFeatures := mkFeatures {
  allowComments_ : bool;
  strictRoot_ : bool;
  allowDroppedNullPlaceholders_ : bool;
  allowNumericKeys_ : bool;
  allowSingleQuotes_ : bool;
  failIfExtra_ : bool;
  rejectDupKeys_ : bool;
  allowSpecialFloats_ : bool;
  stackLimit_ : nat
}.

Inductive TokenType :=
  | tokenEndOfStream | tokenObjectBegin | tokenObjectEnd | tokenArrayBegin | tokenArrayEnd
  | tokenString | tokenNumber | tokenTrue | tokenFalse | tokenNull | tokenNaN | tokenPosInf
  | tokenNegInf | tokenArraySeparator | tokenMemberSeparator | tokenComment | tokenError.
#[global] Instance TokenType_eq_dec : EqDecision TokenType.
Proof. solve_decision. Defined.

Abbreviation Location := str.
Record Token := mkToken { type_ : TokenType; tok_start : Location; tok_end : Location }.
Definition is_token (t : Token) (ty : TokenType) : bool := bool_decide (type_ t = ty).

Record ErrorInfo := mkErrorInfo { ei_token : Token; ei_message : str; ei_extra : option Location }.

(** [lastValueEnd_] and [lastValue_], which are always set together, are [last_]. *)
Record OurReader := mkReader {
  current_ : Location;
  last_ : option (Location * list step);
  commentsBefore_ : str;
  errors_ : list ErrorInfo;
  root_ : Value;
  nodes_ : list step
}.
Definition set_current (r : OurReader) (l : Location) : OurReader :=
  mkReader l (last_ r) (commentsBefore_ r) (errors_ r) (root_ r) (nodes_ r).
Definition set_last (r : OurReader) (l : option (Location * list step)) : OurReader :=
  mkReader (current_ r) l (commentsBefore_ r) (errors_ r) (root_ r) (nodes_ r).
Definition set_commentsBefore (r : OurReader) (c : str) : OurReader :=
  mkReader (current_ r) (last_ r) c (errors_ r) (root_ r) (nodes_ r).
Definition set_errors (r : OurReader) (e : list ErrorInfo) : OurReader :=
  mkReader (current_ r) (last_ r) (commentsBefore_ r) e (root_ r) (nodes_ r).
Definition set_root (r : OurReader) (v : Value) : OurReader :=
  mkReader (current_ r) (last_ r) (commentsBefore_ r) (errors_ r) v (nodes_ r).
Definition set_nodes (r : OurReader) (p : list step) : OurReader :=
  mkReader (current_ r) (last_ r) (commentsBefore_ r) (errors_ r) (root_ r) p.

(** The value at a path, and writing through a pointer to it. *)
Fixpoint get_path (p : list step) (root : Value) : option Value :=
  match p with
  | [] => Some root
  | s :: p' => match get_path p' root with Some v => get_child v s | None => None end
  end.
Fixpoint upd_path (p : list step) (f : Value -> Value) (root : Value) : Value :=
  match p with
  | [] => f root
  | s :: p' => upd_path p' (upd_child s f) root
  end.
Definition value_at (p : list step) (r : OurReader) : Value :=
  default nullSingleton (get_path p (root_ r)).
Definition currentValue (r : OurReader) : Value := value_at (nodes_ r) r.
Definition on_value (p : list step) (f : Value -> Value) (r : OurReader) : OurReader :=
  set_root r (upd_path p f (root_ r)).
Definition on_current (f : Value -> Value) (r : OurReader) : OurReader := on_value (nodes_ r) f r.
(** [setComment] on the value at a path. *)
Definition comment_value (p : list step) (comment : str) (placement : CommentPlacement)
    (r : OurReader) : outcome OurReader :=
  let! v := setComment (value_at p r) comment placement in
  Ret (on_value p (fun _ => v) r).

(** ** Scanning *)

(** [getNextChar]. *)
Definition next_char (s : Location) : ascii * Location :=
  match s with [] => (NUL, []) | c :: s' => (c, s') end.
(** The text between two locations. *)
Definition between (b e : Location) : str := take (length b - length e) b.
Definition containsNewLine (b e : Location) : bool :=
  existsb (fun c => ceqb c LF || ceqb c CR) (between b e).

Definition is_blank (c : ascii) : bool := ceqb c " " || ceqb c HT || ceqb c CR || ceqb c LF.
Definition skipSpaces (s : Location) : Location := drop_while is_blank s.

(** [match]: the location behind the pattern. *)
Definition match_ (pattern : str) (s : Location) : option Location :=
  if prefixb pattern s then Some (drop (length pattern) s) else None.

(** [readCStyleComment] and [readCppStyleComment]: whether the comment was read,
    and [current_] afterwards. *)
Fixpoint readCStyleComment (s : Location) : bool * Location :=
  match s with
  | x :: s' =>
      match s' with
      | y :: s'' => if ceqb x "*" && ceqb y "/" then (true, s'') else readCStyleComment s'
      | [] => (ceqb x "/", s')
      end
  | [] => (false, [])
  end.
Fixpoint readCppStyleComment (s : Location) : Location :=
  match s with
  | [] => []
  | c :: s' =>
      if ceqb c LF then s'
      else if ceqb c CR then match s' with d :: s'' => if ceqb d LF then s'' else s' | [] => s' end
      else readCppStyleComment s'
  end.

Fixpoint normalizeEOL_text (s : str) : str :=
  match s with
  | [] => []
  | c :: s' =>
      if ceqb c CR then
        LF :: match s' with
              | d :: s'' => if ceqb d LF then normalizeEOL_text s'' else normalizeEOL_text s'
              | [] => []
              end
      else c :: normalizeEOL_text s'
  end.
Definition normalizeEOL (b e : Location) : str := normalizeEOL_text (between b e).

(** A loop [while (c >= '0' && c <= '9') c = (current_ = p) < end_ ? *p++ : 0]
    of [readNumber]: [current_], [p] and [c]. *)
Definition advance (p : Location) : Location * Location * ascii :=
  match p with [] => ([], [], NUL) | x :: p' => (p, p', x) end.
Fixpoint digits_loop (cur p : Location) (c : ascii) : Location * Location * ascii :=
  if isdigit c then
    match p with
    | [] => ([], [], NUL)
    | x :: p' => digits_loop p p' x
    end
  else (cur, p, c).
Definition readNumber (checkInf : bool) (s : Location) : bool * Location :=
  if checkInf && match s with c :: _ => ceqb c "I" | [] => false end then (false, drop 1 s)
  else
    let '(cur, p, c) := digits_loop s s "0" in
    let '(cur, p, c) :=
      if ceqb c "." then let '(cur, p, c) := advance p in digits_loop cur p c else (cur, p, c) in
    let '(cur, p, c) :=
      if ceqb c "e" || ceqb c "E" then
        let '(cur, p, c) := advance p in
        let '(cur, p, c) := if ceqb c "+" || ceqb c "-" then advance p else (cur, p, c) in
        digits_loop cur p c
      else (cur, p, c) in
    (true, cur).

(** [readString] with quote [q]; [c] is the last character read. *)
Fixpoint readString (q c : ascii) (s : Location) : bool * Location :=
  match s with
  | [] => (ceqb c q, [])
  | x :: s' =>
      if ceqb x "\" then
        match s' with
        | [] => (ceqb x q, [])
        | _ :: s'' => readString q x s''
        end
      else if ceqb x q then (true, s')
      else readString q x s'
  end.

(** ** Decoding *)

(** What decoding gives: a result, or the message and location of an error. *)
Inductive decoded (A : Type) :=
  | Decoded (a : A)
  | Bad (message : str) (extra : option Location).
Arguments Decoded {A} a.
Arguments Bad {A} message extra.

Definition token_text (t : Token) : str := between (tok_start t) (tok_end t).

Definition decodeDouble (t : Token) : decoded Value :=
  match sscanf_lf (token_text t) with
  | Some value => Decoded (Value_double value)
  | None => Bad (#"'" ++ token_text t ++ #"' is not a number.") None
  end.
(** The loop of [decodeNumber]; [None] when it returns [decodeDouble(...)]. *)
Fixpoint number_loop (maxIntegerValue value : Z) (s : str) : option Z :=
  match s with
  | [] => Some value
  | c :: s' =>
      if negb (isdigit c) then None
      else
        let digit := code c - 48 in
        let threshold := maxIntegerValue / 10 in
        if (threshold <=? value) &&
           ((threshold <? value) || negb (match s' with [] => true | _ => false end)
            || (maxIntegerValue mod 10 <? digit))
        then None
        else number_loop maxIntegerValue (wrap_u 64 (value * 10 + digit)) s'
  end.
(** The negation of the smallest [LargestInt] overflows; gcc wraps around. *)
Definition decodeNumber (t : Token) : decoded Value :=
  let text := token_text t in
  let isNegative := match text with c :: _ => ceqb c "-" | [] => false end in
  let digits := if isNegative then drop 1 text else text in
  let maxIntegerValue := if isNegative then wrap_u 64 minLargestInt else maxLargestUInt in
  match number_loop maxIntegerValue 0 digits with
  | None => decodeDouble t
  | Some value =>
      Decoded (if isNegative then Value_int (wrap_s 64 (- wrap_s 64 value))
               else if value <=? maxInt then Value_int (wrap_s 64 value)
               else Value_uint value)
  end.

Definition hex_val (c : ascii) : option Z :=
  let z := code c in
  if (48 <=? z) && (z <=? 57) then Some (z - 48)
  else if (97 <=? z) && (z <=? 102) then Some (z - 97 + 10)
  else if (65 <=? z) && (z <=? 70) then Some (z - 65 + 10)
  else None.
(** [decodeUnicodeEscapeSequence]: [b] is the text from [current] to [end], [tl]
    the text from [end] on. *)
Fixpoint hex_loop (n : nat) (unicode : Z) (b tl : str) : decoded (Z * str) :=
  match n with
  | O => Decoded (unicode, b)
  | S n' =>
      let '(c, b) := next_char b in
      match hex_val c with
      | Some d => hex_loop n' (unicode * 16 + d) b tl
      | None =>
          Bad #"Bad unicode escape sequence in string: hexadecimal digit expected." (Some (b ++ tl))
      end
  end.
Definition decodeUnicodeEscapeSequence (b tl : str) : decoded (Z * str) :=
  if (length b <? 4)%nat then
    Bad #"Bad unicode escape sequence in string: four digits expected." (Some (b ++ tl))
  else hex_loop 4 0 b tl.

Definition expecting_u : str :=
  #"expecting another \u token to begin the second half of a unicode surrogate pair".
Definition decodeUnicodeCodePoint (b tl : str) : decoded (Z * str) :=
  match decodeUnicodeEscapeSequence b tl with
  | Bad m e => Bad m e
  | Decoded (unicode, b) =>
      if (0xD800 <=? unicode) && (unicode <=? 0xDBFF) then
        if (length b <? 6)%nat then
          Bad #"additional six characters expected to parse unicode surrogate pair." (Some (b ++ tl))
        else
          let '(c1, b) := next_char b in
          if ceqb c1 "\" then
            let '(c2, b) := next_char b in
            if ceqb c2 "u" then
              match decodeUnicodeEscapeSequence b tl with
              | Bad m e => Bad m e
              | Decoded (surrogatePair, b) =>
                  Decoded (0x10000 + Z.shiftl (Z.land unicode 0x3FF) 10
                           + Z.land surrogatePair 0x3FF, b)
              end
            else Bad expecting_u (Some (b ++ tl))
          else Bad expecting_u (Some (b ++ tl))
      else Decoded (unicode, b)
  end.

(** What an escaped character stands for, [u] apart. *)
Definition unescape (c : ascii) : option ascii :=
  if ceqb c DQ then Some DQ
  else if ceqb c "/" then Some "/"%char
  else if ceqb c "\" then Some "\"%char
  else if ceqb c "b" then Some "008"%char
  else if ceqb c "f" then Some "012"%char
  else if ceqb c "n" then Some LF
  else if ceqb c "r" then Some CR
  else if ceqb c "t" then Some HT
  else None.

(** The loop of [decodeString] over the text [b] between the quotes; each round
    takes a character at least. *)
Fixpoint decode_loop (fuel : nat) (b tl decoded_ : str) : decoded str :=
  match fuel with
  | O => Decoded decoded_
  | S fuel' =>
      match b with
      | [] => Decoded decoded_
      | c :: b =>
          if ceqb c DQ then Decoded decoded_
          else if ceqb c "\" then
            match b with
            | [] => Bad #"Empty escape sequence in string" (Some (b ++ tl))
            | escape :: b =>
                if ceqb escape "u" then
                  match decodeUnicodeCodePoint b tl with
                  | Bad m e => Bad m e
                  | Decoded (unicode, b) =>
                      decode_loop fuel' b tl (decoded_ ++ codePointToUTF8 unicode)
                  end
                else match unescape escape with
                     | Some x => decode_loop fuel' b tl (decoded_ ++ [x])
                     | None => Bad #"Bad escape sequence in string" (Some (b ++ tl))
                     end
            end
          else decode_loop fuel' b tl (decoded_ ++ [c])
      end
  end.
(** [decodeString(token, decoded)]. *)
Definition decodeString (t : Token) : decoded str :=
  let b := drop 1 (token_text t) in
  let tl := drop (length b - 1) b ++ tok_end t in
  let b := take (length b - 1) b in
  decode_loop (S (length b)) b tl [].

(** ** [class OurReader] *)
Section Reader.
Context (features_ : OurFeatures) (collectComments_ : bool) (begin_ : Location).

(** [location - begin_]. *)
Definition offset (l : Location) : Z := Z.of_nat (length begin_) - Z.of_nat (length l).
(** [location - 1]. *)
Definition before (l : Location) : Location := drop (length begin_ - S (length l)) begin_.

Definition addError (r : OurReader) (message : str) (t : Token) (extra : option Location) : OurReader :=
  set_errors r (errors_ r ++ [mkErrorInfo t message extra]).

Definition addComment (r : OurReader) (b e : Location) (placement : CommentPlacement)
    : outcome OurReader :=
  let normalized := normalizeEOL b e in
  match placement, last_ r with
  | commentAfterOnSameLine, Some (_, p) => comment_value p normalized placement r
  | commentAfterOnSameLine, None => Ret r
  | _, _ => Ret (set_commentsBefore r (commentsBefore_ r ++ normalized))
  end.

Definition readComment (r : OurReader) : outcome (OurReader * bool) :=
  let commentBegin := before (current_ r) in
  let '(c, s) := next_char (current_ r) in
  let '(successful, s) :=
    if ceqb c "*" then readCStyleComment s
    else if ceqb c "/" then (true, readCppStyleComment s)
    else (false, s) in
  let r := set_current r s in
  if negb successful then Ret (r, false)
  else if collectComments_ then
    let placement :=
      match last_ r with
      | Some (lastValueEnd, _) =>
          if negb (containsNewLine lastValueEnd commentBegin) &&
             (negb (ceqb c "*") || negb (containsNewLine commentBegin (current_ r)))
          then commentAfterOnSameLine else commentBefore
      | None => commentBefore
      end in
    let! r := addComment r commentBegin (current_ r) placement in Ret (r, true)
  else Ret (r, true).

Definition readToken (r : OurReader) : outcome (OurReader * Token) :=
  let start := skipSpaces (current_ r) in
  let '(c, s) := next_char start in
  let plain ty := Ret (set_current r s, mkToken ty start s) in
  let scanned ty res :=
    let '(ok, s) := res in
    Ret (set_current r s, mkToken (if ok : bool then ty else tokenError) start s) in
  let literal ty pattern :=
    match match_ pattern s with
    | Some s' => Ret (set_current r s', mkToken ty start s')
    | None => plain tokenError
    end in
  if ceqb c "{" then plain tokenObjectBegin
  else if ceqb c "}" then plain tokenObjectEnd
  else if ceqb c "[" then plain tokenArrayBegin
  else if ceqb c "]" then plain tokenArrayEnd
  else if ceqb c DQ then scanned tokenString (readString DQ NUL s)
  else if ceqb c "'" && allowSingleQuotes_ features_ then
    scanned tokenString (readString "'" NUL s)
  else if ceqb c "'" || ceqb c "/" then
    let! (r, ok) := readComment (set_current r s) in
    Ret (r, mkToken (if ok : bool then tokenComment else tokenError) start (current_ r))
  else if isdigit c then scanned tokenNumber (true, snd (readNumber false s))
  else if ceqb c "-" then
    let '(ok, s) := readNumber true s in
    if ok : bool then Ret (set_current r s, mkToken tokenNumber start s)
    else
      match (if allowSpecialFloats_ features_ then match_ #"nfinity" s else None) with
      | Some s' => Ret (set_current r s', mkToken tokenNegInf start s')
      | None => Ret (set_current r s, mkToken tokenError start s)
      end
  else if ceqb c "t" then literal tokenTrue #"rue"
  else if ceqb c "f" then literal tokenFalse #"alse"
  else if ceqb c "n" then literal tokenNull #"ull"
  else if ceqb c "N" then
    if allowSpecialFloats_ features_ then literal tokenNaN #"aN" else plain tokenError
  else if ceqb c "I" then
    if allowSpecialFloats_ features_ then literal tokenPosInf #"nfinity" else plain tokenError
  else if ceqb c "," then plain tokenArraySeparator
  else if ceqb c ":" then plain tokenMemberSeparator
  else if ceqb c NUL then plain tokenEndOfStream
  else plain tokenError.

(** [while (token.type_ == tokenComment) readToken(token)]. *)
Fixpoint skip_comments (fuel : nat) (r : OurReader) (t : Token) : outcome (OurReader * Token) :=
  if is_token t tokenComment then
    match fuel with
    | O => OutOfFuel
    | S fuel' => let! (r, t) := readToken r in skip_comments fuel' r t
    end
  else Ret (r, t).
(** A token that is not a comment. *)
Definition next_token (r : OurReader) : outcome (OurReader * Token) :=
  let! (r, t) := readToken r in skip_comments (S (length (current_ r))) r t.
Definition skipCommentTokens (r : OurReader) : outcome (OurReader * Token) :=
  if allowComments_ features_ then next_token r else readToken r.

Fixpoint recover_loop (fuel : nat) (r : OurReader) (skipUntilToken : TokenType) : outcome OurReader :=
  match fuel with
  | O => OutOfFuel
  | S fuel' =>
      let! (r, skip) := readToken r in
      if is_token skip skipUntilToken || is_token skip tokenEndOfStream then Ret r
      else recover_loop fuel' r skipUntilToken
  end.
Definition recoverFromError (r : OurReader) (skipUntilToken : TokenType)
    : outcome (OurReader * bool) :=
  let errorCount := length (errors_ r) in
  let! r := recover_loop (S (length (current_ r))) r skipUntilToken in
  Ret (set_errors r (take errorCount (errors_ r)), false).
Definition addErrorAndRecover (r : OurReader) (message : str) (t : Token)
    (skipUntilToken : TokenType) : outcome (OurReader * bool) :=
  recoverFromError (addError r message t None) skipUntilToken.

(** [currentValue().swapPayload(v)] and the two offsets. *)
Definition set_scalar (r : OurReader) (v : Value) (start limit : Location) : OurReader :=
  on_current (fun w => setOffsetLimit (setOffsetStart (swapPayload w v) (offset start)) (offset limit)) r.
Definition token_scalar (r : OurReader) (v : Value) (t : Token) : OurReader :=
  set_scalar r v (tok_start t) (tok_end t).

(** [decodeNumber(token)] and [decodeString(token)]. *)
Definition store_decoded (r : OurReader) (d : decoded Value) (t : Token) : OurReader * bool :=
  match d with
  | Decoded v => (token_scalar r v t, true)
  | Bad message extra => (addError r message t extra, false)
  end.
Definition read_string_value (r : OurReader) (t : Token) : outcome (OurReader * bool) :=
  match decodeString t with
  | Decoded s => let! v := Value_String s in Ret (store_decoded r (Decoded v) t)
  | Bad message extra => Ret (store_decoded r (Bad message extra) t)
  end.

(** [nodes_.push(&currentValue()[step])], and [nodes_.pop()]. *)
Definition push (r : OurReader) (s : step) : OurReader := set_nodes r (s :: nodes_ r).
Definition pop (r : OurReader) : OurReader := set_nodes r (drop 1 (nodes_ r)).

(** A container value is empty at first. *)
Definition start_container (r : OurReader) (t : ValueType) (tok : Token) : OurReader :=
  on_current (fun w => setOffsetStart (swapPayload w (Value_make t)) (offset (tok_start tok))) r.

(** The name of a member: a name, an error already set, or no name. *)
Inductive member_name := Name (s : str) | BadName | NoName.
Definition read_name (r : OurReader) (t : Token) : outcome (OurReader * member_name) :=
  if is_token t tokenString then
    match decodeString t with
    | Decoded s => Ret (r, Name s)
    | Bad message extra => Ret (addError r message t extra, BadName)
    end
  else if is_token t tokenNumber && allowNumericKeys_ features_ then
    match decodeNumber t with
    | Decoded v => let! s := asString v in Ret (r, Name s)
    | Bad message extra => Ret (addError r message t extra, BadName)
    end
  else Ret (r, NoName).

(** The functions that call [readValue], which is [rec]. *)
Section Rec.
Context (rec : OurReader -> outcome (OurReader * bool)).

(** The member behind its name: the colon, the value and what follows it; [None]
    when the object goes on. *)
Definition read_member (r : OurReader) (tokenName : Token) (name : str)
    : outcome (OurReader * option bool) :=
  let stop res := let! (r, ok) := res in Ret (r, Some (ok : bool)) in
  let! (r, colon) := readToken r in
  if negb (is_token colon tokenMemberSeparator) then
    stop (addErrorAndRecover r #"Missing ':' after object member name" colon tokenObjectEnd)
  else if (2 ^ 30 <=? len name)%N then throwRuntimeError #"keylength >= 2^30"
  else
    let! dup := (if rejectDupKeys_ features_ then isMember (currentValue r) name else Ret false) in
    if dup : bool then
      stop (addErrorAndRecover r (#"Duplicate key: '" ++ name ++ #"'") tokenName tokenObjectEnd)
    else
      let! v := resolveReference (currentValue r) name in
      let r := on_current (fun _ => v) r in
      let! (r, ok) := rec (push r (Key (CZString name))) in
      let r := pop r in
      if negb ok then stop (recoverFromError r tokenObjectEnd)
      else
        let! (r, comma) := readToken r in
        if negb (is_token comma tokenObjectEnd || is_token comma tokenArraySeparator
                 || is_token comma tokenComment) then
          stop (addErrorAndRecover r #"Missing ',' or '}' in object declaration" comma
                  tokenObjectEnd)
        else
          let! (r, comma) := skip_comments (S (length (current_ r))) r comma in
          Ret (r, if is_token comma tokenObjectEnd then Some true else None).

Fixpoint object_loop (fuel : nat) (r : OurReader) (name : str) : outcome (OurReader * bool) :=
  match fuel with
  | O => OutOfFuel
  | S fuel' =>
      let! (r, tokenName) := next_token r in
      if is_token tokenName tokenObjectEnd && match name with [] => true | _ => false end
      then Ret (r, true)
      else
        let! (r, nm) := read_name r tokenName in
        match nm with
        | BadName => recoverFromError r tokenObjectEnd
        | NoName =>
            addErrorAndRecover r #"Missing '}' or object member name" tokenName tokenObjectEnd
        | Name name =>
            let! (r, stop) := read_member r tokenName name in
            match stop with
            | Some ok => Ret (r, ok)
            | None => object_loop fuel' r name
            end
        end
  end.
Definition readObject (r : OurReader) (t : Token) : outcome (OurReader * bool) :=
  let r := start_container r TObject t in
  object_loop (S (length (current_ r))) r [].

(** [index] is an [int]: incrementing the greatest one, undefined in C++, wraps around, and
    [operator[](int)] then throws. *)
Fixpoint array_loop (fuel : nat) (r : OurReader) (index : Z) : outcome (OurReader * bool) :=
  match fuel with
  | O => OutOfFuel
  | S fuel' =>
      let! v := index_int (currentValue r) index in
      let r := on_current (fun _ => v) r in
      let! (r, ok) := rec (push r (Index (Z.to_N index))) in
      let r := pop r in
      if negb ok then recoverFromError r tokenArrayEnd
      else
        let! (r, currentToken) := next_token r in
        if is_token currentToken tokenArrayEnd then Ret (r, true)
        else if is_token currentToken tokenArraySeparator then array_loop fuel' r (wrap_s 32 (index + 1))
        else
          addErrorAndRecover r #"Missing ',' or ']' in array declaration" currentToken tokenArrayEnd
  end.
Definition readArray (r : OurReader) (t : Token) : outcome (OurReader * bool) :=
  let r := start_container r TArray t in
  let r := set_current r (skipSpaces (current_ r)) in
  if match current_ r with c :: _ => ceqb c "]" | [] => false end then
    let! (r, _) := readToken r in Ret (r, true)
  else array_loop (S (length (current_ r))) r 0.

(** The [switch] of [readValue]; [None] when it returns with an error. *)
Definition read_token_value (r : OurReader) (t : Token) : outcome (OurReader * option bool) :=
  let done res := let! (r, ok) := res in Ret (r, Some (ok : bool)) in
  let container res :=
    let! (r, ok) := res in
    Ret (on_current (fun w => setOffsetLimit w (offset (current_ r))) r, Some (ok : bool)) in
  let syntax_error :=
    let r := on_current (fun w => setOffsetLimit (setOffsetStart w (offset (tok_start t)))
                                    (offset (tok_end t))) r in
    Ret (addError r #"Syntax error: value, object or array expected." t None, None) in
  match type_ t with
  | tokenObjectBegin => container (readObject r t)
  | tokenArrayBegin => container (readArray r t)
  | tokenNumber => done (Ret (store_decoded r (decodeNumber t) t))
  | tokenString => done (read_string_value r t)
  | tokenTrue => Ret (token_scalar r (Value_bool true) t, Some true)
  | tokenFalse => Ret (token_scalar r (Value_bool false) t, Some true)
  | tokenNull => Ret (token_scalar r (Value_make TNull) t, Some true)
  | tokenNaN => Ret (token_scalar r (Value_double quiet_NaN) t, Some true)
  | tokenPosInf => Ret (token_scalar r (Value_double (infinity false)) t, Some true)
  | tokenNegInf => Ret (token_scalar r (Value_double (infinity true)) t, Some true)
  | tokenArraySeparator | tokenObjectEnd | tokenArrayEnd =>
      if allowDroppedNullPlaceholders_ features_ then
        let r := set_current r (before (current_ r)) in
        Ret (set_scalar r (Value_make TNull) (before (current_ r)) (current_ r), Some true)
      else syntax_error
  | _ => syntax_error
  end.
End Rec.

Fixpoint readValue (fuel : nat) (r : OurReader) : outcome (OurReader * bool) :=
  match fuel with
  | O => OutOfFuel
  | S fuel' =>
      if (stackLimit_ features_ <? S (length (nodes_ r)))%nat then
        throwRuntimeError #"Exceeded stackLimit in readValue()."
      else
        let! (r, t) := skipCommentTokens r in
        let! r :=
          (match commentsBefore_ r with
           | _ :: _ =>
               if collectComments_ then
                 let! r := comment_value (nodes_ r) (commentsBefore_ r) commentBefore r in
                 Ret (set_commentsBefore r [])
               else Ret r
           | [] => Ret r
           end) in
        let! (r, res) := read_token_value (readValue fuel') r t in
        match res with
        | None => Ret (r, false)
        | Some successful =>
            Ret (if collectComments_ then set_last r (Some (current_ r, nodes_ r)) else r, successful)
        end
  end.

(** [parse(beginDoc, endDoc, root, collectComments)] from a new reader;
    [collectComments_] is already the conjunction with [allowComments_]. *)
Definition parse (root : Value) : outcome (OurReader * bool) :=
  let r := mkReader begin_ None [] [] root [] in
  let! (r, successful) := readValue (S (stackLimit_ features_)) r in
  let! (r, token) := skipCommentTokens r in
  if failIfExtra_ features_ &&
     ((strictRoot_ features_ || negb (is_token token tokenError))
      && negb (is_token token tokenEndOfStream)) then
    Ret (addError r #"Extra non-whitespace after JSON value." token None, false)
  else
    let! r :=
      (match commentsBefore_ r with
       | _ :: _ => if collectComments_ then comment_value [] (commentsBefore_ r) commentAfter r
                   else Ret r
       | [] => Ret r
       end) in
    if strictRoot_ features_ && negb (isArray (root_ r)) && negb (isObject (root_ r)) then
      Ret (addError r #"A valid JSON document must be either an array or an object value."
             (mkToken tokenError begin_ []) None, false)
    else Ret (r, successful).

(** *** Error messages *)
Fixpoint line_column (s location lastLineStart : Location) (line : Z) : Z * Z :=
  let here := (line + 1, Z.of_nat (length lastLineStart) - Z.of_nat (length location) + 1) in
  match s with
  | [] => here
  | c :: s' =>
      if (length location <? length s)%nat then
        if ceqb c CR then
          match s' with
          | d :: s'' =>
              if ceqb d LF then line_column s'' location s'' (line + 1)
              else line_column s' location s' (line + 1)
          | [] => line_column s' location s' (line + 1)
          end
        else if ceqb c LF then line_column s' location s' (line + 1)
        else line_column s' location lastLineStart line
      else here
  end.
Definition getLocationLineAndColumn (l : Location) : str :=
  let '(line, column) := line_column begin_ l begin_ 0 in
  #"Line " ++ valueToString_int line ++ #", Column " ++ valueToString_int column.
Definition format_error (e : ErrorInfo) : str :=
  #"* " ++ getLocationLineAndColumn (tok_start (ei_token e)) ++ [LF] ++
  #"  " ++ ei_message e ++ [LF] ++
  match ei_extra e with
  | Some l => #"See " ++ getLocationLineAndColumn l ++ #" for detail." ++ [LF]
  | None => []
  end.
Definition getFormattedErrorMessages (r : OurReader) : str := concat (map format_error (errors_ r)).

Record StructuredError := mkStructuredError {
  offset_start : Z;
  offset_limit : Z;
  se_message : str
}.
Definition getStructuredErrors (r : OurReader) : list StructuredError :=
  map (fun error => mkStructuredError (offset (tok_start (ei_token error)))
                      (offset (tok_end (ei_token error))) (ei_message error)) (errors_ r).
Definition good (r : OurReader) : bool := match errors_ r with [] => true | _ => false end.

(** [begin_ + i]; a pointer in front of the document or behind its end is undefined. *)
Definition pointer (i : Z) : option Location :=
  if (0 <=? i) && (i <=? Z.of_nat (length begin_)) then Some (drop (Z.to_nat i) begin_) else None.
(** [pushError(value, message)] and [pushError(value, message, extra)]; [None] where a
    pointer is undefined.  The first adds the limit to [end_]. *)
Definition pushError (r : OurReader) (value : Value) (message : str) : option (OurReader * bool) :=
  let length := Z.of_nat (length begin_) in
  if (length <? getOffsetStart value) || (length <? getOffsetLimit value) then Some (r, false)
  else
    match pointer (getOffsetStart value), pointer (length + getOffsetLimit value) with
    | Some s, Some e =>
        Some (set_errors r (errors_ r ++ [mkErrorInfo (mkToken tokenError s e) message None]), true)
    | _, _ => None
    end.
Definition pushError_extra (r : OurReader) (value : Value) (message : str) (extra : Value)
    : option (OurReader * bool) :=
  let length := Z.of_nat (length begin_) in
  if (length <? getOffsetStart value) || (length <? getOffsetLimit value)
     || (length <? getOffsetLimit extra) then Some (r, false)
  else
    match pointer (getOffsetStart value), pointer (getOffsetLimit value), pointer (getOffsetStart extra) with
    | Some s, Some e, Some x =>
        Some (set_errors r (errors_ r ++ [mkErrorInfo (mkToken tokenError s e) message (Some x)]), true)
    | _, _, _ => None
    end.
(** Every value that ends behind the start of the document makes the first undefined. *)
Lemma pushError_undefined r value message :
  getOffsetStart value <= Z.of_nat (length begin_) ->
  0 < getOffsetLimit value <= Z.of_nat (length begin_) ->
  pushError r value message = None.
Proof.
  intros Hs Hl. unfold pushError, pointer.
  assert (Z.of_nat (length begin_) <? getOffsetStart value = false) as -> by (apply Z.ltb_ge; lia).
  assert (Z.of_nat (length begin_) <? getOffsetLimit value = false) as -> by (apply Z.ltb_ge; lia).
  assert (Z.of_nat (length begin_) + getOffsetLimit value <=? Z.of_nat (length begin_) = false) as ->
    by (apply Z.leb_gt; lia).
  rewrite andb_false_r. by destruct (_ && _).
Qed.
End Reader.

(** ** [CharReaderBuilder] and [parseFromStream] *)
Definition set_all (settings : Value) (l : list (str * Value)) : outcome Value :=
  fold_left (fun s kv => let! s := s in set_member s (fst kv) (snd kv)) l (Ret settings).
Definition reader_setDefaults (settings : Value) : outcome Value :=
  set_all settings
    [(#"collectComments", Value_bool true); (#"allowComments", Value_bool true);
     (#"strictRoot", Value_bool false); (#"allowDroppedNullPlaceholders", Value_bool false);
     (#"allowNumericKeys", Value_bool false); (#"allowSingleQuotes", Value_bool false);
     (#"stackLimit", Value_int 1000); (#"failIfExtra", Value_bool false);
     (#"rejectDupKeys", Value_bool false); (#"allowSpecialFloats", Value_bool false)].
Definition reader_strictMode (settings : Value) : outcome Value :=
  set_all settings
    [(#"allowComments", Value_bool false); (#"strictRoot", Value_bool true);
     (#"allowDroppedNullPlaceholders", Value_bool false); (#"allowNumericKeys", Value_bool false);
     (#"allowSingleQuotes", Value_bool false); (#"stackLimit", Value_int 1000);
     (#"failIfExtra", Value_bool true); (#"rejectDupKeys", Value_bool true);
     (#"allowSpecialFloats", Value_bool false)].
Definition newCharReader (settings : Value) : outcome (bool * OurFeatures) :=
  let flag key := (let! v := member_const settings key in asBool v) in
  let! collectComments := flag #"collectComments" in
  let! allowComments := flag #"allowComments" in
  let! strictRoot := flag #"strictRoot" in
  let! dropped := flag #"allowDroppedNullPlaceholders" in
  let! numericKeys := flag #"allowNumericKeys" in
  let! singleQuotes := flag #"allowSingleQuotes" in
  let! stackLimit := (let! v := member_const settings #"stackLimit" in asUInt64 v) in
  let! failIfExtra := flag #"failIfExtra" in
  let! rejectDupKeys := flag #"rejectDupKeys" in
  let! specialFloats := flag #"allowSpecialFloats" in
  Ret (collectComments,
       mkFeatures allowComments strictRoot dropped numericKeys singleQuotes failIfExtra
         rejectDupKeys specialFloats (Z.to_nat stackLimit)).

(** [parseFromStream(factory, sin, root, errs)]: the result, [*root] and [*errs]. *)
Definition parseFromStream (settings : Value) (doc : str) (root : Value)
    : outcome (bool * Value * str) :=
  let! (collectComments, features) := newCharReader settings in
  let collectComments := collectComments && allowComments_ features in
  let! (r, ok) := parse features collectComments doc root in
  Ret (ok, root_ r, getFormattedErrorMessages doc r).
(** [operator>>]: the new value of [root]. *)
Definition stream_in (doc : str) (root : Value) : outcome Value :=
  let! b := reader_setDefaults nullSingleton in
  let! (ok, root, errs) := parseFromStream b doc root in
  if negb ok then throwRuntimeError errs else Ret root.

Definition getValidReaderKeys : list str :=
  [#"collectComments"; #"allowComments"; #"strictRoot"; #"allowDroppedNullPlaceholders";
   #"allowNumericKeys"; #"allowSingleQuotes"; #"stackLimit"; #"failIfExtra"; #"rejectDupKeys";
   #"allowSpecialFloats"].
Definition reader_validate (settings invalid : Value) : outcome (bool * Value) :=
  validate_keys getValidReaderKeys settings invalid.

Definition default_features : OurFeatures :=
  mkFeatures true false false false false false false false 1000.
