(* ===== verification/JsonOldReader.v ===== *)
(** * JSON: the older reader

    Models [class Features] and [class Reader] of [json/jsoncpp.cpp], the deprecated reader
    that [OurReader] was copied from.  The members of the class are those of [OurReader], so
    the state, the tokens and the values of the stack are those of [JsonReader]; functions
    whose code is the same word for word are the ones of [JsonReader] under their name here,
    the others are written out.

    [JsonOldReaderLaws] shows where the two classes agree. *)
From Stdlib Require Import Ascii String.
From stdpp Require Import base tactics list numbers option strings.
From S2P Require Import Prelude Globals Double JsonText JsonValue JsonReader.
Open Scope Z_scope.

(** [is >> value] of a stream that holds a text without white space, hexadecimal numbers and
    the names of special values: the characters of a number are taken from the stream and
    must all be converted, so that an [e] without digits is an error; so is overflow. *)
Definition exponent_complete (s : str) : bool :=
  match s with
  | c :: s' =>
      if ceqb c "e" || ceqb c "E" then
        let '(_, s1) := scan_sign s' in
        let '(_, n, _) := scan_digits 0 0 s1 in negb (n =? 0)%nat
      else true
  | [] => true
  end.
Definition istream_lf (s : str) : option double :=
  let '(_, s1) := scan_sign s in
  let '(_, _, s2) := scan_digits 0 0 s1 in
  let s3 := match s2 with
            | c :: s3 => if ceqb c "." then let '(_, _, s3) := scan_digits 0 0 s3 in s3 else s2
            | [] => s2
            end in
  match sscanf_lf s with
  | Some d => if isfinite d && exponent_complete s3 then Some d else None
  | None => None
  end.
Example istream_overflow : istream_lf #"1e400" = None /\ istream_lf #"1e" = None /\
  istream_lf #"-2.5e-1" = sscanf_lf #"-0.25".
Proof. split_and!; vm_compute; reflexivity. Qed.

(** ** [class Features] *)
Record Features := mkOldFeatures {
  old_allowComments : bool;
  old_strictRoot : bool;
  old_allowDroppedNullPlaceholders : bool;
  old_allowNumericKeys : bool
}.
Definition Features_all : Features := mkOldFeatures true false false false.
Definition Features_strictMode : Features := mkOldFeatures false true false false.
(** The static [stackLimit_g]. *)
Definition stackLimit_g : nat := 1000.

Module Reader.

(** ** Functions whose code is that of [OurReader] *)
Definition containsNewLine : Location -> Location -> bool := JsonReader.containsNewLine.
Definition skipSpaces : Location -> Location := JsonReader.skipSpaces.
Definition match_ : str -> Location -> option Location := JsonReader.match_.
Definition readCStyleComment : Location -> bool * Location := JsonReader.readCStyleComment.
Definition readCppStyleComment : Location -> Location := JsonReader.readCppStyleComment.
Definition normalizeEOL : Location -> Location -> str := JsonReader.normalizeEOL.
Definition addComment : OurReader -> Location -> Location -> CommentPlacement -> outcome OurReader :=
  JsonReader.addComment.
Definition readComment : bool -> Location -> OurReader -> outcome (OurReader * bool) :=
  JsonReader.readComment.
Definition readString (s : Location) : bool * Location := JsonReader.readString DQ NUL s.
Definition decodeUnicodeEscapeSequence : str -> str -> decoded (Z * str) :=
  JsonReader.decodeUnicodeEscapeSequence.
Definition decodeUnicodeCodePoint : str -> str -> decoded (Z * str) :=
  JsonReader.decodeUnicodeCodePoint.
Definition decodeString : Token -> decoded str := JsonReader.decodeString.
Definition addError : OurReader -> str -> Token -> option Location -> OurReader := JsonReader.addError.
Definition currentValue : OurReader -> Value := JsonReader.currentValue.
Definition getNextChar : Location -> ascii * Location := next_char.
Definition getLocationLineAndColumn : Location -> Location -> str :=
  JsonReader.getLocationLineAndColumn.
Definition getFormattedErrorMessages : Location -> OurReader -> str :=
  JsonReader.getFormattedErrorMessages.
Definition getStructuredErrors : Location -> OurReader -> list StructuredError :=
  JsonReader.getStructuredErrors.
Definition good : OurReader -> bool := JsonReader.good.
Definition pushError : Location -> OurReader -> Value -> str -> option (OurReader * bool) :=
  JsonReader.pushError.
Definition pushError_extra : Location -> OurReader -> Value -> str -> Value -> option (OurReader * bool) :=
  JsonReader.pushError_extra.

(** ** Numbers *)

(** [readNumber]: [current_] afterwards. *)
Definition readNumber (s : Location) : Location :=
  let '(cur, p, c) := digits_loop s s "0" in
  let '(cur, p, c) :=
    if ceqb c "." then let '(cur, p, c) := advance p in digits_loop cur p c else (cur, p, c) in
  let '(cur, p, c) :=
    if ceqb c "e" || ceqb c "E" then
      let '(cur, p, c) := advance p in
      let '(cur, p, c) := if ceqb c "+" || ceqb c "-" then advance p else (cur, p, c) in
      digits_loop cur p c
    else (cur, p, c) in
  cur.
Definition decodeDouble (t : Token) : decoded Value :=
  match istream_lf (token_text t) with
  | Some value => Decoded (Value_double value)
  | None => Bad (#"'" ++ token_text t ++ #"' is not a number.") None
  end.
Definition decodeNumber (t : Token) : decoded Value :=
  let text := token_text t in
  let isNegative := match text with c :: _ => ceqb c "-" | [] => false end in
  let digits := if isNegative then drop 1 text else text in
  let maxIntegerValue := if isNegative then wrap_u 64 (maxLargestInt + 1) else maxLargestUInt in
  match number_loop maxIntegerValue 0 digits with
  | None => decodeDouble t
  | Some value =>
      Decoded (if isNegative && (value =? maxIntegerValue) then Value_int minLargestInt
               else if isNegative then Value_int (wrap_s 64 (- wrap_s 64 value))
               else if value <=? maxInt then Value_int (wrap_s 64 value)
               else Value_uint value)
  end.

(** ** The class *)
Section Reading.
Context (features_ : Features) (collectComments_ : bool) (begin_ : Location).

Definition readToken (r : OurReader) : outcome (OurReader * Token) :=
  let start := skipSpaces (current_ r) in
  let '(c, s) := getNextChar start in
  let plain ty := Ret (set_current r s, mkToken ty start s) in
  let scanned ty res :=
    let '(ok, s) := res in
    Ret (set_current r s, mkToken (if ok : bool then ty else tokenError) start s) in
  let literal ty pattern :=
    match match_ pattern s with
    | Some s' => Ret (set_current r s', mkToken ty start s')
    | None => plain tokenError
    end in
  if ceqb c "{" then plain tokenObjectBegin
  else if ceqb c "}" then plain tokenObjectEnd
  else if ceqb c "[" then plain tokenArrayBegin
  else if ceqb c "]" then plain tokenArrayEnd
  else if ceqb c DQ then scanned tokenString (readString s)
  else if ceqb c "/" then
    let! (r, ok) := readComment collectComments_ begin_ (set_current r s) in
    Ret (r, mkToken (if ok : bool then tokenComment else tokenError) start (current_ r))
  else if isdigit c || ceqb c "-" then scanned tokenNumber (true, readNumber s)
  else if ceqb c "t" then literal tokenTrue #"rue"
  else if ceqb c "f" then literal tokenFalse #"alse"
  else if ceqb c "n" then literal tokenNull #"ull"
  else if ceqb c "," then plain tokenArraySeparator
  else if ceqb c ":" then plain tokenMemberSeparator
  else if ceqb c NUL then plain tokenEndOfStream
  else plain tokenError.

Fixpoint skip_comments (fuel : nat) (r : OurReader) (t : Token) : outcome (OurReader * Token) :=
  if is_token t tokenComment then
    match fuel with
    | O => OutOfFuel
    | S fuel' => let! (r, t) := readToken r in skip_comments fuel' r t
    end
  else Ret (r, t).
Definition next_token (r : OurReader) : outcome (OurReader * Token) :=
  let! (r, t) := readToken r in skip_comments (S (length (current_ r))) r t.
Definition skipCommentTokens (r : OurReader) : outcome (OurReader * Token) :=
  if old_allowComments features_ then next_token r else readToken r.

Fixpoint recover_loop (fuel : nat) (r : OurReader) (skipUntilToken : TokenType) : outcome OurReader :=
  match fuel with
  | O => OutOfFuel
  | S fuel' =>
      let! (r, skip) := readToken r in
      if is_token skip skipUntilToken || is_token skip tokenEndOfStream then Ret r
      else recover_loop fuel' r skipUntilToken
  end.
Definition recoverFromError (r : OurReader) (skipUntilToken : TokenType)
    : outcome (OurReader * bool) :=
  let errorCount := length (errors_ r) in
  let! r := recover_loop (S (length (current_ r))) r skipUntilToken in
  Ret (set_errors r (take errorCount (errors_ r)), false).
Definition addErrorAndRecover (r : OurReader) (message : str) (t : Token)
    (skipUntilToken : TokenType) : outcome (OurReader * bool) :=
  recoverFromError (addError r message t None) skipUntilToken.

(** The name of a member; a number is no string, so [asCString] throws. *)
Definition read_name (r : OurReader) (t : Token) : outcome (OurReader * member_name) :=
  if is_token t tokenString then
    match decodeString t with
    | Decoded s => Ret (r, Name s)
    | Bad message extra => Ret (addError r message t extra, BadName)
    end
  else if is_token t tokenNumber && old_allowNumericKeys features_ then
    match decodeNumber t with
    | Decoded v => let! s := asCString v in Ret (r, Name s)
    | Bad message extra => Ret (addError r message t extra, BadName)
    end
  else Ret (r, NoName).

Section Rec.
Context (rec : OurReader -> outcome (OurReader * bool)).

Definition read_member (r : OurReader) (tokenName : Token) (name : str)
    : outcome (OurReader * option bool) :=
  let stop res := let! (r, ok) := res in Ret (r, Some (ok : bool)) in
  let! (r, colon) := readToken r in
  if negb (is_token colon tokenMemberSeparator) then
    stop (addErrorAndRecover r #"Missing ':' after object member name" colon tokenObjectEnd)
  else
    let! v := resolveReference (currentValue r) name in
    let r := on_current (fun _ => v) r in
    let! (r, ok) := rec (push r (Key (CZString name))) in
    let r := pop r in
    if negb ok then stop (recoverFromError r tokenObjectEnd)
    else
      let! (r, comma) := readToken r in
      if negb (is_token comma tokenObjectEnd || is_token comma tokenArraySeparator
               || is_token comma tokenComment) then
        stop (addErrorAndRecover r #"Missing ',' or '}' in object declaration" comma
                tokenObjectEnd)
      else
        let! (r, comma) := skip_comments (S (length (current_ r))) r comma in
        Ret (r, if is_token comma tokenObjectEnd then Some true else None).

Fixpoint object_loop (fuel : nat) (r : OurReader) (name : str) : outcome (OurReader * bool) :=
  match fuel with
  | O => OutOfFuel
  | S fuel' =>
      let! (r, tokenName) := next_token r in
      if is_token tokenName tokenObjectEnd && match name with [] => true | _ => false end
      then Ret (r, true)
      else
        let! (r, nm) := read_name r tokenName in
        match nm with
        | BadName => recoverFromError r tokenObjectEnd
        | NoName =>
            addErrorAndRecover r #"Missing '}' or object member name" tokenName tokenObjectEnd
        | Name name =>
            let! (r, stop) := read_member r tokenName name in
            match stop with
            | Some ok => Ret (r, ok)
            | None => object_loop fuel' r name
            end
        end
  end.
Definition readObject (r : OurReader) (t : Token) : outcome (OurReader * bool) :=
  let r := start_container begin_ r TObject t in
  object_loop (S (length (current_ r))) r [].

(** [index] is an [int]: incrementing the greatest one, undefined in C++, wraps around, and
    [operator[](int)] then throws. *)
Fixpoint array_loop (fuel : nat) (r : OurReader) (index : Z) : outcome (OurReader * bool) :=
  match fuel with
  | O => OutOfFuel
  | S fuel' =>
      let! v := index_int (currentValue r) index in
      let r := on_current (fun _ => v) r in
      let! (r, ok) := rec (push r (Index (Z.to_N index))) in
      let r := pop r in
      if negb ok then recoverFromError r tokenArrayEnd
      else
        let! (r, currentToken) := next_token r in
        if is_token currentToken tokenArrayEnd then Ret (r, true)
        else if is_token currentToken tokenArraySeparator then array_loop fuel' r (wrap_s 32 (index + 1))
        else
          addErrorAndRecover r #"Missing ',' or ']' in array declaration" currentToken tokenArrayEnd
  end.
Definition readArray (r : OurReader) (t : Token) : outcome (OurReader * bool) :=
  let r := start_container begin_ r TArray t in
  let r := set_current r (skipSpaces (current_ r)) in
  if match current_ r with c :: _ => ceqb c "]" | [] => false end then
    let! (r, _) := readToken r in Ret (r, true)
  else array_loop (S (length (current_ r))) r 0.

(** The [switch] of [readValue]; [None] when it returns with an error. *)
Definition read_token_value (r : OurReader) (t : Token) : outcome (OurReader * option bool) :=
  let done res := let! (r, ok) := res in Ret (r, Some (ok : bool)) in
  let container res :=
    let! (r, ok) := res in
    Ret (on_current (fun w => setOffsetLimit w (offset begin_ (current_ r))) r, Some (ok : bool)) in
  let syntax_error :=
    let r := on_current (fun w => setOffsetLimit (setOffsetStart w (offset begin_ (tok_start t)))
                                    (offset begin_ (tok_end t))) r in
    Ret (addError r #"Syntax error: value, object or array expected." t None, None) in
  match type_ t with
  | tokenObjectBegin => container (readObject r t)
  | tokenArrayBegin => container (readArray r t)
  | tokenNumber => done (Ret (store_decoded begin_ r (decodeNumber t) t))
  | tokenString => done (read_string_value begin_ r t)
  | tokenTrue => Ret (token_scalar begin_ r (Value_bool true) t, Some true)
  | tokenFalse => Ret (token_scalar begin_ r (Value_bool false) t, Some true)
  | tokenNull => Ret (token_scalar begin_ r (Value_make TNull) t, Some true)
  | tokenArraySeparator | tokenObjectEnd | tokenArrayEnd =>
      if old_allowDroppedNullPlaceholders features_ then
        let r := set_current r (before begin_ (current_ r)) in
        Ret (set_scalar begin_ r (Value_make TNull) (before begin_ (current_ r)) (current_ r),
             Some true)
      else syntax_error
  | _ => syntax_error
  end.
End Rec.

Fixpoint readValue (fuel : nat) (r : OurReader) : outcome (OurReader * bool) :=
  match fuel with
  | O => OutOfFuel
  | S fuel' =>
      if (stackLimit_g <? S (length (nodes_ r)))%nat then
        throwRuntimeError #"Exceeded stackLimit in readValue()."
      else
        let! (r, t) := skipCommentTokens r in
        let! r :=
          (match commentsBefore_ r with
           | _ :: _ =>
               if collectComments_ then
                 let! r := comment_value (nodes_ r) (commentsBefore_ r) commentBefore r in
                 Ret (set_commentsBefore r [])
               else Ret r
           | [] => Ret r
           end) in
        let! (r, res) := read_token_value (readValue fuel') r t in
        match res with
        | None => Ret (r, false)
        | Some successful =>
            Ret (if collectComments_ then set_last r (Some (current_ r, nodes_ r)) else r, successful)
        end
  end.

(** [parse(beginDoc, endDoc, root, collectComments)] from a new reader. *)
Definition parse_range (root : Value) : outcome (OurReader * bool) :=
  let r := mkReader begin_ None [] [] root [] in
  let! (r, successful) := readValue (S stackLimit_g) r in
  let! (r, token) := skipCommentTokens r in
  let! r :=
    (match commentsBefore_ r with
     | _ :: _ => if collectComments_ then comment_value [] (commentsBefore_ r) commentAfter r
                 else Ret r
     | [] => Ret r
     end) in
  if old_strictRoot features_ && negb (isArray (root_ r)) && negb (isObject (root_ r)) then
    Ret (addError r #"A valid JSON document must be either an array or an object value."
           (mkToken tokenError begin_ []) None, false)
  else Ret (r, successful).
End Reading.

(** [getline]: what is in front of the delimiter. *)
Fixpoint getline (delim : ascii) (s : str) : str :=
  match s with
  | [] => []
  | c :: s' => if ceqb c delim then [] else c :: getline delim s'
  end.
(** [parse] of a document and of a stream, of which [getline] reads the part in front of
    the first byte 255, [(char)EOF]. *)
Definition parse (features : Features) (document : str) (root : Value) (collectComments : bool)
    : outcome (OurReader * bool) :=
  parse_range features (collectComments && old_allowComments features) document root.
Definition parse_stream (features : Features) (is_ : str) (root : Value) (collectComments : bool)
    : outcome (OurReader * bool) :=
  parse features (getline "255" is_) root collectComments.
End Reader.
