(* ===== verification/JsonLaws.v ===== *)
(** * JSON: laws of values

    The members of an object or array form a map, whatever is done to them;
    writing through a path composes; [plain] is a value without its comments and
    offsets. *)
From Stdlib Require Import Ascii String Sorting.Sorted.
From stdpp Require Import base tactics list numbers option strings.
From S2P Require Import Prelude Globals Double JsonText JsonValue JsonReader.
Open Scope Z_scope.

(** An [int] in its range. *)
Lemma wrap_s_32 z : minInt <= z <= maxInt -> wrap_s 32 z = z.
Proof.
  unfold wrap_s, minInt, maxInt. intros H. destruct (Z.le_gt_cases 0 z).
  - rewrite Z.mod_small by lia. by destruct (Z.ltb_spec z (2 ^ (32 - 1))); [|lia].
  - rewrite <-(Z_mod_plus_full _ 1), Z.mod_small by lia.
    destruct (Z.ltb_spec (z + 1 * 2 ^ 32) (2 ^ (32 - 1))); lia.
Qed.

(** ** The map of members *)
Class StrictTotal {K} (ltb : K -> K -> bool) : Prop := {
  ltb_irrefl k : ltb k k = false;
  ltb_trans a b c : ltb a b = true -> ltb b c = true -> ltb a c = true;
  ltb_total a b : ltb a b = false -> ltb b a = false -> a = b
}.
#[export] Instance N_StrictTotal : StrictTotal N.ltb.
Proof.
  split; [apply N.ltb_irrefl| |].
  - intros a b c. rewrite !N.ltb_lt. lia.
  - intros a b. rewrite !N.ltb_ge. lia.
Qed.

Lemma memcmp_str_ltb a b :
  str_ltb a b = match memcmp a b (Nat.min (length a) (length b)) with
                | Lt => true | Gt => false | Eq => (length a <? length b)%nat end.
Proof.
  revert b. induction a as [|x a IH]; intros [|y b]; try done. cbn.
  destruct (Z.compare_spec (code x) (code y)) as [H|H|H].
  - apply code_inj in H as ->. by rewrite ceqb_refl, Z.ltb_irrefl, IH.
  - by apply Z.ltb_lt in H as ->.
  - assert (code x <? code y = false) as -> by (apply Z.ltb_ge; lia).
    destruct (ceqb x y) eqn:E; [|done]. apply ceqb_eq in E as ->. lia.
Qed.
(** [CZString::operator<] is the order of byte strings. *)
Lemma CZString_ltb_str a b : CZString_ltb a b = str_ltb a b.
Proof. symmetry. apply memcmp_str_ltb. Qed.
#[export] Instance CZString_StrictTotal : StrictTotal CZString_ltb.
Proof.
  split; intros *; rewrite ?CZString_ltb_str.
  - apply str_ltb_irrefl.
  - apply str_ltb_trans.
  - apply str_ltb_total.
Qed.
Lemma CZString_small k : (len k < 2 ^ 30)%N -> CZString k = k.
Proof.
  intros H. unfold CZString. rewrite N.mod_small by done. apply take_ge. unfold len. lia.
Qed.

Section Map.
Context {K V : Type} (ltb : K -> K -> bool) `{!StrictTotal ltb}.
Abbreviation find := (map_find (V:=V) ltb).

Definition sorted (m : list (K * V)) : Prop :=
  StronglySorted (fun a b => ltb (fst a) (fst b) = true) m.
(** [map_set k v m]: what [m[k] = v] does. *)
Definition map_set (d : V) (k : K) (v : V) (m : list (K * V)) : list (K * V) :=
  map_upd ltb k (fun _ => v) (map_insert_new ltb k d m).

Lemma ltb_asym a b : ltb a b = true -> ltb b a = false.
Proof.
  intros H. destruct (ltb b a) eqn:E; [|done]. rewrite <-(ltb_irrefl (ltb:=ltb) a).
  symmetry. by apply (ltb_trans (ltb:=ltb) _ b).
Qed.
Lemma map_find_below k m :
  Forall (fun kv => ltb k (fst kv) = true) m -> find k m = None.
Proof.
  destruct m as [|[k' v'] m]; [done|]. intros [H _]%Forall_cons. cbn in *.
  by rewrite (ltb_asym k k'), H.
Qed.
Lemma map_find_upd k k' f m :
  find k' (map_upd ltb k f m) =
  if decide (ltb k k' = false /\ ltb k' k = false) then option_map f (find k' m) else find k' m.
Proof.
  induction m as [|[k1 v1] m IH]; [by destruct (decide _)|]. cbn [map_upd].
  destruct (ltb k1 k) eqn:E1; cbn [map_find].
  - rewrite IH. destruct (ltb k1 k') eqn:E2; [done|]. destruct (ltb k' k1) eqn:E3.
    + by destruct (decide _).
    + destruct (decide _) as [[H1 H2]|]; [|done].
      pose proof (ltb_total (ltb:=ltb) _ _ E2 E3) as ->. congruence.
  - destruct (ltb k k1) eqn:E2; cbn [map_find].
    + destruct (decide _) as [[H1 H2]|]; [|done].
      pose proof (ltb_total (ltb:=ltb) _ _ H1 H2) as ->. rewrite E1. by rewrite E2.
    + pose proof (ltb_total (ltb:=ltb) _ _ E1 E2) as ->.
      destruct (ltb k k') eqn:E3.
      * destruct (decide _) as [[? ?]|]; [congruence|done].
      * destruct (ltb k' k) eqn:E4; [by destruct (decide _)|]. by destruct (decide _) as [|[]].
Qed.
Lemma map_find_insert k d k' m :
  sorted m ->
  find k' (map_insert_new ltb k d m) =
  if decide (ltb k k' = false /\ ltb k' k = false) then Some (default d (find k' m)) else find k' m.
Proof.
  induction m as [|[k1 v1] m IH]; intros Hs; cbn [map_insert_new map_find].
  - destruct (ltb k k') eqn:E1; [by destruct (decide _) as [[? ?]|]|].
    destruct (ltb k' k) eqn:E2; destruct (decide _) as [[? ?]|Hn]; try done; by destruct Hn.
  - apply StronglySorted_inv in Hs as [Hs Hlt].
    destruct (ltb k1 k) eqn:E1; cbn [map_find].
    + rewrite IH by done. destruct (ltb k1 k') eqn:E2; [done|]. destruct (ltb k' k1) eqn:E3.
      * destruct (decide _) as [[H1 H2]|]; [|done].
        pose proof (ltb_total (ltb:=ltb) _ _ H1 H2) as ->.
        rewrite (ltb_asym _ _ E1) in E3. done.
      * destruct (decide _) as [[H1 H2]|]; [|done].
        pose proof (ltb_total (ltb:=ltb) _ _ E2 E3) as ->. congruence.
    + destruct (ltb k k1) eqn:E2; cbn [map_find].
      * destruct (ltb k k') eqn:E3; [by destruct (decide _) as [[? ?]|]|].
        destruct (ltb k' k) eqn:E4.
        -- rewrite (ltb_trans (ltb:=ltb) k' k k1), (ltb_asym k' k1) by eauto using ltb_trans.
           by destruct (decide _) as [[? ?]|].
        -- pose proof (ltb_total (ltb:=ltb) _ _ E3 E4) as ->. rewrite E1, E2.
           by destruct (decide _) as [|[]].
      * pose proof (ltb_total (ltb:=ltb) _ _ E1 E2) as ->.
        destruct (decide _) as [[H1 H2]|]; [|done].
        by rewrite H1, H2.
Qed.
(** Reading behind a write: the value written, or what was there. *)
Lemma map_find_set d k v k' m :
  sorted m ->
  find k' (map_set d k v m) =
  if decide (ltb k k' = false /\ ltb k' k = false) then Some v else find k' m.
Proof.
  intros Hs. unfold map_set. rewrite map_find_upd, map_find_insert by done.
  by destruct (decide _).
Qed.

Lemma map_upd_keys k f (m : list (K * V)) : map fst (map_upd ltb k f m) = map fst m.
Proof.
  induction m as [|[k1 v1] m IH]; [done|]. cbn. destruct (ltb k1 k); cbn; [by rewrite IH|].
  by destruct (ltb k k1).
Qed.
Lemma sorted_keys (m : list (K * V)) :
  sorted m <-> StronglySorted (fun a b => ltb a b = true) (map fst m).
Proof.
  induction m as [|[k v] m IH]; cbn; [by split; constructor|].
  split; intros [H1 H2]%StronglySorted_inv; (constructor; [by apply IH|]).
  - by rewrite Forall_map.
  - by rewrite Forall_map in H2.
Qed.
Lemma map_insert_sorted k d m : sorted m -> sorted (map_insert_new ltb k d m).
Proof.
  induction m as [|[k1 v1] m IH]; intros Hs; cbn; [by repeat constructor|].
  pose proof Hs as [Hs' Hlt]%StronglySorted_inv.
  destruct (ltb k1 k) eqn:E1.
  - constructor; [by apply IH|]. cbn in *. clear -Hlt E1.
    induction m as [|[k2 v2] m IH]; cbn; [by repeat constructor|].
    inversion Hlt; subst. destruct (ltb k2 k); [constructor; [done|by apply IH]|].
    destruct (ltb k k2); repeat constructor; done.
  - destruct (ltb k k1) eqn:E2; [|done]. constructor; [done|]. constructor; [done|].
    eapply Forall_impl; [exact Hlt|]. intros kv H. cbn in *. by apply (ltb_trans (ltb:=ltb) _ k1).
Qed.
Lemma map_set_sorted d k v m : sorted m -> sorted (map_set d k v m).
Proof.
  intros H. unfold map_set. apply sorted_keys. rewrite map_upd_keys.
  by apply sorted_keys, map_insert_sorted.
Qed.
(** A key behind all others is added at the end. *)
Lemma map_set_snoc d k v m :
  Forall (fun kv => ltb (fst kv) k = true) m -> map_set d k v m = m ++ [(k, v)].
Proof.
  unfold map_set. induction m as [|[k1 v1] m IH]; intros H.
  - cbn. by rewrite ltb_irrefl.
  - apply Forall_cons in H as [H1 H]. cbn in H1 |- *. rewrite H1. cbn. rewrite H1. by rewrite IH.
Qed.
Lemma map_upd_ext k (f g : V -> V) (m : list (K * V)) : (forall v,
  f v = g v) -> map_upd ltb k f m = map_upd ltb k g m.
Proof.
  intros H. induction m as [|[k1 v1] m IH]; [done|]. cbn.
  destruct (ltb k1 k); [by rewrite IH|]. by rewrite H.
Qed.
Lemma map_upd_compose k (f g : V -> V) (m : list (K * V)) :
  map_upd ltb k f (map_upd ltb k g m) = map_upd ltb k (fun v => f (g v)) m.
Proof.
  induction m as [|[k1 v1] m IH]; [done|]. cbn. destruct (ltb k1 k) eqn:E1; cbn.
  - by rewrite E1, IH.
  - destruct (ltb k k1) eqn:E2; cbn; by rewrite E1, E2.
Qed.
Lemma map_find_upd_same k f m : find k (map_upd ltb k f m) = option_map f (find k m).
Proof. rewrite map_find_upd. rewrite ltb_irrefl. by destruct (decide _) as [|[]]. Qed.
Lemma map_find_insert_same k d m : is_Some (find k (map_insert_new ltb k d m)).
Proof.
  induction m as [|[k1 v1] m IH]; cbn.
  - rewrite ltb_irrefl. by eauto.
  - destruct (ltb k1 k) eqn:E1; cbn; [by rewrite E1|]. destruct (ltb k k1) eqn:E2; cbn.
    + rewrite ltb_irrefl. by eauto.
    + rewrite E1, E2. by eauto.
Qed.
(** Erasing a key. *)
Lemma map_find_above k (m : list (K * V)) k' :
  Forall (fun kv => ltb k (fst kv) = true) m -> ltb k k' = false -> find k' m = None.
Proof.
  destruct m as [|[k1 v1] m]; [done|]. intros [H _]%Forall_cons Hk. cbn in *.
  assert (ltb k1 k' = false) as ->.
  { destruct (ltb k1 k') eqn:E; [|done]. by rewrite (ltb_trans (ltb:=ltb) k k1 k') in Hk. }
  destruct (ltb k' k1) eqn:E; [done|]. exfalso.
  destruct (ltb k1 k') eqn:E1.
  - by rewrite (ltb_trans (ltb:=ltb) k k1 k') in Hk.
  - pose proof (ltb_total (ltb:=ltb) _ _ E1 E) as ->. congruence.
Qed.
Lemma map_erase_sorted k (m : list (K * V)) : sorted m -> sorted (map_erase ltb k m).
Proof.
  induction m as [|[k1 v1] m IH]; intros Hs; [done|]. cbn.
  pose proof Hs as [Hs' Hlt]%StronglySorted_inv.
  destruct (ltb k1 k); [|by destruct (ltb k k1)]. constructor; [by apply IH|]. cbn in *.
  clear -Hlt. induction m as [|[k2 v2] m IH]; [done|]. cbn.
  apply Forall_cons in Hlt as [H1 H2].
  destruct (ltb k2 k); [constructor; [done|by apply IH]|].
  destruct (ltb k k2); [by constructor|done].
Qed.
Lemma map_find_erase k k' (m : list (K * V)) :
  sorted m ->
  find k' (map_erase ltb k m) =
  if decide (ltb k k' = false /\ ltb k' k = false) then None else find k' m.
Proof.
  induction m as [|[k1 v1] m IH]; intros Hs; cbn [map_erase map_find]; [by destruct (decide _)|].
  apply StronglySorted_inv in Hs as [Hs Hlt]. cbn [fst] in Hlt.
  destruct (ltb k1 k) eqn:E1; cbn [map_find].
  - rewrite IH by done. destruct (ltb k1 k') eqn:E2; [done|].
    destruct (decide _) as [[H1 H2]|]; [|done].
    pose proof (ltb_total (ltb:=ltb) _ _ H1 H2) as ->. congruence.
  - destruct (ltb k k1) eqn:E2; cbn [map_find].
    + destruct (decide _) as [[H1 H2]|]; [|done].
      pose proof (ltb_total (ltb:=ltb) _ _ H1 H2) as ->. by rewrite E1, E2.
    + pose proof (ltb_total (ltb:=ltb) _ _ E1 E2) as ->.
      destruct (ltb k k') eqn:E3; [by destruct (decide _) as [[? ?]|]|].
      rewrite (map_find_above k) by done. destruct (ltb k' k) eqn:E4;
        destruct (decide _) as [|Hn]; try done; by destruct Hn.
Qed.
End Map.
Lemma map_find_in {K V} (ltb : K -> K -> bool) `{!StrictTotal ltb} (m : list (K * V)) k v :
  sorted ltb m -> In (k, v) m -> map_find ltb k m = Some v.
Proof.
  induction m as [|[k1 v1] m IH]; [done|]. intros [Hs Hlt]%StronglySorted_inv [[= -> ->]|Hin]; cbn.
  - by rewrite ltb_irrefl.
  - assert (ltb k1 k = true) as ->; [|by apply IH].
    by apply (proj1 (List.Forall_forall _ m) Hlt (k, v)).
Qed.
(** Lookup finds what the list holds. *)
Lemma map_find_elem {K V} (ltb : K -> K -> bool) `{!StrictTotal ltb} (m : list (K * V)) k v :
  sorted ltb m -> (k, v) ∈ m <-> map_find ltb k m = Some v.
Proof.
  intros Hs. rewrite list_elem_of_In. split; [by apply map_find_in|].
  clear Hs. induction m as [|[k1 v1] m IH]; [done|]. cbn. destruct (ltb k1 k) eqn:E1; [by right; apply IH|].
  destruct (ltb k k1) eqn:E2; [done|]. intros [= ->]. left. f_equal. by apply (ltb_total (ltb:=ltb)).
Qed.

(** ** Values without comments and offsets *)
Definition map_snd {K A B} (f : A -> B) (m : list (K * A)) : list (K * B) :=
  map (fun kv => (fst kv, f (snd kv))) m.
Fixpoint plain (v : Value) : Value :=
  let 'mkValue p _ _ _ := v in
  initBasic (match p with
             | arrayValue m => arrayValue (map (fun kv => (fst kv, plain (snd kv))) m)
             | objectValue m => objectValue (map (fun kv => (fst kv, plain (snd kv))) m)
             | p => p
             end).
Definition plain_payload (p : Payload Value) : Payload Value :=
  match p with
  | arrayValue m => arrayValue (map_snd plain m)
  | objectValue m => objectValue (map_snd plain m)
  | p => p
  end.
Lemma plain_eq v : plain v = initBasic (plain_payload (payload v)).
Proof. by destruct v as [[] ? ? ?]. Qed.
Lemma plain_payload_of v p : plain v = initBasic p -> plain_payload (payload v) = p.
Proof. rewrite plain_eq. by intros [= ->]. Qed.

Lemma map_snd_insert {K A B} (ltb : K -> K -> bool) k d (f : A -> B) m :
  map_snd f (map_insert_new ltb k d m) = map_insert_new ltb k (f d) (map_snd f m).
Proof.
  unfold map_snd. induction m as [|[k1 v1] m IH]; [done|]. cbn.
  destruct (ltb k1 k); cbn; [by rewrite IH|]. by destruct (ltb k k1).
Qed.
Lemma map_snd_upd {K A B} (ltb : K -> K -> bool) k x (f : A -> B) m :
  map_snd f (map_upd ltb k (fun _ => x) m) = map_upd ltb k (fun _ => f x) (map_snd f m).
Proof.
  unfold map_snd. induction m as [|[k1 v1] m IH]; [done|]. cbn.
  destruct (ltb k1 k); cbn; [by rewrite IH|]. by destruct (ltb k k1).
Qed.
Lemma map_snd_set {K A B} (ltb : K -> K -> bool) d k x (f : A -> B) m :
  map_snd f (map_set ltb d k x m) = map_set ltb (f d) k (f x) (map_snd f m).
Proof. unfold map_set. by rewrite map_snd_upd, map_snd_insert. Qed.

(** ** Paths *)
Lemma upd_child_compose s f g v : upd_child s f (upd_child s g v) = upd_child s (fun x => f (g x)) v.
Proof. destruct v as [p c a b], s, p; cbn; by rewrite ?map_upd_compose. Qed.
Lemma upd_child_ext s f g v : (forall x, f x = g x) -> upd_child s f v = upd_child s g v.
Proof.
  intros H. destruct v as [p c a b], s, p; cbn; try done; unfold set_payload; cbn;
    do 2 f_equal; by apply map_upd_ext.
Qed.
Lemma get_upd_child s f v : get_child (upd_child s f v) s = option_map f (get_child v s).
Proof. destruct v as [p c a b], s, p; cbn; try done; by apply (map_find_upd_same _). Qed.

Lemma upd_path_ext p f g v : (forall x, f x = g x) -> upd_path p f v = upd_path p g v.
Proof.
  revert f g v. induction p as [|s p IH]; intros f g v H; cbn; [apply H|].
  apply IH. intros x. by apply upd_child_ext.
Qed.
Lemma upd_path_compose p f g v : upd_path p f (upd_path p g v) = upd_path p (fun x => f (g x)) v.
Proof.
  revert f g v. induction p as [|s p IH]; intros f g v; cbn; [done|].
  rewrite IH. apply upd_path_ext. intros x. apply upd_child_compose.
Qed.
Lemma get_upd_path p f v : get_path p (upd_path p f v) = option_map f (get_path p v).
Proof.
  revert f v. induction p as [|s p IH]; intros f v; cbn; [done|].
  rewrite IH. destruct (get_path p v); cbn; [apply get_upd_child|done].
Qed.
Lemma get_path_push p s v w : get_path p v = Some w -> get_path (s :: p) v = get_child w s.
Proof. intros H. cbn. by rewrite H. Qed.
Lemma upd_path_app p q f v : upd_path (p ++ q) f v = upd_path q (upd_path p f) v.
Proof. revert f. induction p as [|s p IH]; intros f; cbn; [done|]. apply IH. Qed.
Lemma get_path_app p q v w : get_path q v = Some w -> get_path (p ++ q) v = get_path p w.
Proof. intros H. induction p as [|s p IH]; cbn; [done|by rewrite IH]. Qed.

Lemma map_find_insert_default {K V} (ltb : K -> K -> bool) `{!StrictTotal ltb} k d (m : list (K * V)) :
  map_find ltb k (map_insert_new ltb k d m) = Some (default d (map_find ltb k m)).
Proof.
  induction m as [|[k' v'] m IH]; cbn; [by rewrite (ltb_irrefl (ltb:=ltb))|].
  destruct (ltb k' k) eqn:E1; cbn; [by rewrite E1|].
  destruct (ltb k k') eqn:E2; cbn; [by rewrite (ltb_irrefl (ltb:=ltb))|]. by rewrite E1, E2.
Qed.
(** What is written depends on what was there only through the function; writing what was
    there changes nothing. *)
Lemma map_upd_at {K V} (ltb : K -> K -> bool) k f v (m : list (K * V)) :
  map_find ltb k m = Some v -> map_upd ltb k f m = map_upd ltb k (fun _ => f v) m.
Proof.
  induction m as [|[k' v'] m IH]; cbn; [done|]. repeat case_match; try done; intros H'.
  all: f_equal; first [by apply IH|by injection H' as ->].
Qed.
Lemma map_upd_same {K V} (ltb : K -> K -> bool) k v (m : list (K * V)) :
  map_find ltb k m = Some v -> map_upd ltb k (fun _ => v) m = m.
Proof.
  induction m as [|[k' v'] m IH]; cbn; [done|]. repeat case_match; try done; intros H'.
  all: f_equal; first [by apply IH|by injection H' as ->].
Qed.
Lemma map_insert_new_same {K V} (ltb : K -> K -> bool) k d v (m : list (K * V)) :
  map_find ltb k m = Some v -> map_insert_new ltb k d m = m.
Proof.
  induction m as [|[k' v'] m IH]; cbn; [done|]. repeat case_match; try done; intros H'.
  all: f_equal; by apply IH.
Qed.
Lemma upd_child_at s f v w : get_child v s = Some w -> upd_child s f v = upd_child s (fun _ => f w) v.
Proof.
  destruct v as [p c a b], s, p; cbn; try done; intros H; do 2 f_equal; by apply map_upd_at.
Qed.
Lemma upd_child_same s v w : get_child v s = Some w -> upd_child s (fun _ => w) v = v.
Proof.
  destruct v as [p c a b], s, p; cbn; try done; intros H; unfold set_payload; cbn;
    by rewrite map_upd_same.
Qed.
Lemma upd_path_at p f v w : get_path p v = Some w -> upd_path p f v = upd_path p (fun _ => f w) v.
Proof.
  revert f w. induction p as [|s p IH]; intros f w H; cbn in *; [by injection H as ->|].
  destruct (get_path p v) as [u|]; [|done].
  rewrite (IH (upd_child s f) u), (IH (upd_child s (fun _ => f w)) u) by done.
  by rewrite (upd_child_at s f u w).
Qed.
Lemma upd_path_same p v w : get_path p v = Some w -> upd_path p (fun _ => w) v = v.
Proof.
  revert w. induction p as [|s p IH]; intros w H; cbn in *; [by injection H as ->|].
  destruct (get_path p v) as [u|] eqn:E; [|done].
  rewrite (upd_path_at p _ v u E), (upd_child_same s u w H). by apply IH.
Qed.

(** ** The settings of the builders *)

(** Assignment to a member of null or of an object leaves an object with a member. *)
Lemma set_member_object v k x : isNull v || isObject v = true ->
  exists w m, set_member v k x = Ret w /\ payload w = objectValue m /\ m <> [].
Proof.
  assert (Hins : forall m, map_insert_new CZString_ltb (CZString k) nullSingleton m <> []).
  { intros [|[k' v'] m]; cbn; [done|]. by repeat case_match. }
  assert (Hupd : forall f (m : list (str * Value)),
            m <> [] -> map_upd CZString_ltb (CZString k) f m <> []).
  { intros f [|[k' v'] m]; cbn; [done|]. by repeat case_match. }
  unfold isNull, isObject, set_member, resolveReference, isNull, isObject, null_to.
  destruct v as [p c a b]; destruct p; try discriminate; intros _;
    cbn [json_assert type payload orb bool_decide obind isNull Value_make set_payload upd_child];
    (eexists _, _; split_and!; [reflexivity|reflexivity|apply Hupd, Hins]).
Qed.
(** Settings whose keys are all keys of the builder are valid and [invalid] stays null;
    others leave their keys in [invalid]. *)
Theorem validate_keys_spec valid_keys settings m : payload settings = objectValue m ->
  let valid := forallb (fun kv => existsb (fun k => bool_decide (k = fst kv)) valid_keys) m in
  exists inv, validate_keys valid_keys settings nullSingleton = Ret (empty inv, inv) /\
    if valid then inv = nullSingleton
    else exists m', payload inv = objectValue m' /\ m' <> [].
Proof.
  intros Hm valid. assert (Ho : isNull settings || isObject settings = true).
  { unfold isNull, isObject, type. by rewrite Hm. }
  set (found inv := exists m', payload inv = objectValue m' /\ m' <> []).
  assert (Hfound : forall inv, found inv -> isNull inv || isObject inv = true).
  { intros inv (m' & H & _). unfold isNull, isObject, type. by rewrite H. }
  assert (H : forall l inv, isNull inv || isObject inv = true ->
    exists inv', fold_left (invalid_key valid_keys settings) (map fst l) (Ret inv) = Ret inv' /\
      (found inv -> found inv') /\
      if forallb (fun kv : str * Value =>
           existsb (fun k => bool_decide (k = fst kv)) valid_keys) l
      then inv' = inv else found inv').
  { induction l as [|[k x] l IH]; intros inv Hi; cbn [map fst fold_left forallb];
      [by exists inv|].
    unfold invalid_key at 2. cbn [obind]. destruct (existsb _ valid_keys); [by apply IH|].
    unfold member_const, find. rewrite Ho. cbn [json_assert obind].
    destruct (set_member_object inv k (default nullSingleton
      (get_child settings (Key (CZString k)))) Hi) as (w & mw & -> & Hw & Hne).
    assert (Hfw : found w) by by exists mw.
    destruct (IH w (Hfound w Hfw)) as (inv' & -> & Hf & _). exists inv'.
    cbn [andb]. split_and!; [done|auto|auto]. }
  unfold validate_keys, getMemberNames. rewrite Ho, Hm. cbn [json_assert obind].
  destruct (H m nullSingleton eq_refl) as (inv & -> & _ & Hv). by exists inv.
Qed.
