(* ===== verification/JsonTypes.v ===== *)
(** * JSON: well-typed values

    The type invariant of [class Value]: integers fit their width, strings fit
    the length that is stored in front of them, the keys of objects and arrays are
    sorted and unique, hereditarily.  Every operation keeps it, and whatever text
    the reader is given, with whatever settings, and whether it reports an error or
    not, it leaves a well-typed root. *)
From Stdlib Require Import Ascii String.
From stdpp Require Import base tactics list numbers option strings.
From S2P Require Import Prelude Globals Double JsonText JsonValue JsonReader JsonLaws.
Open Scope Z_scope.

(** ** The invariant *)

(** [typed_payload P]: a payload whose children satisfy [P]. *)
Definition typed_payload (P : Value -> Prop) (p : Payload Value) : Prop :=
  match p with
  | intValue z => minInt64 <= z <= maxInt64
  | uintValue z => 0 <= z <= maxUInt64
  | stringValue s => (len s <= 2147483642)%N
  | arrayValue m => sorted N.ltb m /\ Forall (fun kv => P (snd kv)) m
  | objectValue m =>
      sorted CZString_ltb m /\ Forall (fun kv => (len (fst kv) < 2 ^ 30)%N /\ P (snd kv)) m
  | _ => True
  end.
Fixpoint typed (v : Value) : Prop :=
  let 'mkValue p _ _ _ := v in
  match p with
  | arrayValue m =>
      sorted N.ltb m /\
      (fix go (m : list (N * Value)) : Prop :=
         match m with [] => True | kv :: m => typed (snd kv) /\ go m end) m
  | objectValue m =>
      sorted CZString_ltb m /\
      (fix go (m : list (str * Value)) : Prop :=
         match m with
         | [] => True
         | kv :: m => ((len (fst kv) < 2 ^ 30)%N /\ typed (snd kv)) /\ go m
         end) m
  | p => typed_payload (fun _ => True) p
  end.
Lemma typed_eq v : typed v <-> typed_payload typed (payload v).
Proof.
  destruct v as [[| | | | | |m|m] c a b]; try done; cbn.
  - apply and_iff_compat_l. induction m as [|kv m IH]; [by split|]. by rewrite Forall_cons, IH.
  - apply and_iff_compat_l. induction m as [|kv m IH]; [by split|]. by rewrite Forall_cons, IH.
Qed.
Lemma typed_make t : typed (Value_make t).
Proof. apply typed_eq. destruct t; cbn; try done; split; constructor. Qed.
Lemma typed_null : typed nullSingleton.
Proof. done. Qed.
Lemma typed_scalar p :
  typed_payload typed p -> typed (initBasic p).
Proof. intros H. by apply typed_eq. Qed.
(** Comments and offsets do not matter. *)
Lemma typed_same v w : payload v = payload w -> typed v -> typed w.
Proof. rewrite !typed_eq. by intros ->. Qed.
#[export] Hint Resolve typed_make typed_null : webcc.

(** ** The operations *)
Section MapTyped.
Context {K V : Type} (ltb : K -> K -> bool) (P : K * V -> Prop).
Lemma Forall_insert_new k v m : P (k, v) -> Forall P m -> Forall P (map_insert_new ltb k v m).
Proof.
  intros Hv. induction 1 as [|[k1 v1] m H1 Hm IH]; cbn; [by repeat constructor|].
  destruct (ltb k1 k); [by constructor|]. destruct (ltb k k1); by repeat constructor.
Qed.
Lemma Forall_upd k f m :
  (forall k v, P (k, v) -> P (k, f v)) -> Forall P m -> Forall P (map_upd ltb k f m).
Proof.
  intros Hf. induction 1 as [|[k1 v1] m H1 Hm IH]; cbn; [constructor|].
  destruct (ltb k1 k); [by constructor|]. destruct (ltb k k1); constructor; auto.
Qed.
Lemma Forall_erase k m : Forall P m -> Forall P (map_erase ltb k m).
Proof.
  induction 1 as [|[k1 v1] m H1 Hm IH]; cbn; [constructor|].
  destruct (ltb k1 k); [by constructor|]. destruct (ltb k k1); [by constructor|done].
Qed.
Lemma Forall_find k v m : Forall P m -> map_find ltb k m = Some v -> exists k', P (k', v).
Proof.
  induction 1 as [|[k1 v1] m H1 Hm IH]; cbn; [done|].
  destruct (ltb k1 k); [done|]. destruct (ltb k k1); [done|]. intros [= <-]. by exists k1.
Qed.
End MapTyped.
Lemma map_upd_sorted {K V} ltb k (f : V -> V) (m : list (K * V)) :
  sorted ltb m -> sorted ltb (map_upd ltb k f m).
Proof. rewrite !sorted_keys. by rewrite map_upd_keys. Qed.

Lemma CZString_len k : (len (CZString k) < 2 ^ 30)%N.
Proof.
  unfold CZString, len. rewrite length_take.
  pose proof (N.mod_lt (N.of_nat (length k)) (2 ^ 30) ltac:(done)). lia.
Qed.

Lemma typed_get_child v s w : typed v -> get_child v s = Some w -> typed w.
Proof.
  rewrite typed_eq. destruct s as [k|i]; unfold get_child; destruct (payload v); try done; cbn.
  - intros [_ H] Hf. by destruct (Forall_find _ _ _ _ _ H Hf) as (? & _ & ?).
  - intros [_ H] Hf. by destruct (Forall_find _ _ _ _ _ H Hf) as (? & ?).
Qed.
Lemma typed_child_default v s : typed v -> typed (default nullSingleton (get_child v s)).
Proof.
  intros H. destruct (get_child v s) as [w|] eqn:E; [|done]. by eapply typed_get_child.
Qed.
Lemma typed_upd_child s f v : (forall w, typed w -> typed (f w)) -> typed v -> typed (upd_child s f v).
Proof.
  intros Hf Hv. pose proof Hv as Hp. rewrite typed_eq in Hp.
  destruct s as [k|i]; unfold upd_child; destruct (payload v); try done; apply typed_eq; cbn in *.
  - destruct Hp as [Hs Hm]. split; [by apply map_upd_sorted|].
    apply Forall_upd; [|done]. intros k' w [? ?]. by split; [|apply Hf].
  - destruct Hp as [Hs Hm]. split; [by apply map_upd_sorted|].
    apply Forall_upd; [|done]. intros k' w ?. by apply Hf.
Qed.
Lemma typed_null_to t v : typed v -> typed (null_to t v).
Proof. intros H. unfold null_to. destruct (isNull v); auto with webcc. Qed.

(** [returns m Q]: when [m] returns, the result satisfies [Q]. *)
Definition returns {A} (m : outcome A) (Q : A -> Prop) : Prop :=
  match m with Ret a => Q a | _ => True end.
Lemma returns_then {A B} (m : outcome A) (k : A -> outcome B) Q Q' :
  returns m Q -> (forall a, Q a -> returns (k a) Q') -> returns (obind m k) Q'.
Proof. destruct m; cbn; auto. Qed.
Lemma returns_weaken {A} (m : outcome A) (Q Q' : A -> Prop) :
  returns m Q -> (forall a, Q a -> Q' a) -> returns m Q'.
Proof. destruct m; cbn; auto. Qed.
Lemma returns_any {A} (m : outcome A) : returns m (fun _ => True).
Proof. by destruct m. Qed.
Lemma returns_assert {A} c msg (m : outcome A) Q : returns m Q -> returns (json_assert c msg m) Q.
Proof. by destruct c. Qed.

Lemma index_ref_typed v i : typed v -> returns (index_ref v i) typed.
Proof.
  intros Hv. apply returns_assert. cbv zeta. apply (typed_null_to TArray) in Hv.
  pose proof Hv as Hp. rewrite typed_eq in Hp.
  destruct (payload (null_to TArray v)); try done. apply typed_eq. cbn in *. destruct Hp as [Hs Hm].
  split; [by apply (map_insert_sorted N.ltb)|by apply Forall_insert_new].
Qed.
Lemma resolveReference_typed v k : typed v -> returns (resolveReference v k) typed.
Proof.
  intros Hv. apply returns_assert. cbv zeta. apply (typed_null_to TObject) in Hv.
  pose proof Hv as Hp. rewrite typed_eq in Hp.
  destruct (payload (null_to TObject v)); try done. apply typed_eq. cbn in *. destruct Hp as [Hs Hm].
  split; [by apply (map_insert_sorted CZString_ltb)|].
  apply Forall_insert_new; [|done]. split; [apply CZString_len|done].
Qed.
Lemma set_member_typed v k x : typed v -> typed x -> returns (set_member v k x) typed.
Proof.
  intros Hv Hx. eapply returns_then; [by apply resolveReference_typed|].
  intros w Hw. by apply typed_upd_child.
Qed.
Lemma append_typed v x : typed v -> typed x -> returns (append v x) typed.
Proof.
  intros Hv Hx. eapply returns_then; [by apply index_ref_typed|].
  intros w Hw. by apply typed_upd_child.
Qed.
Lemma removeMember_typed v k : typed v -> typed (snd (removeMember v k)).
Proof.
  intros Hv. unfold removeMember. destruct (payload v) as [| | | | | | |m] eqn:E; try done.
  destruct (map_find CZString_ltb (CZString k) m); [|done].
  rewrite typed_eq, E in Hv. destruct Hv as [Hs Hm]. apply typed_eq. cbn.
  split; [by apply (map_erase_sorted CZString_ltb)|by apply Forall_erase].
Qed.
Lemma shift_left_typed m i :
  sorted N.ltb m /\ Forall (fun kv => typed (snd kv)) m ->
  sorted N.ltb (shift_left m i) /\ Forall (fun kv => typed (snd kv)) (shift_left m i).
Proof.
  intros [Hs Hm]. unfold shift_left. set (m1 := map_insert_new N.ltb (i + 1)%N _ m).
  assert (sorted N.ltb m1) as Hs1 by (by apply (map_insert_sorted N.ltb)).
  assert (Forall (fun kv => typed (snd kv)) m1) as Hm1 by (by apply Forall_insert_new).
  split; [apply map_upd_sorted; by apply (map_insert_sorted N.ltb)|].
  apply Forall_upd; [|by apply Forall_insert_new]. intros k v _. cbn.
  destruct (map_find N.ltb (i + 1)%N m1) as [w|] eqn:E; [|done].
  by destruct (Forall_find _ _ _ _ _ Hm1 E).
Qed.
Lemma removeIndex_typed v i : typed v -> typed (snd (removeIndex v i)).
Proof.
  intros Hv. unfold removeIndex. destruct (payload v) as [| | | | | |m|] eqn:E; try done.
  destruct (map_find N.ltb i m); [|done]. rewrite typed_eq, E in Hv. cbn in Hv.
  apply typed_eq. cbn. set (idx := indices_between _ _). set (last := last_index _). clearbody idx last.
  assert (sorted N.ltb (fold_left shift_left idx m) /\
    Forall (fun kv => typed (snd kv)) (fold_left shift_left idx m)) as [Hs Hm].
  { clear E. revert m Hv. induction idx as [|j idx IH]; intros m Hv; [done|]. cbn.
    by apply IH, shift_left_typed. }
  split; [by apply (map_erase_sorted N.ltb)|by apply Forall_erase].
Qed.
Lemma clear_typed v : typed v -> returns (clear v) typed.
Proof.
  intros Hv. apply returns_assert. apply typed_eq. rewrite typed_eq in Hv. cbn in *.
  destruct (payload v); try done; split; constructor.
Qed.
Lemma resize_typed v n : typed v -> returns (resize v n) typed.
Proof.
  intros Hv. apply returns_assert. apply (typed_null_to TArray) in Hv. cbv zeta.
  destruct (n =? 0)%N; [by apply clear_typed|].
  destruct (size (null_to TArray v) <? n)%N; [by apply index_ref_typed|].
  apply returns_assert. cbn. pose proof Hv as Hp. rewrite typed_eq in Hp.
  destruct (payload (null_to TArray v)) as [| | | | | |m|]; try done. apply typed_eq. cbn in *.
  set (idx := indices_between _ _). clearbody idx. revert m Hp.
  induction idx as [|j idx IH]; intros m Hp; [done|].
  cbn. apply IH. destruct Hp as [Hs Hm]. split; [by apply (map_erase_sorted N.ltb)|by apply Forall_erase].
Qed.
Lemma setComment_typed v c p : typed v -> returns (setComment v c p) typed.
Proof. intros Hv. do 2 apply returns_assert. cbn [returns]. by apply (typed_same v). Qed.
Lemma Value_String_typed s : returns (Value_String s) typed.
Proof.
  unfold Value_String, duplicateAndPrefixStringValue. unfold json_assert.
  destruct (_ <=? _) eqn:E; [|done]. apply Z.leb_le in E. cbn. unfold len in *. rewrite length_take.
  set (n := wrap_u _ _) in *. clearbody n. unfold maxInt in E. lia.
Qed.

(** ** The reader *)
Lemma typed_get_path p root v : typed root -> get_path p root = Some v -> typed v.
Proof.
  revert v. induction p as [|s p IH]; intros v Hr; cbn; [by intros [= <-]|].
  destruct (get_path p root) as [w|]; [|done]. intros H. eapply typed_get_child; [|done]. auto.
Qed.
Lemma typed_upd_path p f root :
  (forall w, typed w -> typed (f w)) -> typed root -> typed (upd_path p f root).
Proof.
  revert f root. induction p as [|s p IH]; intros f root Hf Hr; cbn; [auto|].
  apply IH; [|done]. intros w Hw. by apply typed_upd_child.
Qed.
(** A state whose root is well typed. *)
Definition rtyped (r : OurReader) : Prop := typed (root_ r).
Lemma value_at_typed p r : rtyped r -> typed (value_at p r).
Proof.
  intros H. unfold value_at. destruct (get_path p (root_ r)) as [v|] eqn:E; [|done].
  by eapply typed_get_path.
Qed.
Lemma on_value_typed p f r : (forall w, typed w -> typed (f w)) -> rtyped r -> rtyped (on_value p f r).
Proof. apply typed_upd_path. Qed.
Lemma comment_value_typed p c pl r : rtyped r -> returns (comment_value p c pl r) rtyped.
Proof.
  intros H. eapply returns_then; [apply setComment_typed; by apply value_at_typed|].
  intros v Hv. by apply on_value_typed.
Qed.
(** Scalars that the reader stores. *)
Lemma wrap_s_64 z : minInt64 <= wrap_s 64 z <= maxInt64.
Proof.
  unfold wrap_s, minInt64, maxInt64. pose proof (Z.mod_pos_bound z (2 ^ 64) ltac:(done)).
  destruct (z mod 2 ^ 64 <? 2 ^ (64 - 1)) eqn:E; [apply Z.ltb_lt in E|apply Z.ltb_ge in E]; lia.
Qed.
Lemma number_loop_range m s : forall v n,
  0 <= v <= maxUInt64 -> number_loop m v s = Some n -> 0 <= n <= maxUInt64.
Proof.
  induction s as [|c s IH]; intros v n Hv; cbn [number_loop]; [by intros [= <-]|].
  destruct (negb (isdigit c)); [done|]. destruct (_ && _); [done|]. apply IH.
  unfold wrap_u, maxUInt64. pose proof (Z.mod_pos_bound (v * 10 + (code c - 48)) (2 ^ 64) ltac:(done)). lia.
Qed.
Lemma decodeNumber_typed t v : decodeNumber t = Decoded v -> typed v.
Proof.
  unfold decodeNumber. destruct (number_loop _ 0 _) as [n|] eqn:E.
  - apply number_loop_range in E; [|unfold maxUInt64; lia]. intros [= <-].
    destruct (match token_text t with [] => false | c :: _ => ceqb c "-" end); [apply wrap_s_64|].
    destruct (n <=? maxInt); [apply wrap_s_64|exact E].
  - unfold decodeDouble. destruct (sscanf_lf _); [|done]. by intros [= <-].
Qed.

Section Reading.
Context (features_ : OurFeatures) (collectComments_ : bool) (begin_ : Location).
Abbreviation readToken := (readToken features_ collectComments_ begin_).
Abbreviation next_token := (next_token features_ collectComments_ begin_).
(** What every function of the reader leaves, beside its result. *)
Definition leaves {A} (m : outcome (OurReader * A)) : Prop := returns m (fun '(r, _) => rtyped r).
Lemma leaves_then {A B} (m : outcome (OurReader * A)) (k : OurReader * A -> outcome (OurReader * B)) :
  leaves m -> (forall r a, rtyped r -> leaves (k (r, a))) -> leaves (obind m k).
Proof. intros H Hk. eapply returns_then; [exact H|]. intros [r a]. apply Hk. Qed.
Lemma leaves_any {A B} (m : outcome A) (k : A -> outcome (OurReader * B)) :
  (forall a, leaves (k a)) -> leaves (obind m k).
Proof. intros Hk. eapply returns_then; [apply returns_any|]. intros a _. apply Hk. Qed.

Lemma readComment_leaves r : rtyped r -> leaves (readComment collectComments_ begin_ r).
Proof.
  intros H. unfold readComment. destruct (next_char _) as [c s].
  destruct (if ceqb c "*" then _ else _) as [ok s'].
  destruct ok; [|exact H]. destruct collectComments_; [|exact H]. cbn [negb].
  eapply returns_then with (Q := rtyped); [|done]. unfold addComment.
  destruct (match last_ _ with Some _ => _ | None => _ end); try exact H.
  destruct (last_ _) as [[l p]|]; [|exact H]. by apply comment_value_typed.
Qed.
Lemma readToken_leaves r : rtyped r -> leaves (readToken r).
Proof.
  intros H. unfold JsonReader.readToken. destruct (next_char _) as [c s]. cbv zeta.
  repeat match goal with
  | |- leaves (if ?b then _ else _) => destruct b
  | |- leaves (match match_ ?a ?b with Some _ => _ | None => _ end) => destruct (match_ a b)
  | |- leaves (let '(_, _) := ?x in _) => destruct x as [[] ?]
  | |- leaves (match ?x with Some _ => _ | None => _ end) => destruct x
  end; try exact H.
  all: apply leaves_then; [by apply readComment_leaves|done].
Qed.
Lemma skip_comments_leaves fuel r t :
  rtyped r -> leaves (skip_comments features_ collectComments_ begin_ fuel r t).
Proof.
  revert r t. induction fuel as [|fuel IH]; intros r t H; cbn [skip_comments];
    destruct (is_token t tokenComment); try done.
  apply leaves_then; [by apply readToken_leaves|auto].
Qed.
Lemma next_token_leaves r : rtyped r -> leaves (next_token r).
Proof.
  intros H. apply leaves_then; [by apply readToken_leaves|]. intros. by apply skip_comments_leaves.
Qed.
Lemma skipCommentTokens_leaves r :
  rtyped r -> leaves (skipCommentTokens features_ collectComments_ begin_ r).
Proof.
  intros H. unfold skipCommentTokens. destruct (allowComments_ _);
    [by apply next_token_leaves|by apply readToken_leaves].
Qed.
Lemma recoverFromError_leaves r ty :
  rtyped r -> leaves (recoverFromError features_ collectComments_ begin_ r ty).
Proof.
  intros H. eapply returns_then with (Q := rtyped); [|done].
  generalize (S (length (current_ r))). intros fuel. revert r H.
  induction fuel as [|fuel IH]; intros r H; cbn [recover_loop]; [done|].
  eapply returns_then; [by apply readToken_leaves|]. intros [r' t] H'.
  destruct (_ || _); [done|auto].
Qed.
Lemma addErrorAndRecover_leaves r msg t ty :
  rtyped r -> leaves (addErrorAndRecover features_ collectComments_ begin_ r msg t ty).
Proof. intros H. by apply recoverFromError_leaves. Qed.
Lemma set_scalar_typed r v a b : typed v -> rtyped r -> rtyped (set_scalar begin_ r v a b).
Proof.
  intros Hv. apply on_value_typed. intros w _. by apply (typed_same v).
Qed.
Lemma read_name_leaves r t : rtyped r -> leaves (read_name features_ r t).
Proof.
  intros H. unfold read_name. destruct (is_token _ _); [by destruct (decodeString t)|].
  destruct (_ && _); [|done]. destruct (decodeNumber t); [|done]. by apply leaves_any.
Qed.

Section Rec.
Context (rec : OurReader -> outcome (OurReader * bool)) (Hrec : forall r, rtyped r -> leaves (rec r)).
Hint Resolve readToken_leaves next_token_leaves recoverFromError_leaves addErrorAndRecover_leaves
  skip_comments_leaves read_name_leaves : webcc.

Lemma stop_leaves (m : outcome (OurReader * bool)) :
  leaves m -> leaves (let! (r, ok) := m in Ret (r, Some ok)).
Proof. intros H. by apply leaves_then. Qed.
Lemma read_member_leaves r t name :
  rtyped r -> leaves (read_member features_ collectComments_ begin_ rec r t name).
Proof.
  intros H. unfold read_member. cbv zeta. apply leaves_then; [auto with webcc|]. intros r1 colon H1.
  destruct (negb _); [apply stop_leaves; auto with webcc|]. destruct (2 ^ 30 <=? len name)%N; [done|].
  apply leaves_any. intros []; [apply stop_leaves; auto with webcc|].
  eapply returns_then; [by apply resolveReference_typed, value_at_typed|]. intros v Hv.
  apply leaves_then; [by apply Hrec, on_value_typed|]. intros r2 ok H2.
  assert (rtyped (pop r2)) as H2' by exact H2.
  destruct ok; cbn [negb]; [|apply stop_leaves; auto with webcc].
  apply leaves_then; [auto with webcc|]. intros r3 comma H3.
  destruct (negb _); [apply stop_leaves; auto with webcc|].
  apply leaves_then; [auto with webcc|done].
Qed.
Lemma object_loop_leaves fuel r name :
  rtyped r -> leaves (object_loop features_ collectComments_ begin_ rec fuel r name).
Proof.
  revert r name. induction fuel as [|fuel IH]; intros r name H; cbn [object_loop]; [done|].
  apply leaves_then; [auto with webcc|]. intros r1 t1 H1. destruct (_ && _); [done|].
  apply leaves_then; [auto with webcc|]. intros r2 [name'| |] H2; [|auto with webcc..].
  apply leaves_then; [by apply read_member_leaves|]. intros r3 [ok|] H3; [done|auto].
Qed.
Lemma array_loop_leaves fuel r i :
  rtyped r -> leaves (array_loop features_ collectComments_ begin_ rec fuel r i).
Proof.
  revert r i. induction fuel as [|fuel IH]; intros r i H; cbn [array_loop]; [done|].
  eapply returns_then; [by apply returns_assert, index_ref_typed, value_at_typed|]. intros v Hv.
  apply leaves_then; [by apply Hrec, on_value_typed|]. intros r2 ok H2.
  assert (rtyped (pop r2)) as H2' by exact H2.
  destruct ok; cbn [negb]; [|auto with webcc]. apply leaves_then; [auto with webcc|].
  intros r3 t3 H3. destruct (is_token t3 tokenArrayEnd); [done|].
  destruct (is_token t3 tokenArraySeparator); auto with webcc.
Qed.
Lemma start_container_typed r t tok : rtyped r -> rtyped (start_container begin_ r t tok).
Proof.
  apply on_value_typed. intros w _. apply (typed_same (Value_make t)); auto with webcc.
Qed.
Lemma read_token_value_leaves r t :
  rtyped r -> leaves (read_token_value features_ collectComments_ begin_ rec r t).
Proof.
  intros H. unfold read_token_value. cbv zeta.
  assert (forall m : outcome (OurReader * bool), leaves m ->
    leaves (let! (r0, ok) := m in Ret (on_current (fun w => setOffsetLimit w
      (offset begin_ (current_ r0))) r0, Some ok))) as Hw.
  { intros m Hm. apply leaves_then; [exact Hm|]. intros r' ok H'. apply on_value_typed; [|exact H'].
    intros w Hw. by apply (typed_same w). }
  assert (forall a b, rtyped (on_current (fun w => setOffsetLimit (setOffsetStart w a) b) r)) as Herr.
  { intros a b. apply on_value_typed; [|exact H]. intros w Hw'. by apply (typed_same w). }
  destruct (type_ t);
    try (destruct (allowDroppedNullPlaceholders_ features_); [by apply set_scalar_typed|]);
    try (by apply Herr); try (by apply set_scalar_typed).
  - apply Hw, object_loop_leaves. by apply start_container_typed.
  - apply Hw. unfold readArray. cbv zeta. set (r0 := set_current _ _).
    assert (rtyped r0) as H0 by by apply start_container_typed. clearbody r0.
    destruct (match current_ _ with [] => _ | _ => _ end); [|by apply array_loop_leaves].
    apply leaves_then; [auto with webcc|done].
  - apply stop_leaves. unfold read_string_value. destruct (decodeString t); [|exact H].
    eapply returns_then; [apply Value_String_typed|]. intros v Hv. by apply set_scalar_typed.
  - apply stop_leaves. destruct (decodeNumber t) as [v|] eqn:E; [|exact H].
    apply set_scalar_typed; [by eapply decodeNumber_typed|exact H].
Qed.
End Rec.

Lemma comments_first_typed r placement p (k : OurReader -> OurReader) :
  rtyped r -> (forall r', rtyped r' -> rtyped (k r')) ->
  returns (match commentsBefore_ r with
           | _ :: _ => if collectComments_ then
               let! r := comment_value p (commentsBefore_ r) placement r in Ret (k r) else Ret r
           | [] => Ret r
           end) rtyped.
Proof.
  intros H Hk. destruct (commentsBefore_ r) as [|c l]; [done|]. destruct collectComments_; [|done].
  eapply returns_then; [by apply comment_value_typed|]. intros r' H'. by apply Hk.
Qed.
Lemma readValue_leaves fuel r : rtyped r -> leaves (readValue features_ collectComments_ begin_ fuel r).
Proof.
  revert r. induction fuel as [|fuel IH]; intros r H; cbn [readValue]; [done|].
  destruct (_ <? _)%nat; [done|]. apply leaves_then; [by apply skipCommentTokens_leaves|].
  intros r1 t H1. eapply returns_then.
  { by apply (comments_first_typed r1 commentBefore (nodes_ r1) (fun r => set_commentsBefore r [])). }
  intros r2 H2. apply leaves_then; [by apply read_token_value_leaves|].
  intros r3 [ok|] H3; [|done]. by destruct collectComments_.
Qed.
Lemma parse_leaves root : typed root -> leaves (parse features_ collectComments_ begin_ root).
Proof.
  intros H. unfold parse. apply leaves_then; [by apply readValue_leaves|]. intros r ok H1.
  apply leaves_then; [by apply skipCommentTokens_leaves|]. intros r1 t H2.
  destruct (_ && _); [done|]. eapply returns_then with (Q := rtyped).
  - destruct (commentsBefore_ r1); [done|]. destruct collectComments_; [|done].
    by apply comment_value_typed.
  - intros r2 H3. by destruct (_ && _).
Qed.
End Reading.

(** ** Properties *)

(** Every operation of [Value] keeps values well typed: assignment to a member,
    appending, removing a member or an element, clearing, resizing and comments, and the
    reading accesses give well-typed values. *)
Theorem operations_keep_types v w k i n c placement :
  typed v -> typed w ->
  returns (set_member v k w) typed /\ returns (append v w) typed /\
  typed (snd (removeMember v k)) /\ typed (snd (removeIndex v i)) /\
  returns (clear v) typed /\ returns (resize v n) typed /\
  returns (setComment v c placement) typed /\
  returns (member_const v k) typed /\ returns (index_const v i) typed /\
  returns (get v k w) typed.
Proof.
  intros Hv Hw. split_and!.
  - by apply set_member_typed.
  - by apply append_typed.
  - by apply removeMember_typed.
  - by apply removeIndex_typed.
  - by apply clear_typed.
  - by apply resize_typed.
  - by apply setComment_typed.
  - eapply returns_then with (Q := fun o => o = get_child v (Key (CZString k)));
      [apply returns_assert; reflexivity|]. intros o ->. by apply typed_child_default.
  - apply returns_assert. by apply typed_child_default.
  - eapply returns_then with (Q := fun o => o = get_child v (Key (CZString k)));
      [apply returns_assert; reflexivity|]. intros o ->. cbn [returns].
    destruct (get_child v (Key (CZString k))) eqn:E; [|done]. exact (typed_get_child _ _ _ Hv E).
Qed.
Example operations_keep_types_witness :
  returns (append (Value_make TArray) (Value_int 5)) typed.
Proof.
  exact (proj1 (proj2 (operations_keep_types (Value_make TArray) (Value_int 5) [] 0%N 0%N [] commentBefore
    (typed_make TArray) ltac:(split; vm_compute; discriminate)))).
Defined.

(** Whatever text the reader is given, with whatever settings and whether it
    succeeds or not, the root it leaves is well typed: no input makes it build an object with
    unsorted or doubled names, or store a number that does not fit. *)
Theorem reader_builds_typed_values settings doc root :
  typed root ->
  returns (parseFromStream settings doc root) (fun '(_, v, _) => typed v).
Proof.
  intros H. eapply returns_then; [apply returns_any|]. intros [cc features] _.
  eapply returns_then; [by apply (parse_leaves features (cc && allowComments_ features) doc)|].
  by intros [r ok].
Qed.
Example reader_builds_typed_values_witness :
  returns (let! s := reader_setDefaults nullSingleton in
           parseFromStream s (#"[1, -2, {" ++ [DQ] ++ #"a" ++ [DQ] ++ #":") nullSingleton)
    (fun '(_, v, _) => typed v).
Proof.
  destruct (reader_setDefaults nullSingleton) as [s| |]; [|exact I|exact I].
  apply (reader_builds_typed_values s). apply typed_null.
Defined.
