(* ===== verification/JsonOrder.v ===== *)
(** * JSON: the order of values

    Models the comparison operators of [class Value] ([json/jsoncpp.cpp]), with
    those of [std::pair] and [std::map] that they use.  The theorems say on which
    values [operator<] is the strict weak order that sorting and sets require, with
    [operator==] as its equivalence. *)
From Stdlib Require Import Ascii String SpecFloat.
From stdpp Require Import base tactics list numbers option strings.
From S2P Require Import Prelude Globals Double JsonText JsonValue JsonReader JsonLaws JsonWriter.
Open Scope Z_scope.

(** ** The operators *)
Definition type_index (t : ValueType) : Z :=
  match t with
  | TNull => 0 | TInt => 1 | TUInt => 2 | TReal => 3 | TString => 4 | TBoolean => 5 | TArray => 6
  | TObject => 7
  end.

(** [operator<] of [std::pair] and of [std::map]. *)
Definition pair_ltb {K V} (ltk : K -> K -> bool) (ltv : V -> V -> bool) (x y : K * V) : bool :=
  ltk (fst x) (fst y) || (negb (ltk (fst y) (fst x)) && ltv (snd x) (snd y)).
Fixpoint lexicographical_compare {A} (lt : A -> A -> bool) (l l' : list A) : bool :=
  match l, l' with
  | _, [] => false
  | [], _ :: _ => true
  | x :: l, y :: l' =>
      if lt x y then true else if lt y x then false else lexicographical_compare lt l l'
  end.
(** [int(size() - other.size())]. *)
Definition size_delta {A} (m m' : list A) : Z :=
  wrap_s 32 (wrap_u 64 (Z.of_nat (length m) - Z.of_nat (length m'))).
Definition members_ltb {K} (ltk : K -> K -> bool) (lt : Value -> Value -> bool)
    (m m' : list (K * Value)) : bool :=
  let delta := size_delta m m' in
  if negb (delta =? 0) then delta <? 0 else lexicographical_compare (pair_ltb ltk lt) m m'.

(** [operator<] recurs with its arguments in both orders; it has fuel for the
    depth of either. *)
Fixpoint less (fuel : nat) (a b : Value) : bool :=
  match fuel with
  | O => false
  | S fuel' =>
      let typeDelta := type_index (type a) - type_index (type b) in
      if negb (typeDelta =? 0) then typeDelta <? 0
      else
        match payload a, payload b with
        | intValue x, intValue y => x <? y
        | uintValue x, uintValue y => x <? y
        | realValue x, realValue y => d_ltb x y
        | booleanValue x, booleanValue y => negb x && y
        | stringValue x, stringValue y =>
            match memcmp x y (Nat.min (length x) (length y)) with
            | Lt => true
            | Gt => false
            | Eq => (length x <? length y)%nat
            end
        | arrayValue m, arrayValue m' => members_ltb N.ltb (less fuel') m m'
        | objectValue m, objectValue m' => members_ltb CZString_ltb (less fuel') m m'
        | _, _ => false
        end
  end.
Definition Value_ltb (a b : Value) : bool := less (depth a) a b.
Definition Value_leb (a b : Value) : bool := negb (Value_ltb b a).
Definition Value_geb (a b : Value) : bool := negb (Value_ltb a b).
Definition Value_gtb (a b : Value) : bool := Value_ltb b a.
Definition Value_neqb (a b : Value) : bool := negb (Value_eqb a b).
Definition compare (a b : Value) : Z :=
  if Value_ltb a b then -1 else if Value_gtb a b then 1 else 0.

(** The values that the theorems are about: no NaN, and less than [2^31] members
    in each array and object. *)
Fixpoint orderable (v : Value) : bool :=
  let 'mkValue p _ _ _ := v in
  match p with
  | realValue d => negb (isnan d)
  | arrayValue m =>
      (Z.of_nat (length m) <? 2 ^ 31) && forallb (fun kv => orderable (snd kv)) m
  | objectValue m =>
      (Z.of_nat (length m) <? 2 ^ 31) && forallb (fun kv => orderable (snd kv)) m
  | _ => true
  end.

(** ** Three-way comparisons *)
Record Ordering {A} (P : A -> Prop) (c : A -> A -> comparison) : Prop := {
  cmp_anti x y : P x -> P y -> c y x = CompOpp (c x y);
  cmp_eq x y z : P x -> P y -> P z -> c x y = Eq -> c x z = c y z;
  cmp_lt x y z : P x -> P y -> P z -> c x y = Lt -> c y z = Lt -> c x z = Lt
}.
(** [then_cmp c d]: [d] decides where [c] does not. *)
Definition then_cmp (c d : comparison) : comparison := match c with Eq => d | r => r end.
Fixpoint lex {A} (c : A -> A -> comparison) (l l' : list A) : comparison :=
  match l, l' with
  | [], [] => Eq
  | [], _ :: _ => Lt
  | _ :: _, [] => Gt
  | x :: l, y :: l' => then_cmp (c x y) (lex c l l')
  end.
Definition cmp_of {K} (ltb : K -> K -> bool) (a b : K) : comparison :=
  if ltb a b then Lt else if ltb b a then Gt else Eq.

Section Orderings.
Context {A : Type} (P : A -> Prop).

Lemma ordering_weaken (Q : A -> Prop) c :
  (forall x, Q x -> P x) -> Ordering P c -> Ordering Q c.
Proof. intros H [H1 H2 H3]. split; eauto. Qed.
Lemma ordering_via {B} (f : B -> A) c :
  Ordering P c -> Ordering (fun x => P (f x)) (fun x y => c (f x) (f y)).
Proof. intros [H1 H2 H3]. split; eauto. Qed.
Lemma cmp_refl c x : Ordering P c -> P x -> c x x = Eq.
Proof. intros H Hx. pose proof (cmp_anti _ _ H x x Hx Hx). by destruct (c x x). Qed.
Lemma cmp_eq_r c x y z : Ordering P c -> P x -> P y -> P z -> c y z = Eq -> c x y = c x z.
Proof.
  intros H Hx Hy Hz E. rewrite (cmp_anti _ _ H y x), (cmp_anti _ _ H z x) by done.
  by rewrite (cmp_eq _ _ H y z x).
Qed.
Lemma ordering_then c d :
  Ordering P c -> Ordering P d -> Ordering P (fun x y => then_cmp (c x y) (d x y)).
Proof.
  intros Hc Hd. split.
  - intros x y Hx Hy. rewrite (cmp_anti _ _ Hc x y), (cmp_anti _ _ Hd x y) by done.
    by destruct (c x y).
  - intros x y z Hx Hy Hz E. destruct (c x y) eqn:E1; try done. cbn in E.
    by rewrite (cmp_eq _ _ Hc x y z), (cmp_eq _ _ Hd x y z).
  - intros x y z Hx Hy Hz E1 E2. destruct (c x y) eqn:Exy; try done; cbn in E1.
    + rewrite (cmp_eq _ _ Hc x y z) by done. destruct (c y z); try done. cbn in *.
      by apply (cmp_lt _ _ Hd x y z).
    + assert (c x z = Lt) as ->; [|done]. destruct (c y z) eqn:Eyz; try done.
      * by rewrite <-(cmp_eq_r c x y z).
      * by apply (cmp_lt _ _ Hc x y z).
Qed.
Lemma ordering_lex c : Ordering P c -> Ordering (Forall P) (lex c).
Proof.
  intros Hc. split.
  - induction x as [|x l IH]; intros [|y l'] Hx Hy; try done. cbn.
    apply Forall_cons in Hx as [Hx Hl], Hy as [Hy Hl']. rewrite (cmp_anti _ _ Hc x y) by done.
    rewrite IH by done. by destruct (c x y).
  - induction x as [|x l IH]; intros [|y l'] [|z l''] Hx Hy Hz; try done. cbn.
    apply Forall_cons in Hx as [Hx Hl], Hy as [Hy Hl'], Hz as [Hz Hl''].
    destruct (c x y) eqn:E; try done. cbn. intros E'.
    by rewrite (cmp_eq _ _ Hc x y z), (IH l' l'').
  - induction x as [|x l IH]; intros [|y l'] [|z l''] Hx Hy Hz; try done. cbn.
    apply Forall_cons in Hx as [Hx Hl], Hy as [Hy Hl'], Hz as [Hz Hl''].
    destruct (c x y) eqn:Exy; try done; cbn; intros E1 E2.
    + rewrite (cmp_eq _ _ Hc x y z) by done. destruct (c y z); try done. cbn in *. by apply (IH l').
    + assert (c x z = Lt) as ->; [|done]. destruct (c y z) eqn:Eyz; try done.
      * by rewrite <-(cmp_eq_r c x y z).
      * by apply (cmp_lt _ _ Hc x y z).
Qed.
End Orderings.

Lemma ordering_Z : Ordering (fun _ => True) Z.compare.
Proof.
  split.
  - intros x y _ _. apply Z.compare_antisym.
  - by intros x y z _ _ _ ->%Z.compare_eq.
  - intros x y z _ _ _. rewrite !Z.compare_lt_iff. lia.
Qed.
Lemma ordering_of {K} (ltb : K -> K -> bool) :
  StrictTotal ltb -> Ordering (fun _ => True) (cmp_of ltb).
Proof.
  intros H. unfold cmp_of. split.
  - intros x y _ _. destruct (ltb y x) eqn:E1, (ltb x y) eqn:E2; try done.
    by rewrite (ltb_asym ltb _ _ E1) in E2.
  - intros x y z _ _ _. destruct (ltb x y) eqn:E1; [done|]. destruct (ltb y x) eqn:E2; [done|].
    by rewrite (ltb_total _ _ E1 E2).
  - intros x y z _ _ _. destruct (ltb x y) eqn:E1; [|by destruct (ltb y x)].
    destruct (ltb y z) eqn:E2; [|by destruct (ltb z y)]. by rewrite (ltb_trans _ _ _ E1 E2).
Qed.

(** Doubles that are not NaN are ordered by sign, exponent and mantissa. *)
Definition dcmp (a b : double) : comparison := default Eq (SFcompare a b).
Definition d_class (d : double) : Z :=
  match d with
  | S754_infinity true => -2 | S754_finite true _ _ => -1 | S754_finite false _ _ => 1
  | S754_infinity false => 2 | _ => 0
  end.
Definition d_exponent (d : double) : Z :=
  match d with S754_finite s _ e => if s : bool then - e else e | _ => 0 end.
Definition d_mantissa (d : double) : Z :=
  match d with S754_finite s m _ => if s : bool then Z.neg m else Z.pos m | _ => 0 end.
Lemma dcmp_rank a b : isnan a = false -> isnan b = false ->
  dcmp a b = then_cmp (d_class a ?= d_class b)
               (then_cmp (d_exponent a ?= d_exponent b) (d_mantissa a ?= d_mantissa b)).
Proof.
  destruct a as [[]|[]| |[] m e], b as [[]|[]| |[] m' e']; try done; intros _ _; unfold dcmp; cbn.
  - rewrite Z.compare_opp, (Z.compare_antisym e e'). by destruct (e ?= e').
  - by destruct (e ?= e').
Qed.
Lemma ordering_double : Ordering (fun d => isnan d = false) dcmp.
Proof.
  set (c a b := then_cmp (d_class a ?= d_class b)
                  (then_cmp (d_exponent a ?= d_exponent b) (d_mantissa a ?= d_mantissa b))).
  assert (Ordering (fun d => isnan d = false) c) as [H1 H2 H3].
  { apply (ordering_weaken (fun _ => True)); [done|].
    repeat apply ordering_then; by apply (ordering_via _ _ _ ordering_Z). }
  split; intros; rewrite !dcmp_rank in *; eauto.
Qed.
Lemma d_ltb_dcmp a b : d_ltb a b = true <-> dcmp a b = Lt.
Proof. unfold d_ltb, dcmp, SFltb. by destruct (SFcompare a b) as [[]|]. Qed.
Lemma d_eqb_dcmp a b : isnan a = false -> isnan b = false -> d_eqb a b = true <-> dcmp a b = Eq.
Proof.
  unfold d_eqb, dcmp, SFeqb. destruct a as [[]|[]| |[] m e], b as [[]|[]| |[] m' e']; try done; cbn;
    intros _ _; by destruct (e ?= e'), (Pos.compare_cont Eq m m').
Qed.

(** ** Values *)

(** The parts of a value that are compared; a part another type has is trivial. *)
Definition v_integer (v : Value) : Z :=
  match payload v with intValue z | uintValue z => z | booleanValue b => Z.b2z b | _ => 0 end.
Definition v_real (v : Value) : double :=
  match payload v with realValue d => d | _ => S754_zero false end.
Definition v_string (v : Value) : str := match payload v with stringValue s => s | _ => [] end.
Definition v_elements (v : Value) : list (N * Value) :=
  match payload v with arrayValue m => m | _ => [] end.
Definition v_members (v : Value) : list (str * Value) :=
  match payload v with objectValue m => m | _ => [] end.
Definition by_length {A} (c : A -> A -> comparison) (m m' : list A) : comparison :=
  then_cmp (Z.of_nat (length m) ?= Z.of_nat (length m')) (lex c m m').
Definition by_key {K} (ltb : K -> K -> bool) (c : Value -> Value -> comparison) (x y : K * Value) :=
  then_cmp (cmp_of ltb (fst x) (fst y)) (c (snd x) (snd y)).

(** The order as a three-way comparison, to values of depth [n]. *)
Fixpoint vcmp (n : nat) (a b : Value) : comparison :=
  match n with
  | O => Eq
  | S n =>
      then_cmp (type_index (type a) ?= type_index (type b))
     (then_cmp (v_integer a ?= v_integer b)
     (then_cmp (dcmp (v_real a) (v_real b))
     (then_cmp (cmp_of CZString_ltb (v_string a) (v_string b))
     (then_cmp (by_length (by_key N.ltb (vcmp n)) (v_elements a) (v_elements b))
               (by_length (by_key CZString_ltb (vcmp n)) (v_members a) (v_members b))))))
  end.

Definition bounded (n : nat) (v : Value) : Prop := orderable v = true /\ (depth v <= n)%nat.

Lemma forallb_Forall' {A} (f : A -> bool) l : forallb f l = true <-> Forall (fun x => f x = true) l.
Proof. rewrite forallb_forall. symmetry. apply List.Forall_forall. Qed.
Lemma list_max_bounded {K} (m : list (K * Value)) n :
  (list_max (map (fun kv => depth (snd kv)) m) <= n)%nat ->
  forallb (fun kv => orderable (snd kv)) m = true -> Forall (fun kv => bounded n (snd kv)) m.
Proof.
  rewrite list_max_le, Forall_map, forallb_Forall'. rewrite !Forall_forall.
  intros H1 H2 kv Hk. split; auto.
Qed.
Lemma depth_pos v : (0 < depth v)%nat.
Proof. destruct v as [[] ? ? ?]; cbn; lia. Qed.
Lemma bounded_children n v : bounded (S n) v ->
  isnan (v_real v) = false /\
  Z.of_nat (length (v_elements v)) < 2 ^ 31 /\ Forall (fun kv => bounded n (snd kv)) (v_elements v) /\
  Z.of_nat (length (v_members v)) < 2 ^ 31 /\ Forall (fun kv => bounded n (snd kv)) (v_members v).
Proof.
  destruct v as [p c s l]. intros [Ho Hd]. destruct p; cbn in *; try done.
  - by destruct (isnan d).
  - apply andb_true_iff in Ho as [Ho1 Ho2]. split; [done|]. split; [lia|].
    split; [|done]. apply list_max_bounded; [lia|done].
  - apply andb_true_iff in Ho as [Ho1 Ho2]. split; [done|]. split; [done|]. split; [done|].
    split; [lia|]. apply list_max_bounded; [lia|done].
Qed.

Lemma ordering_by_length {A} (P : A -> Prop) c : Ordering P c -> Ordering (Forall P) (by_length c).
Proof.
  intros H. apply ordering_then; [|by apply ordering_lex].
  apply (ordering_weaken (fun _ => True)); [done|]. apply (ordering_via _ _ _ ordering_Z).
Qed.
Lemma ordering_by_key {K} (ltb : K -> K -> bool) (P : Value -> Prop) c :
  StrictTotal ltb -> Ordering P c -> Ordering (fun kv => P (snd kv)) (by_key ltb c).
Proof.
  intros Hk H. apply ordering_then; [|apply (ordering_via _ _ _ H)].
  apply (ordering_weaken (fun _ => True)); [done|].
  apply (ordering_via _ _ _ (ordering_of ltb Hk)).
Qed.
Lemma ordering_value n : Ordering (bounded n) (vcmp n).
Proof.
  induction n as [|n IH]; [by split|].
  assert (forall A (f : Value -> A) c, Ordering (fun _ => True) c ->
    Ordering (bounded (S n)) (fun x y => c (f x) (f y))) as Hvia.
  { intros A f c H. apply (ordering_weaken (fun _ => True)); [done|]. apply (ordering_via _ f _ H). }
  cbn [vcmp]. apply ordering_then; [apply Hvia, ordering_Z|].
  apply ordering_then; [apply Hvia, ordering_Z|].
  apply ordering_then.
  { eapply ordering_weaken; [|apply (ordering_via _ v_real _ ordering_double)].
    intros v Hv. apply bounded_children in Hv. by destruct Hv. }
  apply ordering_then; [apply Hvia, ordering_of, _|].
  apply ordering_then.
  - eapply ordering_weaken;
      [|apply (ordering_via (Forall (fun kv => bounded n (snd kv))) v_elements), ordering_by_length,
         ordering_by_key, IH; apply _].
    intros v Hv. apply bounded_children in Hv. by destruct_and!.
  - eapply ordering_weaken;
      [|apply (ordering_via (Forall (fun kv => bounded n (snd kv))) v_members), ordering_by_length,
         ordering_by_key, IH; apply _].
    intros v Hv. apply bounded_children in Hv. by destruct_and!.
Qed.

(** [agrees P lt c]: the operator [lt] is the comparison [c]. *)
Definition agrees {A} (P : A -> Prop) (lt : A -> A -> bool) (c : A -> A -> comparison) : Prop :=
  forall x y, P x -> P y -> lt x y = true <-> c x y = Lt.

Lemma agrees_of {K} (ltb : K -> K -> bool) : agrees (fun _ => True) ltb (cmp_of ltb).
Proof. intros x y _ _. unfold cmp_of. destruct (ltb x y); [done|]. by destruct (ltb y x). Qed.
Lemma agrees_false {A} (P : A -> Prop) lt c x y :
  agrees P lt c -> P x -> P y -> lt x y = false <-> c x y <> Lt.
Proof. intros H Hx Hy. rewrite <-(H x y) by done. by destruct (lt x y). Qed.
Lemma agrees_lex {A} (P : A -> Prop) lt c :
  Ordering P c -> agrees P lt c -> agrees (Forall P) (lexicographical_compare lt) (lex c).
Proof.
  intros Ho H. intros l. induction l as [|x l IH]; intros [|y l'] Hx Hy; try done. cbn.
  apply Forall_cons in Hx as [Hx Hl], Hy as [Hy Hl'].
  destruct (lt x y) eqn:E1.
  - apply H in E1; [|done..]. by rewrite E1.
  - apply (agrees_false _ _ _ _ _ H) in E1; [|done..]. destruct (lt y x) eqn:E2.
    + apply H in E2; [|done..]. rewrite (cmp_anti _ _ Ho y x), E2 by done. done.
    + apply (agrees_false _ _ _ _ _ H) in E2; [|done..].
      rewrite (cmp_anti _ _ Ho x y) in E2 by done. destruct (c x y); try done. by apply IH.
Qed.
Lemma agrees_pair {K} (ltk : K -> K -> bool) P lt c :
  StrictTotal ltk -> agrees P lt c ->
  agrees (fun kv : K * Value => P (snd kv)) (pair_ltb ltk lt) (by_key ltk c).
Proof.
  intros Hk H [k v] [k' v'] Hv Hv'. unfold pair_ltb, by_key, cmp_of. cbn in *.
  destruct (ltk k k'); [done|]. destruct (ltk k' k); [done|]. by apply H.
Qed.
Lemma size_delta_small {A} (m m' : list A) :
  Z.of_nat (length m) < 2 ^ 31 -> Z.of_nat (length m') < 2 ^ 31 ->
  size_delta m m' = Z.of_nat (length m) - Z.of_nat (length m').
Proof.
  unfold size_delta, wrap_s, wrap_u. intros H H'.
  set (x := Z.of_nat (length m)) in *. set (y := Z.of_nat (length m')) in *.
  assert (0 <= x /\ 0 <= y) as [? ?] by lia. rewrite Z.mod_mod_divide by (by exists (2 ^ 32)).
  destruct (Z.le_gt_cases 0 (x - y)).
  - rewrite Z.mod_small by lia. by destruct (Z.ltb_spec (x - y) (2 ^ (32 - 1))); [|lia].
  - rewrite <-(Z_mod_plus_full _ 1), Z.mod_small by lia.
    destruct (Z.ltb_spec (x - y + 1 * 2 ^ 32) (2 ^ (32 - 1))); lia.
Qed.

Lemma agrees_members {K} (ltk : K -> K -> bool) P lt c :
  StrictTotal ltk -> Ordering P c -> agrees P lt c ->
  agrees (fun m : list (K * Value) => Z.of_nat (length m) < 2 ^ 31 /\ Forall (fun kv => P (snd kv)) m)
    (members_ltb ltk lt) (by_length (by_key ltk c)).
Proof.
  intros Hk Ho H m m' [Hm Hp] [Hm' Hp']. unfold members_ltb, by_length. cbv zeta.
  rewrite size_delta_small by done.
  destruct (Z.compare_spec (Z.of_nat (length m)) (Z.of_nat (length m'))) as [E|E|E]; cbn [then_cmp].
  - rewrite E, Z.sub_diag. cbn. apply (agrees_lex (fun kv => P (snd kv))); try done.
    + by apply ordering_by_key.
    + by apply agrees_pair.
  - destruct (Z.eqb_spec (Z.of_nat (length m) - Z.of_nat (length m')) 0); [lia|]. cbn. by split; [|lia].
  - destruct (Z.eqb_spec (Z.of_nat (length m) - Z.of_nat (length m')) 0); [lia|]. cbn. by split; [lia|].
Qed.

Lemma less_vcmp n : agrees (bounded n) (less n) (vcmp n).
Proof.
  induction n as [|n IH]; [by intros ? ? _ _; cbn|]. intros a b Ha Hb.
  pose proof (bounded_children _ _ Ha) as (Ra & La & Ca & La' & Ca').
  pose proof (bounded_children _ _ Hb) as (Rb & Lb & Cb & Lb' & Cb').
  assert (Ea := agrees_members N.ltb _ _ _ _ (ordering_value n) IH (v_elements a) (v_elements b)
    (conj La Ca) (conj Lb Cb)).
  assert (Eo := agrees_members CZString_ltb _ _ _ _ (ordering_value n) IH (v_members a) (v_members b)
    (conj La' Ca') (conj Lb' Cb')).
  clear Ha Hb IH La Ca La' Ca' Lb Cb Lb' Cb'. cbn [less vcmp].
  destruct a as [p ? ? ?], b as [q ? ? ?]; destruct p, q; try done; cbn in Ea, Eo, Ra, Rb.
  - cbn. unfold Z.ltb. by destruct (z ?= z0).
  - cbn. unfold Z.ltb. by destruct (z ?= z0).
  - etransitivity; [apply d_ltb_dcmp|]. cbn. by destruct (dcmp d d0).
  - pose proof (agrees_of CZString_ltb s s0 I I) as H. unfold CZString_ltb in H at 1.
    cbn -[cmp_of memcmp]. cbn -[cmp_of memcmp] in H. rewrite H. by destruct (cmp_of _ s s0).
  - by destruct b, b0.
  - cbn -[by_length members_ltb]. rewrite Ea. by destruct (by_length _ m m0).
Qed.

(** Enough fuel for one of the two values is enough. *)
Lemma lexicographical_ext {A} (lt lt' : A -> A -> bool) l l' :
  (forall x y, x ∈ l -> y ∈ l' -> lt x y = lt' x y /\ lt y x = lt' y x) ->
  lexicographical_compare lt l l' = lexicographical_compare lt' l l'.
Proof.
  revert l'. induction l as [|x l IH]; intros [|y l'] H; try done. cbn.
  destruct (H x y) as [-> ->]; [by constructor..|]. rewrite IH; [done|]. intros x' y' Hx Hy.
  apply H; by constructor.
Qed.
Lemma list_max_elem {K} (m : list (K * Value)) kv n :
  (list_max (map (fun kv => depth (snd kv)) m) <= n)%nat -> kv ∈ m -> (depth (snd kv) <= n)%nat.
Proof. rewrite list_max_le, Forall_map, Forall_forall. auto. Qed.
Lemma members_ltb_ext {K} (ltk : K -> K -> bool) lt lt' m m' :
  (forall x y, x ∈ m -> y ∈ m' -> lt (snd x) (snd y) = lt' (snd x) (snd y) /\
                                  lt (snd y) (snd x) = lt' (snd y) (snd x)) ->
  members_ltb ltk lt m m' = members_ltb ltk lt' m m'.
Proof.
  intros H. unfold members_ltb. destruct (negb _); [done|]. apply lexicographical_ext.
  intros x y Hx Hy. unfold pair_ltb. by destruct (H x y Hx Hy) as [-> ->].
Qed.
Lemma less_fuel n : forall a b, (Nat.min (depth a) (depth b) <= n)%nat -> less n a b = less (S n) a b.
Proof.
  induction n as [|n IH]; intros a b H.
  - pose proof (depth_pos a). pose proof (depth_pos b). lia.
  - cbn [less].
    destruct a as [[| | | | | |m|m] ca sa la], b as [[| | | | | |m'|m'] cb sb lb]; try done.
    all: cbn [payload type]; destruct (negb _); [done|]; apply members_ltb_ext; intros x y Hx Hy.
    all: cbn [depth] in H; destruct (Nat.min_spec (list_max (map (fun kv => depth (snd kv)) m))
           (list_max (map (fun kv => depth (snd kv)) m'))) as [[_ E]|[_ E]].
    all: assert (depth (snd x) <= n \/ depth (snd y) <= n)%nat
           by first [left; eapply list_max_elem; [|exact Hx]; lia|right; eapply list_max_elem;
             [|exact Hy]; lia].
    all: split; apply IH; lia.
Qed.
Lemma less_enough n a b : (depth a <= n)%nat -> Value_ltb a b = less n a b.
Proof.
  intros H. unfold Value_ltb. induction H as [|n H IH]; [done|]. rewrite IH. apply less_fuel. lia.
Qed.

(** *** Equality *)
Lemma then_Eq c d : then_cmp c d = Eq <-> c = Eq /\ d = Eq.
Proof. destruct c; cbn; naive_solver. Qed.
Lemma cmp_of_Eq {K} (ltb : K -> K -> bool) a b : StrictTotal ltb -> cmp_of ltb a b = Eq <-> a = b.
Proof.
  intros H. unfold cmp_of. destruct (ltb a b) eqn:E1.
  - split; [done|]. intros ->. by rewrite ltb_irrefl in E1.
  - destruct (ltb b a) eqn:E2.
    + split; [done|]. intros ->. by rewrite ltb_irrefl in E2.
    + split; [|done]. intros _. by apply (ltb_total (ltb:=ltb)).
Qed.
Lemma by_key_Eq {K} (ltb : K -> K -> bool) c k x k' y : StrictTotal ltb ->
  by_key ltb c (k, x) (k', y) = Eq <-> k = k' /\ c x y = Eq.
Proof. intros H. unfold by_key. cbn [fst snd]. by rewrite then_Eq, cmp_of_Eq. Qed.
Lemma by_length_Eq {A} (c : A -> A -> comparison) m m' : by_length c m m' = Eq <-> lex c m m' = Eq.
Proof.
  unfold by_length. rewrite then_Eq, Z.compare_eq_iff, Nat2Z.inj_iff. split; [by intros []|].
  intros H. split; [|done]. revert m' H. induction m as [|x m IH]; intros [|y m']; try done. cbn.
  rewrite then_Eq. intros [_ H]. f_equal. by apply IH.
Qed.

Lemma CZString_eqb_eq a b : CZString_eqb a b = true <-> a = b.
Proof.
  unfold CZString_eqb. destruct (Nat.eqb_spec (length a) (length b)) as [E|E]; cbn.
  - revert b E. induction a as [|x a IH]; intros [|y b] E; try done. cbn.
    destruct (Z.compare_spec (code x) (code y)) as [H|H|H].
    + apply code_inj in H as ->. rewrite IH by (cbn in E; lia). split; congruence.
    + split; [done|]. intros [= -> _]. lia.
    + split; [done|]. intros [= -> _]. lia.
  - split; [done|]. by intros ->.
Qed.
Lemma eqb_vcmp n a b : bounded n a -> bounded n b -> Value_eqb a b = true <-> vcmp n a b = Eq.
Proof.
  revert a b. induction n as [|n IH]; intros a b Ha Hb.
  { pose proof (depth_pos a). destruct Ha. lia. }
  pose proof (bounded_children _ _ Ha) as (Ra & _ & Ca & _ & Ca').
  pose proof (bounded_children _ _ Hb) as (Rb & _ & Cb & _ & Cb').
  clear Ha Hb. destruct a as [p ? ? ?], b as [q ? ? ?]; destruct p, q; try done;
    cbn in Ra, Rb, Ca, Ca', Cb, Cb'.
  - cbn. rewrite Z.eqb_compare. by destruct (z ?= z0).
  - cbn. rewrite Z.eqb_compare. by destruct (z ?= z0).
  - etransitivity; [by apply d_eqb_dcmp|]. cbn. by destruct (dcmp d d0).
  - cbn -[cmp_of]. rewrite then_Eq, cmp_of_Eq by apply _. split; [by intros ->%seqb_eq|].
    intros [-> _]. apply seqb_refl.
  - by destruct b, b0.
  - cbn [vcmp type payload]. cbn -[by_length]. rewrite then_Eq, by_length_Eq.
    trans (lex (by_key N.ltb (vcmp n)) m m0 = Eq); [|naive_solver].
    revert m0 Cb. induction m as [|[k x] m IHm]; intros [|[k' y] m'] Cb; try done. cbn.
    apply Forall_cons in Ca as [Hx Ca], Cb as [Hy Cb].
    by rewrite !andb_true_iff, IHm, (IH x y), N.eqb_eq, then_Eq, by_key_Eq by (done || apply _).
  - cbn [vcmp type payload]. cbn -[by_length]. rewrite then_Eq, !by_length_Eq.
    trans (lex (by_key CZString_ltb (vcmp n)) m m0 = Eq); [|naive_solver].
    revert m0 Cb'. induction m as [|[k x] m IHm]; intros [|[k' y] m'] Cb'; try done. cbn.
    apply Forall_cons in Ca' as [Hx Ca'], Cb' as [Hy Cb'].
    by rewrite !andb_true_iff, IHm, (IH x y), CZString_eqb_eq, then_Eq, by_key_Eq by (done || apply _).
Qed.

(** ** The operators on values of any depth *)
Lemma ltb_vcmp n a b : bounded n a -> bounded n b -> Value_ltb a b = true <-> vcmp n a b = Lt.
Proof. intros Ha Hb. rewrite (less_enough n) by apply Ha. by apply less_vcmp. Qed.

(** [operator<] satisfies the equation of its source. *)
Lemma Value_ltb_eq a b :
  Value_ltb a b =
  let typeDelta := type_index (type a) - type_index (type b) in
  if negb (typeDelta =? 0) then typeDelta <? 0
  else
    match payload a, payload b with
    | intValue x, intValue y => x <? y
    | uintValue x, uintValue y => x <? y
    | realValue x, realValue y => d_ltb x y
    | booleanValue x, booleanValue y => negb x && y
    | stringValue x, stringValue y => CZString_ltb x y
    | arrayValue m, arrayValue m' => members_ltb N.ltb Value_ltb m m'
    | objectValue m, objectValue m' => members_ltb CZString_ltb Value_ltb m m'
    | _, _ => false
    end.
Proof.
  set (n := Nat.max (depth a) (depth b)).
  rewrite (less_enough (S n)) by lia. cbn [less]. destruct (negb _); [done|].
  destruct a as [[| | | | | |m|m] ca sa la], b as [[| | | | | |m'|m'] cb sb lb]; try done.
  all: cbn [payload]; apply members_ltb_ext; intros x y Hx Hy.
  all: cbn [depth] in n; apply (list_max_elem _ _ n) in Hx; [|lia]; apply (list_max_elem _ _ n) in Hy; [|lia].
  all: by rewrite !(less_enough n).
Qed.

(** C19: without NaN the operators of [Value] are a strict weak order: of [a < b],
    [a == b] and [b < a] exactly one holds, [<] is transitive, equal values are equal to and
    less than the same values, and [compare] gives the sign. *)
Theorem values_are_ordered (a b c : Value) :
  orderable a = true -> orderable b = true -> orderable c = true ->
  (Value_ltb a b, Value_eqb a b, Value_ltb b a)
    ∈ [(true, false, false); (false, true, false); (false, false, true)] /\
  (Value_ltb a b = true -> Value_ltb b c = true -> Value_ltb a c = true) /\
  (Value_eqb a b = true -> Value_eqb a c = Value_eqb b c /\
     Value_ltb a c = Value_ltb b c /\ Value_ltb c a = Value_ltb c b) /\
  compare a b = (if Value_ltb a b then -1 else if Value_eqb a b then 0 else 1).
Proof.
  intros Ha Hb Hc. set (n := Nat.max (depth a) (Nat.max (depth b) (depth c))).
  assert (bounded n a) as Ba by (split; [done|lia]).
  assert (bounded n b) as Bb by (split; [done|lia]).
  assert (bounded n c) as Bc by (split; [done|lia]).
  pose proof (ordering_value n) as Ho. unfold compare, Value_gtb.
  assert (forall x y, bounded n x -> bounded n y ->
    Value_ltb x y = match vcmp n x y with Lt => true | _ => false end) as L.
  { intros x y Hx Hy. pose proof (ltb_vcmp n x y Hx Hy). destruct (Value_ltb x y), (vcmp n x y); naive_solver. }
  assert (forall x y, bounded n x -> bounded n y ->
    Value_eqb x y = match vcmp n x y with Eq => true | _ => false end) as E.
  { intros x y Hx Hy. pose proof (eqb_vcmp n x y Hx Hy). destruct (Value_eqb x y), (vcmp n x y); naive_solver. }
  rewrite !L, !E by done. rewrite (cmp_anti _ _ Ho a b), (cmp_anti _ _ Ho a c), (cmp_anti _ _ Ho b c) by done.
  split; [destruct (vcmp n a b); repeat constructor|]. split; [|split].
  - intros H1 H2. rewrite (cmp_lt _ _ Ho a b c); try done.
    + by destruct (vcmp n a b).
    + by destruct (vcmp n b c).
  - intros H. rewrite (cmp_eq _ _ Ho a b c); try done. by destruct (vcmp n a b).
  - by destruct (vcmp n a b).
Qed.
Example values_are_ordered_witness :
  let v := initBasic (arrayValue [(0%N, Value_int 1); (1%N, Value_double (of_int 2))]) in
  let w := initBasic (arrayValue [(0%N, Value_int 1); (1%N, Value_double (of_int 3))]) in
  let u := initBasic (objectValue [(#"k", v)]) in
  Value_ltb v w = true /\ Value_ltb w u = true /\
  (Value_ltb v w = true -> Value_ltb w u = true -> Value_ltb v u = true).
Proof.
  split; [reflexivity|]. split; [reflexivity|].
  eapply (values_are_ordered _ _ (initBasic (objectValue [(#"k", _)]))); reflexivity.
Defined.

(** A NaN is neither less than, nor equal to, nor greater than any double. *)
Example nan_is_unordered :
  let v := Value_double quiet_NaN in
  (Value_ltb v v, Value_eqb v v, compare v (Value_double (of_int 1))) = (false, false, 0).
Proof. reflexivity. Qed.
