(* ===== verification/JsonConvert.v ===== *)
(** * JSON: conversions of values

    The theorems about the conversions of [class Value]: [isConvertibleTo] foretells
    whether a conversion throws, results fit the type they are converted to, and
    where the test on doubles is one value too wide.  A double is compared with a
    bound by what it stands for, [sval], its value times [2^1074]. *)
From Stdlib Require Import Ascii String SpecFloat.
From stdpp Require Import base tactics list numbers option strings.
From S2P Require Import Prelude Globals Double JsonText JsonValue JsonReader JsonLaws JsonTypes.
From S2P Require Import JsonWriter JsonOrder.
Open Scope Z_scope.

(** ** Doubles as numbers *)
Definition valid (d : double) : Prop := valid_binary 53 1024 d = true.
Definition sval (d : double) : Z :=
  match d with
  | S754_finite s m e => (if s then -1 else 1) * (Z.pos m * 2 ^ (e + 1074))
  | _ => 0
  end.

Lemma digits2_size m : digits2_pos m = Pos.size m.
Proof. by induction m as [m IH|m IH|]; cbn; rewrite ?IH. Qed.
Lemma digits2_bounds m :
  2 ^ (Z.pos (digits2_pos m) - 1) <= Z.pos m < 2 ^ Z.pos (digits2_pos m).
Proof.
  rewrite digits2_size. pose proof (Pos.size_le m). pose proof (Pos.size_gt m).
  split.
  - assert (2 ^ Z.pos (Pos.size m) <= 2 * Z.pos m) as H1.
    { change 2 with (Z.pos 2) at 1. rewrite <-Pos2Z.inj_pow. change (2 * Z.pos m) with (Z.pos m~0). lia. }
    rewrite Z.pow_sub_r by lia. change (2 ^ 1) with 2. apply Z.div_le_upper_bound; lia.
  - change 2 with (Z.pos 2). rewrite <-Pos2Z.inj_pow. lia.
Qed.
(** The mantissa of a valid double is below [2^53], and has its top bit set unless the
    exponent is the least. *)
Lemma valid_finite s m e : valid (S754_finite s m e) ->
  -1074 <= e /\ Z.pos m < 2 ^ 53 /\ (e = -1074 \/ 2 ^ 52 <= Z.pos m).
Proof.
  unfold valid, valid_binary, bounded, canonical_mantissa, fexp, emin.
  intros [H%Z.eqb_eq _]%andb_true_iff. unfold fexp, emin in H. pose proof (digits2_bounds m) as [Hl Hu].
  assert (Z.pos (digits2_pos m) <= 53) by lia. split; [lia|]. split.
  - eapply Z.lt_le_trans; [exact Hu|]. apply Z.pow_le_mono_r; lia.
  - destruct (Z.eq_dec e (-1074)) as [->|He]; [by left|right].
    assert (Z.pos (digits2_pos m) = 53) as E by lia. by rewrite E in Hl.
Qed.
Lemma scaled_lt m e m' e' :
  -1074 <= e < e' -> Z.pos m < 2 ^ 53 -> 2 ^ 52 <= Z.pos m' ->
  Z.pos m * 2 ^ (e + 1074) < Z.pos m' * 2 ^ (e' + 1074).
Proof.
  intros He Hm Hm'. assert (0 < 2 ^ (e + 1074)) by (apply Z.pow_pos_nonneg; lia).
  apply (Z.lt_le_trans _ (2 ^ 53 * 2 ^ (e + 1074))); [nia|].
  apply (Z.le_trans _ (2 ^ 52 * 2 ^ (e' + 1074))); [|nia].
  replace (e' + 1074) with (1 + (e' - e - 1) + (e + 1074)) by lia.
  assert (0 <= e + 1074) as Hx by lia. generalize dependent (e + 1074). intros x Hp Hx.
  rewrite !Z.pow_add_r by lia.
  assert (0 < 2 ^ (e' - e - 1)) by (apply Z.pow_pos_nonneg; lia).
  change (2 ^ 53) with (2 ^ 52 * 2). change (2 ^ 1) with 2.
  assert (2 ^ x <= 2 ^ (e' - e - 1) * 2 ^ x) by nia.
  rewrite <-(Z.mul_assoc 2), <-(Z.mul_assoc (2 ^ 52)). apply Z.mul_le_mono_nonneg_l; lia.
Qed.
Lemma magnitude_compare s s' m e m' e' :
  valid (S754_finite s m e) -> valid (S754_finite s' m' e') ->
  (Z.pos m * 2 ^ (e + 1074) ?= Z.pos m' * 2 ^ (e' + 1074)) =
  then_cmp (e ?= e') (Z.pos m ?= Z.pos m').
Proof.
  intros (He & Hm & Hn)%valid_finite (He' & Hm' & Hn')%valid_finite.
  destruct (Z.compare_spec e e') as [->|H|H]; cbn [then_cmp].
  - symmetry. apply Zmult_compare_compat_r, Z.lt_gt, Z.pow_pos_nonneg; lia.
  - apply Z.compare_lt_iff, scaled_lt; [lia|done|]. destruct Hn'; [lia|done].
  - apply Z.compare_gt_iff, scaled_lt; [lia|done|]. destruct Hn; [lia|done].
Qed.
Lemma sval_pos m e : -1074 <= e -> 0 < Z.pos m * 2 ^ (e + 1074).
Proof. intros H. apply Z.mul_pos_pos; [done|]. apply Z.pow_pos_nonneg; lia. Qed.
(** Finite doubles are ordered as the numbers they stand for. *)
Lemma dcmp_sval a b : valid a -> valid b -> isfinite a = true -> isfinite b = true ->
  dcmp a b = (sval a ?= sval b).
Proof.
  intros Ha Hb Fa Fb. rewrite dcmp_rank by (by destruct a, b).
  destruct a as [sa| | |sa m e], b as [sb| | |sb m' e']; try done.
  - destruct (valid_finite _ _ _ Hb) as [He _]. pose proof (sval_pos m' e' He).
    unfold sval. destruct sb; cbn -[Z.pow Z.mul Z.add Z.compare]; symmetry;
      [apply Z.compare_gt_iff|apply Z.compare_lt_iff]; lia.
  - destruct (valid_finite _ _ _ Ha) as [He _]. pose proof (sval_pos m e He).
    unfold sval. destruct sa; cbn -[Z.pow Z.mul Z.add Z.compare]; symmetry;
      [apply Z.compare_lt_iff|apply Z.compare_gt_iff]; lia.
  - pose proof (magnitude_compare _ _ _ _ _ _ Ha Hb) as E.
    destruct (valid_finite _ _ _ Ha) as [He _]. pose proof (sval_pos m e He) as Pa.
    destruct (valid_finite _ _ _ Hb) as [He' _]. pose proof (sval_pos m' e' He') as Pb.
    unfold sval. destruct sa, sb; cbn -[Z.pow Z.mul Z.add Z.compare].
    + change (Z.neg m) with (- Z.pos m). change (Z.neg m') with (- Z.pos m').
      rewrite Z.compare_refl, !(Z.mul_comm (-1)), <-!Z.opp_eq_mul_m1, !Z.compare_opp.
      by rewrite (magnitude_compare _ _ _ _ _ _ Hb Ha).
    + symmetry. apply Z.compare_lt_iff. lia.
    + symmetry. apply Z.compare_gt_iff. lia.
    + by rewrite !Z.mul_1_l, E.
Qed.

(** A double between two finite ones is finite. *)
Lemma d_leb_sval a b : valid a -> valid b -> isfinite a = true -> isfinite b = true ->
  d_leb a b = true <-> sval a <= sval b.
Proof.
  intros Ha Hb Fa Fb. pose proof (dcmp_sval a b Ha Hb Fa Fb) as E. unfold Z.le. rewrite <-E.
  unfold d_leb, SFleb, dcmp. assert (exists c, SFcompare a b = Some c) as [c ->].
  { destruct a, b; try done; by eexists. }
  by destruct c.
Qed.
Lemma d_ltb_sval a b : valid a -> valid b -> isfinite a = true -> isfinite b = true ->
  d_ltb a b = true <-> sval a < sval b.
Proof.
  intros Ha Hb Fa Fb. rewrite d_ltb_dcmp, dcmp_sval by done. by rewrite Z.compare_lt_iff.
Qed.
Lemma between_finite lo d hi : isfinite lo = true -> isfinite hi = true ->
  d_leb lo d = true -> d_leb d hi = true -> isfinite d = true.
Proof. destruct lo as [| | |[]], d as [|[]| |], hi as [| | |[]]; done. Qed.
Lemma to_int_sval d : valid d -> to_int d = Z.quot (sval d) (2 ^ 1074).
Proof.
  destruct d as [s|s| |s m e]; try done. intros (He & _ & _)%valid_finite.
  assert ((if 0 <=? e then Z.pos m * 2 ^ e else Z.pos m / 2 ^ (- e)) =
          Z.quot (Z.pos m * 2 ^ (e + 1074)) (2 ^ 1074)) as E.
  { pose proof (sval_pos m e He). rewrite Z.quot_div_nonneg by (done || lia).
    destruct (Z.leb_spec 0 e).
    - by rewrite Z.pow_add_r, Z.mul_assoc, Z.div_mul by lia.
    - replace (2 ^ 1074) with (2 ^ (- e) * 2 ^ (e + 1074)) by (rewrite <-Z.pow_add_r by lia; f_equal; lia).
      rewrite Z.div_mul_cancel_r; [done|..]; apply Z.pow_nonzero; lia. }
  unfold to_int, sval. cbv zeta. rewrite E. destruct s; [|by rewrite Z.mul_1_l].
  by rewrite (Z.mul_comm (-1)), <-Z.opp_eq_mul_m1, Z.quot_opp_l by done.
Qed.

(** Conversion to an integer keeps bounds that are integers. *)
Definition stands_for (d : double) (z : Z) : Prop :=
  valid d /\ isfinite d = true /\ sval d = z * 2 ^ 1074.
Lemma to_int_between lo d hi dlo dhi :
  valid d -> stands_for dlo lo -> stands_for dhi hi -> d_leb dlo d = true -> d_leb d dhi = true ->
  lo <= to_int d <= hi /\ (0 < hi -> d_ltb d dhi = true -> to_int d < hi).
Proof.
  intros Hd (Hl & Fl & El) (Hh & Fh & Eh) L H. pose proof (between_finite _ _ _ Fl Fh L H) as Fd.
  rewrite d_leb_sval in L, H by done. rewrite d_ltb_sval by done. rewrite El in L. rewrite Eh in H |- *.
  rewrite to_int_sval by done. assert (0 < 2 ^ 1074) as P by done. generalize dependent (2 ^ 1074).
  intros p _ L H P. split.
  - split.
    + rewrite <-(Z.quot_mul lo p) by lia. by apply Z.quot_le_mono.
    + rewrite <-(Z.quot_mul hi p) by lia. by apply Z.quot_le_mono.
  - intros Hp Hlt. destruct (Z.le_gt_cases 0 (sval d)).
    + apply Z.quot_lt_upper_bound; lia.
    + assert (Z.quot (sval d) p <= Z.quot 0 p) as Hq by (apply Z.quot_le_mono; lia).
      rewrite Z.quot_0_l in Hq; lia.
Qed.

(** ** The conversions *)
Definition real_valid (v : Value) : Prop :=
  match payload v with realValue d => valid d | _ => True end.

(** The bounds that the code compares doubles with. *)
Ltac stands := repeat split; vm_compute; reflexivity.
Lemma stands_minInt : stands_for (of_int minInt) minInt. Proof. stands. Qed.
Lemma stands_maxInt : stands_for (of_int maxInt) maxInt. Proof. stands. Qed.
Lemma stands_0 : stands_for (of_int 0) 0. Proof. stands. Qed.
Lemma stands_maxUInt : stands_for (of_int maxUInt) maxUInt. Proof. stands. Qed.
Lemma stands_minInt64 : stands_for (of_int minInt64) minInt64. Proof. stands. Qed.
(** The next two are rounded up. *)
Lemma stands_maxInt64 : stands_for (of_int maxInt64) (maxInt64 + 1). Proof. stands. Qed.
Lemma stands_maxUInt64 : stands_for maxUInt64AsDouble (maxUInt64 + 1). Proof. stands. Qed.

Lemma in_int d : valid d -> InRange d minInt maxInt = true -> minInt <= to_int d <= maxInt.
Proof.
  intros Hd [L H]%andb_true_iff.
  by destruct (to_int_between _ d _ _ _ Hd stands_minInt stands_maxInt L H).
Qed.
Lemma in_uint d : valid d -> InRange d 0 maxUInt = true -> 0 <= to_int d <= maxUInt.
Proof.
  intros Hd [L H]%andb_true_iff.
  by destruct (to_int_between _ d _ _ _ Hd stands_0 stands_maxUInt L H).
Qed.
(** The casts behind the checks are defined. *)
Lemma cast_int d msg : valid d ->
  json_assert (InRange d minInt maxInt) msg (cast_double d minInt maxInt) =
  json_assert (InRange d minInt maxInt) msg (Ret (to_int d)).
Proof.
  intros Hd. destruct (InRange d minInt maxInt) eqn:E; [|done]. apply in_int in E; [|done].
  unfold json_assert, cast_double. by rewrite !(proj2 (Z.leb_le _ _)) by lia.
Qed.
Lemma cast_uint d msg : valid d ->
  json_assert (InRange d 0 maxUInt) msg (cast_double d 0 maxUInt) =
  json_assert (InRange d 0 maxUInt) msg (Ret (to_int d)).
Proof.
  intros Hd. destruct (InRange d 0 maxUInt) eqn:E; [|done]. apply in_uint in E; [|done].
  unfold json_assert, cast_double. by rewrite !(proj2 (Z.leb_le _ _)) by lia.
Qed.

Definition returns_value {A} (o : outcome A) : Prop := exists a, o = Ret a.
Lemma returns_value_assert {A} c msg (a : A) : returns_value (json_assert c msg (Ret a)) <-> c = true.
Proof. unfold returns_value, json_assert. destruct c; split; naive_solver. Qed.
Lemma returns_Ret {A} (a : A) : returns_value (Ret a) <-> true = true.
Proof. by split; [|eexists]. Qed.
Lemma returns_error {A} msg : returns_value (throwLogicError (A:=A) msg) <-> false = true.
Proof. by split; [intros []|]. Qed.
(** The conversion to a type, as far as it may throw. *)
Definition converts (v : Value) (t : ValueType) : Prop :=
  match t with
  | TNull => True
  | TInt => returns_value (asInt v)
  | TUInt => returns_value (asUInt v)
  | TReal => returns_value (asDouble v)
  | TString => returns_value (asString v)
  | TBoolean => returns_value (asBool v)
  | TArray => returns_value (append v nullSingleton)
  | TObject => returns_value (getMemberNames v)
  end.

Lemma append_returns v w : returns_value (append v w) <-> isNull v || isArray v = true.
Proof.
  unfold append, index_ref, json_assert. destruct (isNull v || isArray v) eqn:E.
  - split; [done|]. intros _. cbv zeta. destruct (payload (null_to TArray v)); cbn; by eexists.
  - by split; [intros []|].
Qed.
Lemma convertible_converts v t : real_valid v -> t <> TNull -> isConvertibleTo v t = true <-> converts v t.
Proof.
  intros Hv Ht. destruct t; [done|..].
  6: { unfold isConvertibleTo, converts. by rewrite append_returns, orb_comm. }
  6: { unfold isConvertibleTo, converts, getMemberNames. by rewrite returns_value_assert, orb_comm. }
  all: destruct v as [p c a b]; unfold real_valid in Hv; destruct p;
    cbn -[isInt isUInt InRange valueToString_double cast_double] in Hv |- *;
    rewrite ?cast_int, ?cast_uint by done; rewrite ?returns_value_assert, ?returns_Ret, ?returns_error, ?orb_false_r; try done.
  all: unfold isInt, isUInt; cbn -[InRange IsIntegral]; rewrite ?orb_false_r.
  all: by destruct (InRange _ _ _), (IsIntegral _).
Qed.

(** ** Conversions to machine integers *)

(** The number a value stands for, times [2^1074]. *)
Definition scale : Z := 2 ^ 1074.
Definition number (v : Value) : option Z :=
  match payload v with
  | nullValue => Some 0
  | intValue x | uintValue x => Some (x * scale)
  | realValue d => if isfinite d then Some (sval d) else None
  | booleanValue b => Some (Z.b2z b * scale)
  | _ => None
  end.
(** A conversion to integers from [lo] to [hi] returns exactly for the numbers in [P], which
    it cuts off to a result of the type, and otherwise throws; [excess] is the real number for
    which it is undefined. *)
Definition converted (o : outcome Z) (v : Value) (lo hi : Z) (P : Z -> Prop) (excess : option Z) : Prop :=
  (forall z, o = Ret z <-> exists n, number v = Some n /\ P n /\ z = Z.quot n scale) /\
  (forall z, o = Ret z -> lo <= z <= hi) /\
  (forall e, o = Throw e -> (exists msg, e = JsonLogicError msg) \/
     (e = UndefinedBehaviour /\ number v = excess /\ type v = TReal)) /\
  (type v = TReal -> is_Some excess -> number v = excess -> o = Throw UndefinedBehaviour) /\
  o <> OutOfFuel.

Lemma scale_pos : 0 < scale. Proof. done. Qed.
Opaque scale.
Lemma quot_scale z : Z.quot (z * scale) scale = z.
Proof. apply Z.quot_mul. pose proof scale_pos. lia. Qed.
Lemma scale_le a b : a * scale <= b * scale <-> a <= b.
Proof. pose proof scale_pos. nia. Qed.
Lemma scale_lt a b : a * scale < b * scale <-> a < b.
Proof. pose proof scale_pos. nia. Qed.
(** Cutting off stays within bounds that are integers. *)
Lemma quot_between lo hi n : lo * scale <= n -> n <= hi * scale -> lo <= Z.quot n scale <= hi.
Proof.
  pose proof scale_pos. intros L H1.
  split; [rewrite <-(quot_scale lo)|rewrite <-(quot_scale hi)]; by apply Z.quot_le_mono.
Qed.
Lemma quot_below hi n : 0 <= hi -> n < (hi + 1) * scale -> Z.quot n scale <= hi.
Proof.
  pose proof scale_pos. intros Hh Hn. destruct (Z.le_gt_cases 0 n).
  - assert (Z.quot n scale < hi + 1); [|lia]. apply Z.quot_lt_upper_bound; lia.
  - assert (Z.quot n scale <= Z.quot 0 scale) as Hq by (apply Z.quot_le_mono; lia).
    rewrite Z.quot_0_l in Hq; lia.
Qed.

(** How a conversion of a number may end. *)
Lemma converted_cases o v lo hi P excess n msg : number v = Some n ->
  (P n /\ o = Ret (Z.quot n scale) /\ lo <= Z.quot n scale <= hi /\ ~ (type v = TReal /\ excess = Some n) \/
   ~ P n /\ o = throwLogicError msg /\ ~ (type v = TReal /\ excess = Some n) \/
   ~ P n /\ o = Throw UndefinedBehaviour /\ type v = TReal /\ excess = Some n) ->
  converted o v lo hi P excess.
Proof.
  intros Hn Ho. unfold converted. rewrite Hn. split; [|split; [|split; [|split]]].
  - intros z. destruct Ho as [(HP & -> & _)|[(HP & -> & _)|(HP & -> & _)]].
    + split; [intros [= <-]; by exists n|]. by intros (n' & [= <-] & _ & ->).
    + split; [done|]. by intros (n' & [= <-] & ? & _).
    + split; [done|]. by intros (n' & [= <-] & ? & _).
  - by destruct Ho as [(HP & -> & H & _)|[(HP & -> & _)|(HP & -> & _)]]; intros z [= <-].
  - destruct Ho as [(HP & -> & H & _)|[(HP & -> & _)|(HP & -> & Hr & He)]]; intros e [= <-].
    + left. by eexists.
    + right. by rewrite He.
  - intros Hr _ He. destruct Ho as [(_ & _ & _ & H)|[(_ & _ & H)|(_ & -> & _)]]; [|by destruct H..|done].
    by destruct H.
  - by destruct Ho as [(HP & -> & H & _)|[(HP & -> & _)|(HP & -> & _)]].
Qed.
(** A number that is no real. *)
Lemma converted_integer o v lo hi (P : Z -> Prop) excess x msg :
  number v = Some (x * scale) -> type v <> TReal -> (P (x * scale) -> lo <= x <= hi) ->
  (P (x * scale) /\ o = Ret x \/ ~ P (x * scale) /\ o = throwLogicError msg) ->
  converted o v lo hi P excess.
Proof.
  intros Hn Hr Hb Ho. apply (converted_cases _ _ _ _ _ _ _ msg Hn). rewrite quot_scale. naive_solver.
Qed.
(** Nothing that has no number is converted. *)
Lemma converted_none o v lo hi P excess msg :
  number v = None -> o = throwLogicError msg -> converted o v lo hi P excess.
Proof.
  intros Hn ->. unfold converted. rewrite Hn. split; [|split; [|split; [|split]]]; try done.
  - intros z. split; [done|]. by intros (n & ? & _).
  - intros e [= <-]. left. by eexists.
  - by intros _ [? ->].
Qed.
(** A real, whose test compares it with doubles that stand for [lo] and [top]. *)
Lemma converted_real o v d lo hi dlo dhi top (P : Z -> Prop) excess msg :
  payload v = realValue d -> valid d -> stands_for dlo lo -> stands_for dhi top ->
  o = json_assert (d_leb dlo d && d_leb d dhi) msg (cast_double d lo hi) ->
  lo <= hi -> 0 <= hi ->
  (top = hi /\ excess = None /\ (forall n, P n <-> lo * scale <= n <= hi * scale) \/
   top = hi + 1 /\ excess = Some (top * scale) /\
   (forall n, P n <-> lo * scale <= n < (hi + 1) * scale)) ->
  converted o v lo hi P excess.
Proof.
  intros Hp Hv (Hl & Fl & El) (Hh & Fh & Eh) -> Hlh Hhi HP.
  change (2 ^ 1074) with scale in *.
  assert (type v = TReal) as Hty by (unfold type; unfold payload in Hp; by destruct v as [[]]; simplify_eq/=).
  assert (number v = if isfinite d then Some (sval d) else None) as Hn by (unfold number; by rewrite Hp).
  destruct (isfinite d) eqn:Hf.
  2: { eapply (converted_none _ _ _ _ _ _ msg Hn). unfold json_assert.
       destruct (d_leb dlo d && d_leb d dhi) eqn:E; [|done]. apply andb_true_iff in E as [L H].
       by rewrite (between_finite _ _ _ Fl Fh L H) in Hf. }
  pose proof (d_leb_sval dlo d Hl Hv Fl Hf) as L. pose proof (d_leb_sval d dhi Hv Hh Hf Fh) as H.
  rewrite El in L. rewrite Eh in H. pose proof (to_int_sval d Hv) as Hto.
  change (2 ^ 1074) with scale in Hto. apply (converted_cases _ _ _ _ _ _ _ msg Hn). rewrite Hty.
  unfold json_assert, cast_double. rewrite Hto. generalize dependent (sval d). intros n _ L H _.
  assert (forall b, b = true \/ b = false) as Hbool by (intros []; auto).
  destruct (Z.le_gt_cases (lo * scale) n) as [Hlo|Hlo].
  2: { right. left. destruct (d_leb dlo d); [lia|]. cbn [andb]. split_and!; [|done|].
       - destruct HP as [(_ & _ & HP)|(_ & _ & HP)]; rewrite HP; lia.
       - intros [_ He]. destruct HP as [(_ & -> & _)|(-> & -> & _)]; [done|]. injection He as He.
         pose proof (scale_lt n lo). pose proof scale_pos. nia. }
  rewrite (proj2 L Hlo). cbn [andb]. destruct (Z.le_gt_cases n (top * scale)) as [Hup|Hup].
  2: { right. left. destruct (d_leb d dhi); [lia|]. split_and!; [|done|].
       - destruct HP as [(-> & _ & HP)|(-> & _ & HP)]; rewrite HP; lia.
       - intros [_ He]. destruct HP as [(_ & -> & _)|(_ & -> & _)]; [done|]. injection He as He. lia. }
  rewrite (proj2 H Hup). destruct HP as [(-> & -> & HP)|(-> & -> & HP)].
  - left. pose proof (quot_between lo hi n Hlo Hup) as B. rewrite HP.
    rewrite (proj2 (Z.leb_le _ _)), (proj2 (Z.leb_le _ _)) by lia. split_and!; try done; try lia.
    by intros [_ ?].
  - destruct (Z.eq_dec n ((hi + 1) * scale)) as [->|Hne].
    + right. right. rewrite quot_scale, (proj2 (Z.leb_gt (hi + 1) hi)) by lia.
      rewrite andb_false_r, HP. split_and!; try done. lia.
    + left. assert (lo <= Z.quot n scale <= hi) as B.
      { split; [|apply quot_below; lia]. rewrite <-(quot_scale lo).
        apply Z.quot_le_mono; [apply scale_pos|done]. }
      rewrite HP, (proj2 (Z.leb_le _ _)), (proj2 (Z.leb_le _ _)) by lia.
      split_and!; try done; try lia. intros [_ [= He]]. lia.
Qed.

(** What [isInt64] and [isUInt64] say of a double. *)
Lemma isInt64_real d : integral_below d (of_int minInt64) (of_int maxInt64) = true ->
  InRange d minInt64 maxInt64 = true /\ d_ltb d (of_int maxInt64) = true.
Proof.
  intros [[H1 H2]%andb_true_iff _]%andb_true_iff. split; [|done]. unfold InRange. rewrite H1.
  unfold d_leb, d_ltb, SFleb, SFltb in *. by destruct (SFcompare d _) as [[]|].
Qed.
Lemma maxUInt64_double : integerToDouble maxUInt64 = maxUInt64AsDouble.
Proof. vm_compute. reflexivity. Qed.

(** The numbers between two integers, the second one included or not. *)
Definition upto (lo hi : Z) (n : Z) : Prop := lo * scale <= n <= hi * scale.
Definition below_next (lo hi : Z) (n : Z) : Prop := lo * scale <= n < (hi + 1) * scale.
Lemma upto_integer lo hi x : upto lo hi (x * scale) <-> lo <= x <= hi.
Proof. unfold upto. by rewrite !scale_le. Qed.
Lemma below_next_integer lo hi x : below_next lo hi (x * scale) <-> lo <= x <= hi.
Proof. unfold below_next. rewrite scale_le, scale_lt. lia. Qed.
(** An integer with its range check, and one that needs none. *)
Lemma checked_integer o v lo hi P excess x c msg :
  number v = Some (x * scale) -> type v <> TReal -> (P (x * scale) <-> lo <= x <= hi) ->
  (c = true <-> lo <= x <= hi) -> (c = true -> o = Ret x) -> (c = false -> o = throwLogicError msg) ->
  converted o v lo hi P excess.
Proof.
  intros Hn Hr HP Hc H1 H2. eapply (converted_integer _ _ _ _ _ _ x msg Hn Hr); [by rewrite HP|].
  rewrite HP. destruct c; [left|right]; (split; [|by auto]); [by apply Hc|]. by intros ?%Hc.
Qed.

Ltac no_number msg := by eapply (converted_none _ _ _ _ _ _ msg).
Ltac integer x c msg :=
  apply (checked_integer _ _ _ _ _ _ x c msg);
  [done|done|first [apply upto_integer|apply below_next_integer]|..].

Lemma asInt_spec v : typed v -> real_valid v ->
  converted (asInt v) v minInt maxInt (upto minInt maxInt) None.
Proof.
  intros Ht Hv. unfold real_valid in Hv.
  destruct v as [[|x|x|d| |b| |] c l s]; cbn in Ht, Hv.
  5,7,8: no_number #"Value is not convertible to Int.".
  - by integer 0 true (@nil ascii).
  - integer x ((minInt <=? x) && (x <=? maxInt)) #"LargestInt out of Int range"; [lia|..];
      intros E; unfold asInt, json_assert, isInt; cbn -[wrap_s]; rewrite E; [|done].
    rewrite wrap_s_32; [done|lia].
  - integer x (x <=? maxInt) #"LargestUInt out of Int range"; [unfold minInt, maxInt in *; lia|..];
      intros E; unfold asInt, json_assert, isInt; cbn -[wrap_s]; rewrite E; [|done].
    rewrite wrap_s_32; [done|unfold minInt, maxInt in *; lia].
  - eapply (converted_real _ _ d _ _ _ _ maxInt); [done|done|exact stands_minInt|exact stands_maxInt
      |reflexivity|done|done|]. by left.
  - integer (Z.b2z b) true (@nil ascii); [by destruct b|by destruct b|done].
Qed.
Lemma asUInt_spec v : typed v -> real_valid v ->
  converted (asUInt v) v 0 maxUInt (upto 0 maxUInt) None.
Proof.
  intros Ht Hv. unfold real_valid in Hv.
  destruct v as [[|x|x|d| |b| |] c l s]; cbn in Ht, Hv.
  5,7,8: no_number #"Value is not convertible to UInt.".
  - by integer 0 true (@nil ascii).
  - assert ((0 <=? x) && (wrap_u 64 x <=? maxUInt) = (0 <=? x) && (x <=? maxUInt)) as Hw.
    { destruct (Z.leb_spec 0 x); [|done]. cbn [andb]. unfold wrap_u, maxInt64 in *.
      by rewrite Z.mod_small by lia. }
    integer x ((0 <=? x) && (x <=? maxUInt)) #"LargestInt out of UInt range"; [lia|..];
      intros E; unfold asUInt, json_assert, isUInt; cbn -[wrap_u]; rewrite Hw, E; [|done].
    unfold wrap_u, maxUInt in *. rewrite Z.mod_small; [done|lia].
  - integer x (x <=? maxUInt) #"LargestUInt out of UInt range"; [lia|..];
      intros E; unfold asUInt, json_assert, isUInt; cbn -[wrap_u]; rewrite E; [|done].
    unfold wrap_u, maxUInt in *. rewrite Z.mod_small; [done|lia].
  - eapply (converted_real _ _ d _ _ _ _ maxUInt); [done|done|exact stands_0|exact stands_maxUInt
      |reflexivity|done|done|]. by left.
  - integer (Z.b2z b) true (@nil ascii); [by destruct b|by destruct b|done].
Qed.
Lemma asInt64_spec v : typed v -> real_valid v ->
  converted (asInt64 v) v minInt64 maxInt64 (below_next minInt64 maxInt64)
    (Some ((maxInt64 + 1) * scale)).
Proof.
  intros Ht Hv. unfold real_valid in Hv.
  destruct v as [[|x|x|d| |b| |] c l s]; cbn in Ht, Hv.
  5,7,8: no_number #"Value is not convertible to Int64.".
  - by integer 0 true (@nil ascii).
  - by integer x true (@nil ascii).
  - integer x (x <=? maxInt64) #"LargestUInt out of Int64 range"; [unfold minInt64, maxInt64 in *; lia|..];
      intros E; unfold asInt64, json_assert, isInt64; cbn; by rewrite E.
  - eapply (converted_real _ _ d _ _ _ _ (maxInt64 + 1)); [done|done|exact stands_minInt64
      |exact stands_maxInt64|reflexivity|done|done|]. by right.
  - integer (Z.b2z b) true (@nil ascii); [by destruct b|by destruct b|done].
Qed.
Lemma asUInt64_spec v : typed v -> real_valid v ->
  converted (asUInt64 v) v 0 maxUInt64 (below_next 0 maxUInt64) (Some ((maxUInt64 + 1) * scale)).
Proof.
  intros Ht Hv. unfold real_valid in Hv.
  destruct v as [[|x|x|d| |b| |] c l s]; cbn in Ht, Hv.
  5,7,8: no_number #"Value is not convertible to UInt64.".
  - by integer 0 true (@nil ascii).
  - integer x (0 <=? x) #"LargestInt out of UInt64 range"; [unfold maxInt64, maxUInt64 in *; lia|..];
      intros E; unfold asUInt64, json_assert, isUInt64; cbn; by rewrite E.
  - by integer x true (@nil ascii).
  - eapply (converted_real _ _ d _ _ _ _ (maxUInt64 + 1)); [done|done|exact stands_0
      |exact stands_maxUInt64|unfold asUInt64; cbn -[integerToDouble]; rewrite maxUInt64_double; reflexivity
      |done|done|]. by right.
  - integer (Z.b2z b) true (@nil ascii); [by destruct b|by destruct b|done].
Qed.

(** What [isInt64] and [isUInt64] accept is in the range. *)
Lemma below_real d lo hi dlo dhi : valid d -> stands_for dlo lo -> stands_for dhi (hi + 1) ->
  integral_below d dlo dhi = true -> isfinite d = true /\ below_next lo hi (sval d).
Proof.
  intros Hd (Hl & Fl & El) (Hh & Fh & Eh) [[L H]%andb_true_iff _]%andb_true_iff.
  assert (d_leb d dhi = true) as H' by
    (unfold d_leb, d_ltb, SFleb, SFltb in *; by destruct (SFcompare d _) as [[]|]).
  pose proof (between_finite _ _ _ Fl Fh L H') as Fd. split; [done|].
  rewrite d_leb_sval in L by done. rewrite d_ltb_sval in H by done. rewrite El in L. rewrite Eh in H.
  by split.
Qed.
Lemma converted_returns o v lo hi P excess n :
  converted o v lo hi P excess -> number v = Some n -> P n -> returns_value o.
Proof. intros [H _] Hn HP. exists (Z.quot n scale). apply H. by exists n. Qed.
Lemma isInt64_returns v : typed v -> real_valid v -> isInt64 v = true -> returns_value (asInt64 v).
Proof.
  intros Ht Hv Hi. pose proof (asInt64_spec v Ht Hv) as H.
  destruct v as [[|x|x|d| |b| |] c l s]; try done; cbn in Ht; unfold isInt64 in Hi; cbn in Hi.
  - by eexists.
  - apply (converted_returns _ _ _ _ _ _ _ H eq_refl), below_next_integer. unfold minInt64. lia.
  - apply (below_real _ _ _ _ _ Hv stands_minInt64 stands_maxInt64) in Hi as [Hf Hb].
    apply (converted_returns _ _ _ _ _ _ (sval d) H); [|done]. cbn. by rewrite Hf.
Qed.
Lemma isUInt64_returns v : typed v -> real_valid v -> isUInt64 v = true -> returns_value (asUInt64 v).
Proof.
  intros Ht Hv Hi. pose proof (asUInt64_spec v Ht Hv) as H.
  destruct v as [[|x|x|d| |b| |] c l s]; try done; cbn in Ht; unfold isUInt64 in Hi; cbn in Hi.
  - apply (converted_returns _ _ _ _ _ _ _ H eq_refl), below_next_integer.
    unfold maxInt64, maxUInt64 in *. lia.
  - by eexists.
  - apply (below_real _ _ _ _ _ Hv stands_0 stands_maxUInt64) in Hi as [Hf Hb].
    apply (converted_returns _ _ _ _ _ _ (sval d) H); [|done]. cbn. by rewrite Hf.
Qed.

(** C32: [isConvertibleTo] foretells whether a conversion throws.  A checked conversion to a
    machine integer returns exactly when the number the value stands for is in the range, and then
    that number without its fraction: for 32 bits when the number, with its fraction, is between
    the least and the greatest integer of the type (so 2147483647.5 and -0.5 throw), for 64
    bits also when it is less than one above the greatest.  Otherwise it throws [LogicError], except
    that the double that is one above the greatest 64-bit integer passes the test and its cast is
    undefined; [isInt64] and [isUInt64] exclude it. *)
Theorem conversions_checked (v : Value) (t : ValueType) :
  typed v -> real_valid v -> t <> TNull ->
  (isConvertibleTo v t = true <-> converts v t) /\
  converted (asInt v) v minInt maxInt (upto minInt maxInt) None /\
  converted (asUInt v) v 0 maxUInt (upto 0 maxUInt) None /\
  converted (asInt64 v) v minInt64 maxInt64 (below_next minInt64 maxInt64)
    (Some ((maxInt64 + 1) * scale)) /\
  converted (asUInt64 v) v 0 maxUInt64 (below_next 0 maxUInt64) (Some ((maxUInt64 + 1) * scale)) /\
  (isInt64 v = true -> returns_value (asInt64 v)) /\
  (isUInt64 v = true -> returns_value (asUInt64 v)).
Proof.
  intros Ht Hv Hn. split; [by apply convertible_converts|]. split; [by apply asInt_spec|].
  split; [by apply asUInt_spec|]. split; [by apply asInt64_spec|]. split; [by apply asUInt64_spec|].
  split; [by apply isInt64_returns|by apply isUInt64_returns].
Qed.
Example conversions_checked_witness :
  let v := Value_double (of_int (2 ^ 63)) in
  asInt64 v = Throw UndefinedBehaviour /\ isInt64 v = false /\
  (isConvertibleTo v TReal = true <-> converts v TReal).
Proof.
  split; [vm_compute; reflexivity|]. split; [vm_compute; reflexivity|].
  apply (conversions_checked (Value_double (of_int (2 ^ 63))) TReal); [done|vm_compute; reflexivity|done].
Defined.
(** Numbers whose integer part would fit are refused by the 32-bit conversions. *)
Example fractions_are_refused :
  asInt (Value_double (of_decimal false 21474836475 (-1))) = throwLogicError #"double out of Int range" /\
  asUInt (Value_double (of_decimal true 5 (-1))) = throwLogicError #"double out of UInt range" /\
  asInt (Value_double (of_decimal true 15 (-1))) = Ret (-1).
Proof. by vm_compute. Qed.
