(* ===== verification/JsonMemory.v ===== *)
(** * JSON: the memory of values

    Models who owns the strings, keys and maps of [class Value] in [json/jsoncpp.cpp]: the
    [policy_] of a [CZString], the flag [allocated_], the copy, move and assignment functions
    of both classes and their destructors, over a heap of the blocks that [malloc] and [new]
    returned.  [JsonValue] has the same values without memory; [JsonMemoryLaws] shows that
    these refine those, that nothing is freed twice or read after it was freed, and that
    nothing leaks.

    A block holds its bytes with the pointer that owns it.  Allocation succeeds; the nodes of
    a [std::map] and the comments ([unique_ptr], [std::string]) take care of themselves. *)
From Stdlib Require Import Ascii String SpecFloat.
From stdpp Require Import base tactics list gmap fin_sets numbers option strings.
From S2P Require Import Prelude Globals Double JsonText JsonValue.
Open Scope Z_scope.

(** ** The heap *)
Definition loc : Type := positive.
Definition heap : Type := gset loc.
(** A computation on the heap; undefined behaviour is an exception of its own. *)
Definition M (A : Type) : Type := heap -> outcome (A * heap).
Definition undefined : exn := LibraryException #"undefined behaviour".
Definition ret {A} (a : A) : M A := fun h => Ret (a, h).
Definition bind {A B} (m : M A) (k : A -> M B) : M B := fun h => let! (a, h) := m h in k a h.
Definition fail {A} (e : exn) : M A := fun _ => Throw e.
Declare Scope memory_scope.
Notation "'do!' x := m 'in' k" := (bind m (fun x => k))
  (at level 10, x pattern, m at level 100, k at level 200) : memory_scope.
Open Scope memory_scope.

(** [malloc] and [new]: the address of a new block. *)
Definition malloc : M loc := fun h => let l := fresh h in Ret (l, {[l]} ∪ h).
(** [free] and [delete]. *)
Definition free (l : loc) : M unit := fun h => if decide (l ∈ h) then Ret (tt, h ∖ {[l]}) else Throw undefined.
(** Reading a block. *)
Definition live (l : loc) : M unit := fun h => if decide (l ∈ h) then Ret (tt, h) else Throw undefined.

Module Mem.

(** A [char*]: null, memory of someone else that outlives the value (a literal, or the argument
    of a call while the call lasts), or a block of the heap with its bytes. *)
Inductive cptr := Null | Static (s : str) | Block (l : loc) (bytes : str).
Definition bytes_at (p : cptr) : str :=
  match p with Null => [] | Static s => s | Block _ s => s end.
Definition read_ptr (p : cptr) : M str :=
  match p with
  | Null => fail undefined
  | Static s => ret s
  | Block l s => do! _ := live l in ret s
  end.
Definition free_ptr (p : cptr) : M unit :=
  match p with
  | Null => ret tt
  | Static _ => fail undefined
  | Block l _ => free l
  end.

(** ** String buffers *)

(** [duplicateStringValue]. *)
Definition duplicateStringValue (value : str) (length : N) : M cptr :=
  let length := if (Z.to_N maxInt <=? length)%N then (Z.to_N maxInt - 1)%N else length in
  do! l := malloc in
  ret (Block l (take (N.to_nat length) value ++ [NUL])).

(** An [unsigned] in memory, least significant byte first. *)
Definition le32 (n : N) : str :=
  [chr (Z.of_N n); chr (Z.of_N (n / 256)); chr (Z.of_N (n / 65536)); chr (Z.of_N (n / 16777216))].
Definition un_le32 (s : str) : N :=
  match s with
  | a :: b :: c :: d :: _ =>
      Z.to_N (code a + 256 * code b + 65536 * code c + 16777216 * code d)
  | _ => 0%N
  end.

(** [duplicateAndPrefixStringValue]; [length] is an [unsigned]. *)
Definition duplicateAndPrefixStringValue (value : str) (length : N) : M cptr :=
  if negb (Z.of_N length <=? maxInt - 4 - 1) then
    fail (JsonLogicError
      #"in Json::Value::duplicateAndPrefixStringValue(): length too big for prefixing")
  else
    do! l := malloc in
    ret (Block l (le32 length ++ take (N.to_nat length) value ++ [NUL])).

(** [decodePrefixedString]: the string and its length. *)
Definition decodePrefixedString (isPrefixed : bool) (prefixed : cptr) : M str :=
  do! bytes := read_ptr prefixed in
  ret (if isPrefixed then take (N.to_nat (un_le32 bytes)) (drop 4 bytes) else c_str bytes).

(** [releasePrefixedStringValue] and [releaseStringValue], without secure memory. *)
Definition releasePrefixedStringValue (value : cptr) : M unit := free_ptr value.
Definition releaseStringValue (value : cptr) : M unit := free_ptr value.

(** ** [class CZString] *)

(** [storage_] is the union of [index_] and of [policy_] (2 bits) and [length_] (30 bits). *)
Record CZString := mkCZ { cstr_ : cptr; storage_ : N }.
Definition noDuplication : N := 0.
Definition duplicate : N := 1.
Definition duplicateOnCopy : N := 2.
Definition policy_ (k : CZString) : N := (storage_ k mod 4)%N.
Definition length_ (k : CZString) : N := (storage_ k / 4)%N.
Definition index (k : CZString) : N := storage_ k.
Definition data (k : CZString) : cptr := cstr_ k.
Definition isStaticString (k : CZString) : bool := (policy_ k =? noDuplication)%N.
Definition is_null (p : cptr) : bool := match p with Null => true | _ => false end.

Definition CZ_index (i : N) : CZString := mkCZ Null i.
Definition CZ_make (str : cptr) (length allocate : N) : CZString :=
  mkCZ str (N.land allocate 3 + 4 * N.land length 1073741823).
(** The copy constructor. *)
Definition CZ_copy (other : CZString) : M CZString :=
  do! p := if negb (policy_ other =? noDuplication)%N && negb (is_null (cstr_ other)) then
             do! bytes := read_ptr (cstr_ other) in duplicateStringValue bytes (length_ other)
           else ret (cstr_ other) in
  let policy := if negb (is_null (cstr_ other)) then
                  if (policy_ other =? noDuplication)%N then noDuplication else duplicate
                else policy_ other in
  ret (mkCZ p (policy + 4 * length_ other)).
(** The move constructor: the new object, and [other] afterwards. *)
Definition CZ_move (other : CZString) : CZString * CZString :=
  (mkCZ (cstr_ other) (storage_ other), mkCZ Null (storage_ other)).
(** The destructor. *)
Definition CZ_delete (k : CZString) : M unit :=
  if negb (is_null (cstr_ k)) && (policy_ k =? duplicate)%N then releaseStringValue (cstr_ k)
  else ret tt.
Definition CZ_swap (k other : CZString) : CZString * CZString :=
  (mkCZ (cstr_ other) (storage_ other), mkCZ (cstr_ k) (storage_ k)).
(** [operator=], from a constant and from a moved object: nothing is freed or duplicated. *)
Definition CZ_assign (k other : CZString) : CZString := mkCZ (cstr_ other) (storage_ other).
Definition CZ_move_assign (k other : CZString) : CZString * CZString :=
  (mkCZ (cstr_ other) (storage_ other), mkCZ Null (storage_ other)).

(** The bytes of a key; its [operator<] and [operator==]. *)
Definition CZ_text (k : CZString) : str := take (N.to_nat (length_ k)) (bytes_at (cstr_ k)).
Definition CZ_ltb (k other : CZString) : bool :=
  if is_null (cstr_ k) then (index k <? index other)%N
  else CZString_ltb (CZ_text k) (CZ_text other).
Definition CZ_eqb (k other : CZString) : bool :=
  if is_null (cstr_ k) then (index k =? index other)%N
  else CZString_eqb (CZ_text k) (CZ_text other).

(** ** [class Value] *)

(** The union [value_]; a [map_] is the block of the map, which this value alone owns, and its
    entries. *)
Inductive Holder (V : Type) :=
  | HNum (z : Z)
  | HReal (d : double)
  | HBool (b : bool)
  | HString (p : cptr)
  | HMap (l : loc) (m : list (CZString * V)).
Arguments HNum {V} z.
Arguments HReal {V} d.
Arguments HBool {V} b.
Arguments HString {V} p.
Arguments HMap {V} l m.

Inductive MValue := mkM (value_type_ : ValueType) (allocated_ : bool) (value_ : Holder MValue)
  (comments_ : Comments) (start_ limit_ : Z).
Definition value_type_ (v : MValue) := let 'mkM t _ _ _ _ _ := v in t.
Definition allocated_ (v : MValue) := let 'mkM _ a _ _ _ _ := v in a.
Definition value_ (v : MValue) := let 'mkM _ _ u _ _ _ := v in u.
Definition mcomments_ (v : MValue) := let 'mkM _ _ _ c _ _ := v in c.
Definition mstart_ (v : MValue) := let 'mkM _ _ _ _ s _ := v in s.
Definition mlimit_ (v : MValue) := let 'mkM _ _ _ _ _ l := v in l.

(** [initBasic], in front of the assignment of [value_]. *)
Definition initBasic (t : ValueType) (allocated : bool) (u : Holder MValue) : MValue :=
  mkM t allocated u no_comments 0 0.

(** [Value(ValueType)]. *)
Definition Value_make (t : ValueType) : M MValue :=
  match t with
  | TNull | TInt | TUInt => ret (initBasic t false (HNum 0))
  | TReal => ret (initBasic t false (HReal (S754_zero false)))
  | TString => ret (initBasic t false (HString (Static [NUL])))
  | TBoolean => ret (initBasic t false (HBool false))
  | TArray | TObject => do! l := malloc in ret (initBasic t false (HMap l []))
  end.
Definition nullSingleton : MValue := initBasic TNull false (HNum 0).
Definition Value_int (z : Z) : MValue := initBasic TInt false (HNum z).
Definition Value_uint (z : Z) : MValue := initBasic TUInt false (HNum z).
Definition Value_double (d : double) : MValue := initBasic TReal false (HReal d).
Definition Value_bool (b : bool) : MValue := initBasic TBoolean false (HBool b).
(** [Value(begin, end)] and [Value(const String&)]; [Value_cstr] takes a C string. *)
Definition unsigned (n : N) : N := Z.to_N (wrap_u 32 (Z.of_N n)).
Definition Value_String (s : str) : M MValue :=
  do! p := duplicateAndPrefixStringValue s (unsigned (len s)) in
  ret (initBasic TString true (HString p)).
Definition Value_cstr (s : str) : M MValue := Value_String (c_str s).
(** [Value(const StaticString&)]: the pointer is kept. *)
Definition Value_StaticString (s : str) : MValue := initBasic TString false (HString (Static (s ++ [NUL]))).

(** *** Copying and destroying *)

(** The copy constructor [Value(const Value&)], which is [dupPayload] and [dupMeta]; that of
    [std::map] copies its entries in order. *)
Fixpoint Value_copy (other : MValue) : M MValue :=
  let 'mkM t allocated u c s l := other in
  match t, u with
  | TString, HString p =>
      if negb (is_null p) && allocated then
        do! str := decodePrefixedString allocated p in
        do! p := duplicateAndPrefixStringValue str (len str) in
        ret (mkM t true (HString p) c s l)
      else ret (mkM t false (HString p) c s l)
  | (TArray | TObject), HMap b m =>
      do! _ := live b in
      do! b' := malloc in
      do! m' :=
        (fix copy_map (m : list (CZString * MValue)) : M (list (CZString * MValue)) :=
           match m with
           | [] => ret []
           | (k, v) :: m =>
               do! k := CZ_copy k in
               do! v := Value_copy v in
               do! m := copy_map m in
               ret ((k, v) :: m)
           end) m in
      ret (mkM t false (HMap b' m') c s l)
  | (TString | TArray | TObject), _ => fail undefined
  | _, u => ret (mkM t false u c s l)
  end.

(** The destructor [~Value], which is [releasePayload]; that of [std::map] destroys its
    entries. *)
Fixpoint Value_delete (v : MValue) : M unit :=
  let 'mkM t allocated u _ _ _ := v in
  match t, u with
  | TString, HString p => if allocated then releasePrefixedStringValue p else ret tt
  | (TArray | TObject), HMap b m =>
      do! _ :=
        (fix delete_map (m : list (CZString * MValue)) : M unit :=
           match m with
           | [] => ret tt
           | (k, v) :: m =>
               do! _ := Value_delete v in
               do! _ := CZ_delete k in
               delete_map m
           end) m in
      free b
  | (TString | TArray | TObject), _ => fail undefined
  | _, _ => ret tt
  end.

(** *** Moving, swapping and assigning *)
Definition swapPayload (v other : MValue) : MValue * MValue :=
  (mkM (value_type_ other) (allocated_ other) (value_ other) (mcomments_ v) (mstart_ v) (mlimit_ v),
   mkM (value_type_ v) (allocated_ v) (value_ v) (mcomments_ other) (mstart_ other) (mlimit_ other)).
Definition dupMeta (v other : MValue) : MValue :=
  mkM (value_type_ v) (allocated_ v) (value_ v) (mcomments_ other) (mstart_ other) (mlimit_ other).
Definition swap (v other : MValue) : MValue * MValue :=
  let '(v', other') := swapPayload v other in (dupMeta v' other, dupMeta other' v).
(** [Value(Value&&)]: the new value, and [other]. *)
Definition Value_move (other : MValue) : MValue * MValue := swap nullSingleton other.
(** [operator=(const Value&)]: the temporary takes the old contents and is destroyed. *)
Definition Value_assign (v other : MValue) : M MValue :=
  do! tmp := Value_copy other in
  let '(tmp, v) := swap tmp v in
  do! _ := Value_delete tmp in ret v.
(** [operator=(Value&&)]. *)
Definition Value_move_assign (v other : MValue) : MValue * MValue :=
  let '(other, v) := swap other v in (v, other).
(** [copyPayload] and [copy]: the old payload is released first. *)
Definition copyPayload (v other : MValue) : M MValue :=
  do! _ := Value_delete v in
  do! d := Value_copy other in
  ret (mkM (value_type_ d) (allocated_ d) (value_ d) (mcomments_ v) (mstart_ v) (mlimit_ v)).
Definition copy (v other : MValue) : M MValue :=
  do! v := copyPayload v other in ret (dupMeta v other).

(** *** Members *)
Definition set_map (v : MValue) (b : loc) (m : list (CZString * MValue)) : MValue :=
  mkM (value_type_ v) (allocated_ v) (HMap b m) (mcomments_ v) (mstart_ v) (mlimit_ v).
(** [*this = Value(type)] when the value is null. *)
Definition null_to (t : ValueType) (v : MValue) : M MValue :=
  if decide (value_type_ v = TNull) then
    do! tmp := Value_make t in
    let '(v, tmp) := Value_move_assign v tmp in
    do! _ := Value_delete tmp in ret v
  else ret v.
(** [defaultValue(actualKey, nullSingleton())] and its insertion: the pair is copied twice, and
    the first copy destroyed. *)
Definition insert_default (actualKey : CZString) (m : list (CZString * MValue))
    : M (list (CZString * MValue)) :=
  do! k1 := CZ_copy actualKey in
  do! v1 := Value_copy nullSingleton in
  do! k2 := CZ_copy k1 in
  do! v2 := Value_copy v1 in
  let m := map_insert_new CZ_ltb k2 v2 m in
  do! _ := Value_delete v1 in
  do! _ := CZ_delete k1 in
  ret m.
(** The part of [resolveReference] and [operator[]] behind their assertion. *)
Definition resolve_key (t : ValueType) (v : MValue) (actualKey : CZString) : M MValue :=
  do! v := null_to t v in
  match value_ v with
  | HMap b m =>
      do! _ := live b in
      do! m := match map_find CZ_ltb actualKey m with
               | Some _ => ret m
               | None => insert_default actualKey m
               end in
      do! _ := CZ_delete actualKey in
      ret (set_map v b m)
  | _ => fail undefined
  end.
Definition is_null_or (t : ValueType) (v : MValue) : bool :=
  bool_decide (value_type_ v = TNull) || bool_decide (value_type_ v = t).
(** [resolveReference(key, end)]. *)
Definition key_for (key : str) (policy : N) : CZString :=
  CZ_make (Static key) (unsigned (len key)) policy.
Definition resolveReference (v : MValue) (key : str) : M MValue :=
  if is_null_or TObject v then resolve_key TObject v (key_for key duplicateOnCopy)
  else fail (JsonLogicError #"in Json::Value::resolveReference(key, end): requires objectValue").
(** [resolveReference(const char *key)]: the key is not duplicated. *)
Definition resolveReference_static (v : MValue) (key : str) : M MValue :=
  if is_null_or TObject v then
    resolve_key TObject v (CZ_make (Static (key ++ [NUL])) (unsigned (len (c_str key))) noDuplication)
  else fail (JsonLogicError #"in Json::Value::resolveReference(): requires objectValue").
(** [operator[](ArrayIndex)]. *)
Definition index_ref (v : MValue) (index : N) : M MValue :=
  if is_null_or TArray v then resolve_key TArray v (CZ_index index)
  else fail (JsonLogicError #"in Json::Value::operator[](ArrayIndex): requires arrayValue").

(** What is done through the reference to the entry of [key]: [f] changes the entry and may
    return something. *)
Fixpoint map_updM {B} (key : CZString) (f : MValue -> M (MValue * B)) (m : list (CZString * MValue))
    : M (list (CZString * MValue) * B) :=
  match m with
  | [] => fail undefined
  | (k, v) :: m =>
      if CZ_ltb k key then do! (m, x) := map_updM key f m in ret ((k, v) :: m, x)
      else if CZ_ltb key k then fail undefined
      else do! (v, x) := f v in ret ((k, v) :: m, x)
  end.
Definition at_key {B} (key : CZString) (f : MValue -> M (MValue * B)) (v : MValue) : M (MValue * B) :=
  match value_ v with
  | HMap b m => do! _ := live b in do! (m, x) := map_updM key f m in ret (set_map v b m, x)
  | _ => fail undefined
  end.

(** [map_->erase(it)]: the entry is destroyed. *)
Fixpoint map_eraseM (key : CZString) (m : list (CZString * MValue)) : M (list (CZString * MValue)) :=
  match m with
  | [] => ret []
  | (k, v) :: m =>
      if CZ_ltb k key then do! m := map_eraseM key m in ret ((k, v) :: m)
      else if CZ_ltb key k then ret ((k, v) :: m)
      else do! _ := Value_delete v in do! _ := CZ_delete k in ret m
  end.
(** [removeMember(begin, end, removed)] with a [removed]: the result, the value and
    [*removed]. *)
Definition removeMember (v : MValue) (key : str) (removed : MValue) : M (bool * MValue * MValue) :=
  match value_type_ v, value_ v with
  | TObject, HMap b m =>
      do! _ := live b in
      let actualKey := key_for key noDuplication in
      match map_find CZ_ltb actualKey m with
      | None => do! _ := CZ_delete actualKey in ret (false, v, removed)
      | Some it =>
          let '(removed, it) := Value_move_assign removed it in
          let m := map_upd CZ_ltb actualKey (fun _ => it) m in
          do! m := map_eraseM actualKey m in
          do! _ := CZ_delete actualKey in
          ret (true, set_map v b m, removed)
      end
  | TObject, _ => fail undefined
  | _, _ => ret (false, v, removed)
  end.
(** [clear]. *)
Fixpoint delete_entries (m : list (CZString * MValue)) : M unit :=
  match m with
  | [] => ret tt
  | (k, v) :: m => do! _ := Value_delete v in do! _ := CZ_delete k in delete_entries m
  end.
Definition clear (v : MValue) : M MValue :=
  match value_type_ v, value_ v with
  | TNull, _ => ret (mkM TNull (allocated_ v) (value_ v) (mcomments_ v) 0 0)
  | (TArray | TObject), HMap b m =>
      do! _ := live b in
      do! _ := delete_entries m in
      ret (mkM (value_type_ v) (allocated_ v) (HMap b []) (mcomments_ v) 0 0)
  | (TArray | TObject), _ => fail undefined
  | _, _ => fail (JsonLogicError #"in Json::Value::clear(): requires complex value")
  end.
(** [size]. *)
Definition size (v : MValue) : N :=
  match value_type_ v, value_ v with
  | TArray, HMap _ m => match rev m with (k, _) :: _ => ArrayIndex_wrap (index k + 1) | [] => 0%N end
  | TObject, HMap _ m => ArrayIndex_wrap (N.of_nat (length m))
  | _, _ => 0%N
  end.

(** [find(begin, end)], as a copy of what it finds, and [get(key, defaultValue)]. *)
Definition copy_entry (key : CZString) (v : MValue) : M (option MValue) :=
  match value_ v with
  | HMap b m =>
      do! _ := live b in
      match map_find CZ_ltb key m with
      | Some it => do! c := Value_copy it in ret (Some c)
      | None => ret None
      end
  | _ => fail undefined
  end.
Definition get (v : MValue) (key : str) (defaultValue : MValue) : M MValue :=
  if is_null_or TObject v then
    do! found := if decide (value_type_ v = TNull) then ret None
                 else let actualKey := key_for key noDuplication in
                      do! found := copy_entry actualKey v in
                      do! _ := CZ_delete actualKey in ret found in
    match found with
    | Some c => ret c
    | None => Value_copy defaultValue
    end
  else fail (JsonLogicError #"in Json::Value::find(begin, end): requires objectValue or nullValue").

(** [void removeMember(key)]. *)
Definition removeMember_cstr (v : MValue) (key : str) : M MValue :=
  if is_null_or TObject v then
    if decide (value_type_ v = TNull) then ret v
    else match value_ v with
         | HMap b m =>
             do! _ := live b in
             let actualKey := key_for (c_str key) noDuplication in
             do! m := map_eraseM actualKey m in
             do! _ := CZ_delete actualKey in
             ret (set_map v b m)
         | _ => fail undefined
         end
  else fail (JsonLogicError #"in Json::Value::removeMember(): requires objectValue").

(** [std::map::operator[]]: a new entry gets a copy of the key and [Value()]. *)
Definition map_subscript (key : CZString) (m : list (CZString * MValue)) : M (list (CZString * MValue)) :=
  match map_find CZ_ltb key m with
  | Some _ => ret m
  | None => do! k := CZ_copy key in do! v := Value_make TNull in ret (map_insert_new CZ_ltb k v m)
  end.
(** The rest of an assignment [*ref = other], when the temporary is made. *)
Definition assign_tail (tmp c : MValue) : M (MValue * unit) :=
  let '(tmp, c) := swap tmp c in do! _ := Value_delete tmp in ret (c, tt).
(** A step of the loop of [removeIndex]. *)
Definition shift_left (v : MValue) (i : N) : M MValue :=
  let keey := CZ_index i in
  do! v := index_ref v (i + 1) in
  match value_ v with
  | HMap b m =>
      do! _ := live b in
      do! m := map_subscript keey m in
      let v := set_map v b m in
      do! other := copy_entry (CZ_index (i + 1)) v in
      match other with
      | Some tmp =>
          do! (v, _) := at_key keey (assign_tail tmp) v in
          do! _ := CZ_delete keey in ret v
      | None => fail undefined
      end
  | _ => fail undefined
  end.
Fixpoint repeatM (f : MValue -> N -> M MValue) (v : MValue) (indices : list N) : M MValue :=
  match indices with [] => ret v | i :: indices => do! v := f v i in repeatM f v indices end.
Definition erase_index (v : MValue) (i : N) : M MValue :=
  match value_ v with
  | HMap b m =>
      let key := CZ_index i in
      do! _ := live b in
      do! m := map_eraseM key m in
      do! _ := CZ_delete key in
      ret (set_map v b m)
  | _ => fail undefined
  end.
(** [removeIndex(index, removed)] with a [removed]: the result, the value and [*removed]. *)
Definition removeIndex (v : MValue) (index : N) (removed : MValue) : M (bool * MValue * MValue) :=
  match value_type_ v, value_ v with
  | TArray, HMap b m =>
      let key := CZ_index index in
      do! _ := live b in
      match map_find CZ_ltb key m with
      | None => do! _ := CZ_delete key in ret (false, v, removed)
      | Some it =>
          do! removed := Value_assign removed it in
          let last := last_index (size v) in
          do! v := repeatM shift_left v (indices_between index last) in
          do! v := erase_index v last in
          do! _ := CZ_delete key in
          ret (true, v, removed)
      end
  | TArray, _ => fail undefined
  | _, _ => ret (false, v, removed)
  end.
(** [resize]. *)
Definition resize (v : MValue) (newSize : N) : M MValue :=
  if is_null_or TArray v then
    do! v := null_to TArray v in
    let oldSize := size v in
    if (newSize =? 0)%N then clear v
    else if (oldSize <? newSize)%N then index_ref v (newSize - 1)
    else
      do! v := repeatM erase_index v (indices_between newSize oldSize) in
      if (size v =? newSize)%N then ret v else fail (JsonLogicError #"assert json failed")
  else fail (JsonLogicError #"in Json::Value::resize(): requires arrayValue").
End Mem.

(** * Programs over variables of type [Value]

    The variables of a scope, in the order of their declaration, and what a program does
    with them. *)
Module MemRun.
Import Mem.

(** [x[key]] and [x[index]]: the reference, and what is done through it. *)
Definition step_ref (v : MValue) (s : step) : M MValue :=
  match s with Key key => resolveReference v key | Index i => index_ref v i end.
Definition at_step {B} (s : step) (f : MValue -> M (MValue * B)) (v : MValue) : M (MValue * B) :=
  match s with
  | Key key => at_key (key_for key duplicateOnCopy) f v
  | Index i => at_key (CZ_index i) f v
  end.

(** What is done to [x[s]] with a variable [y]: [x[s] = y], [x[s] = std::move(y)] and
    [x[s].swapPayload(y)]. *)
Inductive member_op := AssignCopy | AssignMove | SwapPayload.
Inductive op :=
  | New (t : ValueType) | NewInt (z : Z) | NewUInt (z : Z) | NewDouble (d : double) | NewBool (b : bool)
  | NewString (s : str) | NewCString (s : str) | NewStatic (s : str)
  | NewCopy (j : nat) | NewMove (j : nat)
  | Assign (i j : nat) | MoveAssign (i j : nat) | Copy (i j : nat)
  | Member (i : nat) (s : step) (o : member_op) (j : nat)
  | Append (i : nat) (o : member_op) (j : nat)
  | Remove (i : nat) (key : str)
  | RemoveMember (i : nat) (key : str)
  | RemoveIndex (i : nat) (index : N)
  | Resize (i : nat) (newSize : N)
  | NewGet (i : nat) (key : str) (j : nat)
  | Clear (i : nat)
  | Drop.

(** The two variables of an operation, when there are such. *)
Definition with_one {A V} (env : list V) (i : nat) (none : A) (k : V -> A) : A :=
  match env !! i with Some v => k v | None => none end.
Definition with_two {A V} (env : list V) (i j : nat) (none : A) (k : V -> V -> A) : A :=
  match env !! i, env !! j with Some v, Some w => k v w | _, _ => none end.

(** [x_i[s] op x_j]: the reference first. *)
Definition run_member (env : list MValue) (i : nat) (s : step) (o : member_op) (j : nat) : M (list MValue) :=
  with_two env i j (ret env) (fun v _ =>
    do! v := step_ref v s in
    let env := <[i := v]> env in
    with_one env j (ret env) (fun other =>
      match o with
      | AssignCopy =>
          do! tmp := Value_copy other in
          do! (v, _) := at_step s (assign_tail tmp) v in
          ret (<[i := v]> env)
      | AssignMove =>
          do! (v, other) := at_step s (fun c => ret (Value_move_assign c other)) v in
          ret (<[j := other]> (<[i := v]> env))
      | SwapPayload =>
          do! (v, other) := at_step s (fun c => ret (swapPayload c other)) v in
          ret (<[j := other]> (<[i := v]> env))
      end)).
(** [x_i.append(x_j)] and [x_i.append(std::move(x_j))]. *)
Definition run_append (env : list MValue) (i : nat) (o : member_op) (j : nat) : M (list MValue) :=
  with_one env i (ret env) (fun v => run_member env i (Index (size v)) o j).
Definition run_op (env : list MValue) (o : op) : M (list MValue) :=
  match o with
  | New t => do! v := Value_make t in ret (env ++ [v])
  | NewInt z => ret (env ++ [Value_int z])
  | NewUInt z => ret (env ++ [Value_uint z])
  | NewDouble d => ret (env ++ [Value_double d])
  | NewBool b => ret (env ++ [Value_bool b])
  | NewString s => do! v := Value_String s in ret (env ++ [v])
  | NewCString s => do! v := Value_cstr s in ret (env ++ [v])
  | NewStatic s => ret (env ++ [Value_StaticString s])
  | NewCopy j => with_one env j (ret env) (fun w => do! v := Value_copy w in ret (env ++ [v]))
  | NewMove j => with_one env j (ret env) (fun w =>
      let '(v, w) := Value_move w in ret (<[j := w]> env ++ [v]))
  | Assign i j => with_two env i j (ret env) (fun v w => do! v := Value_assign v w in ret (<[i := v]> env))
  | MoveAssign i j => with_two env i j (ret env) (fun v w =>
      if decide (i = j) then ret env
      else let '(v, w) := Value_move_assign v w in ret (<[j := w]> (<[i := v]> env)))
  | Copy i j => with_two env i j (ret env) (fun v w => do! v := copy v w in ret (<[i := v]> env))
  | Member i s o j => run_member env i s o j
  | Append i o j => run_append env i o j
  | Remove i key => with_one env i (ret env) (fun v =>
      do! (_, v, removed) := removeMember v key nullSingleton in ret (<[i := v]> env ++ [removed]))
  | RemoveMember i key => with_one env i (ret env) (fun v =>
      do! v := removeMember_cstr v key in ret (<[i := v]> env))
  | RemoveIndex i index => with_one env i (ret env) (fun v =>
      do! (_, v, removed) := removeIndex v index nullSingleton in ret (<[i := v]> env ++ [removed]))
  | Resize i newSize => with_one env i (ret env) (fun v => do! v := resize v newSize in ret (<[i := v]> env))
  | NewGet i key j => with_two env i j (ret env) (fun v w => do! c := get v key w in ret (env ++ [c]))
  | Clear i => with_one env i (ret env) (fun v => do! v := clear v in ret (<[i := v]> env))
  | Drop => match rev env with
            | [] => ret env
            | v :: rest => do! _ := Value_delete v in ret (rev rest)
            end
  end.
Fixpoint run (env : list MValue) (ops : list op) : M (list MValue) :=
  match ops with
  | [] => ret env
  | o :: ops => do! env := run_op env o in run env ops
  end.
(** The end of the scope: the variables are destroyed, the last first. *)
Fixpoint delete_all (vs : list MValue) : M unit :=
  match vs with [] => ret tt | v :: vs => do! _ := Value_delete v in delete_all vs end.
Definition leave_scope (env : list MValue) : M unit := delete_all (rev env).
End MemRun.
