(* ===== verification/JsonMemoryLaws.v ===== *)
(** * JSON: the memory of values, laws

    What a value in memory stands for ([abs]), which blocks it owns ([fp]), and that the
    functions of [JsonMemory] keep both straight. *)
From Stdlib Require Import Ascii String SpecFloat.
From stdpp Require Import base tactics list gmap gmultiset fin_sets numbers option strings.
From S2P Require Import Prelude Globals Double JsonText JsonValue JsonLaws JsonMemory.
Import Mem.
Open Scope Z_scope.
Open Scope memory_scope.

(** ** What a value stands for *)
Fixpoint abs (v : MValue) : Value :=
  let 'mkM t a u c s l := v in
  mkValue
    (match t, u with
     | TInt, HNum z => intValue z
     | TUInt, HNum z => uintValue z
     | TReal, HReal d => realValue d
     | TBoolean, HBool b => booleanValue b
     | TString, HString p =>
         stringValue (if a then take (N.to_nat (un_le32 (bytes_at p))) (drop 4 (bytes_at p))
                      else c_str (bytes_at p))
     | TArray, HMap _ m => arrayValue (map (fun kv => (index kv.1, abs kv.2)) m)
     | TObject, HMap _ m => objectValue (map (fun kv => (CZ_text kv.1, abs kv.2)) m)
     | _, _ => nullValue
     end) c s l.

(** ** The blocks a value owns *)
Notation blocks := (gmultiset loc).
Definition ptr_fp (p : cptr) : blocks := match p with Block l _ => {[+ l +]} | _ => ∅ end.
Definition key_fp (k : CZString) : blocks := ptr_fp (cstr_ k).
Fixpoint fp (v : MValue) : blocks :=
  let 'mkM t a u _ _ _ := v in
  match t, u with
  | TString, HString p => ptr_fp p
  | (TArray | TObject), HMap b m =>
      {[+ b +]} ⊎ foldr (fun kv P => key_fp kv.1 ⊎ fp kv.2 ⊎ P) ∅ m
  | _, _ => ∅
  end.
Definition entries_fp (m : list (CZString * MValue)) : blocks :=
  foldr (fun kv P => key_fp kv.1 ⊎ fp kv.2 ⊎ P) ∅ m.

(** ** Values that are as the functions of the class leave them *)

(** A key that can be copied, the key of an object (a copy in a block of its own, or a static
    string), and the key of an element. *)
Definition name_ok (k : CZString) : Prop :=
  cstr_ k <> Null /\ (length_ k < 2 ^ 30)%N /\ (length_ k <= len (bytes_at (cstr_ k)))%N.
Definition stored_name (k : CZString) : Prop :=
  name_ok k /\
  match cstr_ k with
  | Null => False | Static _ => policy_ k = noDuplication | Block _ _ => policy_ k = duplicate
  end.
Definition index_ok (k : CZString) : Prop := cstr_ k = Null.
Definition string_ok (a : bool) (p : cptr) : Prop :=
  if a then exists l s, p = Block l (le32 (len s) ++ s ++ [NUL]) /\ (len s <= Z.to_N (maxInt - 5))%N
  else exists s, p = Static s.
Fixpoint ok (v : MValue) : Prop :=
  let 'mkM t a u _ _ _ := v in
  match t, u with
  | TNull, _ => True
  | (TInt | TUInt), HNum _ | TReal, HReal _ | TBoolean, HBool _ => True
  | TString, HString p => string_ok a p
  | TArray, HMap _ m => foldr (fun kv P => (index_ok kv.1 /\ ok kv.2) /\ P) True m
  | TObject, HMap _ m => foldr (fun kv P => (stored_name kv.1 /\ ok kv.2) /\ P) True m
  | _, _ => False
  end.
Definition entries_ok (Q : CZString -> Prop) (m : list (CZString * MValue)) : Prop :=
  foldr (fun kv P => (Q kv.1 /\ ok kv.2) /\ P) True m.

(** Induction on values, through their maps. *)
Lemma MValue_induction (P : MValue -> Prop) :
  (forall t a u c s l, (forall b m, u = HMap b m -> Forall (fun kv => P kv.2) m) ->
     P (mkM t a u c s l)) -> forall v, P v.
Proof.
  intros H. fix IH 1. intros [t a u c s l]. apply H.
  destruct u as [z|d|x|p|b0 m0]; try (intros; discriminate).
  assert (Forall (fun kv => P kv.2) m0) as Hm.
  { induction m0 as [|[k v] m0 IHm]; constructor; [exact (IH v)|exact IHm]. }
  intros b m [= <- <-]. exact Hm.
Qed.

(** ** Strings in memory *)
Lemma un_le32_le32 n t : (n < 2 ^ 32)%N -> un_le32 (le32 n ++ t) = n.
Proof.
  intros H. unfold le32. cbn [app un_le32]. unfold chr, code.
  rewrite !N_ascii_embedding by (apply N2Z.inj_lt; rewrite Z2N.id by (apply Z.mod_pos_bound; lia);
    apply Z.mod_pos_bound; lia).
  rewrite !Z2N.id by (apply Z.mod_pos_bound; lia). rewrite !N2Z.inj_div. cbn.
  apply N2Z.inj. rewrite Z2N.id by dlia.
  assert (Z.of_N n < 2 ^ 32) as Hn by lia. dlia.
Qed.
Lemma prefixed_text s : (len s <= Z.to_N (maxInt - 5))%N ->
  let bytes := le32 (len s) ++ s ++ [NUL] in
  take (N.to_nat (un_le32 bytes)) (drop 4 bytes) = s.
Proof.
  intros H. cbv zeta. rewrite un_le32_le32 by (unfold maxInt in H; lia).
  change (drop 4 (le32 (len s) ++ s ++ [NUL])) with (s ++ [NUL]).
  unfold len. rewrite Nat2N.id. apply take_app_length.
Qed.
Lemma take_full (s : str) n : (len s <= n)%N -> take (N.to_nat n) s = s.
Proof. intros H. apply take_ge. unfold len in H. lia. Qed.

(** ** Computations that own blocks

    [triple P m Q R]: started with the blocks [P], and others that it leaves alone, [m]
    returns with a result for which [Q] holds and with the blocks [R]. *)
Definition owned (P : blocks) (h : heap) : Prop :=
  forall l, (l ∈ h /\ multiplicity l P = 1%nat) \/ (l ∉ h /\ multiplicity l P = 0%nat).
Definition triple {A} (P : blocks) (m : M A) (Q : A -> Prop) (R : A -> blocks) : Prop :=
  forall F h, owned (P ⊎ F) h -> exists a h', m h = Ret (a, h') /\ Q a /\ owned (R a ⊎ F) h'.

Lemma triple_ret {A} (a : A) P (Q : A -> Prop) R : Q a -> R a = P -> triple P (ret a) Q R.
Proof. intros HQ HR F h Ho. exists a, h. by rewrite HR. Qed.
Lemma triple_bind {A B} (m : M A) (k : A -> M B) P G P' Q R Q' R' :
  triple P m Q R -> P' = P ⊎ G -> (forall a, Q a -> triple (R a ⊎ G) (k a) Q' R') ->
  triple P' (bind m k) Q' R'.
Proof.
  intros Hm -> Hk F h Ho. destruct (Hm (G ⊎ F) h) as (a & h1 & Ha & HQ & Ho1).
  { by rewrite (assoc_L (⊎)). }
  rewrite (assoc_L (⊎)) in Ho1. destruct (Hk a HQ F h1 Ho1) as (b & h2 & Hb & HQ' & Ho2).
  exists b, h2. unfold bind. by rewrite Ha.
Qed.
Lemma triple_weaken {A} (m : M A) P (Q Q' : A -> Prop) R R' :
  triple P m Q R -> (forall a, Q a -> Q' a /\ R' a = R a) -> triple P m Q' R'.
Proof.
  intros Hm H F h Ho. destruct (Hm F h Ho) as (a & h' & Ha & HQ & Ho').
  destruct (H a HQ) as [HQ' HR]. exists a, h'. by rewrite HR.
Qed.
(** The last computation of a sequence, with the blocks it does not use. *)
Lemma triple_frame {A} (m : M A) P G P' Q R R' :
  triple P m Q R -> P' = P ⊎ G -> (forall a, Q a -> R' a = R a ⊎ G) -> triple P' m Q R'.
Proof.
  intros Hm -> HR F h Ho. destruct (Hm (G ⊎ F) h) as (a & h' & Ha & HQ & Ho').
  { by rewrite (assoc_L (⊎)). }
  exists a, h'. rewrite (HR a HQ). by rewrite <- (assoc_L (⊎)).
Qed.

Lemma malloc_triple : triple ∅ malloc (fun _ => True) (fun l => {[+ l +]}).
Proof.
  intros F h Ho. exists (fresh h), ({[fresh h]} ∪ h). do 2 (split; [done|]). intros l.
  specialize (Ho l). rewrite (left_id_L ∅ (⊎)) in Ho. pose proof (is_fresh h) as Hf.
  rewrite multiplicity_disj_union. destruct (decide (l = fresh h)) as [->|Hl].
  - rewrite multiplicity_singleton, decide_True by done. left. destruct Ho as [[]|[_ ->]]; [done|].
  split; [set_solver|done].
  - rewrite multiplicity_singleton_ne by done. destruct Ho as [[]|[]]; [left|right]; (split; [set_solver|done]).
Qed.
Lemma owned_elem l P h : owned ({[+ l +]} ⊎ P) h -> l ∈ h /\ multiplicity l P = 0%nat.
Proof.
  intros Ho. specialize (Ho l). rewrite multiplicity_disj_union, multiplicity_singleton,
    decide_True in Ho by done.
  destruct Ho as [[]|[]]; [split; [done|lia]|lia].
Qed.
Lemma free_triple l : triple {[+ l +]} (free l) (fun _ => True) (fun _ => ∅).
Proof.
  intros F h Ho. destruct (owned_elem _ _ _ Ho) as [Hl H0].
  exists tt, (h ∖ {[l]}). split; [unfold free; by rewrite decide_True|]. split; [done|].
  intros l'. specialize (Ho l'). rewrite (left_id_L ∅ (⊎)). rewrite multiplicity_disj_union in Ho.
  destruct (decide (l' = l)) as [->|Hne]; [right; split; [set_solver|done]|].
  rewrite multiplicity_singleton_ne in Ho by done.
  destruct Ho as [[]|[]]; [left|right]; (split; [set_solver|done]).
Qed.
Lemma live_triple l : triple {[+ l +]} (live l) (fun _ => True) (fun _ => {[+ l +]}).
Proof.
  intros F h Ho. destruct (owned_elem _ _ _ Ho) as [Hl _].
  exists tt, h. split; [unfold live; by rewrite decide_True|done].
Qed.

(** The next computation, which needs no blocks but those of its specification [t], or leaves
    [G] alone; the last one; and a result. *)
Ltac by_count :=
  solve [intros; unfold entries_fp; cbn [fp foldr fst snd]; unfold key_fp; cbn [ptr_fp fst snd cstr_];
     apply gmultiset_eq; intros ?; rewrite ?multiplicity_disj_union, ?multiplicity_empty; lia].
Tactic Notation "step" uconstr(t) "keeping" uconstr(G) :=
  eapply (triple_bind _ _ _ G); [apply t|try by_count|cbn beta].
Tactic Notation "step" uconstr(t) := step t keeping ∅.
Tactic Notation "last" uconstr(t) "keeping" uconstr(G) :=
  eapply (triple_frame _ _ G); [apply t|try by_count|try by_count].
Ltac returns := apply triple_ret; [|try by_count].

(** ** Strings *)
Lemma read_ptr_triple p : p <> Null ->
  triple (ptr_fp p) (read_ptr p) (fun s => s = bytes_at p) (fun _ => ptr_fp p).
Proof.
  intros Hp. destruct p as [|s|l s]; [done|by apply triple_ret|].
  cbn. step live_triple. intros _ _. by returns.
Qed.
Lemma duplicateStringValue_triple value n : (n < Z.to_N maxInt)%N ->
  triple ∅ (duplicateStringValue value n)
    (fun p => exists l, p = Block l (take (N.to_nat n) value ++ [NUL])) ptr_fp.
Proof.
  intros Hn. unfold duplicateStringValue. rewrite (proj2 (N.leb_gt _ _)) by done.
  step malloc_triple. intros l _. returns. eauto.
Qed.
Definition prefixed (s : str) (p : cptr) : Prop := exists l, p = Block l (le32 (len s) ++ s ++ [NUL]).
Lemma duplicateAndPrefix_triple s : (len s <= Z.to_N (maxInt - 5))%N ->
  triple ∅ (duplicateAndPrefixStringValue s (len s)) (prefixed s) ptr_fp.
Proof.
  intros Hn. unfold duplicateAndPrefixStringValue. rewrite (proj2 (Z.leb_le _ _)) by (unfold maxInt in *; lia).
  cbn [negb]. step malloc_triple. intros l _. returns. exists l. by rewrite take_full.
Qed.
Lemma decodePrefixed_triple l s : (len s <= Z.to_N (maxInt - 5))%N ->
  let p := Block l (le32 (len s) ++ s ++ [NUL]) in
  triple (ptr_fp p) (decodePrefixedString true p) (fun s' => s' = s) (fun _ => ptr_fp p).
Proof.
  intros Hn p. unfold decodePrefixedString. step read_ptr_triple; [done|].
  intros bytes ->. returns. by apply prefixed_text.
Qed.

(** ** Keys *)
Lemma storage_split n : (n mod 4 + 4 * (n / 4))%N = n.
Proof. pose proof (N.div_mod n 4 ltac:(done)). lia. Qed.
Lemma mkCZ_fields p pol n : (pol < 4)%N ->
  policy_ (mkCZ p (pol + 4 * n)) = pol /\ length_ (mkCZ p (pol + 4 * n)) = n.
Proof.
  intros H. unfold policy_, length_. cbn [storage_].
  replace (pol + 4 * n)%N with (pol + n * 4)%N by lia.
  rewrite N.Div0.mod_add, N.div_add, N.mod_small, N.div_small by lia. lia.
Qed.
Lemma CZ_make_fields s n pol : (pol < 4)%N ->
  policy_ (CZ_make s n pol) = pol /\ length_ (CZ_make s n pol) = (n mod 2 ^ 30)%N.
Proof.
  intros H. unfold CZ_make.
  change 3%N with (N.ones 2). change 1073741823%N with (N.ones 30). rewrite !N.land_ones.
  rewrite (N.mod_small pol) by (change (2 ^ 2)%N with 4%N; lia). by apply mkCZ_fields.
Qed.
Lemma le_len_take (s t : str) n : (n <= len s)%N ->
  take (N.to_nat n) (take (N.to_nat n) s ++ t) = take (N.to_nat n) s
  /\ (n <= len (take (N.to_nat n) s ++ t))%N.
Proof.
  intros H. unfold len in *. rewrite length_app, length_take. split; [|lia].
  rewrite take_app_le by (rewrite length_take; lia). by rewrite take_take, Nat.min_id.
Qed.

(** What a map requires of its keys: they stand for a [K], in its order; a usable key can be
    copied, to one that the map can store and destroy. *)
Class KeyKind (K : Type) := {
  key_of : CZString -> K;
  key_ltb : K -> K -> bool;
  key_order :: StrictTotal key_ltb;
  usable : CZString -> Prop;
  stored : CZString -> Prop;
  stored_usable k : stored k -> usable k;
  key_compare a b : usable a -> usable b -> CZ_ltb a b = key_ltb (key_of a) (key_of b);
  key_copy k : usable k ->
    triple (key_fp k) (CZ_copy k) (fun k' => stored k' /\ key_of k' = key_of k)
      (fun k' => key_fp k' ⊎ key_fp k);
  key_delete k : stored k -> triple (key_fp k) (CZ_delete k) (fun _ => True) (fun _ => ∅)
}.

(** The index of an element. *)
#[export] Program Instance index_keys : KeyKind N :=
  {| key_of := index; key_ltb := N.ltb; usable := index_ok; stored := index_ok |}.
Next Obligation. done. Qed.
Next Obligation. intros a b Ha _. unfold CZ_ltb. by rewrite Ha. Qed.
Next Obligation.
  intros [p n] [= ->]. unfold CZ_copy. cbn [cstr_ is_null negb]. rewrite andb_false_r.
  eapply triple_bind with (P := ∅) (G := ∅) (Q := fun p => p = Null) (R := fun _ => ∅);
    [by returns|done|].
  intros p ->. returns. split; [done|]. cbn. apply storage_split.
Qed.
Next Obligation. intros [p n] [= ->]. by returns. Qed.

(** The name of a member: [key_for] makes usable ones. *)
Definition usable_name (k : CZString) : Prop :=
  name_ok k /\ match cstr_ k with Block _ _ => policy_ k = duplicate | _ => policy_ k <> duplicate end.
Lemma CZ_copy_name k : usable_name k ->
  triple (key_fp k) (CZ_copy k) (fun k' => stored_name k' /\ CZ_text k' = CZ_text k)
    (fun k' => key_fp k' ⊎ key_fp k).
Proof.
  intros [(Hn & Hlen & Hle) Hp]. unfold CZ_copy. pose proof (le_len_take _ [NUL] _ Hle) as [Ht Hl].
  destruct (N.eqb_spec (policy_ k) noDuplication) as [E|E]; cbn [negb andb].
  - destruct k as [[|s|l s] n]; cbn [cstr_ is_null negb] in *; [done| |by rewrite E in Hp].
    eapply (triple_bind _ _ _ ∅); [by apply (triple_ret (Static s) ∅ (fun p => p = Static s) (fun _
      => ∅))|by_count|].
    intros p ->. destruct (mkCZ_fields (Static s) noDuplication (length_ (mkCZ (Static s) n))
      eq_refl) as [Hp1 Hl1].
    returns. split; [split; [|done]|].
    + split; [done|]. rewrite Hl1. done.
    + unfold CZ_text. by rewrite Hl1.
  - destruct (is_null (cstr_ k)) eqn:En; [by destruct (cstr_ k)|]. cbn [negb].
    eapply (triple_bind _ _ (key_fp k) ∅ _ _ (fun p => ptr_fp p ⊎ key_fp k)); [|by_count|].
    { step read_ptr_triple; [by destruct (cstr_ k)|]. intros bytes ->.
      last duplicateStringValue_triple keeping (key_fp k). unfold maxInt. lia. }
    intros p (l & ->).
    destruct (mkCZ_fields (Block l (take (N.to_nat (length_ k)) (bytes_at (cstr_ k)) ++ [NUL]))
                duplicate (length_ k) eq_refl) as [Hp1 Hl1].
    returns. split; [split; [|done]|].
    + split; [done|]. by rewrite Hl1.
    + unfold CZ_text. by rewrite Hl1.
Qed.
Lemma CZ_delete_name k : stored_name k -> triple (key_fp k) (CZ_delete k) (fun _ => True) (fun _ => ∅).
Proof.
  intros [_ H]. unfold CZ_delete. destruct k as [[|s|l s] n]; cbn [cstr_ is_null negb andb] in *; [done| |];
    rewrite H; [by returns|]. apply free_triple.
Qed.
Lemma CZ_compare_name a b : usable_name a -> CZ_ltb a b = CZString_ltb (CZ_text a) (CZ_text b).
Proof. intros [[Hn _] _]. unfold CZ_ltb. by destruct (cstr_ a). Qed.
#[export] Program Instance name_keys : KeyKind str :=
  {| key_of := CZ_text; key_ltb := CZString_ltb; usable := usable_name; stored := stored_name |}.
Next Obligation. intros k [Hk H]. split; [done|]. by destruct (cstr_ k); [|rewrite H|]. Qed.
Next Obligation. intros a b Ha _. by apply CZ_compare_name. Qed.
Next Obligation. apply CZ_copy_name. Qed.
Next Obligation. apply CZ_delete_name. Qed.

(** ** Copying and destroying *)
Definition copy_map : list (CZString * MValue) -> M (list (CZString * MValue)) :=
  fix copy_map (m : list (CZString * MValue)) : M (list (CZString * MValue)) :=
    match m with
    | [] => ret []
    | (k, v) :: m =>
        do! k := CZ_copy k in
        do! v := Value_copy v in
        do! m := copy_map m in
        ret ((k, v) :: m)
    end.
Definition copies (v : MValue) : Prop :=
  ok v -> triple (fp v) (Value_copy v) (fun v' => ok v' /\ abs v' = abs v) (fun v' => fp v' ⊎ fp v).
Definition deletes (v : MValue) : Prop :=
  ok v -> triple (fp v) (Value_delete v) (fun _ => True) (fun _ => ∅).
Section Entries.
Context {K : Type} `{KeyKind K}.
Definition abs_entries (m : list (CZString * MValue)) : list (K * Value) :=
  map (fun kv => (key_of kv.1, abs kv.2)) m.
Lemma copy_map_triple m : entries_ok stored m -> Forall (fun kv => copies kv.2) m ->
  triple (entries_fp m) (copy_map m) (fun m' => entries_ok stored m' /\ abs_entries m' = abs_entries m)
    (fun m' => entries_fp m' ⊎ entries_fp m).
Proof.
  intros Hok Hc. induction Hc as [|[k v] m Hv Hm IH]; [by returns|].
  destruct Hok as [[Hk Hv'] Hm']. cbn [fst snd] in *.
  step (key_copy k (stored_usable _ Hk)) keeping (fp v ⊎ entries_fp m). intros k' [Hk' Ek].
  step (Hv Hv') keeping (key_fp k' ⊎ key_fp k ⊎ entries_fp m). intros v' [Hv'' Ev].
  step (IH Hm') keeping (key_fp k' ⊎ key_fp k ⊎ fp v' ⊎ fp v). intros m' [Hm'' Em].
  returns. split; [done|]. unfold abs_entries in *. cbn. by rewrite Ek, Ev, Em.
Qed.
Lemma delete_entries_triple m : entries_ok stored m -> Forall (fun kv => deletes kv.2) m ->
  triple (entries_fp m) (delete_entries m) (fun _ => True) (fun _ => ∅).
Proof.
  intros Hok Hc. induction Hc as [|[k v] m Hv Hm IH]; [by returns|].
  destruct Hok as [[Hk Hv'] Hm']. cbn [fst snd] in *.
  step (Hv Hv') keeping (key_fp k ⊎ entries_fp m). intros _ _.
  step (key_delete k Hk) keeping (entries_fp m). intros _ _.
  last (IH Hm') keeping ∅.
Qed.
End Entries.

Section Nodes.
Context {K : Type} `{KeyKind K} (b : loc) (m : list (CZString * MValue)).
Lemma copy_node (node : loc -> list (CZString * MValue) -> MValue) (Q : MValue -> Prop) :
  entries_ok stored m -> Forall (fun kv => copies kv.2) m ->
  (forall b' m', fp (node b' m') = {[+ b' +]} ⊎ entries_fp m') ->
  (forall b' m', entries_ok stored m' -> abs_entries m' = abs_entries m -> Q (node b' m')) ->
  triple ({[+ b +]} ⊎ entries_fp m)
    (do! _ := live b in do! b' := malloc in do! m' := copy_map m in ret (node b' m')) Q
    (fun v' => fp v' ⊎ ({[+ b +]} ⊎ entries_fp m)).
Proof.
  intros Hok Hc Hfp HQ. step live_triple keeping (entries_fp m). intros _ _.
  step malloc_triple keeping ({[+ b +]} ⊎ entries_fp m). intros b' _.
  step (copy_map_triple m Hok Hc) keeping ({[+ b +]} ⊎ {[+ b' +]}). intros m' [Hm' Em].
  returns; [by apply HQ|]. rewrite Hfp. by_count.
Qed.
Lemma delete_node : entries_ok stored m -> Forall (fun kv => deletes kv.2) m ->
  triple ({[+ b +]} ⊎ entries_fp m) (do! _ := delete_entries m in free b) (fun _ => True) (fun _ => ∅).
Proof.
  intros Hok Hc. step (delete_entries_triple m Hok Hc) keeping ({[+ b +]}). intros _ _.
  last free_triple keeping ∅.
Qed.
End Nodes.

(** The copy constructor and the destructor. *)
Theorem Value_copy_triple v : copies v.
Proof.
  induction v as [t a u c s l IH] using MValue_induction. intros Hok.
  destruct t, u as [| | |p|b m]; cbn in Hok; try done; try (by returns).
  - destruct a.
    + destruct Hok as (b & str & -> & Hlen). cbn [Value_copy is_null negb andb].
      step (decodePrefixed_triple b str Hlen). intros str' ->.
      step (duplicateAndPrefix_triple str Hlen) keeping {[+ b +]}.
      intros p (b' & ->). returns. split; [by eexists _, _|done].
    + destruct Hok as (str & ->). returns. split; [by eexists|done].
  - apply (copy_node (K := N) b m (fun b' m' => mkM TArray false (HMap b' m') c s l)); try done.
    + by apply (IH b m).
    + intros b' m' Hm' Em. split; [done|]. cbn. by f_equal; f_equal.
  - apply (copy_node (K := str) b m (fun b' m' => mkM TObject false (HMap b' m') c s l)); try done.
    + by apply (IH b m).
    + intros b' m' Hm' Em. split; [done|]. cbn. by f_equal; f_equal.
Qed.
Theorem Value_delete_triple v : deletes v.
Proof.
  induction v as [t a u c s l IH] using MValue_induction. intros Hok.
  destruct t, u as [| | |p|b m]; cbn in Hok; try done; try (by returns).
  - destruct a.
    + destruct Hok as (b & str & -> & Hlen). apply free_triple.
    + destruct Hok as (str & ->). by returns.
  - by apply (delete_node (K := N)), (IH b m).
  - by apply (delete_node (K := str)), (IH b m).
Qed.

(** ** The maps of both kinds *)
#[local] Arguments entries_fp : simpl never.
#[local] Arguments entries_ok : simpl never.
#[local] Arguments abs_entries : simpl never.
#[local] Arguments abs : simpl never.
Section Maps.
Context {K : Type} `{KeyKind K}.
Implicit Types m : list (CZString * MValue).
Lemma abs_cons k v m : abs_entries ((k, v) :: m) = (key_of k, abs v) :: abs_entries m.
Proof. done. Qed.
Lemma fp_cons k v m : entries_fp ((k, v) :: m) = key_fp k ⊎ fp v ⊎ entries_fp m.
Proof. done. Qed.
Lemma find_abs k m : usable k -> entries_ok stored m ->
  option_map abs (map_find CZ_ltb k m) = map_find key_ltb (key_of k) (abs_entries m).
Proof.
  intros Hk. induction m as [|[k' v] m IH]; [done|]. intros [[Hk' Hv] Hm]. rewrite ?abs_cons. cbn in *.
  rewrite !key_compare by auto using stored_usable.
  destruct (key_ltb (key_of k') (key_of k)); [by apply IH|]. by destruct (key_ltb (key_of k) (key_of k')).
Qed.
Lemma insert_abs k v m : stored k -> ok v -> entries_ok stored m ->
  entries_ok stored (map_insert_new CZ_ltb k v m) /\
  abs_entries (map_insert_new CZ_ltb k v m) = map_insert_new key_ltb (key_of k) (abs v) (abs_entries m).
Proof.
  intros Hk Hv. induction m as [|[k' v'] m IH]; [done|]. intros [[Hk' Hv'] Hm]. rewrite ?abs_cons. cbn in *.
  rewrite !key_compare by auto using stored_usable.
  destruct (key_ltb (key_of k') (key_of k)).
  { destruct (IH Hm) as [IH1 IH2]. split; [done|]. by rewrite abs_cons, IH2. }
  by destruct (key_ltb (key_of k) (key_of k')).
Qed.
Lemma insert_fp k v m : stored k -> entries_ok stored m ->
  map_find key_ltb (key_of k) (abs_entries m) = None ->
  entries_fp (map_insert_new CZ_ltb k v m) = key_fp k ⊎ fp v ⊎ entries_fp m.
Proof.
  intros Hk. induction m as [|[k' v'] m IH]; [done|]. intros [[Hk' Hv'] Hm]. rewrite ?abs_cons. cbn in *.
  rewrite !key_compare by auto using stored_usable.
  destruct (key_ltb (key_of k') (key_of k)).
  { intros Hf. rewrite !fp_cons, IH by done. by_count. }
  destruct (key_ltb (key_of k) (key_of k')); [by intros _|done].
Qed.
Lemma find_ok k m v : entries_ok stored m -> map_find CZ_ltb k m = Some v -> ok v.
Proof.
  induction m as [|[k' v'] m IH]; [done|]. intros [[Hk' Hv'] Hm]. cbn.
  destruct (CZ_ltb k' k); [by apply IH|]. destruct (CZ_ltb k k'); [done|]. by intros [= <-].
Qed.
(** An entry put in place of another. *)
Lemma upd_abs k v v' m : usable k -> entries_ok stored m -> ok v' -> map_find CZ_ltb k m = Some v ->
  entries_ok stored (map_upd CZ_ltb k (fun _ => v') m) /\
  abs_entries (map_upd CZ_ltb k (fun _ => v') m) = map_upd key_ltb (key_of k) (fun _ => abs v')
    (abs_entries m) /\
  entries_fp (map_upd CZ_ltb k (fun _ => v') m) ⊎ fp v = entries_fp m ⊎ fp v'.
Proof.
  intros Hk. induction m as [|[k' v0] m IH]; [done|]. intros [[Hk' Hv0] Hm] Hv'. rewrite ?abs_cons. cbn in *.
  rewrite !key_compare by auto using stored_usable.
  destruct (key_ltb (key_of k') (key_of k)).
  - intros Hf. destruct (IH Hm Hv' Hf) as (IH1 & IH2 & IH3). split; [done|].
    split; [by rewrite abs_cons, IH2|].
    rewrite !fp_cons, <- (assoc_L (⊎)), IH3. by_count.
  - destruct (key_ltb (key_of k) (key_of k')); [done|]. intros [= ->]. split; [done|]. split; [done|]. by_count.
Qed.
Lemma updM_triple {B} k v m (f : MValue -> M (MValue * B)) G (Q : MValue * B -> Prop) fB :
  usable k -> entries_ok stored m -> map_find CZ_ltb k m = Some v ->
  triple (fp v ⊎ G) (f v) (fun r => ok r.1 /\ Q r) (fun r => fp r.1 ⊎ fB r.2) ->
  triple (entries_fp m ⊎ G) (map_updM k f m)
    (fun r => entries_ok stored r.1 /\ exists v', Q (v', r.2) /\
       abs_entries r.1 = map_upd key_ltb (key_of k) (fun _ => abs v') (abs_entries m))
    (fun r => entries_fp r.1 ⊎ fB r.2).
Proof.
  intros Hk Hm Hf Ht. induction m as [|[k' v0] m IH]; [done|]. destruct Hm as [[Hk' Hv0] Hm].
  rewrite ?abs_cons. cbn in *.
  rewrite !key_compare in * by auto using stored_usable.
  destruct (key_ltb (key_of k') (key_of k)).
  - step (IH Hm Hf) keeping (key_fp k' ⊎ fp v0). intros [m' x] (Hm' & v' & HQ & Em).
    returns. split; [done|]. exists v'. split; [done|]. cbn in *. by rewrite abs_cons, Em.
  - destruct (key_ltb (key_of k) (key_of k')); [done|]. injection Hf as ->.
    step Ht keeping (key_fp k' ⊎ entries_fp m). intros [v' x] [Hv' HQ].
    returns. split; [done|]. by exists v'.
Qed.
Lemma eraseM_triple k m : usable k -> entries_ok stored m ->
  triple (entries_fp m) (map_eraseM k m)
    (fun m' => entries_ok stored m' /\ abs_entries m' = map_erase key_ltb (key_of k) (abs_entries m))
    entries_fp.
Proof.
  intros Hk Hm. induction m as [|[k' v0] m IH]; [by returns|]. destruct Hm as [[Hk' Hv0] Hm].
  rewrite ?abs_cons. cbn in *. rewrite !key_compare in * by auto using stored_usable.
  destruct (key_ltb (key_of k') (key_of k)).
  - step (IH Hm) keeping (key_fp k' ⊎ fp v0). intros m' (Hm' & Em).
    returns. split; [done|]. by rewrite abs_cons, Em.
  - destruct (key_ltb (key_of k) (key_of k')); [by returns|].
    step (Value_delete_triple v0 Hv0) keeping (key_fp k' ⊎ entries_fp m). intros _ _.
    step (key_delete k' Hk') keeping (entries_fp m). intros _ _. by returns.
Qed.
End Maps.

(** ** Moving, swapping and assigning *)

(** A value in memory that stands for [w]. *)
Definition stands (w : Value) (v : MValue) : Prop := ok v /\ abs v = w.
Lemma fp_payload v c s l : fp (mkM (value_type_ v) (allocated_ v) (value_ v) c s l) = fp v.
Proof. by destruct v. Qed.
Lemma swap_eq v other : swap v other = (other, v).
Proof. by destruct v, other. Qed.
Lemma swap_stands v other w w' : stands w v -> stands w' other ->
  stands (JsonValue.swap w w').1 (swap v other).1 /\ stands (JsonValue.swap w w').2 (swap v other).2.
Proof.
  intros Hv Ho. rewrite swap_eq. destruct w, w'. by split.
Qed.
Lemma swapPayload_stands v other w w' : stands w v -> stands w' other ->
  stands (JsonValue.swapPayload w w') (swapPayload v other).1 /\
  stands (JsonValue.swapPayload w' w) (swapPayload v other).2 /\
  fp (swapPayload v other).1 = fp other /\ fp (swapPayload v other).2 = fp v.
Proof. destruct v, other. by intros [? <-] [? <-]. Qed.
Lemma Value_assign_triple v other w : ok v -> stands w other ->
  triple (fp v ⊎ fp other) (Value_assign v other) (stands w) (fun v' => fp v' ⊎ fp other).
Proof.
  intros Hv [Ho <-]. unfold Value_assign. step (Value_copy_triple other Ho) keeping (fp v).
  intros tmp [Htmp Ea]. rewrite swap_eq. step (Value_delete_triple v Hv) keeping (fp tmp ⊎ fp other).
  intros _ _. by returns.
Qed.
(** Assigning a value to itself. *)
Lemma Value_assign_self v w : stands w v -> triple (fp v) (Value_assign v v) (stands w) fp.
Proof.
  intros [Hv <-]. unfold Value_assign. step (Value_copy_triple v Hv).
  intros tmp [Htmp Ea]. rewrite swap_eq. step (Value_delete_triple v Hv) keeping (fp tmp).
  intros _ _. by returns.
Qed.
Lemma copy_triple v other w w' : stands w v -> stands w' other ->
  triple (fp v ⊎ fp other) (copy v other) (stands (JsonValue.copy w w')) (fun v' => fp v' ⊎ fp other).
Proof.
  intros [Hv Ev] [Ho Eo]. unfold copy, copyPayload.
  eapply (triple_bind _ _ (fp v ⊎ fp other) ∅ _ (fun d => ok d /\ payload (abs d) = payload w')
    (fun d => fp d ⊎ fp other)); [|by_count|].
  - step (Value_delete_triple v Hv) keeping (fp other). intros _ _.
    step (Value_copy_triple other Ho). intros d [Hd Ed].
    subst w'. rewrite <- Ed. returns; [by destruct d|]. rewrite fp_payload. by_count.
  - intros d [Hd Ed]. returns; [|unfold dupMeta; rewrite fp_payload; by_count].
    split; [by destruct d|]. unfold JsonValue.copy, JsonValue.copyPayload. rewrite <- Ed, <- Eo.
    by destruct d, other.
Qed.

(** ** Arrays and objects *)
Class Container (K : Type) `{KeyKind K} := {
  container_type : ValueType;
  container_payload : list (K * Value) -> Payload Value;
  container_inv v : ok v -> value_type_ v = container_type -> exists b m, value_ v = HMap b m;
  container_fp v b m : value_type_ v = container_type -> value_ v = HMap b m ->
    fp v = {[+ b +]} ⊎ entries_fp m;
  container_ok v b m : value_type_ v = container_type -> value_ v = HMap b m ->
    ok v <-> entries_ok stored m;
  container_abs v b m : value_type_ v = container_type -> value_ v = HMap b m ->
    abs v = mkValue (container_payload (abs_entries m)) (mcomments_ v) (mstart_ v) (mlimit_ v);
  container_inj m m' : container_payload m = container_payload m' -> m = m';
  container_payload_inv w : JsonValue.type w = container_type -> exists m, payload w = container_payload m;
  container_make : triple ∅ (Value_make container_type)
    (stands (JsonValue.Value_make container_type)) fp
}.
Ltac container :=
  first [intros [t a u c s l]; cbn; intros Hok ->; destruct u as [| | | |b m]; try done; by exists b, m
        |intros [t a u c s l] b m; cbn; by intros -> ->
        |by intros m m' [= ->]
        |intros [p c s l]; destruct p; try done; by eexists
        |step malloc_triple; intros b _; by returns].
#[export] Program Instance array_container : Container N :=
  {| container_type := TArray; container_payload := arrayValue |}.
Solve All Obligations with container.
#[export] Program Instance object_container : Container str :=
  {| container_type := TObject; container_payload := objectValue |}.
Solve All Obligations with container.
Lemma type_abs v : ok v -> JsonValue.type (abs v) = value_type_ v.
Proof. destruct v as [t a u c s l]. by destruct t, u. Qed.
Lemma null_fp v : value_type_ v = TNull -> fp v = ∅.
Proof. destruct v as [t a u c s l]. cbn. by intros ->. Qed.

(** ** Members *)
Lemma copy_null : triple ∅ (Value_copy nullSingleton) (stands JsonValue.nullSingleton) fp.
Proof. by returns. Qed.
(** An argument that is a key: it owns nothing, and its destructor does nothing. *)
Definition borrowed (k : CZString) : Prop := key_fp k = ∅ /\ CZ_delete k = ret tt.
Section Members.
Context {K : Type} `{Container K}.
Implicit Types m : list (CZString * MValue).

Lemma null_to_triple v w : stands w v ->
  triple (fp v) (null_to container_type v) (stands (JsonValue.null_to container_type w)) fp.
Proof.
  intros [Hv <-]. unfold null_to, JsonValue.null_to, isNull. rewrite (type_abs v Hv).
  case_decide as E; [rewrite bool_decide_true by done|rewrite bool_decide_false by done; by returns].
  step container_make keeping (fp v). intros tmp [Htmp Et]. unfold Value_move_assign. rewrite swap_eq.
  step (Value_delete_triple v Hv) keeping (fp tmp). intros _ _. by returns.
Qed.
Lemma null_to_type v w : stands w v -> is_null_or container_type v = true ->
  JsonValue.type (JsonValue.null_to container_type w) = container_type.
Proof.
  intros [Hv <-]. unfold is_null_or, JsonValue.null_to, isNull. rewrite (type_abs v Hv).
  destruct (decide (value_type_ v = TNull)) as [E|E].
  - intros _. rewrite bool_decide_true by done. by destruct container_type.
  - rewrite (bool_decide_false _ E). cbn [orb]. intros Ht%bool_decide_eq_true. by rewrite type_abs.
Qed.
Lemma insert_default_triple k m : usable k -> borrowed k -> entries_ok stored m ->
  map_find CZ_ltb k m = None ->
  triple (entries_fp m) (insert_default k m)
    (fun m' => entries_ok stored m' /\
       abs_entries m' = map_insert_new key_ltb (key_of k) JsonValue.nullSingleton (abs_entries m))
    entries_fp.
Proof.
  intros Hk [Hb _] Hm Hf. unfold insert_default.
  step (key_copy k Hk) keeping (entries_fp m); [rewrite Hb; by_count|]. rewrite Hb.
  intros k1 [Hk1 E1]. step copy_null keeping (key_fp k1 ⊎ entries_fp m).
  intros v1 [Hv1 Ev1]. step (key_copy k1 (stored_usable _ Hk1)) keeping (fp v1 ⊎ entries_fp m).
  intros k2 [Hk2 E2]. step (Value_copy_triple v1 Hv1) keeping (key_fp k1 ⊎ key_fp k2 ⊎ entries_fp m).
  intros v2 [Hv2 Ev2].
  destruct (insert_abs k2 v2 m Hk2 Hv2 Hm) as [Hm' Em'].
  pose proof (insert_fp k2 v2 m Hk2 Hm) as Hfp.
  rewrite <- find_abs in Hfp by auto using stored_usable.
  assert (map_find CZ_ltb k2 m = None) as Hf2.
  { pose proof (find_abs k m Hk Hm) as Ha. rewrite Hf in Ha.
    pose proof (find_abs k2 m (stored_usable _ Hk2) Hm) as Ha2.
    rewrite E2, E1, <- Ha in Ha2. by destruct (map_find CZ_ltb k2 m). }
  rewrite Hf2 in Hfp. specialize (Hfp eq_refl).
  step (Value_delete_triple v1 Hv1) keeping (key_fp k1 ⊎ entries_fp (map_insert_new CZ_ltb k2 v2 m));
    [rewrite Hfp; by_count|].
  intros _ _. step (key_delete k1 Hk1) keeping (entries_fp (map_insert_new CZ_ltb k2 v2 m)).
  intros _ _. returns. split; [done|]. by rewrite Em', E2, E1, Ev2, Ev1.
Qed.
(** [resolve_key]: the entry exists afterwards. *)
Lemma resolve_key_triple v k w : usable k -> borrowed k -> stands w v ->
  is_null_or container_type v = true ->
  exists m0 : list (K * Value), payload (JsonValue.null_to container_type w) = container_payload m0 /\
  triple (fp v) (resolve_key container_type v k)
    (fun v' => value_type_ v' = container_type /\
       stands (set_payload (JsonValue.null_to container_type w)
         (container_payload (map_insert_new key_ltb (key_of k) JsonValue.nullSingleton m0))) v')
    fp.
Proof.
  intros Hk Hb Hv Ht. pose proof (null_to_type v w Hv Ht) as Hw.
  pose proof (null_to_triple v w Hv) as Hn. set (w1 := JsonValue.null_to container_type w) in *.
  destruct (container_payload_inv w1 Hw) as [m0 Hm0].
  exists m0. split; [done|]. unfold resolve_key. step Hn. intros v1 [Hv1 E1].
  assert (value_type_ v1 = container_type) as Ht1 by (by rewrite <- Hw, <- E1, type_abs).
  destruct (container_inv v1 Hv1 Ht1) as (b & m & Hu). rewrite Hu.
  rewrite (container_fp v1 b m Ht1 Hu).
  assert (entries_ok stored m) as Hm by (by apply (container_ok v1 b m)).
  assert (m0 = abs_entries m) as ->.
  { apply container_inj. rewrite <- Hm0, <- E1, (container_abs v1 b m Ht1 Hu). done. }
  step live_triple keeping (entries_fp m). intros _ _.
  assert (triple (entries_fp m)
    match map_find CZ_ltb k m with Some _ => ret m | None => insert_default k m end
    (fun m' => entries_ok stored m' /\
       abs_entries m' = map_insert_new key_ltb (key_of k) JsonValue.nullSingleton (abs_entries m))
    entries_fp) as Hi.
  { destruct (map_find CZ_ltb k m) eqn:Ef; [|by apply insert_default_triple].
    returns. split; [done|]. symmetry. eapply map_insert_new_same. by rewrite <- find_abs, Ef. }
  step Hi keeping {[+ b +]}. intros m' [Hm' Em']. destruct Hb as [_ ->].
  eapply (triple_bind _ _ ∅ (entries_fp m' ⊎ {[+ b +]}) _ (fun _ => True) (fun _ => ∅)); [by returns|by_count|].
  intros _ _. returns; [|rewrite (container_fp _ b m') by done; by_count].
  split; [done|]. split; [by apply (container_ok _ b m')|].
  rewrite (container_abs _ b m') by done. rewrite Em', <- E1, (container_abs v1 b m Ht1 Hu). done.
Qed.
(** What is done to an entry through its reference; [G] are the blocks that go in. *)
Lemma at_key_triple {B} v k w (m1 : list (K * Value)) w0 (f : MValue -> M (MValue * B)) G
    (Q : Value -> B -> Prop) fB :
  usable k -> stands w v -> value_type_ v = container_type -> payload w = container_payload m1 ->
  map_find key_ltb (key_of k) m1 = Some w0 ->
  (forall v0, stands w0 v0 ->
    triple (fp v0 ⊎ G) (f v0) (fun r => ok r.1 /\ Q (abs r.1) r.2) (fun r => fp r.1 ⊎ fB r.2)) ->
  triple (fp v ⊎ G) (at_key k f v)
    (fun r => exists w', Q w' r.2 /\
       stands (set_payload w (container_payload (map_upd key_ltb (key_of k) (fun _ => w') m1))) r.1)
    (fun r => fp r.1 ⊎ fB r.2).
Proof.
  intros Hk [Hv <-] Ht Hm1 Hf Hspec. destruct (container_inv v Hv Ht) as (b & m & Hu).
  unfold at_key. rewrite Hu, (container_fp v b m Ht Hu). pose proof (container_abs v b m Ht Hu) as Ha.
  assert (entries_ok stored m) as Hm by (by apply (container_ok v b m)).
  assert (m1 = abs_entries m) as -> by (apply container_inj; by rewrite <- Hm1, Ha).
  rewrite <- find_abs in Hf by done. destruct (map_find CZ_ltb k m) as [v0|] eqn:Ef; [|done].
  injection Hf as Hw0. step live_triple keeping (entries_fp m ⊎ G). intros _ _.
  step (updM_triple k v0 m f G (fun r => Q (abs r.1) r.2) fB Hk Hm Ef) keeping {[+ b +]}.
  { apply Hspec. split; [by apply (find_ok k m)|done]. }
  intros [m' x] (Hm' & v' & HQ & Em'). cbn [fst snd] in *.
  returns; [|cbn [fst snd]; rewrite (container_fp _ b m') by done; by_count].
  exists (abs v'). split; [done|]. cbn [fst]. split; [by apply (container_ok _ b m')|].
  rewrite (container_abs _ b m') by done. by rewrite Em', Ha.
Qed.
End Members.

(** ** The operations of the class *)
Lemma to_nat_len (s : str) : N.to_nat (len s) = length s.
Proof. apply Nat2N.id. Qed.
Lemma key_for_usable key policy : (policy < 4)%N -> policy <> duplicate ->
  usable_name (key_for key policy) /\ CZ_text (key_for key policy) = JsonValue.CZString key /\
  borrowed (key_for key policy).
Proof.
  intros H4 Hp. unfold key_for. destruct (CZ_make_fields (Static key) (unsigned (len key)) policy
    H4) as [Ep El].
  assert (unsigned (len key) mod 2 ^ 30 = len key mod 2 ^ 30)%N as Eu.
  { unfold unsigned, wrap_u. apply N2Z.inj. rewrite N2Z.inj_mod, Z2N.id by (apply Z.mod_pos_bound; done).
    rewrite N2Z.inj_mod. apply Z.mod_mod_divide. by exists 4. }
  rewrite Eu in El. split; [|split].
  - split; [split; [done|]|by rewrite Ep]. rewrite El. split; [by apply N.mod_lt|]. by apply N.Div0.mod_le.
  - unfold CZ_text. by rewrite El.
  - split; [done|]. unfold CZ_delete. rewrite Ep. cbn. by destruct (N.eqb_spec policy duplicate).
Qed.
Lemma is_null_or_abs t v w : stands w v ->
  is_null_or t v = bool_decide (JsonValue.type w = TNull) || bool_decide (JsonValue.type w = t).
Proof. intros [Hv <-]. unfold is_null_or. by rewrite type_abs. Qed.

(** An operation refines its counterpart on values: it throws the same, or returns a value that
    stands for the same. *)
Definition refines {A B} (P : blocks) (m : M A) (o : outcome B) (Q : B -> A -> Prop) (R : A -> blocks) : Prop :=
  forall F h, owned (P ⊎ F) h ->
  match o with
  | Ret b => exists a h', m h = Ret (a, h') /\ Q b a /\ owned (R a ⊎ F) h'
  | Throw e => m h = Throw e
  | OutOfFuel => False
  end.
Lemma refines_ret {A B} P (m : M A) (b : B) (Q : B -> A -> Prop) R :
  triple P m (Q b) R -> refines P m (Ret b) Q R.
Proof. done. Qed.
(** ** Refinement of sequences *)
Section Refinement.
Context {A B A' B' : Type}.
Lemma refines_bind (m : M A) (o : outcome B) (k : A -> M A') (ko : B -> outcome B')
    P G P' (Q : B -> A -> Prop) R (Q' : B' -> A' -> Prop) R' :
  refines P m o Q R -> P' = P ⊎ G ->
  (forall b a, Q b a -> refines (R a ⊎ G) (k a) (ko b) Q' R') ->
  refines P' (bind m k) (let! b := o in ko b) Q' R'.
Proof.
  intros Hm -> Hk F h Ho. rewrite <- (assoc_L (⊎)) in Ho. specialize (Hm _ h Ho).
  destruct o as [b|e|]; cbn; [|by unfold bind; rewrite Hm|done].
  destruct Hm as (a & h1 & Ha & HQ & Ho1). rewrite (assoc_L (⊎)) in Ho1.
  specialize (Hk b a HQ _ h1 Ho1). unfold bind. by rewrite Ha.
Qed.
(** A first computation that cannot throw. *)
Lemma refines_step (m : M A) (k : A -> M A') (o : outcome B') P G P' (Q : A -> Prop) R
    (Q' : B' -> A' -> Prop) R' :
  triple P m Q R -> P' = P ⊎ G -> (forall a, Q a -> refines (R a ⊎ G) (k a) o Q' R') ->
  refines P' (bind m k) o Q' R'.
Proof.
  intros Hm -> Hk F h Ho. rewrite <- (assoc_L (⊎)) in Ho.
  destruct (Hm _ h Ho) as (a & h1 & Ha & HQ & Ho1). rewrite (assoc_L (⊎)) in Ho1.
  specialize (Hk a HQ _ h1 Ho1). unfold bind. by rewrite Ha.
Qed.
End Refinement.
Lemma refines_result {A B} (a : A) (b : B) P (Q : B -> A -> Prop) R :
  Q b a -> R a = P -> refines P (ret a) (Ret b) Q R.
Proof. intros HQ HR. apply refines_ret. by apply triple_ret. Qed.
Lemma resolveReference_refines v w key : stands w v ->
  refines (fp v) (resolveReference v key) (JsonValue.resolveReference w key)
    (fun w' v' => stands w' v' /\ value_type_ v' = TObject) fp.
Proof.
  intros Hs. unfold resolveReference, JsonValue.resolveReference, json_assert, isNull, isObject.
  pose proof (is_null_or_abs TObject v w Hs) as Ht. rewrite <- Ht.
  destruct (is_null_or TObject v) eqn:E; [|done].
  destruct (key_for_usable key duplicateOnCopy eq_refl ltac:(done)) as (Hk & Ek & Hb).
  destruct (resolve_key_triple (K := str) v (key_for key duplicateOnCopy) w) as (m0 & Hm0 & Htr); [done..|].
  change container_type with TObject in *. change container_payload with (@objectValue Value) in *.
  cbv zeta. rewrite Hm0. apply refines_ret. eapply triple_weaken; [exact Htr|]. cbn beta.
  change (key_of (key_for key duplicateOnCopy)) with (CZ_text (key_for key duplicateOnCopy)). rewrite Ek.
  intros v' [H1 H2]. done.
Qed.
Lemma index_ref_refines v w i : stands w v ->
  refines (fp v) (index_ref v i) (JsonValue.index_ref w i)
    (fun w' v' => stands w' v' /\ value_type_ v' = TArray) fp.
Proof.
  intros Hs. unfold index_ref, JsonValue.index_ref, json_assert, isNull, isArray.
  pose proof (is_null_or_abs TArray v w Hs) as Ht. rewrite <- Ht.
  destruct (is_null_or TArray v) eqn:E; [|done].
  destruct (resolve_key_triple (K := N) v (CZ_index i) w) as (m0 & Hm0 & Htr); [done..|].
  change container_type with TArray in *. change container_payload with (@arrayValue Value) in *.
  cbv zeta. rewrite Hm0. apply refines_ret. eapply triple_weaken; [exact Htr|]. intros v' [H1 H2]. done.
Qed.
Lemma size_abs v w : stands w v -> size v = JsonValue.size w.
Proof.
  intros [Hv <-]. destruct v as [t a u c s l]. destruct t, u as [| | |p|b m]; cbn in Hv; try done.
  - rewrite (container_abs (K := N) _ b m) by done. cbn. unfold abs_entries. rewrite <- map_rev.
    by destruct (rev m) as [|[k v] r].
  - rewrite (container_abs (K := str) _ b m) by done. cbn. unfold abs_entries. by rewrite length_map.
Qed.

Lemma map_erase_upd {K V} (ltb : K -> K -> bool) k f (m : list (K * V)) :
  map_erase ltb k (map_upd ltb k f m) = map_erase ltb k m.
Proof.
  induction m as [|[k' v] m IH]; [done|]. cbn. destruct (ltb k' k) eqn:E; cbn; [by rewrite E, IH|].
  destruct (ltb k k') eqn:E2; cbn; by rewrite E, E2.
Qed.
(** What an object is, and what holds of any object with that map. *)
Definition object_map (v : MValue) (b : loc) (m : list (CZString * MValue)) : Prop :=
  value_ v = HMap b m /\ fp v = {[+ b +]} ⊎ entries_fp m /\ entries_ok (@stored str name_keys) m /\
  payload (abs v) = objectValue (abs_entries (K := str) m).
Lemma object_view v : ok v -> value_type_ v = TObject -> exists b m, object_map v b m.
Proof.
  intros Hv Ht. destruct (container_inv (K := str) v) as (b & m & Hu); [done..|]. exists b, m.
  split; [done|]. split; [by apply (container_fp (K := str))|].
  split; [by apply (container_ok (K := str) v b m)|]. by rewrite (container_abs (K := str) v b m).
Qed.
Lemma object_set_map v b m : value_type_ v = TObject -> entries_ok (@stored str name_keys) m ->
  fp (set_map v b m) = {[+ b +]} ⊎ entries_fp m /\
  stands (set_payload (abs v) (objectValue (abs_entries (K := str) m))) (set_map v b m).
Proof.
  intros Ht Hm. split; [by apply (container_fp (K := str))|].
  split; [by apply (container_ok (K := str) _ b m)|].
  rewrite (container_abs (K := str) _ b m) by done. by destruct v.
Qed.

(** [removeMember] with a [removed], which takes the member and leaves its own value to the
    destructor. *)
Definition removed_as (o : option Value * Value) (w : Value) (r : bool * MValue * MValue) : Prop :=
  r.1.1 = match o.1 with Some _ => true | None => false end /\
  stands o.2 r.1.2 /\ stands (default w o.1) r.2.
Lemma removeMember_triple v key removed w wr : stands w v -> stands wr removed ->
  triple (fp v ⊎ fp removed) (removeMember v key removed)
    (removed_as (JsonValue.removeMember w key) wr) (fun r => fp r.1.2 ⊎ fp r.2).
Proof.
  intros [Hv <-] Hr. pose proof (type_abs v Hv) as Htype. unfold JsonValue.removeMember.
  destruct (decide (value_type_ v = TObject)) as [Ht|Ht].
  2:{ unfold removeMember. destruct (payload (abs v)) eqn:Ep;
        unfold type in Htype; rewrite Ep in Htype; rewrite <- Htype in *; try done; by returns. }
  destruct (object_view v Hv Ht) as (b & m & Hu & Hfp & Hm & Ha).
  unfold removeMember. rewrite Ht, Hu, Hfp.
  destruct (key_for_usable key noDuplication eq_refl ltac:(done)) as (Hk & Ek & _ & Hb).
  set (k := key_for key noDuplication) in *. change (usable_name k) with (@usable str name_keys k) in Hk.
  pose proof (find_abs (K := str) k m Hk Hm) as Hf.
  change (key_of k) with (CZ_text k) in Hf. change key_ltb with CZString_ltb in Hf. rewrite Ek in Hf.
  rewrite Ha, <- Hf, Hb.
  step live_triple keeping (entries_fp m ⊎ fp removed). intros _ _.
  destruct (map_find CZ_ltb k m) as [it|] eqn:E; cbn [option_map].
  2:{ eapply (triple_bind _ _ ∅ ({[+ b +]} ⊎ entries_fp m ⊎ fp removed) _ (fun _ => True) (fun _ => ∅));
        [by returns|by_count|].
      intros _ _. returns; [by split; [|split; [split|]]|].
      cbn [fst snd]. rewrite Hfp. by_count. }
  unfold Value_move_assign. rewrite swap_eq. destruct Hr as [Hr Er].
  destruct (upd_abs (H := name_keys) k it removed m Hk Hm Hr E) as (Hm' & Em' & Efp).
  pose proof (eraseM_triple k _ Hk Hm') as He. rewrite Em', map_erase_upd in He.
  eapply (triple_bind _ _ _ ({[+ b +]} ⊎ fp it)); [exact He| |].
  { pose proof Efp as Efp'. apply (f_equal (fun P => P ⊎ {[+ b +]})) in Efp'.
    rewrite <- (assoc_L (⊎)), (comm_L (⊎) (fp it)) in Efp'. rewrite Efp'. by_count. }
  intros m' [Hm'' Em'']. cbn beta.
  destruct (object_set_map v b m' Ht Hm'') as [Hfp' Hs'].
  eapply (triple_bind _ _ ∅ (entries_fp m' ⊎ ({[+ b +]} ⊎ fp it)) _ (fun _ => True) (fun _ => ∅));
    [by returns|by_count|].
  intros _ _. returns; [|cbn [fst snd]; rewrite Hfp'; by_count].
  split; [done|]. split; cbn [fst snd]; [|split; [by apply (find_ok k m)|done]].
  rewrite Em'' in Hs'. change (key_of k) with (CZ_text k) in Hs'. by rewrite Ek in Hs'.
Qed.

(** [clear]: the entries go, the map stays. *)
Section Clear.
Context {K : Type} `{Container K}.
Lemma clear_container v t : ok v -> value_type_ v = container_type -> t = value_type_ v ->
  triple (fp v) (match value_ v with
     | HMap b m => do! _ := live b in do! _ := delete_entries m in
         ret (mkM t (allocated_ v) (HMap b []) (mcomments_ v) 0 0)
     | _ => fail undefined end)
    (stands (mkValue (container_payload []) (comments_ (abs v)) 0 0)) fp.
Proof.
  intros Hv Ht ->. destruct (container_inv v Hv Ht) as (b & m & Hu). rewrite Hu, (container_fp v b m Ht Hu).
  assert (entries_ok stored m) as Hm by (by apply (container_ok v b m)).
  step live_triple keeping (entries_fp m). intros _ _.
  assert (Forall (fun kv => deletes kv.2) m) as Hd.
  { apply Forall_forall. intros kv _. apply Value_delete_triple. }
  step (delete_entries_triple m Hm Hd) keeping {[+ b +]}. intros _ _.
  returns; [|rewrite (container_fp _ b []) by done; by_count].
  split; [by apply (container_ok _ b [])|]. rewrite (container_abs _ b []) by done.
  by rewrite (container_abs v b m).
Qed.
End Clear.
Lemma clear_refines v w : stands w v -> refines (fp v) (clear v) (JsonValue.clear w) stands fp.
Proof.
  intros [Hv <-]. pose proof (type_abs v Hv) as Ht.
  unfold JsonValue.clear, json_assert, isNull, isArray, isObject, clear. rewrite Ht.
  unfold type in Ht. destruct (payload (abs v)) eqn:Ep; rewrite <- Ht; try done; apply refines_ret.
  - returns; [|rewrite !null_fp by done; done]. destruct v as [[] a u c s l], u; done.
  - exact (clear_container (K := N) v TArray Hv (eq_sym Ht) Ht).
  - exact (clear_container (K := str) v TObject Hv (eq_sym Ht) Ht).
Qed.
(** Values made from strings. *)
Lemma Value_String_refines s : refines ∅ (Value_String s) (JsonValue.Value_String s) stands fp.
Proof.
  unfold Value_String, JsonValue.Value_String, JsonValue.duplicateAndPrefixStringValue, json_assert,
    duplicateAndPrefixStringValue, unsigned.
  assert (0 <= wrap_u 32 (Z.of_N (len s))) as H0 by (by apply Z.mod_pos_bound).
  assert (wrap_u 32 (Z.of_N (len s)) <= Z.of_N (len s)) as H1 by (apply Z.mod_le; lia).
  rewrite Z2N.id by done. set (n := wrap_u 32 (Z.of_N (len s))) in *.
  destruct (n <=? maxInt - 4 - 1) eqn:E; cbn [negb]; [|done].
  apply Z.leb_le in E. change (triple ∅
    (do! p := do! l := malloc in ret (Block l (le32 (Z.to_N n) ++ take (N.to_nat (Z.to_N n)) s ++ [NUL]))
     in ret (initBasic TString true (HString p)))
    (stands (JsonValue.initBasic (stringValue (take (Z.to_nat n) s)))) fp).
  set (t := take (Z.to_nat n) s). assert (len t = Z.to_N n) as Hlen.
  { unfold t, len in *. rewrite length_take. lia. }
  rewrite Z_N_nat. fold t. rewrite <- Hlen.
  eapply (triple_bind _ _ ∅ ∅ _ (prefixed t) ptr_fp); [|by_count|].
  { step malloc_triple. intros l _. returns. by exists l. }
  intros p (l & ->). assert (len t <= Z.to_N (maxInt - 5))%N as Hmax by lia.
  returns; [|unfold initBasic; by_count]. split; [by exists l, t|].
  unfold abs. cbn. unfold JsonValue.initBasic. do 2 f_equal. by apply prefixed_text.
Qed.

(** ** Entries that are read, and loops over elements *)
Lemma find_split k m it : map_find CZ_ltb k m = Some it -> exists G, entries_fp m = fp it ⊎ G.
Proof.
  induction m as [|[k' v] m IH]; [done|]. cbn [map_find].
  change (entries_fp ((k', v) :: m)) with (key_fp k' ⊎ fp v ⊎ entries_fp m).
  destruct (CZ_ltb k' k).
  - intros (G & ->)%IH. exists (key_fp k' ⊎ fp v ⊎ G). by_count.
  - destruct (CZ_ltb k k'); [done|]. intros [= ->]. exists (key_fp k' ⊎ entries_fp m). by_count.
Qed.
Definition option_fp (o : option MValue) : blocks := match o with Some c => fp c | None => ∅ end.
Definition option_stands (o : option Value) (o' : option MValue) : Prop :=
  match o, o' with Some w, Some v => stands w v | None, None => True | _, _ => False end.

(** [v] is an array (an object) with the entries [m], and with the comments and offsets of [w]. *)
Section Holds.
Context {K : Type} `{Container K}.
Definition holds (w : Value) (m : list (K * Value)) (v : MValue) : Prop :=
  stands (set_payload w (container_payload m)) v /\ value_type_ v = container_type.
Lemma holds_view w m1 v : holds w m1 v -> exists b m, value_ v = HMap b m /\
  fp v = {[+ b +]} ⊎ entries_fp m /\ entries_ok stored m /\ m1 = abs_entries m.
Proof.
  intros [[Hv Ha] Ht]. destruct (container_inv v Hv Ht) as (b & m & Hu). exists b, m.
  split; [done|]. split; [by apply container_fp|]. split; [by apply (container_ok v b m)|].
  rewrite (container_abs v b m Ht Hu) in Ha. apply container_inj. symmetry.
  exact (f_equal payload Ha).
Qed.
Lemma holds_set_map w m1 v b m : holds w m1 v -> entries_ok stored m ->
  fp (set_map v b m) = {[+ b +]} ⊎ entries_fp m /\ holds w (abs_entries m) (set_map v b m).
Proof.
  intros [[Hv Ha] Ht] Hm. split; [by apply container_fp|]. split; [|done].
  split; [by apply (container_ok _ b m)|]. rewrite (container_abs _ b m) by done.
  destruct (container_inv v Hv Ht) as (b' & m' & Hu).
  rewrite (container_abs v b' m' Ht Hu) in Ha. destruct w. cbn in *. by injection Ha as _ -> -> ->.
Qed.
Lemma copy_entry_triple w m1 v k : usable k -> holds w m1 v ->
  triple (fp v) (copy_entry k v) (option_stands (map_find key_ltb (key_of k) m1))
    (fun o => option_fp o ⊎ fp v).
Proof.
  intros Hk Hh. destruct (holds_view w m1 v Hh) as (b & m & Hu & Hfp & Hm & ->).
  unfold copy_entry. rewrite Hu, Hfp. step live_triple keeping (entries_fp m). intros _ _.
  rewrite <- find_abs by done. destruct (map_find CZ_ltb k m) as [it|] eqn:E; [|returns;
    [done|cbn [option_fp]; by_count]].
  destruct (find_split k m it E) as (G & EG).
  step (Value_copy_triple it (find_ok k m it Hm E)) keeping ({[+ b +]} ⊎ G); [rewrite EG; by_count|].
  intros c Hc. returns; [done|]. cbn [option_fp]. rewrite EG. by_count.
Qed.
Lemma map_subscript_triple k m : usable k -> borrowed k -> entries_ok stored m ->
  triple (entries_fp m) (map_subscript k m)
    (fun m' => entries_ok stored m' /\
       abs_entries m' = map_insert_new key_ltb (key_of k) JsonValue.nullSingleton (abs_entries m))
    entries_fp.
Proof.
  intros Hk [Hb _] Hm. unfold map_subscript. pose proof (find_abs k m Hk Hm) as Hf.
  destruct (map_find CZ_ltb k m) as [it|] eqn:E.
  - returns. split; [done|]. symmetry. eapply map_insert_new_same. by rewrite <- Hf.
  - step (key_copy k Hk) keeping (entries_fp m); [rewrite Hb; by_count|]. rewrite Hb.
    intros k1 [Hk1 E1].
    eapply (triple_bind _ _ ∅ (key_fp k1 ⊎ entries_fp m) _ (stands JsonValue.nullSingleton) fp);
      [by returns|by_count|]. intros v [Hv Ev].
    destruct (insert_abs k1 v m Hk1 Hv Hm) as [Hm' Em'].
    returns; [split; [done|by rewrite Em', E1, Ev]|].
    rewrite insert_fp by (done || by rewrite E1, <- Hf). by_count.
Qed.
Lemma erase_key_triple w m1 v k b m : usable k -> borrowed k -> holds w m1 v -> value_ v = HMap b m ->
  triple (fp v)
    (do! _ := live b in do! m := map_eraseM k m in do! _ := CZ_delete k in ret (set_map v b m))
    (holds w (map_erase key_ltb (key_of k) m1)) fp.
Proof.
  intros Hk [_ Hb] Hh Hu. destruct (holds_view w m1 v Hh) as (b' & m' & Hu' & Hfp & Hm & ->).
  rewrite Hu in Hu'. injection Hu' as <- <-. rewrite Hfp, Hb.
  step live_triple keeping (entries_fp m). intros _ _.
  step (eraseM_triple k m Hk Hm) keeping {[+ b +]}. intros m' [Hm' Em'].
  destruct (holds_set_map w _ v b m' Hh Hm') as [Hfp' Hh'].
  eapply (triple_bind _ _ ∅ (entries_fp m' ⊎ {[+ b +]}) _ (fun _ => True) (fun _ => ∅)); [by returns|by_count|].
  intros _ _. rewrite Em' in Hh'. returns; [done|]. rewrite Hfp'. by_count.
Qed.
End Holds.

(** *** Elements *)
Lemma map_find_insert_below {K V} (ltb : K -> K -> bool) `{!StrictTotal ltb} k (d : V) k' m :
  ltb k k' = true -> map_find ltb k' (map_insert_new ltb k d m) = map_find ltb k' m.
Proof.
  intros Hlt. induction m as [|[k1 v1] m IH]; cbn; [by rewrite Hlt|].
  destruct (ltb k1 k) eqn:E1; cbn.
  { by rewrite (ltb_trans _ _ _ E1 Hlt). }
  destruct (ltb k k1); cbn; [by rewrite Hlt|done].
Qed.
Lemma index_usable i : @usable N index_keys (CZ_index i) /\ borrowed (CZ_index i).
Proof. done. Qed.
Lemma index_ref_holds w m1 v i : holds (K := N) w m1 v ->
  triple (fp v) (index_ref v i) (holds w (map_insert_new N.ltb i JsonValue.nullSingleton m1)) fp.
Proof.
  intros [Hs Ht]. pose proof (index_ref_refines v _ i Hs) as Hr. destruct w. exact Hr.
Qed.
(** The rest of an assignment through a reference. *)
Lemma assign_entry tmp w0 wo : stands wo tmp -> forall c, stands w0 c ->
  triple (fp c ⊎ fp tmp) (assign_tail tmp c) (fun r => ok r.1 /\ abs r.1 = wo) (fun r => fp r.1 ⊎ ∅).
Proof.
  intros [Ht <-] c [Hc _]. unfold assign_tail. rewrite swap_eq.
  step (Value_delete_triple c Hc) keeping (fp tmp). intros _ _. by returns.
Qed.
Lemma shift_left_triple w m1 v i : holds (K := N) w m1 v ->
  triple (fp v) (shift_left v i) (holds w (JsonValue.shift_left m1 i)) fp.
Proof.
  intros Hh. unfold shift_left, JsonValue.shift_left.
  destruct (map_find_insert_same N.ltb (i + 1)%N JsonValue.nullSingleton m1) as [wn Hn].
  step (index_ref_holds w m1 v (i + 1) Hh). intros v1 Hh1.
  set (m2 := map_insert_new N.ltb (i + 1)%N JsonValue.nullSingleton m1) in *. rewrite Hn. cbn [default].
  destruct (holds_view w m2 v1 Hh1) as (b & m & Hu & Hfp & Hm & Em). rewrite Hu, Hfp.
  step live_triple keeping (entries_fp m). intros _ _.
  destruct (index_usable i) as [Hk Hb].
  step (map_subscript_triple (CZ_index i) m Hk Hb Hm) keeping {[+ b +]}. intros m' [Hm' Em'].
  destruct (holds_set_map w m2 v1 b m' Hh1 Hm') as [Hfp' Hh']. rewrite Em', <- Em in Hh'.
  change (key_of (CZ_index i)) with i in Hh'. change (@key_ltb N index_keys) with N.ltb in Hh'.
  set (m3 := map_insert_new N.ltb i JsonValue.nullSingleton m2) in *.
  assert (map_find N.ltb (i + 1)%N m3 = Some wn) as Hn'.
  { unfold m3. rewrite (map_find_insert_below N.ltb) by (apply N.ltb_lt; lia). done. }
  destruct (map_find_insert_same N.ltb i JsonValue.nullSingleton m2) as [w0 H0]. fold m3 in H0.
  eapply (triple_bind _ _ (fp (set_map v1 b m')) ∅);
    [apply (copy_entry_triple (K := N) w m3 _ (CZ_index (i + 1))); done|rewrite Hfp'; by_count|].
  change (key_of (CZ_index (i + 1))) with (i + 1)%N. change (@key_ltb N index_keys) with N.ltb. rewrite Hn'.
  intros [tmp|]; [|done]. cbn [option_stands option_fp]. intros Htmp.
  eapply (triple_bind _ _ (fp (set_map v1 b m') ⊎ fp tmp) ∅ _
    (fun r => exists w', w' = wn /\ stands (set_payload (set_payload w (arrayValue m3))
       (arrayValue (map_upd N.ltb i (fun _ => w') m3))) r.1) (fun r => fp r.1 ⊎ ∅)).
  { destruct Hh' as [Hs' Ht'].
    refine (at_key_triple (K := N) (set_map v1 b m') (CZ_index i) _ m3 w0 (assign_tail tmp) (fp tmp)
      (fun w' _ => w' = wn) (fun _ => ∅) _ _ _ _ _ _); try done. by apply assign_entry. }
  { by_count. }
  intros [v2 []] (w' & -> & Hs2). cbn [fst] in *.
  destruct (index_usable i) as [_ [_ ->]].
  eapply (triple_bind _ _ ∅ (fp v2) _ (fun _ => True) (fun _ => ∅)); [by returns|by_count|].
  intros _ _. returns. destruct w. split; [exact Hs2|].
  destruct Hs2 as [Hv2 Ha2]. rewrite <- (type_abs v2 Hv2), Ha2. done.
Qed.
Lemma repeatM_triple (f : MValue -> N -> M MValue) (g : list (N * Value) -> N -> list (N * Value)) w :
  (forall m1 v i, holds (K := N) w m1 v -> triple (fp v) (f v i) (holds w (g m1 i)) fp) ->
  forall l m1 v, holds w m1 v -> triple (fp v) (repeatM f v l) (holds w (fold_left g l m1)) fp.
Proof.
  intros Hf l. induction l as [|i l IH]; intros m1 v Hh; [by returns|].
  cbn [repeatM fold_left]. step (Hf m1 v i Hh). intros v' Hh'. rewrite (right_id_L ∅ (⊎)). by apply IH.
Qed.
Lemma erase_index_triple w m1 v i : holds (K := N) w m1 v ->
  triple (fp v) (erase_index v i) (holds w (map_erase N.ltb i m1)) fp.
Proof.
  intros Hh. destruct (holds_view w m1 v Hh) as (b & m & Hu & _).
  unfold erase_index. rewrite Hu.
  exact (erase_key_triple (K := N) w m1 v (CZ_index i) b m eq_refl (conj eq_refl eq_refl) Hh Hu).
Qed.
Lemma array_holds w v m : stands w v -> payload w = arrayValue m -> holds (K := N) w m v.
Proof.
  intros [Hv <-] Hp. split; [|rewrite <- (type_abs v Hv); unfold type; by rewrite Hp].
  split; [done|]. destruct (abs v). cbn in *. by rewrite Hp.
Qed.
Lemma removeIndex_triple v index removed w wr : stands w v -> stands wr removed ->
  triple (fp v ⊎ fp removed) (removeIndex v index removed)
    (removed_as (JsonValue.removeIndex w index) wr) (fun r => fp r.1.2 ⊎ fp r.2).
Proof.
  intros Hs Hr. unfold JsonValue.removeIndex. pose proof (type_abs v (proj1 Hs)) as Htype.
  rewrite (proj2 Hs) in Htype. unfold type in Htype.
  destruct (payload w) as [| | | | | |m1|] eqn:Ep.
  1-6,8: unfold removeIndex; rewrite <- Htype; by returns.
  pose proof (array_holds w v m1 Hs Ep) as Hh.
  destruct (holds_view w m1 v Hh) as (b & m & Hu & Hfp & Hm & Em).
  unfold removeIndex. rewrite <- Htype, Hu, Hfp.
  step live_triple keeping (entries_fp m ⊎ fp removed). intros _ _.
  pose proof (find_abs (K := N) (CZ_index index) m eq_refl Hm) as Hf.
  change (key_of (CZ_index index)) with index in Hf. change (@key_ltb N index_keys) with N.ltb in Hf.
  rewrite <- Em in Hf. rewrite <- Hf.
  destruct (map_find CZ_ltb (CZ_index index) m) as [it|] eqn:E; cbn [option_map].
  2:{ returns; [done|]. cbn [fst snd]. rewrite Hfp. by_count. }
  destruct (find_split _ m it E) as (G & EG). destruct Hr as [Hr Er].
  step (Value_assign_triple removed it (abs it) Hr) keeping ({[+ b +]} ⊎ G);
    [split; [exact (find_ok (CZ_index index) m it Hm E)|done]|rewrite EG; by_count|].
  intros removed' Hr'. cbv zeta. rewrite (size_abs v w Hs).
  eapply (triple_bind _ _ (fp v) (fp removed'));
    [by apply (repeatM_triple _ JsonValue.shift_left w), Hh; intros; apply shift_left_triple| |].
  { rewrite Hfp, EG. by_count. }
  intros v1 Hh1.
  eapply (triple_bind _ _ (fp v1) (fp removed')); [by apply (erase_index_triple w)|by_count|]. intros v2 Hh2.
  eapply (triple_bind _ _ ∅ (fp v2 ⊎ fp removed') _ (fun _ => True) (fun _ => ∅)); [by returns|by_count|].
  intros _ _. returns. split; [done|]. split; [exact (proj1 Hh2)|done].
Qed.
Lemma resize_refines v w n : stands w v -> refines (fp v) (resize v n) (JsonValue.resize w n) stands fp.
Proof.
  intros Hs. unfold resize, JsonValue.resize, json_assert, isNull, isArray.
  rewrite <- (is_null_or_abs TArray v w Hs). destruct (is_null_or TArray v) eqn:E; [|done]. cbv zeta.
  pose proof (null_to_type (K := N) v w Hs E) as Ht.
  eapply refines_step; [exact (null_to_triple (K := N) v w Hs)|by rewrite (right_id_L ∅ (⊎))|].
  change (@container_type N index_keys array_container) with TArray in *.
  set (w1 := JsonValue.null_to TArray w) in *. clearbody w1. unfold type in Ht.
  destruct (payload w1) as [| | | | | |m1|] eqn:Ep; try done. clear Ht Hs E v.
  intros v Hs. rewrite (right_id_L ∅ (⊎)), (size_abs v w1 Hs).
  destruct (n =? 0)%N; [by apply clear_refines|]. destruct (JsonValue.size w1 <? n)%N.
  - intros F h Ho. pose proof (index_ref_refines v w1 (n - 1) Hs F h Ho) as Hr.
    destruct (JsonValue.index_ref w1 (n - 1)); [|exact Hr|exact Hr].
    destruct Hr as (v' & h' & H1 & [H2 _] & H3). by exists v', h'.
  - pose proof (array_holds w1 v m1 Hs Ep) as Hh.
    eapply refines_step; [exact (repeatM_triple erase_index _ w1 (erase_index_triple w1)
      (indices_between n (JsonValue.size w1)) m1 v Hh)
      |by rewrite (right_id_L ∅ (⊎))|].
    intros v' [Hs' _]. rewrite (right_id_L ∅ (⊎)), (size_abs v' _ Hs').
    change (container_payload ?m) with (@arrayValue Value m).
    case_match; [|done]. by apply refines_result.
Qed.

(** *** Members *)
Lemma object_holds w v m : stands w v -> payload w = objectValue m -> holds (K := str) w m v.
Proof.
  intros [Hv <-] Hp. split; [|rewrite <- (type_abs v Hv); unfold type; by rewrite Hp].
  split; [done|]. destruct (abs v). cbn in *. by rewrite Hp.
Qed.
(** A value that may have members: null, or an object. *)
Lemma null_or_object v w : stands w v -> is_null_or TObject v = true ->
  (value_type_ v = TNull /\ payload w = nullValue) \/
  (value_type_ v <> TNull /\ exists m, payload w = objectValue m /\ holds (K := str) w m v).
Proof.
  intros Hs E. pose proof (type_abs v (proj1 Hs)) as Ht. rewrite (proj2 Hs) in Ht. unfold is_null_or in E.
  unfold type in Ht. destruct (payload w) as [| | | | | | |m] eqn:Ep; rewrite <- Ht in *; try done; [by left|].
  right. split; [done|]. exists m. split; [done|]. by apply object_holds.
Qed.
Lemma removeMember_cstr_refines v w key : stands w v ->
  refines (fp v) (removeMember_cstr v key) (JsonValue.removeMember_cstr w key) stands fp.
Proof.
  intros Hs. unfold removeMember_cstr, JsonValue.removeMember_cstr, json_assert, isNull, isObject.
  rewrite <- (is_null_or_abs TObject v w Hs). destruct (is_null_or TObject v) eqn:E; [|done].
  destruct (null_or_object v w Hs E) as [[Ht Hp]|(Ht & m1 & Hp & Hh)]; rewrite Hp.
  { rewrite decide_True by done. by apply refines_result. }
  rewrite decide_False by done. destruct (holds_view w m1 v Hh) as (b & m & Hu & _). rewrite Hu.
  destruct (key_for_usable (c_str key) noDuplication eq_refl ltac:(done)) as (Hk & Ek & Hb).
  apply refines_ret. cbv zeta. pose proof (erase_key_triple (K := str) w m1 v _ b m Hk Hb Hh Hu) as Htr.
  eapply triple_weaken; [exact Htr|]. intros v' [Hs' _]. split; [|done].
  change (key_of ?k) with (CZ_text k) in Hs'. by rewrite Ek in Hs'.
Qed.
Lemma get_refines v w key d wd G : stands w v -> stands wd d ->
  (exists G', G = fp v ⊎ G') -> (exists G', G = fp d ⊎ G') ->
  refines G (get v key d) (JsonValue.get w key wd) stands (fun c => fp c ⊎ G).
Proof.
  intros Hs Hd [G1 E1] [G2 E2]. unfold get, JsonValue.get, JsonValue.find, json_assert, isNull, isObject.
  rewrite <- (is_null_or_abs TObject v w Hs). destruct (is_null_or TObject v) eqn:E; [|done].
  eapply (refines_step _ _ _ G ∅ _ (option_stands (get_child w (Key (JsonValue.CZString key))))
    (fun o => option_fp o ⊎ G)); [|by rewrite (right_id_L ∅ (⊎))|].
  - destruct (null_or_object v w Hs E) as [[Ht Hp]|(Ht & m1 & Hp & Hh)].
    { rewrite decide_True by done. returns; [cbn [get_child]; by rewrite Hp|]. cbn [option_fp]. by_count. }
    rewrite decide_False by done. cbv zeta.
    destruct (key_for_usable key noDuplication eq_refl ltac:(done)) as (Hk & Ek & _ & Hb).
    pose proof (copy_entry_triple (K := str) w m1 v (key_for key noDuplication) Hk Hh) as Htr.
    change (key_of ?k) with (CZ_text k) in Htr. rewrite Ek in Htr.
    eapply (triple_bind _ _ _ G1); [exact Htr|done|]. intros o Ho. rewrite Hb.
    eapply (triple_bind _ _ ∅ (option_fp o ⊎ G) _ (fun _ => True) (fun _ => ∅));
      [by returns|rewrite E1; by_count|].
    intros _ _. returns. cbn [get_child]. by rewrite Hp.
  - intros [c|] Ho; rewrite (right_id_L ∅ (⊎)); destruct (get_child _ _) as [w0|]; try done;
    cbn [option_fp default].
    + by apply refines_result.
    + apply refines_ret. rewrite (left_id_L ∅ (⊎)). destruct Hd as [Hd <-]. rewrite E2.
      eapply triple_frame; [by apply Value_copy_triple|done|]. intros c _. by_count.
Qed.
