(* ===== verification/JsonMemoryProps.v ===== *)
(** * JSON: the memory of values, programs

    The same programs on the values of [JsonValue], which have no memory, and the theorem
    that the two agree: a program with variables of type [Value] computes what it computes on
    values, never frees a block twice nor touches one that was freed, and when its variables
    are gone no block is left. *)
From Stdlib Require Import Ascii String SpecFloat.
From stdpp Require Import base tactics list gmap gmultiset fin_sets numbers option strings.
From S2P Require Import Prelude Globals Double JsonText JsonValue JsonLaws JsonMemory JsonMemoryLaws.
Import Mem MemRun.
Open Scope Z_scope.
Open Scope memory_scope.

(** ** Programs on values *)
Module Values.
Definition step_ref (w : Value) (s : step) : outcome Value :=
  match s with Key key => JsonValue.resolveReference w key | Index i => JsonValue.index_ref w i end.
Definition stored_step (s : step) : step :=
  match s with Key key => Key (JsonValue.CZString key) | Index i => Index i end.
Definition run_member (env : list Value) (i : nat) (s : step) (o : member_op) (j : nat) : outcome
  (list Value) :=
  with_two env i j (Ret env) (fun w _ =>
    let! w := step_ref w s in
    let env := <[i := w]> env in
    with_one env j (Ret env) (fun other =>
      let member := default JsonValue.nullSingleton (get_child w (stored_step s)) in
      let set m := upd_child (stored_step s) (fun _ => m) w in
      Ret (match o with
           | AssignCopy => <[i := set other]> env
           | AssignMove => <[j := member]> (<[i := set other]> env)
           | SwapPayload =>
               <[j := JsonValue.swapPayload other member]>
                 (<[i := set (JsonValue.swapPayload member other)]> env)
           end))).
Definition run_op (env : list Value) (o : op) : outcome (list Value) :=
  match o with
  | New t => Ret (env ++ [JsonValue.Value_make t])
  | NewInt z => Ret (env ++ [JsonValue.Value_int z])
  | NewUInt z => Ret (env ++ [JsonValue.Value_uint z])
  | NewDouble d => Ret (env ++ [JsonValue.Value_double d])
  | NewBool b => Ret (env ++ [JsonValue.Value_bool b])
  | NewString s => let! w := JsonValue.Value_String s in Ret (env ++ [w])
  | NewCString s => let! w := JsonValue.Value_cstr s in Ret (env ++ [w])
  | NewStatic s => Ret (env ++ [JsonValue.initBasic (stringValue (c_str s))])
  | NewCopy j => Ret (with_one env j env (fun w => env ++ [w]))
  | NewMove j => Ret (with_one env j env (fun w => <[j := JsonValue.nullSingleton]> env ++ [w]))
  | Assign i j => Ret (with_two env i j env (fun _ w => <[i := w]> env))
  | MoveAssign i j => Ret (with_two env i j env (fun v w =>
      if decide (i = j) then env else <[j := v]> (<[i := w]> env)))
  | Copy i j => Ret (with_two env i j env (fun v w => <[i := JsonValue.copy v w]> env))
  | Member i s o j => run_member env i s o j
  | Append i o j => with_one env i (Ret env) (fun w => run_member env i (Index (JsonValue.size w)) o j)
  | Remove i key => Ret (with_one env i env (fun w =>
      let (removed, w) := JsonValue.removeMember w key in
      <[i := w]> env ++ [default JsonValue.nullSingleton removed]))
  | RemoveMember i key => with_one env i (Ret env) (fun w =>
      let! w := JsonValue.removeMember_cstr w key in Ret (<[i := w]> env))
  | RemoveIndex i index => Ret (with_one env i env (fun w =>
      let (removed, w) := JsonValue.removeIndex w index in
      <[i := w]> env ++ [default JsonValue.nullSingleton removed]))
  | Resize i newSize => with_one env i (Ret env) (fun w =>
      let! w := JsonValue.resize w newSize in Ret (<[i := w]> env))
  | NewGet i key j => with_two env i j (Ret env) (fun w d =>
      let! c := JsonValue.get w key d in Ret (env ++ [c]))
  | Clear i => with_one env i (Ret env) (fun w => let! w := JsonValue.clear w in Ret (<[i := w]> env))
  | Drop => Ret (match rev env with [] => env | _ :: rest => rev rest end)
  end.
Fixpoint run (env : list Value) (ops : list op) : outcome (list Value) :=
  match ops with
  | [] => Ret env
  | o :: ops => let! env := run_op env o in run env ops
  end.
End Values.

(** The operations that take two different variables: [x.copy(x)] reads what it has freed,
    [x[s] = std::move(x)] puts a value inside itself. *)
Definition proper (o : op) : Prop :=
  match o with
  | Copy i j | Member i _ (AssignMove | SwapPayload) j | Append i (AssignMove | SwapPayload) j => i <> j
  | _ => True
  end.

(** ** Variables in memory *)
Definition env_fp (env : list MValue) : blocks := foldr (fun v P => fp v ⊎ P) ∅ env.
Definition env_stands (ws : list Value) (env : list MValue) : Prop := Forall2 stands ws env.

#[local] Arguments env_fp : simpl never.
Lemma env_fp_cons v env : env_fp (v :: env) = fp v ⊎ env_fp env.
Proof. done. Qed.
Lemma env_fp_app a b : env_fp (a ++ b) = env_fp a ⊎ env_fp b.
Proof.
  induction a as [|v a IH]; [symmetry; apply (left_id_L ∅ (⊎))|].
  cbn [app]. rewrite !env_fp_cons, IH. by_count.
Qed.
Lemma env_fp_rev env : env_fp (rev env) = env_fp env.
Proof.
  induction env as [|v env IH]; [done|]. cbn [rev]. rewrite env_fp_app, IH, !env_fp_cons.
  change (env_fp []) with (∅ : blocks). by_count.
Qed.
(** The blocks of one variable, and of the others. *)
Lemma env_split env i v : env !! i = Some v ->
  exists G, env_fp env = fp v ⊎ G /\ forall v', env_fp (<[i := v']> env) = fp v' ⊎ G.
Proof.
  revert i. induction env as [|v0 env IH]; intros [|i]; try done; cbn.
  - intros [= ->]. by exists (env_fp env).
  - intros (G & E & Hu)%IH. exists (fp v0 ⊎ G). rewrite env_fp_cons, E. split; [by_count|].
    intros v'. rewrite env_fp_cons, Hu. by_count.
Qed.
Lemma cancel (A B C : blocks) : A ⊎ C = B ⊎ C -> A = B.
Proof. apply (inj (.⊎ C)). Qed.
Lemma env_split2 env i j v w : i <> j -> env !! i = Some v -> env !! j = Some w ->
  exists G, env_fp env = fp v ⊎ fp w ⊎ G /\
    forall v' w', env_fp (<[j := w']> (<[i := v']> env)) = fp v' ⊎ fp w' ⊎ G.
Proof.
  intros Hij Hi Hj. destruct (env_split env i v Hi) as (G & E & Hu).
  assert (forall v', <[i := v']> env !! j = Some w) as Hj' by (intros v'; by rewrite list_lookup_insert_ne).
  destruct (env_split _ j w (Hj' nullSingleton)) as (G' & E' & _). rewrite Hu in E'.
  change (fp nullSingleton) with (∅ : blocks) in E'. rewrite (left_id_L ∅ (⊎)) in E'.
  exists G'. rewrite E, E'. split; [by_count|]. intros v' w'.
  destruct (env_split _ j w (Hj' v')) as (G2 & E2 & Hu2). rewrite Hu2.
  rewrite Hu, E' in E2. apply (cancel _ _ (fp w)).
  rewrite (comm_L (⊎) _ (fp w)), (comm_L (⊎) (fp w')), (assoc_L (⊎)), <- E2.
  by_count.
Qed.
Lemma env_lookup ws env i : env_stands ws env ->
  (exists w v, ws !! i = Some w /\ env !! i = Some v /\ stands w v) \/ (ws !! i = None /\ env !! i = None).
Proof.
  intros H. destruct (env !! i) as [v|] eqn:E.
  - left. destruct (Forall2_lookup_r _ _ _ _ _ H E) as (w & Hw & Hs). eauto.
  - right. split; [|done]. apply lookup_ge_None in E. apply lookup_ge_None. by rewrite (Forall2_length _ _ _ H).
Qed.
Lemma env_insert ws env i w v : env_stands ws env -> stands w v ->
  env_stands (<[i := w]> ws) (<[i := v]> env).
Proof. intros H Hs. by apply Forall2_insert. Qed.
Lemma env_snoc ws env w v : env_stands ws env -> stands w v -> env_stands (ws ++ [w]) (env ++ [v]).
Proof. intros H Hs. apply Forall2_app; [done|]. by constructor. Qed.

(** *** References *)
Definition step_type (s : step) : ValueType := match s with Key _ => TObject | Index _ => TArray end.
Definition resolved (s : step) (w : Value) (v : MValue) : Prop :=
  stands w v /\ value_type_ v = step_type s /\ is_Some (get_child w (Values.stored_step s)).
Lemma step_ref_child s w w' : Values.step_ref w s = Ret w' -> is_Some (get_child w' (Values.stored_step s)).
Proof.
  destruct w as [p c a b]. destruct s as [key|i]; destruct p as [| | | | | |m|m]; try done; intros [= <-].
  - apply (map_find_insert_same CZString_ltb _ _ []).
  - apply (map_find_insert_same CZString_ltb _ _ m).
  - apply (map_find_insert_same N.ltb _ _ []).
  - apply (map_find_insert_same N.ltb _ _ m).
Qed.
Lemma step_ref_refines s v w : stands w v ->
  refines (fp v) (step_ref v s) (Values.step_ref w s) (resolved s) fp.
Proof.
  intros Hs F h Ho. pose proof (step_ref_child s w) as Hc.
  assert (refines (fp v) (step_ref v s) (Values.step_ref w s)
    (fun w' v' => stands w' v' /\ value_type_ v' = step_type s) fp) as Hr.
  { destruct s as [key|i]; [by apply resolveReference_refines|by apply index_ref_refines]. }
  specialize (Hr F h Ho). destruct (Values.step_ref w s) as [w'|e|]; [|exact Hr|exact Hr].
  destruct Hr as (v' & h' & Hv & [H1 H2] & Ho'). exists v', h'. split; [done|].
  split; [|done]. split; [done|]. split; [done|]. by apply Hc.
Qed.
Lemma at_step_triple {B} s v w w0 (f : MValue -> M (MValue * B)) G (Q : Value -> B -> Prop) fB :
  stands w v -> value_type_ v = step_type s -> get_child w (Values.stored_step s) = Some w0 ->
  (forall v0, stands w0 v0 ->
    triple (fp v0 ⊎ G) (f v0) (fun r => ok r.1 /\ Q (abs r.1) r.2) (fun r => fp r.1 ⊎ fB r.2)) ->
  triple (fp v ⊎ G) (at_step s f v)
    (fun r => exists w', Q w' r.2 /\ stands (upd_child (Values.stored_step s) (fun _ => w') w) r.1)
    (fun r => fp r.1 ⊎ fB r.2).
Proof.
  intros Hs Ht Hg Hf. destruct s as [key|i]; cbn [get_child Values.stored_step] in Hg;
    destruct (payload w) eqn:Ep; try done; cbn [at_step Values.stored_step upd_child]; rewrite Ep.
  - destruct (key_for_usable key duplicateOnCopy eq_refl ltac:(done)) as (Hk & Ek & _). rewrite <- Ek.
    refine (at_key_triple (K := str) v (key_for key duplicateOnCopy) w m w0 f G Q fB _ _ _ _ _ _); try done.
    cbn. by rewrite Ek.
  - by refine (at_key_triple (K := N) v (CZ_index i) w m w0 f G Q fB _ _ _ _ _ _).
Qed.

(** *** Operations *)
(** What [member_op] does with the entry [c] and the variable [y]. *)
Lemma move_entry y w0 wy : stands wy y -> forall c, stands w0 c ->
  triple (fp c ⊎ fp y) (ret (Value_move_assign c y))
    (fun r => ok r.1 /\ abs r.1 = wy /\ stands w0 r.2) (fun r => fp r.1 ⊎ fp r.2).
Proof.
  intros [Hy <-] c Hc. unfold Value_move_assign. rewrite swap_eq. by returns.
Qed.
Lemma swap_entry y w0 wy : stands wy y -> forall c, stands w0 c ->
  triple (fp c ⊎ fp y) (ret (swapPayload c y))
    (fun r => ok r.1 /\ abs r.1 = JsonValue.swapPayload w0 wy /\ stands (JsonValue.swapPayload wy w0) r.2)
    (fun r => fp r.1 ⊎ fp r.2).
Proof.
  intros Hy c Hc. destruct (swapPayload_stands c y w0 wy Hc Hy) as ([H1 H2] & H3 & Hf1 & Hf2).
  returns; [done|]. rewrite Hf1, Hf2. by_count.
Qed.
Lemma exchange_refines env ws i j s v w y wy w0 G (f : MValue -> M (MValue * MValue)) w' y' :
  env_stands ws env -> i <> j -> ws !! i = Some w -> ws !! j = Some wy ->
  env !! i = Some v -> env !! j = Some y -> resolved s w v -> stands wy y ->
  get_child w (Values.stored_step s) = Some w0 ->
  (forall c, stands w0 c -> triple (fp c ⊎ fp y) (f c)
    (fun r => ok r.1 /\ abs r.1 = w' /\ stands y' r.2) (fun r => fp r.1 ⊎ fp r.2)) ->
  env_fp env = G ->
  refines G (do! (v, other) := at_step s f v in ret (<[j := other]> (<[i := v]> env)))
    (Ret (<[j := y']> (<[i := upd_child (Values.stored_step s) (fun _ => w') w]> ws))) env_stands env_fp.
Proof.
  intros Hws Hij Hwi Hwj Hi Hj (Hs & Ht & _) Hy Hg Hf <-.
  destruct (env_split2 env i j v y Hij Hi Hj) as (G & E & Hu).
  eapply (refines_step _ _ _ _ G); [eapply (at_step_triple s v w w0 f (fp y)
    (fun a b => a = w' /\ stands y' b) fp); try done|by rewrite E|].
  intros [v2 y2] (w2 & [-> Hy2] & Hs2). cbn [fst snd] in *.
  apply refines_result; [|by rewrite Hu]. by repeat apply env_insert.
Qed.
Lemma with_one_some {A V} (env : list V) i v (none : A) k : env !! i = Some v -> with_one env i none k = k v.
Proof. intros E. unfold with_one. by rewrite E. Qed.
Lemma with_two_some {A V} (env : list V) i j v w (none : A) k :
  env !! i = Some v -> env !! j = Some w -> with_two env i j none k = k v w.
Proof. intros E1 E2. unfold with_two. by rewrite E1, E2. Qed.
Lemma with_two_none {A V} (env : list V) i j (none : A) k :
  env !! i = None \/ env !! j = None -> with_two env i j none k = none.
Proof. intros [E|E]; unfold with_two; rewrite E; [done|]. by destruct (env !! i). Qed.
Lemma stays ws env P : env_stands ws env -> P = env_fp env -> refines P (ret env) (Ret ws) env_stands env_fp.
Proof. intros H ->. by apply refines_result. Qed.

Lemma run_member_refines ws env i s o j : env_stands ws env -> proper (Member i s o j) ->
  refines (env_fp env) (run_member env i s o j) (Values.run_member ws i s o j) env_stands env_fp.
Proof.
  intros Hws Hp. unfold run_member, Values.run_member.
  destruct (env_lookup ws env i Hws) as [(w & v & Hwi & Hi & Hs)|[Hwi Hi]];
    [|rewrite !with_two_none by auto; by apply stays].
  destruct (env_lookup ws env j Hws) as [(wj & vj & Hwj & Hj & _)|[Hwj Hj]];
    [|rewrite !with_two_none by auto; by apply stays].
  rewrite (with_two_some ws i j w wj), (with_two_some env i j v vj) by done.
  destruct (env_split env i v Hi) as (G & E & Hu).
  eapply refines_bind; [by apply step_ref_refines|by rewrite E|].
  intros w1 v1 Hr. cbv zeta. pose proof Hr as (Hs1 & Ht1 & [w0 Hg]). rewrite Hg. cbn [default].
  rewrite <- Hu. pose proof (env_insert _ _ i _ _ Hws Hs1) as Hws1.
  assert (<[i := v1]> env !! i = Some v1) as Hi1.
  { apply list_lookup_insert_eq. by eapply lookup_lt_Some. }
  assert (<[i := w1]> ws !! i = Some w1) as Hwi1.
  { apply list_lookup_insert_eq. by eapply lookup_lt_Some. }
  destruct (env_lookup _ _ j Hws1) as [(wo & vo & Hwo & Ho & Hso)|[Hwo Ho]].
  2:{ unfold with_one. rewrite Hwo, Ho. by apply stays. }
  rewrite (with_one_some _ j wo), (with_one_some _ j vo) by done.
  destruct o.
  - destruct (env_split _ j vo Ho) as (Gj & Ej & _). destruct Hso as [Hok Ha].
    eapply refines_step; [by apply Value_copy_triple|by rewrite Ej|].
    intros tmp [Htmp Etmp]. 
    eapply (refines_step _ _ _ _ G); [eapply (at_step_triple s v1 w1 w0 _ (fp tmp) (fun a _ => a =
      wo) (fun _ => ∅)); try done| |].
    { apply assign_entry. split; [done|]. congruence. }
    { rewrite <- (assoc_L (⊎) (fp tmp)), <- Ej, Hu. by_count. }
    intros [v2 x] (w2 & -> & Hs2). cbn [fst snd] in *. rewrite !list_insert_insert_eq.
    apply refines_result; [by apply env_insert|]. rewrite Hu. by_count.
  - eapply exchange_refines; try done. by apply move_entry.
  - eapply exchange_refines; try done. by apply swap_entry.
Qed.
Lemma pushes ws env (m : M MValue) (o : outcome Value) : env_stands ws env ->
  refines ∅ m o stands fp ->
  refines (env_fp env) (do! v := m in ret (env ++ [v])) (let! w := o in Ret (ws ++ [w])) env_stands env_fp.
Proof.
  intros Hws Hm. eapply refines_bind; [exact Hm|symmetry; apply (left_id_L ∅ (⊎))|].
  intros w v Hs. apply refines_result; [by apply env_snoc|]. rewrite env_fp_app, env_fp_cons.
  change (env_fp []) with (∅ : blocks). by_count.
Qed.
(** A new variable, made without allocation. *)
Lemma pushes_pure ws env v w : env_stands ws env -> stands w v -> fp v = ∅ ->
  refines (env_fp env) (ret (env ++ [v])) (Ret (ws ++ [w])) env_stands env_fp.
Proof. intros Hws Hs Hf. apply (pushes ws env (ret v) (Ret w) Hws). by apply refines_result. Qed.
Lemma Value_make_triple t : triple ∅ (Value_make t) (stands (JsonValue.Value_make t)) fp.
Proof.
  destruct t; try (returns; [|by unfold initBasic; by_count]; by split; [try (by eexists)|]).
  - exact (container_make (K := N)).
  - exact (container_make (K := str)).
Qed.
(** The operations on one or two variables that leave the others as they are. *)
Lemma updates1 ws env i w v (m : M MValue) (o : outcome Value) : env_stands ws env ->
  ws !! i = Some w -> env !! i = Some v -> refines (fp v) m o stands fp ->
  refines (env_fp env) (do! v := m in ret (<[i := v]> env)) (let! w := o in Ret (<[i := w]> ws))
    env_stands env_fp.
Proof.
  intros Hws Hw Hv Hm. destruct (env_split env i v Hv) as (G & E & Hu).
  eapply refines_bind; [exact Hm|by rewrite E|]. intros w' v' Hs.
  apply refines_result; [by apply env_insert|by rewrite Hu].
Qed.
Lemma Assign_refines ws env i j v w wj : env_stands ws env -> env !! i = Some v -> env !! j = Some w ->
  stands wj w -> ok v ->
  refines (env_fp env) (do! v := Value_assign v w in ret (<[i := v]> env)) (Ret (<[i := wj]> ws))
    env_stands env_fp.
Proof.
  intros Hws Hi Hj Hs Hv. destruct (decide (i = j)) as [->|Hij].
  - rewrite Hi in Hj. injection Hj as ->. destruct (env_split env j w Hi) as (G & E & Hu).
    eapply refines_step; [by apply Value_assign_self|by rewrite E|]. intros v' Hs'.
    apply refines_result; [by apply env_insert|by rewrite Hu].
  - destruct (env_split2 env i j v w Hij Hi Hj) as (G & E & Hu).
    eapply refines_step; [by apply Value_assign_triple|by rewrite E|]. intros v' Hs'.
    apply refines_result; [by apply env_insert|].
    rewrite <- (Hu v' w). f_equal. symmetry. apply list_insert_id. by rewrite list_lookup_insert_ne.
Qed.
Lemma Copy_refines ws env i j v w wi wj : env_stands ws env -> i <> j -> env !! i = Some v ->
  env !! j = Some w ->
  stands wi v -> stands wj w ->
  refines (env_fp env) (do! v := copy v w in ret (<[i := v]> env))
    (Ret (<[i := JsonValue.copy wi wj]> ws)) env_stands env_fp.
Proof.
  intros Hws Hij Hi Hj Hs1 Hs2. destruct (env_split2 env i j v w Hij Hi Hj) as (G & E & Hu).
  eapply refines_step; [by apply copy_triple|by rewrite E|]. intros v' Hs'.
  apply refines_result; [by apply env_insert|].
  rewrite <- (Hu v' w). f_equal. symmetry. apply list_insert_id. by rewrite list_lookup_insert_ne.
Qed.
Lemma stands_null : stands JsonValue.nullSingleton nullSingleton.
Proof. done. Qed.
Lemma Remove_refines ws env i v w (m : M (bool * MValue * MValue)) (o : option Value * Value) :
  env_stands ws env -> env !! i = Some v -> stands w v ->
  triple (fp v ⊎ fp nullSingleton) m (removed_as o JsonValue.nullSingleton) (fun r => fp r.1.2 ⊎ fp r.2) ->
  refines (env_fp env)
    (do! (_, v, removed) := m in ret (<[i := v]> env ++ [removed]))
    (Ret (let (removed, w) := o in <[i := w]> ws ++ [default JsonValue.nullSingleton removed]))
      env_stands env_fp.
Proof.
  intros Hws Hv Hs Hm. destruct (env_split env i v Hv) as (G & E & Hu).
  eapply (refines_step _ _ _ _ G); [exact Hm| |].
  { change (fp nullSingleton) with (∅ : blocks). rewrite E. by_count. }
  intros [[b v'] removed] (_ & Hs' & Hr). cbn [fst snd] in *. destruct o as [r w']. cbn [fst snd] in *.
  apply refines_result; [by apply env_snoc; [apply env_insert|]|].
  rewrite env_fp_app, env_fp_cons, Hu. change (env_fp []) with (∅ : blocks). by_count.
Qed.
Lemma Get_refines ws env i j key v w d wd : env_stands ws env -> env !! i = Some v -> env !! j = Some d ->
  stands w v -> stands wd d ->
  refines (env_fp env) (do! c := get v key d in ret (env ++ [c]))
    (let! c := JsonValue.get w key wd in Ret (ws ++ [c])) env_stands env_fp.
Proof.
  intros Hws Hi Hj Hs Hd. destruct (env_split env i v Hi) as (G1 & E1 & _),
    (env_split env j d Hj) as (G2 & E2 & _).
  eapply refines_bind; [apply (get_refines v w key d wd (env_fp env)); eauto|by rewrite (right_id_L ∅ (⊎))|].
  intros wc c Hc. apply refines_result; [by apply env_snoc|]. rewrite env_fp_app, env_fp_cons.
  change (env_fp []) with (∅ : blocks). by_count.
Qed.
Lemma env_rev ws env : env_stands ws env -> env_stands (rev ws) (rev env).
Proof. induction 1 as [|w v ws env Hs H IH]; cbn; [constructor|]. by apply env_snoc. Qed.
Lemma Drop_refines ws env : env_stands ws env ->
  refines (env_fp env)
    (match rev env with [] => ret env | v :: rest => do! _ := Value_delete v in ret (rev rest) end)
    (Ret (match rev ws with [] => ws | _ :: rest => rev rest end)) env_stands env_fp.
Proof.
  intros Hws. pose proof (env_rev _ _ Hws) as Hr. pose proof (env_fp_rev env) as Hfp.
  destruct (rev env) as [|v env'], (rev ws) as [|w ws']; try (by inversion Hr); [by apply stays|].
  apply Forall2_cons in Hr as [[Hv _] Hr]. rewrite <- Hfp.
  eapply refines_step; [by apply Value_delete_triple|by rewrite env_fp_cons|].
  cbn beta. intros _ _. apply refines_result; [by apply env_rev|]. rewrite env_fp_rev. by_count.
Qed.
Lemma NewCopy_refines ws env w v : env_stands ws env -> stands w v ->
  (exists j : nat, env !! j = Some v) ->
  refines (env_fp env) (do! v := Value_copy v in ret (env ++ [v])) (Ret (ws ++ [w])) env_stands env_fp.
Proof.
  intros Hws [Hv <-] [j Hj]. destruct (env_split env j v Hj) as (G & E & _).
  eapply refines_step; [by apply Value_copy_triple|by rewrite E|]. intros v' Hs'.
  apply refines_result; [by apply env_snoc|]. rewrite env_fp_app, env_fp_cons, E.
  change (env_fp []) with (∅ : blocks). by_count.
Qed.
Lemma c_str_terminated s : c_str (s ++ [NUL]) = c_str s.
Proof. induction s as [|c s IH]; [done|]. cbn. by rewrite IH. Qed.
(** The variables an operation names: there, or not. *)
Ltac variable i v w :=
  match goal with H : env_stands ?ws ?env |- _ =>
    let E := fresh "E" in let E' := fresh "E" in let Hs := fresh "Hs" in
    destruct (env_lookup ws env i H) as [(w & v & E & E' & Hs)|[E E']];
    unfold with_one, with_two; rewrite ?E, ?E'
  end.
Lemma run_op_refines ws env o : env_stands ws env -> proper o ->
  refines (env_fp env) (run_op env o) (Values.run_op ws o) env_stands env_fp.
Proof.
  intros Hws Hp.
  destruct o as [t|z|z|d|b|s|s|s|j|j|i j|i j|i j|i s o j|i o j|i key|i key|i index|i n|i key j|i|];
    cbn [run_op Values.run_op];
    try (by apply pushes_pure).
  - eapply (pushes _ _ _ (Ret _)); [done|]. apply refines_ret, Value_make_triple.
  - by apply pushes, Value_String_refines.
  - by apply pushes, Value_String_refines.
  - apply pushes_pure; [done| |done]. split; [by eexists|].
    unfold Value_StaticString, initBasic, abs. cbn. by rewrite c_str_terminated.
  - variable j v w; [|by apply stays]. apply NewCopy_refines; [done..|]. by exists j.
  - variable j v w; [|by apply stays]. unfold Value_move. rewrite swap_eq.
    destruct (env_split env j v E0) as (G & Ef & Hu).
    apply refines_result; [by apply env_snoc; [apply env_insert|]|].
    rewrite env_fp_app, env_fp_cons, Hu, Ef. change (env_fp []) with (∅ : blocks).
    change (fp nullSingleton) with (∅ : blocks). by_count.
  - variable i v w; variable j y wy; try (by apply stays). destruct Hs.
  by apply (Assign_refines ws env i j v y wy).
  - variable i v w; variable j y wy; try (by apply stays). case_decide as Hij; [by apply stays|].
    unfold Value_move_assign. rewrite swap_eq. destruct (env_split2 env i j v y Hij E0 E2) as (G & Ef & Hu).
    apply refines_result; [by apply env_insert; [apply env_insert|]|]. rewrite Hu, Ef. by_count.
  - variable i v w; variable j y wy; try (by apply stays). by apply (Copy_refines ws env i j v y w wy).
  - by apply run_member_refines.
  - unfold run_append. variable i v w; [|by apply stays]. rewrite (size_abs v w Hs).
    by apply run_member_refines.
  - variable i v w; [|by apply stays]. eapply Remove_refines; [done..|]. by apply removeMember_triple.
  - variable i v w; [|by apply stays]. apply updates1 with (w := w) (v := v); try done.
    by apply removeMember_cstr_refines.
  - variable i v w; [|by apply stays]. eapply Remove_refines; [done..|]. by apply removeIndex_triple.
  - variable i v w; [|by apply stays]. apply updates1 with (w := w) (v := v); try done. by apply resize_refines.
  - variable i v w; variable j y wy; try (by apply stays). by eapply Get_refines.
  - variable i v w; [|by apply stays]. apply updates1 with (w := w) (v := v); try done. by apply clear_refines.
  - by apply Drop_refines.
Qed.
Lemma run_refines ops : Forall proper ops -> forall ws env, env_stands ws env ->
  refines (env_fp env) (run env ops) (Values.run ws ops) env_stands env_fp.
Proof.
  induction 1 as [|o ops Ho Hops IH]; intros ws env Hws; [by apply refines_result|].
  cbn. eapply refines_bind; [by apply run_op_refines|by rewrite (right_id_L ∅ (⊎))|].
  intros ws' env' Hws'. rewrite (right_id_L ∅ (⊎)). by apply IH.
Qed.
Lemma leave_scope_triple ws env : env_stands ws env ->
  triple (env_fp env) (leave_scope env) (fun _ => True) (fun _ => ∅).
Proof.
  intros Hws%env_rev. unfold leave_scope. rewrite <- env_fp_rev.
  induction Hws as [|w v ws' vs [Hv _] H IH]; [by returns|].
  rewrite env_fp_cons. step (Value_delete_triple v Hv) keeping (env_fp vs). intros _ _.
  last IH keeping ∅.
Qed.

(** C16: a program with variables of type [Value] returns what the same program does on values
    without memory, or throws what it throws; it never touches a block that it does not own,
    nor frees one twice, and when its variables are destroyed no block is left. *)
Theorem programs_keep_memory (ops : list op) (proper_ops : Forall proper ops) :
  match Values.run [] ops with
  | Ret ws => exists env h, run [] ops ∅ = Ret (env, h) /\ map abs env = ws /\
                leave_scope env h = Ret (tt, ∅)
  | Throw e => run [] ops ∅ = Throw e
  | OutOfFuel => False
  end.
Proof.
  assert (forall h, owned (∅ ⊎ ∅) h <-> h = ∅) as He.
  { intros h. rewrite (left_id_L ∅ (⊎)). split.
    - intros Ho. apply set_eq. intros l. destruct (Ho l) as [[_ Hm]|[Hn _]]; [done|set_solver].
    - intros -> l. right. split; [set_solver|done]. }
  pose proof (run_refines ops proper_ops [] [] ltac:(constructor) ∅ ∅ (proj2 (He ∅) eq_refl)) as Hr.
  destruct (Values.run [] ops) as [ws|e|]; [|done|done].
  destruct Hr as (env & h & Hrun & Hws & Ho). exists env, h. split; [done|]. split.
  - clear -Hws. induction Hws as [|w v ws env [_ <-] H IH]; cbn; [done|]. by rewrite IH.
  - destruct (leave_scope_triple ws env Hws ∅ h Ho) as ([] & h' & Hd & _ & Ho').
    apply He in Ho' as ->. done.
Qed.
Definition sample_program : list op :=
  [New TNull; NewString #"abc"; Member 0 (Key #"k") AssignCopy 1; Member 0 (Key #"self") AssignCopy 0;
   NewCopy 0; Member 2 (Key #"k") AssignMove 1; Remove 2 #"self"; NewStatic #"lit"; RemoveMember 0 #"k";
   New TArray; Append 5 AssignCopy 4; Member 5 (Index 3) AssignCopy 2; RemoveIndex 5 0; Resize 5 2;
   NewGet 2 #"k" 4; Clear 0; Drop].
Example programs_keep_memory_witness :
  exists env h, run [] sample_program ∅ = Ret (env, h) /\ leave_scope env h = Ret (tt, ∅).
Proof.
  assert (Forall proper sample_program) as Hp by (repeat constructor; done).
  pose proof (programs_keep_memory sample_program Hp) as H.
  assert (exists ws, Values.run [] sample_program = Ret ws) as [ws E] by (eexists; vm_compute; reflexivity).
  rewrite E in H.
  destruct H as (env & h & H1 & _ & H2). exists env, h. exact (conj H1 H2).
Defined.

(** *** What the operations do not allow

    [x.copy(x)] reads the string it has just freed. *)
Example copy_to_itself : run [] [NewString #"abc"; Copy 0 0] ∅ = Throw undefined.
Proof. vm_compute. done. Qed.
(** The assignment of a [CZString] neither frees the old string nor duplicates the new one: two
    keys then own one block, and the block of the other is lost. *)
Definition assign_keys : M (cptr * cptr) :=
  do! a := CZ_copy (key_for #"a" duplicateOnCopy) in
  do! b := CZ_copy (key_for #"b" duplicateOnCopy) in
  let a := CZ_assign a b in
  do! _ := CZ_delete a in
  ret (data a, data b).
Example assigned_key_leaks : exists p l, assign_keys ∅ = Ret ((p, p), {[l]}).
Proof. exists (Block 2%positive [("b" : ascii); NUL]), 1%positive. vm_compute. done. Qed.
Example assigned_key_freed_twice :
  (do! a := CZ_copy (key_for #"a" duplicateOnCopy) in
   do! b := CZ_copy (key_for #"b" duplicateOnCopy) in
   let a := CZ_assign a b in
   do! _ := CZ_delete a in CZ_delete b) ∅ = Throw undefined.
Proof. vm_compute. done. Qed.
