(* ===== verification/JsonIterator.v ===== *)
(** * JSON: iterators

    Models [class ValueIteratorBase] of [json/jsoncpp.cpp] with [Value::begin] and
    [Value::end].  An iterator of the map is a position in the sorted association
    list of the members; the operations take the value iterated over.  What C++ leaves
    undefined (a dereferenced end, a walk past the end) is [None]. *)
From Stdlib Require Import Ascii String.
From stdpp Require Import base tactics list numbers option strings.
From S2P Require Import Prelude Globals Double JsonText JsonValue JsonReader JsonLaws JsonTypes.
Open Scope Z_scope.

Record ValueIterator := mkIterator { current_ : nat; isNull_ : bool }.
Definition ValueIterator_default : ValueIterator := mkIterator 0 true.

(** The map iterated over: [CZString] keys with their values. *)
Definition map_ (v : Value) : option (list (step * Value)) :=
  match payload v with
  | arrayValue m => Some (map (fun kv => (Index (fst kv), snd kv)) m)
  | objectValue m => Some (map (fun kv => (Key (fst kv), snd kv)) m)
  | _ => None
  end.
Definition Value_begin (v : Value) : ValueIterator :=
  match map_ v with Some m => mkIterator 0 false | None => ValueIterator_default end.
Definition Value_end (v : Value) : ValueIterator :=
  match map_ v with Some m => mkIterator (length m) false | None => ValueIterator_default end.

(** [*current_]. *)
Definition node (v : Value) (it : ValueIterator) : option (step * Value) :=
  m ← map_ v; m !! current_ it.
Definition deref (v : Value) (it : ValueIterator) : option Value := snd <$> node v it.
Definition increment (it : ValueIterator) : ValueIterator := mkIterator (S (current_ it)) (isNull_ it).
Definition decrement (it : ValueIterator) : ValueIterator :=
  mkIterator (Nat.pred (current_ it)) (isNull_ it).
Definition isEqual (it other : ValueIterator) : bool :=
  if isNull_ it then isNull_ other else (current_ it =? current_ other)%nat.
(** The distance, counted by a walk from [it] to [other]. *)
Fixpoint walk (n : nat) (from to : nat) (myDistance : Z) : option Z :=
  if (from =? to)%nat then Some myDistance
  else match n with O => None | S n => walk n (S from) to (myDistance + 1) end.
Definition computeDistance (v : Value) (it other : ValueIterator) : option Z :=
  if isNull_ it && isNull_ other then Some 0
  else m ← map_ v; walk (length m - current_ it) (current_ it) (current_ other) 0.

Definition key (v : Value) (it : ValueIterator) : option (outcome Value) :=
  kv ← node v it;
  Some (match fst kv with
        | Key name => Value_String name
        | Index i => Ret (Value_uint (Z.of_N i))
        end).
Definition index (v : Value) (it : ValueIterator) : option Z :=
  kv ← node v it;
  Some (match fst kv with Key _ => maxUInt | Index i => Z.of_N i end).
Definition name (v : Value) (it : ValueIterator) : option str :=
  kv ← node v it; Some (match fst kv with Key name => name | Index _ => [] end).
(** [memberName()]: the C string; [memberName(&end)] is [name] but for elements. *)
Definition memberName (v : Value) (it : ValueIterator) : option str := c_str <$> name v it.

(** [for (it = value.begin(); it != value.end(); ++it)], what is visited. *)
Fixpoint visit (fuel : nat) (v : Value) (it : ValueIterator) : option (list (step * Value)) :=
  if isEqual it (Value_end v) then Some []
  else match fuel with
       | O => None
       | S fuel => kv ← node v it; rest ← visit fuel v (increment it); Some (kv :: rest)
       end.
Definition members_of (v : Value) : list (step * Value) := default [] (map_ v).

Lemma visit_from v m i fuel : map_ v = Some m -> (i <= length m)%nat -> (length m - i <= fuel)%nat ->
  visit fuel v (mkIterator i false) = Some (drop i m).
Proof.
  intros Hm. revert i. induction fuel as [|fuel IH]; intros i Hi Hf; cbn;
    unfold isEqual, Value_end; rewrite Hm; cbn.
  - assert (i = length m) as -> by lia. by rewrite Nat.eqb_refl, drop_all.
  - destruct (Nat.eqb_spec i (length m)) as [->|Hn]; [by rewrite drop_all|].
    destruct (lookup_lt_is_Some_2 m i) as [kv Hk]; [lia|].
    unfold node. rewrite Hm. cbn. rewrite Hk. cbn. unfold increment. cbn. rewrite IH by lia. cbn.
    by rewrite (drop_S m kv i).
Qed.
Lemma walk_to from k d : forall n, (k <= n)%nat -> walk n from (from + k) d = Some (d + Z.of_nat k).
Proof.
  revert from d. induction k as [|k IH]; intros from d n Hn.
  - rewrite Nat.add_0_r. destruct n; cbn; rewrite Nat.eqb_refl; f_equal; lia.
  - destruct n as [|n]; [lia|]. cbn [walk]. destruct (Nat.eqb_spec from (from + S k)); [lia|].
    rewrite <-Nat.add_succ_comm, IH by lia. f_equal. lia.
Qed.

(** A loop from [begin()] to [end()] ends, visits the members of a value once
    each in the order of their keys (none for scalars), and [end() - begin()] counts
    them. *)
Theorem iteration_visits_members (v : Value) :
  visit (length (members_of v)) v (Value_begin v) = Some (members_of v) /\
  computeDistance v (Value_begin v) (Value_end v) = Some (Z.of_nat (length (members_of v))) /\
  (forall s w, typed v -> (s, w) ∈ members_of v <-> get_child v s = Some w).
Proof.
  unfold members_of. split; [|split].
  - destruct (map_ v) as [m|] eqn:E; unfold Value_begin; rewrite E; cbn.
    + by apply (visit_from v m 0); [|lia..].
    + unfold isEqual, Value_end. by rewrite E.
  - unfold Value_begin, Value_end, computeDistance. destruct (map_ v) as [m|]; [|done]. cbn.
    rewrite Nat.sub_0_r. by rewrite (walk_to 0 (length m)).
  - intros s w Ht. apply typed_eq in Ht. unfold map_, get_child.
    destruct v as [[| | | | | |m|m] c a b]; cbn in *.
    7, 8: rewrite list_elem_of_In, in_map_iff; setoid_rewrite <-list_elem_of_In.
    all: try (split; [by intros ?%elem_of_nil|by destruct s]).
    + destruct Ht as [Hs _]. destruct s as [k|i]; [by split; [intros ([??] & [=] & _)|]|].
      rewrite <-(map_find_elem N.ltb m i w Hs). split; [by intros ([??] & [= -> ->] & ?)|].
      intros Hin. by exists (i, w).
    + destruct Ht as [Hs _]. destruct s as [k|i]; [|by split; [intros ([??] & [=] & _)|]].
      rewrite <-(map_find_elem CZString_ltb m k w Hs). split; [by intros ([??] & [= -> ->] & ?)|].
      intros Hin. by exists (k, w).
Qed.
