(* ===== verification/JsonPath.v ===== *)
(** * JSON: paths

    Models [class PathArgument] and [class Path] of [json/jsoncpp.cpp].  The text of a path
    is read from a [const char*], a Location as in [JsonReader]; the loop of [makePath] has
    fuel for the characters that are left.  [make] gives the new value of the root and the
    path of steps to the node it returns a reference to.

    [path_reaches_value]: the path of a text names the steps the text is made of, and
    what is stored where [make] leads is what [resolve] finds. *)
From Stdlib Require Import Ascii String Sorting.Sorted.
From stdpp Require Import base tactics list numbers option strings.
From S2P Require Import Prelude Globals Double JsonText JsonValue JsonReader JsonLaws JsonTypes.
Open Scope Z_scope.

(** ** [class PathArgument] *)
Inductive Kind := kindNone | kindIndex | kindKey.
#[global] Instance Kind_eq_dec : EqDecision Kind.
Proof. solve_decision. Defined.
Record PathArgument := mkArgument { key_ : str; index_ : N; kind_ : Kind }.
Definition PathArgument_none : PathArgument := mkArgument [] 0 kindNone.
Definition PathArgument_index (index : N) : PathArgument := mkArgument [] index kindIndex.
(** From a [const char*] and from a [String], of which [c_str()] is taken. *)
Definition PathArgument_String (key : str) : PathArgument := mkArgument (c_str key) 0 kindKey.

(** ** [class Path] *)

(** [args_]. *)
Abbreviation Path := (list PathArgument).

(** [addPathInArg]: [itInArg] and [args_] afterwards. *)
Definition addPathInArg (itInArg : list PathArgument) (args_ : Path) (kind : Kind)
    : list PathArgument * Path :=
  match itInArg with
  | [] => (itInArg, args_)
  | a :: itInArg' =>
      if negb (bool_decide (kind_ a = kind)) then (itInArg, args_) else (itInArg', args_ ++ [a])
  end.
(** The loop over the digits of an index, which wraps around. *)
Fixpoint index_loop (current : Location) (index : N) : Location * N :=
  match current with
  | [] => ([], index)
  | c :: current' =>
      if isdigit c then
        index_loop current' ((index * 10 + Z.to_N (code c - 48)) mod 4294967296)%N
      else (current, index)
  end.
(** [strchr(set, c)] finds the terminator of the set, too. *)
Definition ends_name (c : ascii) : bool := ceqb c "[" || ceqb c "." || ceqb c NUL.
Fixpoint name_loop (current : Location) : Location :=
  match current with
  | [] => []
  | c :: current' => if ends_name c then current else name_loop current'
  end.
(** The loop of [makePath]; [invalidPath] does nothing, so all that is left of the test
    for a closing bracket is that it takes a character if there is one. *)
Fixpoint path_loop (fuel : nat) (current : Location) (itInArg : list PathArgument) (args_ : Path)
    : outcome Path :=
  match fuel with
  | O => OutOfFuel
  | S fuel' =>
      match current with
      | [] => Ret args_
      | c :: current' =>
          if ceqb c "[" then
            let '(current, itInArg, args_) :=
              if ceqb (fst (next_char current')) "%" then
                let '(itInArg, args_) := addPathInArg itInArg args_ kindIndex in
                (current', itInArg, args_)
              else
                let '(current, index) := index_loop current' 0 in
                (current, itInArg, args_ ++ [PathArgument_index index]) in
            path_loop fuel' (drop 1 current) itInArg args_
          else if ceqb c "%" then
            let '(itInArg, args_) := addPathInArg itInArg args_ kindKey in
            path_loop fuel' current' itInArg args_
          else if ceqb c "." || ceqb c "]" then path_loop fuel' current' itInArg args_
          else
            let beginName := current in
            let current := name_loop current in
            path_loop fuel' current itInArg
              (args_ ++ [PathArgument_String (between beginName current)])
      end
  end.
Definition makePath (path : str) (in_ : list PathArgument) : outcome Path :=
  path_loop (S (length path)) path in_ [].
(** The constructor: arguments that are not given are empty ones. *)
Definition Path_make (path : str) (a1 a2 a3 a4 a5 : PathArgument) : outcome Path :=
  makePath path [a1; a2; a3; a4; a5].

(** [resolve(root)] and [resolve(root, defaultValue)]: a value, or one of the two [return]s
    before the last; the node of a member that is missing is the null singleton. *)
Fixpoint resolve_from (args_ : Path) (node : Value) : outcome (option Value) :=
  match args_ with
  | [] => Ret (Some node)
  | arg :: args_ =>
      match kind_ arg with
      | kindIndex =>
          if negb (isArray node) || negb (isValidIndex node (index_ arg)) then Ret None
          else let! node := index_const node (index_ arg) in resolve_from args_ node
      | kindKey =>
          if negb (isObject node) then Ret None
          else
            let! found := find node (key_ arg) in
            match found with
            | None => Ret None
            | Some node => resolve_from args_ node
            end
      | kindNone => resolve_from args_ node
      end
  end.
Definition resolve (args_ : Path) (root : Value) : outcome Value :=
  let! node := resolve_from args_ root in Ret (default nullSingleton node).
Definition resolve_default (args_ : Path) (root defaultValue : Value) : outcome Value :=
  let! node := resolve_from args_ root in Ret (default defaultValue node).

(** [make(root)], from the node at a path of steps. *)
Fixpoint make_from (args_ : Path) (root : Value) (node : list step) : outcome (Value * list step) :=
  match args_ with
  | [] => Ret (root, node)
  | arg :: args_ =>
      let v := default nullSingleton (get_path node root) in
      match kind_ arg with
      | kindIndex =>
          let! v := index_ref v (index_ arg) in
          make_from args_ (upd_path node (fun _ => v) root) (Index (index_ arg) :: node)
      | kindKey =>
          let! v := resolveReference v (key_ arg) in
          make_from args_ (upd_path node (fun _ => v) root) (Key (CZString (key_ arg)) :: node)
      | kindNone => make_from args_ root node
      end
  end.
Definition make (args_ : Path) (root : Value) : outcome (Value * list step) := make_from args_ root [].

(** ** Reading the text of a path *)
Lemma name_loop_suffix s : exists n, s = n ++ name_loop s.
Proof.
  induction s as [|c s [n IH]]; cbn; [by exists []|]. destruct (ends_name c); [by exists []|].
  exists (c :: n). cbn. by rewrite <- IH.
Qed.
Lemma index_loop_suffix s : forall i, exists n, s = n ++ fst (index_loop s i).
Proof.
  induction s as [|c s IH]; intros i; cbn; [by exists []|]. destruct (isdigit c); [|by exists []].
  destruct (IH ((i * 10 + Z.to_N (code c - 48)) mod 4294967296)%N) as [n Hn].
  exists (c :: n). cbn. by rewrite <- Hn.
Qed.
(** A path without NUL is read to its end. *)
Lemma path_loop_returns fuel s in_ args : ~ In NUL s -> (length s < fuel)%nat ->
  exists args', path_loop fuel s in_ args = Ret args'.
Proof.
  assert (Hin : forall n s' : str, ~ In NUL (n ++ s') -> ~ In NUL s').
  { intros n s' H Hs. apply H, in_or_app. by right. }
  revert s in_ args. induction fuel as [|fuel IH]; intros s in_ args Hn Hf; [lia|].
  destruct s as [|c s]; [by exists args|]. cbn [path_loop length] in *.
  assert (Hs : ~ In NUL s) by exact (Hin [c] s Hn).
  destruct (ceqb c "[") eqn:E1; [|destruct (ceqb c "%") eqn:E2].
  - destruct (ceqb (fst (next_char s)) "%").
    + destruct (addPathInArg in_ args kindIndex) as [in' args'].
      apply IH; [|rewrite length_drop; lia]. apply (Hin (take 1 s)). by rewrite take_drop.
    + destruct (index_loop_suffix s 0%N) as [n Hi]. destruct (index_loop s 0) as [s' i].
      cbn [fst] in Hi. subst s. rewrite length_app in Hf. apply IH; [|rewrite length_drop; lia].
      apply (Hin (take 1 s')). rewrite take_drop. by apply (Hin n).
  - destruct (addPathInArg in_ args kindKey) as [in' args']. apply IH; [done|lia].
  - destruct (ceqb c "." || ceqb c "]") eqn:E3; [apply IH; [done|lia]|].
    apply orb_false_iff in E3 as [E3 _]. cbn [name_loop]. unfold ends_name at 1. rewrite E1, E3.
    destruct (ceqb c NUL) eqn:E4; [apply ceqb_eq in E4 as ->; destruct Hn; by left|]. cbn [orb].
    destruct (name_loop_suffix s) as [n Hl]. set (s' := name_loop s) in *. clearbody s'. subst s.
    rewrite length_app in Hf. apply IH; [by apply (Hin n)|lia].
Qed.
Lemma makePath_returns path in_ : ~ In NUL path -> exists args, makePath path in_ = Ret args.
Proof. intros H. apply path_loop_returns; [done|lia]. Qed.
(** A NUL in front of a name is taken for the end of an empty name, for ever. *)
Lemma path_with_nul_hangs fuel s in_ args : path_loop fuel (NUL :: s) in_ args = OutOfFuel.
Proof. revert args. induction fuel as [|fuel IH]; intros args; [done|]. apply IH. Qed.

(** ** What a path is made of *)

(** A member or an element, named in the text or by an argument of the constructor. *)
Inductive piece := Named (k : str) | Numbered (i : N) | KeyArgument (k : str) | IndexArgument (i : N).
Definition piece_text (p : piece) : str :=
  match p with
  | Named k => #"." ++ k
  | Numbered i => #"[" ++ to_dec i ++ #"]"
  | KeyArgument _ => #".%"
  | IndexArgument _ => #"[%]"
  end.
Definition piece_argument (p : piece) : PathArgument :=
  match p with
  | Named k | KeyArgument k => PathArgument_String k
  | Numbered i | IndexArgument i => PathArgument_index i
  end.
Definition piece_in (p : piece) : list PathArgument :=
  match p with KeyArgument _ | IndexArgument _ => [piece_argument p] | _ => [] end.
(** A name in the text is not empty, does not start as an argument does and holds neither
    bracket, dot nor NUL. *)
Definition piece_ok (p : piece) : bool :=
  match p with
  | Named k =>
      match k with c :: _ => negb (ceqb c "%") && negb (ceqb c "]") | [] => false end
      && forallb (fun c => negb (ends_name c)) k
  | Numbered i => (i <? 4294967296)%N
  | _ => true
  end.
Definition path_text (ps : list piece) : str := concat (map piece_text ps).
Definition path_in (ps : list piece) : list PathArgument := concat (map piece_in ps).
Lemma name_loop_stops k s : forallb (fun c => negb (ends_name c)) k = true ->
  match s with c :: _ => ends_name c | [] => true end = true -> name_loop (k ++ s) = s.
Proof.
  intros Hk Hs. induction k as [|c k IH]; cbn in *; [destruct s; cbn; [done|by rewrite Hs]|].
  apply andb_true_iff in Hk as [Hc Hk]. apply negb_true_iff in Hc. rewrite Hc. by apply IH.
Qed.
Lemma index_loop_read s l : forall a seen, Forall (fun c => isdigit c = true) l ->
  index_loop (l ++ s) (a mod 4294967296) = index_loop s (snd (read_digits 10 a seen l) mod 4294967296).
Proof.
  induction l as [|c l IH]; intros a seen H; [done|]. apply Forall_cons in H as [Hc Hl].
  cbn [app index_loop read_digits]. rewrite Hc.
  assert (base_digit 10 c = Some (Z.to_N (code c - 48))) as -> by by byte_cases c.
  rewrite <- IH by done. f_equal. set (d := Z.to_N _).
  by rewrite <- N.Div0.add_mod_idemp_l, N.Div0.mul_mod_idemp_l, N.Div0.add_mod_idemp_l.
Qed.
Lemma index_loop_number i s : (i < 4294967296)%N ->
  match s with c :: _ => isdigit c = false | [] => True end ->
  index_loop (to_dec i ++ s) 0 = (s, i).
Proof.
  intros Hi Hs. change 0%N with (0 mod 4294967296)%N.
  rewrite (index_loop_read s (to_dec i) 0 false (to_dec_all i)). unfold to_dec.
  destruct (read_dec_digits 20 i []) as [k ->]; [cbn; lia|lia|]. cbn [read_digits snd].
  rewrite N.mul_0_l, N.add_0_l, N.mod_small by done.
  destruct s as [|c s]; [done|]. cbn. by rewrite Hs.
Qed.
(** Both kinds of brackets and the dot are read over. *)
Lemma path_loop_dot fuel s in_ args : path_loop (S fuel) ("."%char :: s) in_ args = path_loop fuel s in_ args.
Proof. done. Qed.
Lemma pieces_start ps : match path_text ps with c :: _ => ends_name c | [] => true end = true.
Proof. by destruct ps as [|[] ps]. Qed.
Lemma path_loop_piece p ps fuel in_ args : piece_ok p = true ->
  (length (piece_text p) + length (path_text ps) < fuel)%nat ->
  exists fuel', (length (path_text ps) < fuel')%nat /\
    path_loop fuel (piece_text p ++ path_text ps) (piece_in p ++ in_) args =
    path_loop fuel' (path_text ps) in_ (args ++ [piece_argument p]).
Proof.
  intros Hp Hf. destruct fuel as [|[|fuel]]; [lia|destruct p as [[]| | |]; cbn in *; lia|].
  destruct p as [k|i|k|i]; cbn [piece_text piece_in piece_ok length] in *.
  - apply andb_true_iff in Hp as [Hc Hk]. destruct k as [|c k]; [done|]. exists fuel.
    rewrite !length_app in Hf. cbn in Hf. split; [lia|].
    change (#"." ++ c :: k) with ("."%char :: c :: k). cbn [app]. rewrite path_loop_dot.
    apply andb_true_iff in Hc as [H1%negb_true_iff H2%negb_true_iff].
    pose proof (name_loop_stops (c :: k) (path_text ps) Hk (pieces_start ps)) as Hn.
    apply andb_true_iff in Hk as [H3%negb_true_iff _]. unfold ends_name in H3.
    apply orb_false_iff in H3 as [[H3 H4]%orb_false_iff H5].
    cbn [path_loop]. rewrite H3, H1, H4, H2. cbn [orb].
    change (c :: k ++ path_text ps) with ((c :: k) ++ path_text ps).
    rewrite Hn. unfold between. rewrite length_app. rewrite take_app_length'; [done|lia].
  - apply N.ltb_lt in Hp. exists (S fuel). split; [rewrite !length_app in Hf; cbn in Hf; lia|].
    replace ((#"[" ++ to_dec i ++ #"]") ++ path_text ps)
      with ("["%char :: to_dec i ++ "]"%char :: path_text ps) by (cbn; by rewrite <- app_assoc).
    pose proof (to_dec_all i) as Hall. pose proof (to_dec_nonempty i) as Hne.
    pose proof (index_loop_number i ("]"%char :: path_text ps) Hp eq_refl) as Hi.
    cbn [app path_loop]. destruct (to_dec i) as [|c t]; [done|].
    apply Forall_cons in Hall as [Hc _]. cbn [app next_char fst] in *.
    assert (ceqb c "%" = false) as -> by by byte_cases c.
    change (ceqb "[" "[") with true. cbv iota. by rewrite Hi.
  - exists fuel. cbn in Hf. split; [lia|done].
  - exists fuel. cbn in Hf. split; [lia|done].
Qed.
Lemma path_loop_pieces ps : forall fuel in_ args, forallb piece_ok ps = true ->
  (length (path_text ps) < fuel)%nat ->
  path_loop fuel (path_text ps) (path_in ps ++ in_) args = Ret (args ++ map piece_argument ps).
Proof.
  induction ps as [|p ps IH]; intros fuel in_ args Hok Hf.
  - destruct fuel; [cbn in Hf; lia|]. cbn. by rewrite app_nil_r.
  - cbn [forallb] in Hok. apply andb_true_iff in Hok as [Hp Hps]. unfold path_text, path_in in *.
    cbn [map concat] in *. rewrite length_app in Hf. rewrite <- app_assoc.
    destruct (path_loop_piece p ps fuel (path_in ps ++ in_) args Hp Hf) as (fuel' & Hf' & Heq).
    unfold path_text, path_in in *. rewrite Heq. rewrite IH by done.
    by rewrite <- app_assoc.
Qed.
Lemma makePath_pieces ps in_ : forallb piece_ok ps = true ->
  makePath (path_text ps) (path_in ps ++ in_) = Ret (map piece_argument ps).
Proof. intros H. unfold makePath. by rewrite path_loop_pieces by (done || lia). Qed.

(** ** What [make] leads to *)

(** The step an argument of [args_] stands for. *)
Definition argument_step (a : PathArgument) : option step :=
  match kind_ a with
  | kindIndex => Some (Index (index_ a))
  | kindKey => Some (Key (CZString (key_ a)))
  | kindNone => None
  end.
Definition steps (args : Path) : list step := omap argument_step args.

(** There is a way along the path: what is on it is missing, null or of the type the next
    argument asks for, and no array is full ([size] wraps around behind the last index). *)
Definition roomy (v : Value) : bool :=
  match payload v with
  | arrayValue m => forallb (fun kv => (fst kv <? 4294967295)%N) m
  | _ => true
  end.
Fixpoint open_to (args : Path) (v : Value) : bool :=
  match args with
  | [] => true
  | arg :: args =>
      match kind_ arg with
      | kindIndex =>
          (isNull v || isArray v) && roomy v && (index_ arg <? 4294967295)%N
          && open_to args (default nullSingleton (get_child v (Index (index_ arg))))
      | kindKey =>
          (isNull v || isObject v)
          && open_to args (default nullSingleton (get_child v (Key (CZString (key_ arg)))))
      | kindNone => open_to args v
      end
  end.

(** The element or member that was asked for exists, with the value it had. *)
Lemma index_ref_child v i v1 : index_ref v i = Ret v1 ->
  get_child v1 (Index i) = Some (default nullSingleton (get_child v (Index i))).
Proof.
  unfold index_ref, json_assert, null_to.
  destruct v as [[] c a b]; cbn; try done; intros [= <-]; unfold get_child; cbn [payload set_payload].
  - apply (map_find_insert_default N.ltb i nullSingleton []).
  - apply map_find_insert_default, _.
Qed.
Lemma resolveReference_child v k v1 : resolveReference v k = Ret v1 ->
  get_child v1 (Key (CZString k)) = Some (default nullSingleton (get_child v (Key (CZString k)))).
Proof.
  unfold resolveReference, json_assert, null_to.
  destruct v as [[] c a b]; cbn; try done; intros [= <-]; unfold get_child; cbn [payload set_payload].
  - apply (map_find_insert_default CZString_ltb (CZString k) nullSingleton []).
  - apply map_find_insert_default, _.
Qed.
(** [make] from a node is [make] in the value of the node. *)
Lemma make_from_node args : forall root node v, get_path node root = Some v ->
  make_from args root node =
  let! (v', p) := make args v in Ret (upd_path node (fun _ => v') root, p ++ node).
Proof.
  unfold make. induction args as [|a args IH]; intros root node v Hv.
  - cbn. by rewrite upd_path_same.
  - assert (Hstep : forall s v1 c, get_child v1 s = Some c ->
      make_from args (upd_path node (fun _ => v1) root) (s :: node) =
      let! (v', p) := make_from args v1 [s] in Ret (upd_path node (fun _ => v') root, p ++ node)).
    { intros s v1 c Hc.
      assert (Hn : get_path (s :: node) (upd_path node (fun _ => v1) root) = Some c).
      { cbn. by rewrite get_upd_path, Hv. }
      rewrite (IH _ _ _ Hn), (IH v1 [s] c Hc). destruct (make_from args c []) as [[v' p]| |]; try done.
      cbn [obind]. cbn [upd_path]. rewrite upd_path_compose, <- app_assoc. done. }
    cbn [make_from]. rewrite Hv. cbn [default get_path id].
    destruct (kind_ a); [by apply IH| |].
    + destruct (index_ref v (index_ a)) as [v1| |] eqn:E; [|done..]. cbn [obind upd_path].
      by apply (Hstep _ _ _ (index_ref_child _ _ _ E)).
    + destruct (resolveReference v (key_ a)) as [v1| |] eqn:E; [|done..]. cbn [obind upd_path].
      by apply (Hstep _ _ _ (resolveReference_child _ _ _ E)).
Qed.
Lemma make_step s v1 c args : get_child v1 s = Some c ->
  make_from args v1 [s] =
  let! (c', p) := make args c in Ret (upd_child s (fun _ => c') v1, p ++ [s]).
Proof. intros Hc. by apply (make_from_node args v1 [s] c). Qed.

(** *** The size of an array *)
Lemma sorted_last {V} (m m' : list (N * V)) i v j w :
  sorted N.ltb m -> map_find N.ltb i m = Some v -> rev m = (j, w) :: m' -> (i <= j)%N.
Proof.
  intros Hs Hf Hr. apply (f_equal (@rev _)) in Hr. rewrite rev_involutive in Hr. cbn in Hr. subst m.
  apply (map_find_elem N.ltb) in Hf; [|done]. apply elem_of_app in Hf as [Hf|Hf].
  - induction (rev m') as [|kv l IH]; [by inversion Hf|].
    apply StronglySorted_inv in Hs as [Hs Hlt]. inversion Hf; subst; [|by apply IH].
    apply Forall_app in Hlt as [_ Hlt]. apply Forall_cons in Hlt as [Hlt _]. cbn in Hlt.
    apply N.ltb_lt in Hlt. lia.
  - inversion Hf as [|? ? ? H]; subst; [done|inversion H].
Qed.
Lemma isValidIndex_element v i x : typed v -> roomy v = true -> get_child v (Index i) = Some x ->
  isValidIndex v i = true.
Proof.
  intros Ht Hr Hc. destruct v as [[| | | | | |m|] c a b]; try done. cbn in Hc.
  rewrite typed_eq in Ht. cbn in Ht. destruct Ht as [Hs _].
  unfold isValidIndex, size. cbn [payload]. destruct (rev m) as [|[j w] m'] eqn:E.
  { apply (f_equal (@rev _)) in E. rewrite rev_involutive in E. by subst m. }
  pose proof (sorted_last m m' i x j w Hs Hc E) as Hij.
  unfold roomy in Hr. cbn in Hr. rewrite forallb_forall in Hr.
  assert (Hin : In (j, w) m) by (apply in_rev; rewrite E; by left).
  specialize (Hr _ Hin). cbn in Hr. apply N.ltb_lt in Hr. apply N.ltb_lt.
  unfold ArrayIndex_wrap. rewrite N.mod_small; lia.
Qed.
Lemma roomy_insert i m c a b : roomy (mkValue (arrayValue m) c a b) = true -> (i <? 4294967295)%N = true ->
  roomy (mkValue (arrayValue (map_insert_new N.ltb i nullSingleton m)) c a b) = true.
Proof.
  unfold roomy. cbn [payload]. intros Hm Hi. induction m as [|[j w] m IH]; cbn in *; [by rewrite Hi|].
  apply andb_true_iff in Hm as [Hj Hm].
  destruct (j <? i)%N; [|destruct (i <? j)%N]; cbn; rewrite ?Hi, ?Hj; cbn; auto.
Qed.

(** An element that [operator[]] makes is one [resolve] sees. *)
Lemma index_ref_open v i : typed v -> isNull v || isArray v = true -> roomy v = true ->
  (i <? 4294967295)%N = true ->
  exists v1, index_ref v i = Ret v1 /\ typed v1 /\ isArray v1 = true /\ roomy v1 = true.
Proof.
  intros Ht Ho Hr Hi. pose proof (index_ref_typed v i Ht) as Ht1.
  destruct v as [[| | | | | |m|] c a b]; try discriminate Ho.
  - eexists. split_and!; [reflexivity|exact Ht1|reflexivity|].
    by apply (roomy_insert i [] c a b).
  - eexists. split_and!; [reflexivity|exact Ht1|reflexivity|]. by apply roomy_insert.
Qed.
Lemma resolveReference_open v k : typed v -> isNull v || isObject v = true ->
  exists v1, resolveReference v k = Ret v1 /\ typed v1 /\ isObject v1 = true.
Proof.
  intros Ht Ho. pose proof (resolveReference_typed v k Ht) as Ht1.
  destruct v as [[| | | | | | |m] c a b]; try discriminate Ho;
    (eexists; split_and!; [reflexivity|exact Ht1|reflexivity]).
Qed.
Lemma index_ref_there v i x : isArray v = true -> get_child v (Index i) = Some x -> index_ref v i = Ret v.
Proof.
  destruct v as [[| | | | | |m|] c a b]; try done. intros _ H.
  change (Ret (mkValue (arrayValue (map_insert_new N.ltb i nullSingleton m)) c a b) =
          Ret (mkValue (arrayValue m) c a b)).
  by rewrite (map_insert_new_same N.ltb i nullSingleton x m H).
Qed.
Lemma resolveReference_there v k x : isObject v = true ->
  get_child v (Key (CZString k)) = Some x -> resolveReference v k = Ret v.
Proof.
  destruct v as [[| | | | | | |m] c a b]; try done. intros _ H.
  change (Ret (mkValue (objectValue (map_insert_new CZString_ltb (CZString k) nullSingleton m)) c a b) =
          Ret (mkValue (objectValue m) c a b)).
  by rewrite (map_insert_new_same CZString_ltb _ nullSingleton x m H).
Qed.
Lemma isArray_upd s f v : isArray (upd_child s f v) = isArray v.
Proof. by destruct v as [[] c a b], s. Qed.
Lemma isObject_upd s f v : isObject (upd_child s f v) = isObject v.
Proof. by destruct v as [[] c a b], s. Qed.

Lemma size_keys m c a b :
  size (mkValue (arrayValue m) c a b) =
  match rev (map fst m) with i :: _ => ArrayIndex_wrap (i + 1) | [] => 0%N end.
Proof. unfold size. cbn [payload]. rewrite <- map_rev. by destruct (rev m) as [|[i w] m']. Qed.
Lemma size_upd s f v : size (upd_child s f v) = size v.
Proof.
  destruct v as [[| | | | | |m|m] c a b], s as [k|i]; try done.
  - change (size (mkValue (arrayValue (map_upd N.ltb i f m)) c a b) = size (mkValue (arrayValue m) c a b)).
    by rewrite !size_keys, (map_upd_keys N.ltb).
  - unfold size. cbn. by rewrite <- (length_map fst (map_upd _ _ _ _)), (map_upd_keys CZString_ltb), length_map.
Qed.

Lemma get_path_snoc p s v w : get_path (p ++ [s]) v = Some w ->
  exists c, get_child v s = Some c /\ get_path p c = Some w.
Proof.
  intros H. destruct (get_child v s) as [c|] eqn:E.
  - exists c. split; [done|]. by rewrite <- (get_path_app p [s] v c E).
  - exfalso. revert w H. induction p as [|s' p IH]; intros w; cbn [app get_path]; [by rewrite E|].
    destruct (get_path (p ++ [s]) v) as [u|]; [|done]. by destruct (IH u).
Qed.
Lemma make_resolves args : forall v, typed v -> open_to args v = true ->
  exists v' p, make args v = Ret (v', p) /\ p = rev (steps args) /\
    (forall x, resolve_from args (upd_path p (fun _ => x) v') = Ret (Some x)) /\
    (forall w, get_path p v = Some w -> v' = v).
Proof.
  induction args as [|a args IH]; intros v Ht Ho; [by exists v, []|].
  unfold steps. cbn [omap list_omap]. unfold argument_step at 1. unfold make.
  cbn [open_to make_from resolve_from get_path] in *. destruct (kind_ a).
  - destruct (IH v Ht Ho) as (v' & p & Hm & Hp & H). by exists v', p.
  - repeat (apply andb_true_iff in Ho as [Ho ?]).
    destruct (index_ref_open v (index_ a) Ht) as (v1 & Hv1 & Ht1 & Ha1 & Hr1); [done..|].
    pose proof (index_ref_child _ _ _ Hv1) as Hc.
    destruct (IH _ (typed_child_default v (Index (index_ a)) Ht)) as (c' & p & Hm & Hp & Hx & Hk); [done|].
    cbn [default id]. rewrite Hv1. cbn [obind upd_path]. rewrite (make_step _ _ _ _ Hc), Hm.
    eexists _, _. split_and!; [reflexivity|by cbn [rev]; rewrite Hp| |].
    + intros x. rewrite upd_path_app. cbn [upd_path]. rewrite upd_child_compose.
      unfold isValidIndex. rewrite isArray_upd, Ha1, size_upd.
      change (index_ a <? size v1)%N with (isValidIndex v1 (index_ a)).
      rewrite (isValidIndex_element v1 _ _ Ht1 Hr1 Hc). cbn [negb orb].
      unfold index_const. rewrite isArray_upd, Ha1, orb_true_r. cbn [json_assert obind].
      rewrite get_upd_child, Hc. apply Hx.
    + intros w (c & Ec & Hw)%get_path_snoc.
      assert (isArray v = true) as Ha by by destruct v as [[] ? ? ?].
      rewrite (index_ref_there v _ c Ha Ec) in Hv1. injection Hv1 as <-.
      rewrite Ec in Hk. rewrite (Hk w Hw). by apply upd_child_same.
  - apply andb_true_iff in Ho as [Ho Hrest].
    destruct (resolveReference_open v (key_ a) Ht Ho) as (v1 & Hv1 & Ht1 & Ho1).
    pose proof (resolveReference_child _ _ _ Hv1) as Hc.
    destruct (IH _ (typed_child_default v (Key (CZString (key_ a))) Ht)) as (c' & p & Hm & Hp & Hx & Hk);
      [done|].
    cbn [default id]. rewrite Hv1. cbn [obind upd_path]. rewrite (make_step _ _ _ _ Hc), Hm.
    eexists _, _. split_and!; [reflexivity|by cbn [rev]; rewrite Hp| |].
    + intros x. rewrite upd_path_app. cbn [upd_path]. rewrite upd_child_compose.
      unfold find. rewrite isObject_upd, Ho1, orb_true_r. cbn [negb json_assert obind].
      rewrite get_upd_child, Hc. apply Hx.
    + intros w (c & Ec & Hw)%get_path_snoc.
      assert (isObject v = true) as Ha by by destruct v as [[] ? ? ?].
      rewrite (resolveReference_there v _ c Ha Ec) in Hv1. injection Hv1 as <-.
      rewrite Ec in Hk. rewrite (Hk w Hw). by apply upd_child_same.
Qed.
(** Below null everything can be made. *)
Lemma open_null args :
  Forall (fun a => (index_ a < 4294967295)%N) args -> open_to args nullSingleton = true.
Proof.
  induction 1 as [|a args Ha _ IH]; [done|]. cbn [open_to]. apply N.ltb_lt in Ha.
  by destruct (kind_ a); cbn in *; rewrite ?Ha, ?IH.
Qed.

(** *** What [make] leaves alone *)

(** The type, comments and place of a value, without what it holds. *)
Definition same_frame (v w : Value) : Prop :=
  type v = type w /\ comments_ v = comments_ w /\ start_ v = start_ w /\ limit_ v = limit_ w.
Lemma same_frame_upd s f v w : same_frame v w -> same_frame v (upd_child s f w).
Proof. intros H. destruct w as [[] c a b], s; exact H. Qed.

Lemma index_ref_keeps v i v1 : typed v -> index_ref v i = Ret v1 ->
  (forall s, s <> Index i -> get_child v1 s = get_child v s) /\
  (isNull v = false -> same_frame v v1).
Proof.
  intros Ht. unfold index_ref, json_assert, null_to.
  destruct v as [[| | | | | |m|] c a b]; cbn; try done; intros [= <-].
  - split; [|done]. intros [k|j] Hj; [done|]. unfold get_child. cbn.
    destruct (i <? j)%N eqn:E1; [done|]. destruct (j <? i)%N eqn:E2; [done|]. destruct Hj. f_equal. symmetry. by apply (ltb_total (ltb:=N.ltb)).
  - split; [|done]. intros [k|j] Hj; [done|]. unfold get_child. cbn [payload set_payload].
    rewrite typed_eq in Ht. cbn in Ht. destruct Ht as [Hs _]. rewrite (map_find_insert N.ltb) by done.
    destruct (decide _) as [[E1 E2]|]; [|done]. destruct Hj. f_equal. symmetry. by apply (ltb_total (ltb:=N.ltb)).
Qed.
Lemma resolveReference_keeps v k v1 : typed v -> resolveReference v k = Ret v1 ->
  (forall s, s <> Key (CZString k) -> get_child v1 s = get_child v s) /\
  (isNull v = false -> same_frame v v1).
Proof.
  intros Ht. unfold resolveReference, json_assert, null_to.
  destruct v as [[| | | | | | |m] c a b]; cbn; try done; intros [= <-].
  - split; [|done]. intros [j|j] Hj; [|done]. unfold get_child. cbn.
    destruct (CZString_ltb (CZString k) j) eqn:E1; [done|].
    destruct (CZString_ltb j (CZString k)) eqn:E2; [done|]. destruct Hj. f_equal. symmetry. by apply (ltb_total (ltb:=CZString_ltb)).
  - split; [|done]. intros [j|j] Hj; [|done]. unfold get_child. cbn [payload set_payload].
    rewrite typed_eq in Ht. cbn in Ht. destruct Ht as [Hs _]. rewrite (map_find_insert CZString_ltb) by done.
    destruct (decide _) as [[E1 E2]|]; [|done]. destruct Hj. f_equal. symmetry. by apply (ltb_total (ltb:=CZString_ltb)).
Qed.

Lemma get_upd_other s s' f v : s' <> s -> get_child (upd_child s f v) s' = get_child v s'.
Proof.
  destruct v as [[| | | | | |m|m] c a b], s as [k|i], s' as [k'|i']; try done; intros Hne;
    unfold get_child; cbn [upd_child payload set_payload].
  - rewrite (map_find_upd N.ltb). destruct (decide _) as [[E1 E2]|]; [|done].
    destruct Hne. f_equal. symmetry. by apply (ltb_total (ltb:=N.ltb)).
  - rewrite (map_find_upd CZString_ltb). destruct (decide _) as [[E1 E2]|]; [|done].
    destruct Hne. f_equal. symmetry. by apply (ltb_total (ltb:=CZString_ltb)).
Qed.
(** A path of at least one step starts with a child. *)
Lemma get_path_first q s v :
  get_path (q ++ [s]) v = match get_child v s with Some c => get_path q c | None => None end.
Proof.
  destruct (get_child v s) as [c|] eqn:E; [by apply get_path_app|].
  induction q as [|s' q IH]; cbn; [by rewrite E|]. by rewrite IH.
Qed.
Lemma get_path_null q : q <> [] -> get_path q nullSingleton = None.
Proof.
  intros Hq. destruct q as [|s q] using rev_ind; [done|]. rewrite get_path_first. by destruct s.
Qed.
(** [make] keeps what is not on the path, and the values on the path but for what they hold. *)
Definition keeps_rest (p : list step) (v v' : Value) : Prop :=
  (forall q, ~ q `suffix_of` p -> get_path q v' = get_path q v) /\
  (forall q w, q `suffix_of` p -> get_path q v = Some w -> isNull w = false ->
     exists w', get_path q v' = Some w' /\ same_frame w w').
Lemma keeps_rest_step s v v1 c c' p :
  (forall s', s' <> s -> get_child v1 s' = get_child v s') -> (isNull v = false -> same_frame v v1) ->
  get_child v1 s = Some (default nullSingleton (get_child v s)) ->
  c = default nullSingleton (get_child v s) -> keeps_rest p c c' ->
  keeps_rest (p ++ [s]) v (upd_child s (fun _ => c') v1).
Proof.
  intros Ho Hf Hc -> [Hk1 Hk2]. split.
  - intros q Hq. destruct q as [|s' q _] using rev_ind; [destruct Hq; apply suffix_nil|].
    rewrite !get_path_first. destruct (decide (s' = s)) as [->|Hne].
    + assert (~ q `suffix_of` p) as Hq'.
      { intros [l ->]. apply Hq. exists l. by rewrite app_assoc. }
      rewrite get_upd_child, Hc. cbn [option_map]. rewrite Hk1 by done.
      destruct (get_child v s) as [c0|]; [done|]. apply get_path_null. intros ->. apply Hq', suffix_nil.
    + rewrite get_upd_other by done. by rewrite Ho.
  - intros q w Hq Hw Hn. destruct q as [|s' q _] using rev_ind.
    { injection Hw as ->. eexists. split; [reflexivity|]. by apply same_frame_upd, Hf. }
    pose proof (suffix_snoc_inv_1 _ _ _ _ Hq) as ->. apply suffix_snoc_inv_2 in Hq.
    rewrite get_path_first in Hw |- *. rewrite get_upd_child, Hc. cbn [option_map].
    destruct (get_child v s) as [c0|]; [|done]. by apply Hk2.
Qed.
Lemma make_keeps args : forall v v' p, typed v -> make args v = Ret (v', p) -> keeps_rest p v v'.
Proof.
  induction args as [|a args IH]; intros v v' p Ht Hm.
  { injection Hm as <- <-. split; [done|]. intros q w Hq Hw _. by exists w. }
  unfold make in Hm. cbn [make_from get_path default id] in Hm. destruct (kind_ a).
  - by apply (IH v).
  - apply obind_Ret in Hm as (v1 & H1 & Hm). cbn [upd_path] in Hm.
    destruct (index_ref_keeps v _ v1 Ht H1) as [Ho Hf].
    pose proof (index_ref_child _ _ _ H1) as Hc. rewrite (make_step _ _ _ _ Hc) in Hm.
    apply obind_Ret in Hm as ([c' p'] & Hm & [= <- <-]).
    apply (keeps_rest_step _ v v1 _ c' p' Ho Hf Hc eq_refl), (IH _ _ _ (typed_child_default v _ Ht) Hm).
  - apply obind_Ret in Hm as (v1 & H1 & Hm). cbn [upd_path] in Hm.
    destruct (resolveReference_keeps v _ v1 Ht H1) as [Ho Hf].
    pose proof (resolveReference_child _ _ _ H1) as Hc. rewrite (make_step _ _ _ _ Hc) in Hm.
    apply obind_Ret in Hm as ([c' p'] & Hm & [= <- <-]).
    apply (keeps_rest_step _ v v1 _ c' p' Ho Hf Hc eq_refl), (IH _ _ _ (typed_child_default v _ Ht) Hm).
Qed.

(** C30: The path of a text that names members and elements, by itself or through the
    arguments of the constructor, consists of the steps named.  Where it is open, [make]
    leads there, and what is stored through the reference it returns is what [resolve] finds;
    what was there, [resolve] finds without.  [make] creates what is missing on the path and
    nothing else: whatever is off the path is there, or missing, as it was, and a value on the path
    that was not null keeps its type, comments and place. *)
Theorem path_reaches_value ps a1 a2 a3 a4 a5 rest root :
  forallb piece_ok ps = true -> [a1; a2; a3; a4; a5] = path_in ps ++ rest ->
  typed root -> open_to (map piece_argument ps) root = true ->
  exists args root' node,
    Path_make (path_text ps) a1 a2 a3 a4 a5 = Ret args /\
    make args root = Ret (root', node) /\ node = rev (steps (map piece_argument ps)) /\
    (forall x, resolve args (upd_path node (fun _ => x) root') = Ret x) /\
    (forall w, get_path node root = Some w -> root' = root /\ resolve args root = Ret w) /\
    keeps_rest node root root'.
Proof.
  intros Hok Hin Ht Ho.
  destruct (make_resolves _ root Ht Ho) as (root' & p & Hm & Hp & Hx & Hk).
  exists (map piece_argument ps), root', p. unfold Path_make. rewrite Hin, makePath_pieces by done.
  assert (Hr : forall x, resolve (map piece_argument ps) (upd_path p (fun _ => x) root') = Ret x).
  { intros x. unfold resolve. by rewrite Hx. }
  split_and!; [done..| |by eapply make_keeps]. intros w Hw. pose proof (Hk w Hw) as ->.
  split; [done|]. rewrite <- (Hr w). by rewrite upd_path_same.
Qed.
Example path_reaches_value_witness :
  exists args root' node,
    Path_make #".faces[2].%[%].width" (PathArgument_String #"rect") (PathArgument_index 1)
      PathArgument_none PathArgument_none PathArgument_none = Ret args /\
    make args nullSingleton = Ret (root', node) /\
    node = [Key #"width"; Index 1; Key #"rect"; Index 2; Key #"faces"] /\
    resolve args (upd_path node (fun _ => Value_int 7) root') = Ret (Value_int 7).
Proof.
  destruct (path_reaches_value
    [Named #"faces"; Numbered 2; KeyArgument #"rect"; IndexArgument 1; Named #"width"]
    _ _ PathArgument_none PathArgument_none PathArgument_none
    [PathArgument_none; PathArgument_none; PathArgument_none] nullSingleton
    eq_refl eq_refl typed_null eq_refl) as (args & root' & node & H1 & H2 & H3 & H4 & _).
  exists args, root', node. by split_and!.
Defined.

(** ** Texts that are no paths *)

(** No text is an error: characters behind an index are dropped, and an argument of the
    wrong kind, or none, is left out. *)
Example path_never_fails :
  Path_make #"[1x].[%].a" (PathArgument_String #"k") PathArgument_none PathArgument_none
    PathArgument_none PathArgument_none =
  Ret [PathArgument_index 1; PathArgument_String #"a"].
Proof. reflexivity. Qed.
(** A null is found where nothing is; [make] throws where a value of another type is. *)
Example resolve_missing :
  resolve [PathArgument_String #"a"; PathArgument_index 0] (Value_make TObject) = Ret nullSingleton /\
  resolve_default [PathArgument_index 3] (Value_make TArray) (Value_int 1) = Ret (Value_int 1) /\
  make [PathArgument_String #"a"] (Value_int 1) =
    Throw (JsonLogicError #"in Json::Value::resolveReference(key, end): requires objectValue").
Proof. split_and!; reflexivity. Qed.
