(* ===== verification/JsonReaderLaws.v ===== *)
(** * JSON: laws of the reader

    The reader comes to an end on every document: each function of it moves the
    location on, and the fuel of each loop is more than the characters that are left. *)
From Stdlib Require Import Ascii String.
From stdpp Require Import base tactics list numbers option strings.
From S2P Require Import Prelude Globals Double JsonText JsonValue JsonReader.
Open Scope Z_scope.

(** ** Progress *)

(** The exceptions of the JSON library. *)
Definition json_exn (e : exn) : Prop := exists msg, e = JsonLogicError msg \/ e = JsonRuntimeError msg.
Lemma logic_exn msg : json_exn (JsonLogicError msg).
Proof. exists msg. by left. Qed.
Lemma runtime_exn msg : json_exn (JsonRuntimeError msg).
Proof. exists msg. by right. Qed.
#[export] Hint Resolve logic_exn runtime_exn : webcc.

Lemma ends_assert {A} c msg (k : outcome A) Q :
  ends json_exn k Q -> ends json_exn (json_assert c msg k) Q.
Proof. destruct c; cbn; auto with webcc. Qed.

(** *** The scanners give a suffix *)
Lemma drop_while_length p s : (length (drop_while p s) <= length s)%nat.
Proof. induction s as [|c s IH]; cbn; [lia|]. destruct (p c); cbn; lia. Qed.
Lemma c_comment_length s : (length (snd (readCStyleComment s)) <= length s)%nat.
Proof.
  induction s as [|x s IH]; cbn; [lia|]. destruct s as [|y s]; [cbn; lia|].
  destruct (ceqb x "*" && ceqb y "/"); cbn in *; lia.
Qed.
Lemma cpp_comment_length s : (length (readCppStyleComment s) <= length s)%nat.
Proof.
  induction s as [|x s IH]; cbn; [lia|]. destruct (ceqb x LF); [lia|].
  destruct (ceqb x CR); [|cbn in *; lia]. destruct s as [|y s]; [cbn; lia|].
  destruct (ceqb y LF); cbn; lia.
Qed.
Lemma readString_length q c s : (length (snd (readString q c s)) <= length s)%nat.
Proof.
  revert c. induction s as [s IH] using (induction_ltof1 _ (@length ascii)); unfold ltof in IH.
  intros c. destruct s as [|x s]; cbn; [lia|]. destruct (ceqb x "\").
  - destruct s as [|y s]; cbn; [lia|].
    assert (length (snd (readString q x s)) <= length s)%nat by (apply IH; cbn; lia). lia.
  - destruct (ceqb x q); cbn; [lia|].
    assert (length (snd (readString q x s)) <= length s)%nat by (apply IH; cbn; lia). lia.
Qed.
Lemma match_length pattern s s' : match_ pattern s = Some s' -> (length s' <= length s)%nat.
Proof.
  unfold match_. destruct (prefixb pattern s); [|done]. intros [= <-]. rewrite length_drop. lia.
Qed.
(** The locations of [readNumber]: [cur] is never behind [p], and both never
    behind the start. *)
Lemma digits_loop_length cur p c n :
  (length cur <= n)%nat -> (length p <= n)%nat ->
  let '(cur', p', _) := digits_loop cur p c in (length cur' <= n)%nat /\ (length p' <= n)%nat.
Proof.
  revert cur c. induction p as [|x p IH]; intros cur c Hc Hp; cbn.
  - destruct (isdigit c); cbn; lia.
  - destruct (isdigit c); [|cbn in *; lia]. apply IH; cbn in *; lia.
Qed.
Lemma advance_length p n :
  (length p <= n)%nat ->
  let '(cur', p', _) := advance p in (length cur' <= n)%nat /\ (length p' <= n)%nat.
Proof. destruct p; cbn; lia. Qed.
Lemma readNumber_length checkInf s : (length (snd (readNumber checkInf s)) <= length s)%nat.
Proof.
  unfold readNumber. destruct (checkInf && _); cbn [snd]; [rewrite length_drop; lia|].
  set (n := length s).
  pose proof (digits_loop_length s s "0" n ltac:(done) ltac:(done)) as H1.
  destruct (digits_loop s s "0") as [[cur1 p1] c1]. destruct H1 as [H1 H1'].
  assert (exists cur2 p2 c2, (if ceqb c1 "." then let '(cur, p, c) := advance p1 in
    digits_loop cur p c else (cur1, p1, c1)) = (cur2, p2, c2) /\
    (length cur2 <= n)%nat /\ (length p2 <= n)%nat) as (cur2 & p2 & c2 & -> & H2 & H2').
  { destruct (ceqb c1 "."); [|by eauto 8].
    pose proof (advance_length p1 n H1') as H. destruct (advance p1) as [[a b] c].
    destruct H as [Ha Hb]. pose proof (digits_loop_length a b c n Ha Hb) as H.
    destruct (digits_loop a b c) as [[a' b'] c']. destruct H. by eauto 8. }
  destruct (ceqb c2 "e" || ceqb c2 "E"); [|done].
  pose proof (advance_length p2 n H2') as H. destruct (advance p2) as [[a b] c].
  destruct H as [Ha Hb].
  assert (exists a3 b3 c3, (if ceqb c "+" || ceqb c "-" then advance b else (a, b, c)) =
    (a3, b3, c3) /\ (length a3 <= n)%nat /\ (length b3 <= n)%nat)
    as (a3 & b3 & c3 & -> & Ha3 & Hb3).
  { destruct (ceqb c "+" || ceqb c "-"); [|by eauto 8].
    pose proof (advance_length b n Hb) as H. destruct (advance b) as [[a' b'] c'].
    destruct H. by eauto 8. }
  pose proof (digits_loop_length a3 b3 c3 n Ha3 Hb3) as H.
  destruct (digits_loop a3 b3 c3) as [[a' b'] c']. by destruct H.
Qed.

(** *** Reading on *)

(** A state that is not before [r] in the document, on the same stack. *)
Definition follows (r r' : OurReader) : Prop :=
  (length (current_ r') <= length (current_ r))%nat /\ nodes_ r' = nodes_ r.
(** [strictly] when a character was read. *)
Definition follows_strictly (r r' : OurReader) : Prop :=
  (length (current_ r') < length (current_ r))%nat /\ nodes_ r' = nodes_ r.
Lemma follows_refl r : follows r r.
Proof. by split. Qed.
Lemma follows_trans r1 r2 r3 : follows r1 r2 -> follows r2 r3 -> follows r1 r3.
Proof. intros [? H1] [? H2]. split; [lia|congruence]. Qed.
Lemma follows_trans_l r1 r2 r3 : follows_strictly r1 r2 -> follows r2 r3 -> follows_strictly r1 r3.
Proof. intros [? H1] [? H2]. split; [lia|congruence]. Qed.
Lemma follows_trans_r r1 r2 r3 : follows r1 r2 -> follows_strictly r2 r3 -> follows_strictly r1 r3.
Proof. intros [? H1] [? H2]. split; [lia|congruence]. Qed.
Lemma follows_weaken r1 r2 : follows_strictly r1 r2 -> follows r1 r2.
Proof. intros [? H]. split; [lia|done]. Qed.
#[export] Hint Resolve follows_refl follows_weaken : webcc.

Section Progress.
Context (features_ : OurFeatures) (collectComments_ : bool) (begin_ : Location).
Abbreviation readToken := (readToken features_ collectComments_ begin_).
Abbreviation next_token := (next_token features_ collectComments_ begin_).
Abbreviation recoverFromError := (recoverFromError features_ collectComments_ begin_).

Lemma comment_value_ends p c pl r :
  ends json_exn (comment_value p c pl r)
    (fun r' => current_ r' = current_ r /\ nodes_ r' = nodes_ r /\ last_ r' = last_ r).
Proof.
  apply ends_bind. unfold setComment.
  do 2 apply ends_assert. done.
Qed.
Lemma addComment_ends r b e pl :
  ends json_exn (addComment r b e pl)
    (fun r' => current_ r' = current_ r /\ nodes_ r' = nodes_ r).
Proof.
  unfold addComment. destruct pl; [done| |done]. destruct (last_ r) as [[? p]|]; [|done].
  eapply ends_weaken; [apply comment_value_ends|]. by intros r' (H1 & H2 & _).
Qed.
Lemma readComment_ends r :
  ends json_exn (readComment collectComments_ begin_ r) (fun '(r', _) => follows r r').
Proof.
  unfold readComment.
  assert (Hs : (length (snd (next_char (current_ r))) <= length (current_ r))%nat).
  { unfold next_char. destruct (current_ r); cbn; lia. }
  destruct (next_char (current_ r)) as [c s]. cbn in Hs.
  set (res := if ceqb c "*" then _ else _).
  assert (Hres : (length (snd res) <= length s)%nat).
  { subst res. destruct (ceqb c "*"); [apply c_comment_length|].
    destruct (ceqb c "/"); cbn; [apply cpp_comment_length|lia]. }
  destruct res as [ok s']. cbn in Hres.
  assert (follows r (set_current r s')) by (split; cbn; [lia|done]).
  destruct ok; cbn [negb]; [|done]. destruct collectComments_; [|done].
  eapply ends_then; [apply addComment_ends|]. intros r' [H1 H2].
  split; [rewrite H1; cbn; lia|by rewrite H2].
Qed.

(** A token takes a character at least, unless it is the end of the stream. *)
Definition token_progress (r : OurReader) (res : OurReader * Token) : Prop :=
  let '(r', t) := res in
  follows r r' /\ (type_ t <> tokenEndOfStream -> follows_strictly r r').
Lemma readToken_ends r : ends json_exn (readToken r) (token_progress r).
Proof.
  unfold JsonReader.readToken. set (start := skipSpaces (current_ r)).
  assert (Hst : (length start <= length (current_ r))%nat) by apply drop_while_length.
  destruct (next_char start) as [c s] eqn:Hn.
  assert (Hs : (c = NUL /\ s = []) \/ (length s < length start)%nat).
  { unfold next_char in Hn. destruct start; injection Hn as <- <-; cbn; auto with lia. }
  clearbody start. destruct Hs as [[-> ->]|Hs].
  { cbn. split; [split; cbn; [lia|done]|done]. }
  assert (Hp : forall s' ty, (length s' <= length s)%nat ->
            token_progress r (set_current r s', mkToken ty start s')).
  { intros s' ty H. split; [split|intros _; split]; cbn; [lia|done|lia|done]. }
  assert (Hsc : forall ty q, ends json_exn (let '(ok, s') := readString q NUL s in
            Ret (set_current r s', mkToken (if ok : bool then ty else tokenError) start s'))
            (token_progress r)).
  { intros ty q. pose proof (readString_length q NUL s) as H.
    destruct (readString q NUL s) as [ok s']. by apply Hp. }
  assert (Hlit : forall ty pattern, ends json_exn
            match match_ pattern s with
            | Some s' => Ret (set_current r s', mkToken ty start s')
            | None => Ret (set_current r s, mkToken tokenError start s)
            end (token_progress r)).
  { intros ty pattern. destruct (match_ pattern s) as [s'|] eqn:E; [|by apply Hp].
    apply match_length in E. by apply Hp. }
  cbv zeta.
  repeat match goal with
  | |- ends _ (if ?b then _ else _) _ => destruct b
  end; try exact (Hp _ _ (le_n _)); try exact (Hsc _ _); try exact (Hlit _ _).
  - eapply ends_then; [apply readComment_ends|]. intros [r' ok] [H1 H2]. cbn in H1.
    split; [split|intros _; split]; cbn; try done; lia.
  - exact (Hp _ _ (readNumber_length false s)).
  - pose proof (readNumber_length true s) as H. destruct (readNumber true s) as [ok s']. cbn in H.
    destruct ok; [by apply Hp|]. destruct (allowSpecialFloats_ features_); [|by apply Hp].
    destruct (match_ _ s') as [s''|] eqn:E; [|by apply Hp]. apply match_length in E. apply Hp. lia.
Qed.
Lemma skip_comments_ends fuel r t :
  (length (current_ r) < fuel)%nat ->
  ends json_exn (skip_comments features_ collectComments_ begin_ fuel r t)
    (fun '(r', t') => follows r r' /\ (r' = r /\ t' = t \/ token_progress r (r', t'))).
Proof.
  revert r t. induction fuel as [|fuel IH]; intros r t Hf; [lia|]. cbn [skip_comments].
  destruct (is_token t tokenComment); [|by split; [|left]].
  eapply ends_then; [apply readToken_ends|]. intros [r1 t1] [Hf1 Hp1].
  destruct (is_token t1 tokenComment) eqn:E.
  - apply bool_decide_eq_true in E. destruct (Hp1 ltac:(by rewrite E)) as [Hlt Hn].
    eapply ends_weaken; [apply (IH r1 t1); lia|]. intros [r2 t2] [Hf2 Hcase].
    split; [by eapply follows_trans|]. right. destruct Hcase as [[-> ->]|[Hf3 Hp3]].
    + by split.
    + split; [by eapply follows_trans|]. intros H. eapply follows_trans_r; [done|by apply Hp3].
  - destruct fuel; cbn [skip_comments]; rewrite E; (split; [done|by right]).
Qed.
Lemma next_token_ends r : ends json_exn (next_token r) (token_progress r).
Proof.
  unfold JsonReader.next_token. eapply ends_then; [apply readToken_ends|].
  intros [r1 t1] [Hf1 Hp1].
  eapply ends_weaken; [apply skip_comments_ends; lia|]. intros [r2 t2] [Hf2 Hcase].
  destruct Hcase as [[-> ->]|[Hf3 Hp3]]; [by split|].
  split; [by eapply follows_trans|]. intros H. eapply follows_trans_r; [done|by apply Hp3].
Qed.
Lemma recoverFromError_ends r ty :
  ends json_exn (recoverFromError r ty) (fun '(r', _) => follows r r').
Proof.
  assert (Hl : forall fuel r, (length (current_ r) < fuel)%nat ->
    ends json_exn (recover_loop features_ collectComments_ begin_ fuel r ty) (follows r)).
  { clear r. induction fuel as [|fuel IH]; intros r Hf; [lia|]. cbn [recover_loop].
    eapply ends_then; [apply readToken_ends|]. intros [r1 t1] [Hf1 Hp1].
    destruct (is_token t1 ty || is_token t1 tokenEndOfStream) eqn:E; [done|].
    apply orb_false_iff in E as [_ E]. apply bool_decide_eq_false in E.
    destruct (Hp1 E) as [Hlt _]. eapply ends_weaken; [apply (IH r1); lia|]. intros r2 H.
    by eapply follows_trans. }
  unfold JsonReader.recoverFromError. eapply ends_then; [apply Hl; lia|].
  intros r1 [H1 H2]. by split.
Qed.
Lemma skipCommentTokens_ends r :
  ends json_exn (skipCommentTokens features_ collectComments_ begin_ r) (token_progress r).
Proof.
  unfold skipCommentTokens. destruct (allowComments_ features_);
    [apply next_token_ends|apply readToken_ends].
Qed.

(** *** Values *)
Lemma resolveReference_ends v k : ends json_exn (resolveReference v k) (fun _ => True).
Proof. apply ends_assert. cbv zeta. by destruct (payload _). Qed.
Lemma index_ref_ends v i : ends json_exn (index_ref v i) (fun _ => True).
Proof. apply ends_assert. cbv zeta. by destruct (payload _). Qed.
Lemma index_int_ends v i : ends json_exn (index_int v i) (fun _ => True).
Proof. apply ends_assert, index_ref_ends. Qed.
Lemma isMember_ends v k : ends json_exn (isMember v k) (fun _ => True).
Proof. apply ends_bind, ends_assert. done. Qed.
Lemma Value_String_ends s : ends json_exn (Value_String s) (fun _ => True).
Proof. apply ends_bind, ends_assert. done. Qed.
Lemma asString_ends v : ends json_exn (asString v) (fun _ => True).
Proof. unfold asString. destruct (payload v); cbn; auto with webcc. Qed.
Lemma read_name_ends r t :
  ends json_exn (read_name features_ r t) (fun '(r', _) => follows r r').
Proof.
  unfold read_name. destruct (is_token t tokenString); [by destruct (decodeString t)|].
  destruct (is_token t tokenNumber && _); [|done]. destruct (decodeNumber t); [|done].
  eapply ends_then; [apply asString_ends|]. done.
Qed.

Section Rec.
Context (rec : OurReader -> outcome (OurReader * bool)) (n : nat).
Context (Hrec : forall r, length (nodes_ r) = S n ->
  ends json_exn (rec r) (fun '(r', _) => follows r r')).

Lemma rec_pushed r s :
  length (nodes_ r) = n ->
  ends json_exn (rec (push r s)) (fun '(r', _) => follows r (pop r')).
Proof.
  intros Hn. eapply ends_weaken; [apply Hrec; cbn; lia|].
  intros [r' ok] [H1 H2]. split; cbn in *; [lia|by rewrite H2].
Qed.
Lemma stop_ends {A} (m : outcome (OurReader * A)) r1 r2 :
  follows r1 r2 -> ends json_exn m (fun '(r', _) => follows r2 r') ->
  ends json_exn (let! (r, ok) := m in Ret (r, Some ok))
    (fun '(r', stop) => follows r1 r' /\ (stop = None -> follows_strictly r1 r')).
Proof.
  intros Hf H. eapply ends_then; [done|]. intros [r' ok] H'. split; [|done].
  by eapply follows_trans.
Qed.
Lemma read_member_ends r t name :
  length (nodes_ r) = n ->
  ends json_exn (read_member features_ collectComments_ begin_ rec r t name)
    (fun '(r', stop) => follows r r' /\ (stop = None -> follows_strictly r r')).
Proof.
  intros Hn. unfold read_member. cbv zeta.
  eapply ends_then; [apply readToken_ends|]. intros [r1 colon] [Hf1 Hp1].
  destruct (is_token colon tokenMemberSeparator) eqn:Ec; cbn [negb];
    [|eapply stop_ends; [|apply recoverFromError_ends]; exact Hf1].
  apply bool_decide_eq_true in Ec. assert (Hs1 : follows_strictly r r1) by (apply Hp1; by rewrite Ec).
  destruct (2 ^ 30 <=? len name)%N; [cbn; auto with webcc|].
  eapply ends_then with (Q := fun _ => True); [destruct (rejectDupKeys_ _); [apply isMember_ends|done]|].
  intros [] _; [eapply stop_ends; [|apply recoverFromError_ends]; exact Hf1|].
  eapply ends_then; [apply resolveReference_ends|]. intros v _.
  eapply ends_then.
  { apply rec_pushed. change (length (nodes_ r1) = n). by destruct Hf1 as [_ ->]. }
  intros [r2 ok] Hf2.
  assert (Hs2 : follows_strictly r (pop r2)) by exact (follows_trans_l r r1 _ Hs1 Hf2).
  destruct ok; cbn [negb];
    [|eapply stop_ends; [|apply recoverFromError_ends]; by apply follows_weaken].
  eapply ends_then; [apply readToken_ends|]. intros [r3 comma] [Hf3 Hp3].
  destruct (negb _).
  { eapply stop_ends; [|apply recoverFromError_ends].
    eapply follows_trans; [by apply follows_weaken|exact Hf3]. }
  eapply ends_then; [apply skip_comments_ends; lia|]. intros [r4 t4] [Hf4 _].
  assert (follows_strictly r r4) by by do 2 (eapply follows_trans_l; [|done]).
  split; auto with webcc.
Qed.
Lemma object_loop_ends fuel r name :
  length (nodes_ r) = n -> (length (current_ r) < fuel)%nat ->
  ends json_exn (object_loop features_ collectComments_ begin_ rec fuel r name)
    (fun '(r', _) => follows r r').
Proof.
  revert r name. induction fuel as [|fuel IH]; intros r name Hn Hf; [lia|]. cbn [object_loop].
  eapply ends_then; [apply next_token_ends|]. intros [r1 t1] [Hf1 Hp1].
  destruct (is_token t1 tokenObjectEnd && _); [done|].
  eapply ends_then; [apply read_name_ends|]. intros [r2 nm] Hf2.
  assert (Hf12 : follows r r2) by by eapply follows_trans.
  destruct nm as [name'| |].
  - eapply ends_then; [apply read_member_ends; destruct Hf12 as [_ ->]; done|].
    intros [r3 [ok|]] [Hf3 Hp3]; [by eapply follows_trans|].
    destruct (Hp3 eq_refl) as [Hlt Hn3]. destruct Hf12 as [Hle Hn2].
    eapply ends_weaken; [apply IH; [congruence|lia]|]. intros [r4 ok] Hf4.
    do 2 (eapply follows_trans; [|done]). by split.
  - eapply ends_weaken; [apply recoverFromError_ends|]. intros [r3 ok] H. by eapply follows_trans.
  - eapply ends_weaken; [apply recoverFromError_ends|]. intros [r3 ok] H.
    eapply follows_trans; [exact Hf12|done].
Qed.
Lemma array_loop_ends fuel r index :
  length (nodes_ r) = n -> (length (current_ r) < fuel)%nat ->
  ends json_exn (array_loop features_ collectComments_ begin_ rec fuel r index)
    (fun '(r', _) => follows r r').
Proof.
  revert r index. induction fuel as [|fuel IH]; intros r index Hn Hf; [lia|]. cbn [array_loop].
  eapply ends_then; [apply index_int_ends|]. intros v _. cbv zeta.
  eapply ends_then; [by apply rec_pushed|]. intros [r2 ok] Hf2.
  assert (Hf12 : follows r (pop r2)) by done.
  destruct ok; cbn [negb].
  2: { eapply ends_weaken; [apply recoverFromError_ends|]. intros [r3 ok] H.
       by eapply follows_trans. }
  eapply ends_then; [apply next_token_ends|]. intros [r3 t3] [Hf3 Hp3].
  assert (Hf13 : follows r r3) by by eapply follows_trans.
  destruct (is_token t3 tokenArrayEnd); [done|].
  destruct (is_token t3 tokenArraySeparator) eqn:E.
  - apply bool_decide_eq_true in E. destruct (Hp3 ltac:(by rewrite E)) as [Hlt Hn3].
    destruct Hf12 as [Hle Hn2]. eapply ends_weaken; [apply IH; [congruence|lia]|].
    intros [r4 ok] H. by eapply follows_trans.
  - eapply ends_weaken; [apply recoverFromError_ends|]. intros [r4 ok] H.
    eapply follows_trans; [exact Hf13|done].
Qed.
(** Behind a token that is put back a value may end one character earlier. *)
Definition value_progress (r : OurReader) (t : Token) (r' : OurReader) : Prop :=
  nodes_ r' = nodes_ r /\
  ((length (current_ r') <= length (current_ r))%nat \/
   (length (current_ r') <= S (length (current_ r)))%nat /\ type_ t <> tokenEndOfStream).
Lemma follows_value r t r' : follows r r' -> value_progress r t r'.
Proof. intros [? ?]. split; [done|by left]. Qed.
Lemma read_token_value_ends r t :
  length (nodes_ r) = n ->
  ends json_exn (read_token_value features_ collectComments_ begin_ rec r t)
    (fun '(r', _) => value_progress r t r').
Proof.
  intros Hn. unfold read_token_value. cbv zeta.
  assert (Hw : forall m : outcome (OurReader * bool),
    ends json_exn m (fun '(r', _) => follows r r') ->
    ends json_exn (let! (r0, ok) := m in Ret (on_current (fun w => setOffsetLimit w
      (offset begin_ (current_ r0))) r0, Some ok)) (fun '(r', _) => value_progress r t r')).
  { intros m H. eapply ends_then; [done|]. intros [r' ok] H'. by apply follows_value. }
  assert (Hb : (length (before begin_ (current_ r)) <= S (length (current_ r)))%nat).
  { unfold before. rewrite length_drop. lia. }
  destruct (type_ t) eqn:Et;
    try (destruct (allowDroppedNullPlaceholders_ features_);
         (split; [done|first [by left|right; rewrite Et; by split]]));
    try by apply follows_value.
  - apply Hw. exact (object_loop_ends (S (length (current_ r))) (start_container begin_ r TObject
    t) [] Hn (le_n _)).
  - apply Hw. unfold readArray. cbv zeta.
    set (r0 := set_current _ _).
    assert (H0 : follows r r0) by (split; [apply drop_while_length|done]).
    assert (Hn0 : length (nodes_ r0) = n) by done. clearbody r0.
    destruct (match current_ _ with [] => _ | _ => _ end).
    + eapply ends_then; [apply readToken_ends|]. intros [r1 t1] [H _].
      by eapply follows_trans.
    + eapply ends_weaken; [apply array_loop_ends; [done|lia]|].
      intros [r1 ok] H. by eapply follows_trans.
  - unfold read_string_value. destruct (decodeString t); [|by apply follows_value].
    eapply ends_then with (Q := fun '(r', _) => follows r r').
    + eapply ends_then; [apply Value_String_ends|]. by intros v _.
    + intros [r' ok] H. by apply follows_value.
  - destruct (decodeNumber t); by apply follows_value.
Qed.
End Rec.

(** The stack can still grow by [fuel] levels before [readValue] throws. *)
Lemma readValue_ends fuel r :
  (stackLimit_ features_ < fuel + length (nodes_ r))%nat -> (0 < fuel)%nat ->
  ends json_exn (readValue features_ collectComments_ begin_ fuel r) (fun '(r', _) => follows r r').
Proof.
  revert r. induction fuel as [|fuel IH]; intros r Hl Hf; [lia|]. cbn [readValue].
  destruct (stackLimit_ features_ <? S (length (nodes_ r)))%nat eqn:E; [cbn; auto with webcc|].
  apply Nat.ltb_ge in E.
  eapply ends_then; [apply skipCommentTokens_ends|]. intros [r1 t] [[Hf1 Hn1] Hp1].
  eapply ends_then with (Q := fun r' => current_ r' = current_ r1 /\ nodes_ r' = nodes_ r1).
  { destruct (commentsBefore_ r1); [done|]. destruct collectComments_; [|done].
    eapply ends_then; [apply comment_value_ends|]. by intros r' (H1 & H2 & _). }
  intros r2 [Hc2 Hn2].
  eapply ends_then.
  { apply (read_token_value_ends _ (length (nodes_ r2))); [|done].
    intros r' Hr'. apply IH; [|]; rewrite ?Hr', ?Hn2, ?Hn1; lia. }
  intros [r3 res] [Hn3 Hlen].
  assert (follows r r3).
  { split; [|congruence]. destruct Hlen as [H|[H Ht]]; [rewrite Hc2 in H; lia|].
    destruct (Hp1 Ht) as [Hs _]. rewrite Hc2 in H. lia. }
  destruct res as [ok|]; [|done]. by destruct collectComments_.
Qed.
Lemma parse_ends root :
  ends json_exn (parse features_ collectComments_ begin_ root) (fun _ => True).
Proof.
  unfold parse. eapply ends_then; [apply readValue_ends; cbn; lia|]. intros [r ok] _.
  eapply ends_then; [apply skipCommentTokens_ends|]. intros [r1 t] _.
  destruct (failIfExtra_ features_ && _); [done|].
  eapply ends_then with (Q := fun _ => True); [|by intros r2 _; destruct (_ && _)].
  destruct (commentsBefore_ r1); [done|]. destruct collectComments_; [|done].
  eapply ends_weaken; [apply comment_value_ends|done].
Qed.
End Progress.
