(* ===== verification/JsonOldReaderLaws.v ===== *)
(** * JSON: the older reader and the newer one

    [older_reader_agrees]: on documents where the two classes are meant to agree, [Reader]
    does what [OurReader] does, errors and comments included.  Every location is a suffix of
    the document, and every function that is given one and the same state gives one and the
    same result. *)
From Stdlib Require Import Ascii String.
From stdpp Require Import base tactics list numbers option strings.
From S2P Require Import Prelude Globals Double JsonText JsonUtf8 JsonValue JsonReader JsonOldReader JsonReaderLaws JsonTypes.
Open Scope Z_scope.

(** ** Where the readers agree *)

(** [sscanf] and the stream convert the text alike. *)
Definition real_agrees (q : str) : bool :=
  match sscanf_lf q, istream_lf q with Some _, None => false | _, _ => true end.
(** The location behind the token that starts with a character. *)
Definition comment_end (s : Location) : Location :=
  let '(c, s') := next_char s in
  if ceqb c "*" then snd (readCStyleComment s')
  else if ceqb c "/" then readCppStyleComment s' else s'.
Definition token_end (c : ascii) (s : Location) : Location :=
  if ceqb c DQ then snd (Reader.readString s)
  else if ceqb c "/" then comment_end s
  else if isdigit c || ceqb c "-" then Reader.readNumber s
  else if ceqb c "t" then default s (match_ #"rue" s)
  else if ceqb c "f" then default s (match_ #"alse" s)
  else if ceqb c "n" then default s (match_ #"ull" s)
  else s.
(** No token of the text starts with a single quote, or with a minus in front of an [I], or
    is a number only [sscanf] reads. *)
Fixpoint common_tokens (fuel : nat) (s : str) : bool :=
  match fuel with
  | O => true
  | S fuel' =>
      match skipSpaces s with
      | [] => true
      | c :: s' =>
          negb (ceqb c "'")
          && negb (ceqb c "-" && match s' with d :: _ => ceqb d "I" | [] => false end)
          && (if isdigit c || ceqb c "-" then real_agrees (between (c :: s') (Reader.readNumber s'))
              else true)
          && common_tokens fuel' (token_end c s')
      end
  end.
Definition common (s : str) : bool := common_tokens (S (length s)) s.
(** The settings of [OurReader] that are those of [Reader]. *)
Definition our (f : Features) : OurFeatures :=
  mkFeatures (old_allowComments f) (old_strictRoot f) (old_allowDroppedNullPlaceholders f)
    (old_allowNumericKeys f) false false false false stackLimit_g.

Lemma istream_sscanf q d : istream_lf q = Some d -> sscanf_lf q = Some d.
Proof.
  unfold istream_lf. destruct (scan_sign q) as [? s1]. destruct (scan_digits 0 0 s1) as [[? ?] s2].
  destruct (sscanf_lf q) as [d'|]; [|done]. by case_match.
Qed.
Lemma real_agrees_eq q : real_agrees q = true -> istream_lf q = sscanf_lf q.
Proof.
  unfold real_agrees. destruct (istream_lf q) as [d|] eqn:E; [by rewrite (istream_sscanf q d E)|].
  by destruct (sscanf_lf q).
Qed.
(** ** The scanners give a suffix *)
Lemma skipSpaces_suffix s : suffix (skipSpaces s) s.
Proof.
  unfold skipSpaces. induction s as [|c s IH]; cbn; [done|].
  destruct (is_blank c); [by apply suffix_cons_r|done].
Qed.
Lemma c_comment_suffix s : suffix (snd (readCStyleComment s)) s.
Proof.
  induction s as [|x s IH]; cbn; [done|]. destruct s as [|y s]; [by apply suffix_cons_r|].
  destruct (ceqb x "*" && ceqb y "/"); [by do 2 apply suffix_cons_r|by apply suffix_cons_r].
Qed.
Lemma cpp_comment_suffix s : suffix (readCppStyleComment s) s.
Proof.
  induction s as [|x s IH]; cbn; [done|]. destruct (ceqb x LF); [by apply suffix_cons_r|].
  destruct (ceqb x CR); [|by apply suffix_cons_r]. destruct s as [|y s]; [by apply suffix_cons_r|].
  destruct (ceqb y LF); [by do 2 apply suffix_cons_r|by apply suffix_cons_r].
Qed.
Lemma readString_suffix q c s : suffix (snd (readString q c s)) s.
Proof.
  revert c. induction s as [s IH] using (induction_ltof1 _ (@length ascii)); unfold ltof in IH.
  intros c. destruct s as [|x s]; cbn; [done|]. destruct (ceqb x "\").
  - destruct s as [|y s]; cbn; [apply suffix_nil|]. do 2 apply suffix_cons_r. apply IH. cbn. lia.
  - destruct (ceqb x q); cbn; [by apply suffix_cons_r|]. apply suffix_cons_r, IH. cbn. lia.
Qed.
Lemma match_suffix pattern s s' : match_ pattern s = Some s' -> suffix s' s.
Proof. unfold match_. destruct (prefixb pattern s); [|done]. intros [= <-]. apply suffix_drop. Qed.
Lemma digits_loop_suffix cur p c b : suffix cur b -> suffix p b ->
  suffix (fst (fst (digits_loop cur p c))) b /\ suffix (snd (fst (digits_loop cur p c))) b.
Proof.
  revert cur c. induction p as [|x p IH]; intros cur c Hc Hp; cbn.
  - destruct (isdigit c); cbn; split; first [done|apply suffix_nil].
  - destruct (isdigit c); [|done]. apply IH; [done|by apply suffix_cons_l in Hp].
Qed.
Lemma advance_suffix p b : suffix p b ->
  suffix (fst (fst (advance p))) b /\ suffix (snd (fst (advance p))) b.
Proof. intros H. destruct p; cbn; [done|]. split; [done|by apply suffix_cons_l in H]. Qed.
Lemma readNumber_suffix s : suffix (Reader.readNumber s) s.
Proof.
  unfold Reader.readNumber.
  destruct (digits_loop_suffix s s "0" s ltac:(done) ltac:(done)) as [H1 H1'].
  destruct (digits_loop s s "0") as [[cur1 p1] c1]. cbn [fst snd] in *.
  set (second := if ceqb c1 "." then _ else _).
  assert (suffix (fst (fst second)) s /\ suffix (snd (fst second)) s) as [H2 H2'].
  { subst second. destruct (ceqb c1 "."); [|done]. destruct (advance_suffix p1 s H1') as [Ha Hb].
    destruct (advance p1) as [[a b] c]. by apply digits_loop_suffix. }
  destruct second as [[cur2 p2] c2]. cbn [fst snd] in *.
  destruct (ceqb c2 "e" || ceqb c2 "E"); [|done].
  destruct (advance_suffix p2 s H2') as [Ha Hb]. destruct (advance p2) as [[a b] c]. cbn [fst snd] in *.
  set (third := if ceqb c "+" || ceqb c "-" then _ else _).
  assert (suffix (fst (fst third)) s /\ suffix (snd (fst third)) s) as [H3 H3'].
  { subst third. destruct (ceqb c "+" || ceqb c "-"); [by apply advance_suffix|done]. }
  destruct third as [[a3 b3] c3]. cbn [fst snd] in *.
  destruct (digits_loop_suffix a3 b3 c3 s H3 H3') as [H _].
  by destruct (digits_loop a3 b3 c3) as [[? ?] ?].
Qed.
Lemma token_end_suffix c s : suffix (token_end c s) s.
Proof.
  unfold token_end. destruct (ceqb c DQ); [apply readString_suffix|]. destruct (ceqb c "/").
  { unfold comment_end. destruct s as [|x s]; [done|]. cbn [next_char]. apply suffix_cons_r.
    destruct (ceqb x "*"); [apply c_comment_suffix|].
    destruct (ceqb x "/"); [apply cpp_comment_suffix|done]. }
  destruct (_ || _); [apply readNumber_suffix|].
  assert (Hm : forall p, suffix (default s (match_ p s)) s).
  { intros p. destruct (match_ p s) eqn:E; [by apply match_suffix in E|done]. }
  repeat (destruct (ceqb c _); [apply Hm|]). done.
Qed.

(** [common] of what follows a token, whatever its fuel. *)
Lemma common_less n m s : (n <= m)%nat -> common_tokens m s = true -> common_tokens n s = true.
Proof.
  revert m s. induction n as [|n IH]; intros [|m] s Hnm H; [done|done|lia|]. cbn [common_tokens] in *.
  destruct (skipSpaces s) as [|c s']; [done|]. apply andb_true_iff in H as [H1 H2].
  rewrite H1. cbn [andb]. apply (IH m); [lia|done].
Qed.
Lemma skipSpaces_twice s : skipSpaces (skipSpaces s) = skipSpaces s.
Proof.
  unfold skipSpaces. induction s as [|c s IH]; [done|]. cbn. destruct (is_blank c) eqn:E; [done|].
  cbn. by rewrite E.
Qed.
Lemma common_skip s : common s = true -> common (skipSpaces s) = true.
Proof.
  intros H. pose proof (suffix_length _ _ (skipSpaces_suffix s)) as Hl.
  apply (common_less (S (length (skipSpaces s))) (S (length s))) in H; [|lia].
  unfold common. cbn [common_tokens] in *. by rewrite skipSpaces_twice.
Qed.
Lemma common_token c s : common (c :: s) = true -> is_blank c = false ->
  negb (ceqb c "'") && negb (ceqb c "-" && match s with d :: _ => ceqb d "I" | [] => false end)
  && (if isdigit c || ceqb c "-" then real_agrees (between (c :: s) (Reader.readNumber s)) else true)
  = true /\ common (token_end c s) = true.
Proof.
  unfold common. intros H Hc. cbn [common_tokens] in H. unfold skipSpaces in H at 1. cbn [drop_while] in H.
  rewrite Hc in H. apply andb_true_iff in H as [H1 H2]. split; [done|].
  pose proof (suffix_length _ _ (token_end_suffix c s)).
  apply (common_less _ (length (c :: s))); [cbn; lia|done].
Qed.
(** The newer [readNumber] reads the same, unless it is asked to look for an infinity. *)
Lemma readNumber_same check s : (check = true -> match s with d :: _ => ceqb d "I" | [] => false end = false) ->
  readNumber check s = (true, Reader.readNumber s).
Proof.
  intros H. unfold readNumber, Reader.readNumber.
  assert (check && match s with c :: _ => ceqb c "I" | [] => false end = false) as -> by
    (destruct check; [by rewrite H|done]).
  destruct (digits_loop s s "0") as [[cur1 p1] c1].
  set (second := if ceqb c1 "." then _ else _). clearbody second. destruct second as [[cur2 p2] c2].
  destruct (ceqb c2 "e" || ceqb c2 "E"); [|done]. destruct (advance p2) as [[a b] c].
  set (third := if ceqb c "+" || ceqb c "-" then _ else _). clearbody third.
  destruct third as [[a3 b3] c3]. by destruct (digits_loop a3 b3 c3) as [[? ?] ?].
Qed.

(** ** One state, one result *)

(** The two computations are one, and what it returns has the property. *)
Definition same {A} (m1 m2 : outcome A) (P : A -> Prop) : Prop := m1 = m2 /\ returns m2 P.
Lemma alike_bind {A B} (m1 m2 : outcome A) (k1 k2 : A -> outcome B) P Q :
  same m1 m2 P -> (forall a, P a -> same (k1 a) (k2 a) Q) -> same (obind m1 k1) (obind m2 k2) Q.
Proof. intros [-> H] Hk. destruct m2; cbn in *; [by apply Hk|by split..]. Qed.
(** One computation, about which little is said. *)
Lemma alike_one {A} (m : outcome A) (P : A -> Prop) : returns m P -> same m m P.
Proof. by split. Qed.
Lemma alike_bind_one {A B} (m : outcome A) (k1 k2 : A -> outcome B) P Q :
  returns m P -> (forall a, P a -> same (k1 a) (k2 a) Q) -> same (obind m k1) (obind m k2) Q.
Proof. intros H. apply alike_bind, alike_one, H. Qed.

Section Agreement.
Context (f : Features) (collectComments_ : bool) (begin_ : Location).
Context (Hkeys : old_allowNumericKeys f = false).
Context (Hcommon : common begin_ = true) (Hlen : (len begin_ < 2 ^ 30)%N).
Local Abbreviation features := (our f).

Definition inside (r : OurReader) : Prop := suffix (current_ r) begin_ /\ common (current_ r) = true.
(** A token of the document, no special float; the readers agree about it if it is a number. *)
Definition token_of (t : Token) : Prop :=
  suffix (tok_start t) begin_ /\
  match type_ t with
  | tokenNumber => real_agrees (token_text t) = true
  | tokenNaN | tokenPosInf | tokenNegInf => False
  | _ => True
  end.
(** The tokens [readValue] may put back are the last character read. *)
Definition put_back (r : OurReader) (t : Token) : Prop :=
  match type_ t with
  | tokenArraySeparator | tokenObjectEnd | tokenArrayEnd =>
      tok_start t = before begin_ (current_ r) /\ common (tok_start t) = true
  | _ => True
  end.
Definition read_of (res : OurReader * Token) : Prop :=
  inside (fst res) /\ token_of (snd res) /\ put_back (fst res) (snd res).
Definition state_of {A} (res : OurReader * A) : Prop := inside (fst res).

Lemma before_cons c s : suffix (c :: s) begin_ -> before begin_ s = c :: s.
Proof.
  intros [p Hp]. unfold before. replace (length begin_ - S (length s))%nat with (length p).
  - rewrite Hp at 1. by rewrite drop_app_length.
  - rewrite Hp, length_app. cbn. lia.
Qed.
Lemma comment_value_current p c pl r :
  returns (comment_value p c pl r) (fun r' => current_ r' = current_ r).
Proof.
  unfold comment_value. apply (returns_then _ _ (fun _ => True)); [apply returns_any|]. done.
Qed.
Lemma addComment_current r b e pl : returns (addComment r b e pl) (fun r' => current_ r' = current_ r).
Proof.
  unfold addComment. destruct pl; [done| |done].
  destruct (last_ r) as [[? p]|]; [by apply comment_value_current|done].
Qed.
Lemma readComment_current r :
  returns (readComment collectComments_ begin_ r) (fun '(r', _) => current_ r' = comment_end (current_ r)).
Proof.
  unfold readComment, comment_end. destruct (next_char (current_ r)) as [c s].
  set (res := if ceqb c "*" then _ else _). set (e := if ceqb c "*" then _ else _).
  assert (He : snd res = e) by (subst res e; by repeat case_match).
  clearbody res e. destruct res as [ok s']. cbn in He. subst s'.
  destruct ok; cbn [negb]; [|done]. destruct collectComments_; [|done].
  apply (returns_then _ _ (fun r' => current_ r' = e)); [apply addComment_current|]. done.
Qed.

(** A token that ends where [token_end] says. *)
Definition plain_end (ty : TokenType) (c : ascii) (s e : str) : Prop :=
  match ty with
  | tokenNumber => real_agrees (between (c :: s) e) = true
  | tokenNaN | tokenPosInf | tokenNegInf => False
  | tokenArraySeparator | tokenObjectEnd | tokenArrayEnd => e = s
  | _ => True
  end.
Definition readable (c : ascii) (s : str) : Prop :=
  suffix (c :: s) begin_ /\ common (c :: s) = true /\
  suffix (token_end c s) begin_ /\ common (token_end c s) = true.
Lemma token_read r c s ty e : readable c s -> e = token_end c s -> plain_end ty c s e ->
  read_of (set_current r e, mkToken ty (c :: s) e).
Proof.
  intros (Hst & Hc & Hse & Hend) -> Hty. split_and!; [done|split; [done|]|]; [by destruct ty|].
  unfold put_back. cbn [type_ tok_start current_ set_current snd fst].
  destruct ty; try done; rewrite Hty; (split; [by rewrite (before_cons c s Hst)|done]).
Qed.
Lemma literal_same r c s ty pattern : readable c s ->
  default s (match_ pattern s) = token_end c s ->
  match ty with tokenTrue | tokenFalse | tokenNull => True | _ => False end ->
  same match match_ pattern s with
       | Some s' => Ret (set_current r s', mkToken ty (c :: s) s')
       | None => Ret (set_current r s, mkToken tokenError (c :: s) s)
       end
       match match_ pattern s with
       | Some s' => Ret (set_current r s', mkToken ty (c :: s) s')
       | None => Ret (set_current r s, mkToken tokenError (c :: s) s)
       end read_of.
Proof.
  intros Hread He Hty. apply alike_one. destruct (match_ pattern s) as [s'|]; cbn in He.
  - apply token_read; [done|done|by destruct ty].
  - by apply token_read.
Qed.

Lemma readToken_same r : inside r ->
  same (Reader.readToken collectComments_ begin_ r) (readToken features collectComments_ begin_ r) read_of.
Proof.
  intros [Hr Hcr]. unfold Reader.readToken, readToken. change Reader.skipSpaces with skipSpaces.
  assert (Hst : suffix (skipSpaces (current_ r)) begin_) by (etrans; [apply skipSpaces_suffix|done]).
  pose proof (common_skip _ Hcr) as Hc.
  assert (Hblank : match skipSpaces (current_ r) with c :: _ => is_blank c = false | [] => True end).
  { unfold skipSpaces. clear. induction (current_ r) as [|c s IH]; [done|]. cbn.
    destruct (is_blank c) eqn:E; [done|]. by rewrite E. }
  set (start := skipSpaces (current_ r)) in *. clearbody start. unfold Reader.getNextChar.
  destruct start as [|c s].
  { cbn. apply alike_one. split_and!; [split; [apply suffix_nil|done]|split; [done|done]|done]. }
  cbn [next_char]. destruct (common_token c s Hc Hblank) as [Htok Hend].
  assert (Hse : suffix (token_end c s) begin_).
  { transitivity s; [apply token_end_suffix|by apply suffix_cons_l in Hst]. }
  apply andb_true_iff in Htok as [[Hquote%negb_true_iff Hminus%negb_true_iff]%andb_true_iff Hreal].
  assert (readable c s) as Hread by done.
  pose proof (fun ty e => token_read r c s ty e Hread) as Hp.
  unfold Reader.match_, Reader.readComment. rewrite Hquote.
  cbn [allowSingleQuotes_ allowSpecialFloats_ our andb orb]. cbv zeta.
  destruct (ceqb c "{") eqn:E1; [apply ceqb_eq in E1 as ->; by apply alike_one, Hp|].
  destruct (ceqb c "}") eqn:E2; [apply ceqb_eq in E2 as ->; by apply alike_one, Hp|].
  destruct (ceqb c "[") eqn:E3; [apply ceqb_eq in E3 as ->; by apply alike_one, Hp|].
  destruct (ceqb c "]") eqn:E4; [apply ceqb_eq in E4 as ->; by apply alike_one, Hp|].
  unfold token_end in Hp. destruct (ceqb c DQ) eqn:E5.
  { apply alike_one. unfold Reader.readString in *. destruct (readString DQ NUL s) as [ok s'].
    apply Hp; [done|by destruct ok]. }
  destruct (ceqb c "/") eqn:E6.
  { apply alike_bind_one with (fun '(r', _) => current_ r' = comment_end s); [apply readComment_current|].
    intros [r' ok] H. apply alike_one. cbn [returns]. rewrite H.
    split_and!; [split; cbn; rewrite H|split; [done|by destruct ok]|by destruct ok].
    - unfold token_end in Hse. by rewrite E5, E6 in Hse.
    - unfold token_end in Hend. by rewrite E5, E6 in Hend. }
  destruct (isdigit c) eqn:E7; [rewrite readNumber_same by done; by apply alike_one, Hp|].
  destruct (ceqb c "-") eqn:E8; [rewrite readNumber_same by auto; by apply alike_one, Hp|].
  cbn [orb] in *.
  pose proof (fun ty pattern => literal_same r c s ty pattern Hread) as Hl.
  unfold token_end in Hl. rewrite E5, E6, E7, E8 in Hl. cbn [orb] in Hl.
  destruct (ceqb c "t") eqn:E9; [by apply Hl|]. destruct (ceqb c "f") eqn:E10; [by apply Hl|].
  destruct (ceqb c "n") eqn:E11; [by apply Hl|].
  destruct (ceqb c "N") eqn:EN; [apply ceqb_eq in EN as ->; by apply alike_one, Hp|].
  destruct (ceqb c "I") eqn:EI; [apply ceqb_eq in EI as ->; by apply alike_one, Hp|].
  repeat (match goal with |- same (if ?b then _ else _) _ _ => destruct b; [by apply alike_one, Hp|] end).
  by apply alike_one, Hp.
Qed.

Lemma skip_comments_same fuel : forall r t, read_of (r, t) ->
  same (Reader.skip_comments collectComments_ begin_ fuel r t)
       (skip_comments features collectComments_ begin_ fuel r t) read_of.
Proof.
  induction fuel as [|fuel IH]; intros r t Hrt; cbn; destruct (is_token t tokenComment);
    try by apply alike_one.
  apply alike_bind with read_of; [apply readToken_same, Hrt|]. intros [r' t'] H. by apply IH.
Qed.
Lemma next_token_same r : inside r ->
  same (Reader.next_token collectComments_ begin_ r) (next_token features collectComments_ begin_ r) read_of.
Proof.
  intros Hr. apply alike_bind with read_of; [by apply readToken_same|].
  intros [r' t'] H. by apply skip_comments_same.
Qed.
Lemma skipCommentTokens_same r : inside r ->
  same (Reader.skipCommentTokens f collectComments_ begin_ r)
       (skipCommentTokens features collectComments_ begin_ r) read_of.
Proof.
  intros Hr. unfold Reader.skipCommentTokens, skipCommentTokens. cbn [allowComments_ our].
  destruct (old_allowComments f); [by apply next_token_same|by apply readToken_same].
Qed.
Lemma recover_loop_same ty fuel : forall r, inside r ->
  same (Reader.recover_loop collectComments_ begin_ fuel r ty)
       (recover_loop features collectComments_ begin_ fuel r ty) inside.
Proof.
  induction fuel as [|fuel IH]; intros r Hr; cbn; [by split|].
  apply alike_bind with read_of; [by apply readToken_same|]. intros [r' t'] [Hr' _].
  destruct (_ || _); [by apply alike_one|by apply IH].
Qed.
Lemma recoverFromError_same ty r : inside r ->
  same (Reader.recoverFromError collectComments_ begin_ r ty)
       (recoverFromError features collectComments_ begin_ r ty) state_of.
Proof.
  intros Hr. apply alike_bind with inside; [by apply recover_loop_same|]. intros r' Hr'. by apply alike_one.
Qed.
Lemma addErrorAndRecover_same m t ty r : inside r ->
  same (Reader.addErrorAndRecover collectComments_ begin_ r m t ty)
       (addErrorAndRecover features collectComments_ begin_ r m t ty) state_of.
Proof. intros Hr. by apply recoverFromError_same. Qed.

(** *** Decoding *)
Lemma decodeNumber_same t : token_of t -> type_ t = tokenNumber -> Reader.decodeNumber t = decodeNumber t.
Proof.
  intros [_ Ht] Hty. rewrite Hty in Ht. apply real_agrees_eq in Ht.
  unfold Reader.decodeNumber, decodeNumber, Reader.decodeDouble, decodeDouble. rewrite Ht.
  change (wrap_u 64 (maxLargestInt + 1)) with (wrap_u 64 minLargestInt).
  set (neg := match token_text t with c :: _ => ceqb c "-" | [] => false end).
  destruct (number_loop _ 0 _) as [value|]; [|done]. destruct neg; [|done]. cbn [andb].
  destruct (value =? wrap_u 64 minLargestInt) eqn:E; [|done]. apply Z.eqb_eq in E as ->. done.
Qed.
Lemma hex_loop_length n : forall u b tl u' b',
  hex_loop n u b tl = Decoded (u', b') -> (length b = n + length b')%nat.
Proof.
  induction n as [|n IH]; intros u b tl u' b' H; cbn [hex_loop] in H; [by injection H as <- <-|].
  destruct b as [|c b]; cbn in H; [done|]. destruct (hex_val c); [|done].
  apply IH in H. cbn. lia.
Qed.
Lemma decodeUnicodeCodePoint_length b tl u b' :
  decodeUnicodeCodePoint b tl = Decoded (u, b') -> (4 + length b' <= length b)%nat.
Proof.
  unfold decodeUnicodeCodePoint, decodeUnicodeEscapeSequence.
  destruct (length b <? 4)%nat; [done|].
  destruct (hex_loop 4 0 b tl) as [[u1 b1]|] eqn:E1; [|done]. apply hex_loop_length in E1.
  destruct (_ && _); [|by intros [= <- <-]; lia].
  destruct (length b1 <? 6)%nat eqn:E6; [done|]. apply Nat.ltb_ge in E6.
  destruct b1 as [|c1 b1]; [cbn in E6; lia|]. cbn [next_char]. destruct (ceqb c1 "\"); [|done].
  destruct b1 as [|c2 b1]; [cbn in E6; lia|]. cbn [next_char]. destruct (ceqb c2 "u"); [|done].
  destruct (length b1 <? 4)%nat; [done|].
  destruct (hex_loop 4 0 b1 tl) as [[u2 b2]|] eqn:E2; [|done]. apply hex_loop_length in E2.
  intros [= <- <-]. cbn in *. lia.
Qed.
Lemma codePointToUTF8_length u : (length (codePointToUTF8 u) <= 4)%nat.
Proof. unfold codePointToUTF8. repeat case_match; cbn; lia. Qed.
Lemma decode_loop_length fuel : forall b tl acc s,
  decode_loop fuel b tl acc = Decoded s -> (length s <= length acc + length b)%nat.
Proof.
  induction fuel as [|fuel IH]; intros b tl acc s H; cbn [decode_loop] in H.
  { injection H as <-. lia. }
  destruct b as [|c b]; [injection H as <-; lia|]. destruct (ceqb c DQ); [injection H as <-; lia|].
  destruct (ceqb c "\"); [|apply IH in H; rewrite length_app in H; cbn in *; lia].
  destruct b as [|e b]; [done|]. destruct (ceqb e "u").
  - destruct (decodeUnicodeCodePoint b tl) as [[u b']|] eqn:E; [|done].
    apply decodeUnicodeCodePoint_length in E. apply IH in H. rewrite length_app in H.
    pose proof (codePointToUTF8_length u). cbn. lia.
  - destruct (unescape e); [|done]. apply IH in H. rewrite length_app in H. cbn in *. lia.
Qed.
Lemma decodeString_short t s : token_of t -> decodeString t = Decoded s -> (len s < 2 ^ 30)%N.
Proof.
  intros [Ht _] H. unfold decodeString in H. apply decode_loop_length in H.
  apply suffix_length in Ht. cbn [length] in H.
  assert (length (token_text t) <= length (tok_start t))%nat.
  { unfold token_text, between. rewrite length_take. lia. }
  rewrite length_take, length_drop in H. unfold len in *. lia.
Qed.

(** *** Values *)
Definition name_of (res : OurReader * member_name) : Prop :=
  inside (fst res) /\ forall s, snd res = Name s -> (len s < 2 ^ 30)%N.
Lemma read_name_same r t : inside r -> token_of t ->
  same (Reader.read_name f r t) (read_name features r t) name_of.
Proof.
  intros Hr Ht. unfold Reader.read_name, read_name. cbn [allowNumericKeys_ our]. rewrite Hkeys, andb_false_r.
  change (Reader.decodeString t) with (decodeString t). change Reader.addError with addError.
  destruct (is_token t tokenString); [|by apply alike_one].
  destruct (decodeString t) as [s|] eqn:E; apply alike_one; [|by split].
  split; [done|]. intros s' [= <-]. by apply (decodeString_short t).
Qed.
Lemma stop_same m1 m2 : same m1 m2 (@state_of bool) ->
  same (let! (r, ok) := m1 in Ret (r, Some ok)) (let! (r, ok) := m2 in Ret (r, Some ok))
    (@state_of (option bool)).
Proof. intros H. apply alike_bind with state_of; [done|]. intros [r ok] Hr. by apply alike_one. Qed.

Section Rec.
Context (rec1 rec2 : OurReader -> outcome (OurReader * bool)).
Context (Hrec : forall r, inside r -> same (rec1 r) (rec2 r) state_of).

Lemma read_member_same r t name : inside r -> (len name < 2 ^ 30)%N ->
  same (Reader.read_member collectComments_ begin_ rec1 r t name)
       (read_member features collectComments_ begin_ rec2 r t name) state_of.
Proof.
  intros Hr Hname. unfold Reader.read_member, read_member. cbv zeta.
  apply alike_bind with read_of; [by apply readToken_same|]. intros [r1 colon] [Hr1 _].
  destruct (negb (is_token colon tokenMemberSeparator));
    [by apply stop_same, addErrorAndRecover_same|].
  assert ((2 ^ 30 <=? len name)%N = false) as -> by (apply N.leb_gt; done).
  cbn [rejectDupKeys_ our obind].
  apply alike_bind_one with (fun _ => True); [apply returns_any|]. intros v _.
  apply alike_bind with state_of; [by apply Hrec|]. intros [r2 ok] Hr2. cbn [fst] in Hr2.
  destruct (negb ok); [by apply stop_same, recoverFromError_same|].
  apply alike_bind with read_of; [by apply readToken_same|]. intros [r3 comma] Hc.
  destruct (negb _); [apply stop_same, addErrorAndRecover_same, Hc|].
  apply alike_bind with read_of; [by apply skip_comments_same|]. intros [r4 t4] [Hr4 _].
  by apply alike_one.
Qed.
Lemma object_loop_same fuel : forall r name, inside r ->
  same (Reader.object_loop f collectComments_ begin_ rec1 fuel r name)
       (object_loop features collectComments_ begin_ rec2 fuel r name) state_of.
Proof.
  induction fuel as [|fuel IH]; intros r name Hr; cbn; [by split|].
  apply alike_bind with read_of; [by apply next_token_same|]. intros [r1 t1] (Hr1 & Ht1 & _).
  destruct (_ && _); [by apply alike_one|].
  apply alike_bind with name_of; [by apply read_name_same|]. intros [r2 nm] [Hr2 Hn]. cbn [fst snd] in *.
  destruct nm as [name'| |]; [|by apply recoverFromError_same|by apply addErrorAndRecover_same].
  apply alike_bind with state_of; [apply read_member_same; [done|by apply Hn]|].
  intros [r3 [ok|]] Hr3; [by apply alike_one|by apply IH].
Qed.
Lemma array_loop_same fuel : forall r index, inside r ->
  same (Reader.array_loop collectComments_ begin_ rec1 fuel r index)
       (array_loop features collectComments_ begin_ rec2 fuel r index) state_of.
Proof.
  induction fuel as [|fuel IH]; intros r index Hr; cbn; [by split|].
  apply alike_bind_one with (fun _ => True); [apply returns_any|]. intros v _.
  apply alike_bind with state_of; [by apply Hrec|]. intros [r1 ok] Hr1. cbn [fst] in Hr1.
  destruct (negb ok); [by apply recoverFromError_same|].
  apply alike_bind with read_of; [by apply next_token_same|]. intros [r2 t2] [Hr2 _].
  destruct (is_token t2 tokenArrayEnd); [by apply alike_one|].
  destruct (is_token t2 tokenArraySeparator); [by apply IH|by apply addErrorAndRecover_same].
Qed.
Lemma readObject_same r t : inside r ->
  same (Reader.readObject f collectComments_ begin_ rec1 r t)
       (readObject features collectComments_ begin_ rec2 r t) state_of.
Proof. intros Hr. by apply object_loop_same. Qed.
Lemma readArray_same r t : inside r ->
  same (Reader.readArray collectComments_ begin_ rec1 r t)
       (readArray features collectComments_ begin_ rec2 r t) state_of.
Proof.
  intros Hr. unfold Reader.readArray, readArray. cbv zeta. change Reader.skipSpaces with skipSpaces.
  set (r0 := set_current _ _).
  assert (Hr0 : inside r0).
  { destruct Hr as [H1 H2]. split; [exact (transitivity (skipSpaces_suffix (current_ r)) H1)|].
    by apply common_skip. }
  clearbody r0. destruct (match current_ r0 with c :: _ => ceqb c "]" | [] => false end);
    [|by apply array_loop_same].
  apply alike_bind with read_of; [by apply readToken_same|]. intros [r1 t1] [Hr1 _]. by apply alike_one.
Qed.
Lemma store_decoded_inside r d t : inside r -> inside (fst (store_decoded begin_ r d t)).
Proof. by destruct d. Qed.
Lemma read_token_value_same r t : read_of (r, t) ->
  same (Reader.read_token_value f collectComments_ begin_ rec1 r t)
       (read_token_value features collectComments_ begin_ rec2 r t) state_of.
Proof.
  intros (Hr & Ht & Hback). cbn [fst snd] in *. unfold Reader.read_token_value, read_token_value. cbv zeta.
  cbn [allowDroppedNullPlaceholders_ our].
  assert (Hcontainer : forall m1 m2, same m1 m2 (@state_of bool) ->
    same (let! (r, ok) := m1 in
          Ret (on_current (fun w => setOffsetLimit w (offset begin_ (current_ r))) r, Some ok))
         (let! (r, ok) := m2 in
          Ret (on_current (fun w => setOffsetLimit w (offset begin_ (current_ r))) r, Some ok))
         (@state_of (option bool))).
  { intros m1 m2 H. apply alike_bind with state_of; [done|]. intros [r' ok] Hr'. by apply alike_one. }
  assert (Hdropped : inside (set_current r (before begin_ (current_ r))) -> returns
    (if old_allowDroppedNullPlaceholders f then
       Ret (set_scalar begin_ (set_current r (before begin_ (current_ r))) (Value_make TNull)
              (before begin_ (before begin_ (current_ r))) (before begin_ (current_ r)), Some true)
     else Ret (addError (on_current (fun w => setOffsetLimit (setOffsetStart w
                 (offset begin_ (tok_start t))) (offset begin_ (tok_end t))) r)
                 #"Syntax error: value, object or array expected." t None, None))
    (@state_of (option bool))) by by destruct (old_allowDroppedNullPlaceholders f).
  assert (Hput : match type_ t with
                 | tokenArraySeparator | tokenObjectEnd | tokenArrayEnd =>
                     inside (set_current r (before begin_ (current_ r)))
                 | _ => True
                 end).
  { destruct Ht as [Ht _]. unfold put_back in Hback. unfold inside. cbn in *.
    destruct (type_ t); try done; destruct Hback as [H1 H2]; by rewrite <- H1. }
  pose proof Ht as [_ Hty]. destruct (type_ t) eqn:E; try done;
    try (by apply alike_one); try (by apply alike_one, Hdropped).
  - by apply Hcontainer, readObject_same.
  - by apply Hcontainer, readArray_same.
  - apply stop_same, alike_one. unfold read_string_value. destruct (decodeString t) as [s|m e]; [|done].
    apply (returns_then _ _ (fun _ => True)); [apply returns_any|]. done.
  - rewrite (decodeNumber_same t Ht E). apply stop_same, alike_one.
    pose proof (store_decoded_inside r (decodeNumber t) t Hr) as H.
    by destruct (store_decoded begin_ r (decodeNumber t) t).
Qed.
End Rec.

Lemma comments_current r p placement (k : OurReader -> OurReader) :
  (forall r', current_ (k r') = current_ r') ->
  returns (match commentsBefore_ r with
           | _ :: _ => if collectComments_ then
                         let! r := comment_value p (commentsBefore_ r) placement r in Ret (k r)
                       else Ret r
           | [] => Ret r
           end) (fun r' => current_ r' = current_ r).
Proof.
  intros Hk. destruct (commentsBefore_ r); [done|]. destruct collectComments_; [|done].
  apply (returns_then _ _ (fun r' => current_ r' = current_ r)); [apply comment_value_current|].
  intros r' Hr'. cbn. by rewrite Hk.
Qed.
Lemma readValue_same fuel : forall r, inside r ->
  same (Reader.readValue f collectComments_ begin_ fuel r)
       (readValue features collectComments_ begin_ fuel r) state_of.
Proof.
  induction fuel as [|fuel IH]; intros r Hr; [by split|]. cbn [Reader.readValue readValue].
  change (stackLimit_ features) with stackLimit_g. destruct (_ <? _)%nat; [by apply alike_one|].
  apply alike_bind with read_of; [by apply skipCommentTokens_same|]. intros [r1 t1] Hrt1.
  apply alike_bind_one with (fun r' => current_ r' = current_ r1);
    [by apply (comments_current r1 _ commentBefore (fun r => set_commentsBefore r []))|].
  intros r2 Hr2. apply alike_bind with state_of.
  { apply read_token_value_same; [exact IH|]. destruct Hrt1 as (H1 & H2 & H3).
  unfold read_of, inside, put_back in *.
    cbn [fst snd] in *. by rewrite Hr2. }
  intros [r3 [ok|]] Hr3; [|by apply alike_one]. apply alike_one. by destruct collectComments_.
Qed.
Lemma parse_range_same root :
  same (Reader.parse_range f collectComments_ begin_ root)
       (parse features collectComments_ begin_ root) (fun _ => True).
Proof.
  unfold Reader.parse_range, parse. change (stackLimit_ features) with stackLimit_g.
  apply alike_bind with state_of; [apply readValue_same; by split|].
  intros [r1 ok] Hr1. cbn [fst] in Hr1.
  apply alike_bind with read_of; [by apply skipCommentTokens_same|]. intros [r2 t2] [Hr2 Ht2].
  cbn [failIfExtra_ strictRoot_ our andb]. split; [done|apply returns_any].
Qed.
End Agreement.

(** ** The two readers *)

(** C31: On a document no token of which starts with a single quote or with [-I] and no
    number of which overflows, [Reader] with given features does exactly what [OurReader]
    does with the same features, its other settings switched off and the stack limit 1000:
    the same root with the same comments and offsets, the same errors, the same exceptions.
    Numbers as names are left out, for which [Reader] throws. *)
Theorem older_reader_agrees (f : Features) (doc : str) (root : Value) (collectComments : bool) :
  old_allowNumericKeys f = false -> common doc = true -> (len doc < 2 ^ 30)%N ->
  Reader.parse f doc root collectComments =
  parse (our f) (collectComments && allowComments_ (our f)) doc root.
Proof. intros Hk Hc Hl. by apply (parse_range_same f (collectComments && old_allowComments f) doc
  Hk Hc Hl root). Qed.
(** An apostrophe in a string, a comment, a real, dropped nulls and a missing brace. *)
Definition old_sample : str :=
  #"{ /* it's */ " ++ [DQ] ++ #"it's" ++ [DQ] ++ #" : [1.5e3, -2,,null ], " ++ [DQ] ++ #"b".
Definition dropping : Features := mkOldFeatures true true true false.
Example older_reader_agrees_witness :
  common old_sample = true /\
  Reader.parse dropping old_sample nullSingleton true = parse (our dropping) true old_sample nullSingleton.
Proof.
  split; [vm_compute; reflexivity|].
  apply (older_reader_agrees dropping old_sample nullSingleton true);
    [reflexivity|vm_compute; reflexivity|vm_compute; reflexivity].
Defined.
(** Where they differ: a number as a name; a quote, which [OurReader] takes for the start of a
    comment that [setComment] throws at; an infinity; a real that overflows. *)
Example numeric_keys_throw :
  Reader.parse (mkOldFeatures true false false true) #"{1:2}" nullSingleton false =
    Throw (JsonLogicError #"in Json::Value::asCString(): requires stringValue").
Proof. vm_compute. reflexivity. Qed.
Definition succeeds (m : outcome (OurReader * bool)) : option bool :=
  match m with Ret (_, ok) => Some ok | _ => None end.
Example readers_differ :
  map (fun doc => (succeeds (Reader.parse Features_all doc nullSingleton true),
                   succeeds (parse (our Features_all) true doc nullSingleton)))
    [#"'* a comment? */ 1"; #"-I"; #"1e400"] =
  [(Some false, None); (Some true, Some false); (Some false, Some true)].
Proof. vm_compute. reflexivity. Qed.
(** A stream is read to the first byte 255. *)
Example stream_is_cut :
  option_map root_ (match Reader.parse_stream Features_all (#"12" ++ ["255"%char] ++ #"3") nullSingleton false
                    with Ret (r, true) => Some r | _ => None end) =
  option_map root_ (match Reader.parse Features_all #"12" nullSingleton false
                    with Ret (r, true) => Some r | _ => None end).
Proof. vm_compute. reflexivity. Qed.
