(* ===== verification/JsonGrammar.v ===== *)
(** * JSON: the texts the reader accepts

    A grammar of JSON texts (RFC 8259, with the duplicate names it allows) and the
    value that each denotes, independent of the reader, with the bounds that the library sets on the lengths of strings,
    names and arrays: the escape sequences,
    digits and white space are tables of their own, code points are encoded by
    [utf8_bytes], integers have their decimal value. *)
From Stdlib Require Import Ascii String.
From stdpp Require Import base tactics list numbers option strings.
From S2P Require Import Prelude Globals Double JsonText JsonUtf8 JsonValue JsonLaws.
Open Scope Z_scope.

(** ** Syntax *)

(** A number stands for its text. *)
Inductive json :=
  | JNull
  | JBool (b : bool)
  | JNum (text : str)
  | JStr (s : str)
  | JArr (l : list json)
  | JObj (l : list (str * json)).

Definition white : list ascii := [SP; HT; CR; LF].
Definition blank (w : str) : Prop := Forall (fun c => c ∈ white) w.

Lemma blank_LF w : blank w -> blank (LF :: w).
Proof. intros H. apply Forall_cons. split; [repeat constructor|exact H]. Qed.

(** Strings: the text between the quotes and what it stands for. *)
Definition hex_digit (c : ascii) (d : Z) : Prop :=
  0 <= d /\ (#"0123456789abcdef" !! Z.to_nat d = Some c \/ #"0123456789ABCDEF" !! Z.to_nat d = Some c).
Definition escapes : list (ascii * ascii) :=
  [(DQ, DQ); ("\", "\"); ("/", "/"); ("b", "008"); ("f", "012"); ("n", LF); ("r", CR); ("t", HT)]%char.
Inductive hex4 : str -> Z -> Prop :=
  | h_digits c1 c2 c3 c4 d1 d2 d3 d4 :
      hex_digit c1 d1 -> hex_digit c2 d2 -> hex_digit c3 d3 -> hex_digit c4 d4 ->
      hex4 [c1; c2; c3; c4] (4096 * d1 + 256 * d2 + 16 * d3 + d4).
Inductive quoted : str -> str -> Prop :=
  | q_nil : quoted [] []
  | q_char c b s : c <> DQ -> c <> "\"%char -> quoted b s -> quoted (c :: b) (c :: s)
  | q_escape e x b s :
      (e, x) ∈ escapes -> quoted b s -> quoted ("\"%char :: e :: b) (x :: s)
  | q_unicode h cp b s :
      hex4 h cp -> ~ 0xD800 <= cp <= 0xDBFF ->
      quoted b s -> quoted (#"\u" ++ h ++ b) (utf8_bytes cp ++ s)
  | q_pair h1 h2 hi lo b s :
      hex4 h1 hi -> hex4 h2 lo -> 0xD800 <= hi <= 0xDBFF -> 0xDC00 <= lo <= 0xDFFF ->
      quoted b s ->
      quoted (#"\u" ++ h1 ++ #"\u" ++ h2 ++ b)
        (utf8_bytes (0x10000 + (hi - 0xD800) * 0x400 + (lo - 0xDC00)) ++ s).

(** Numbers: digits, perhaps with a sign, a fraction and an exponent. *)
Definition digits (s : str) : Prop := s <> [] /\ Forall (fun c => isdigit c = true) s.
Definition sign (s : str) : Prop := s = [] \/ s = #"+" \/ s = #"-".
Inductive number : str -> Prop :=
  | n_number neg i f e :
      neg = [] \/ neg = #"-" -> digits i ->
      f = [] \/ (exists ds, f = "."%char :: ds /\ digits ds) ->
      e = [] \/ (exists x sg ds, (x = "e" \/ x = "E")%char /\ sign sg /\ digits ds /\
                   e = x :: sg ++ ds) ->
      number (neg ++ i ++ f ++ e).

(** A text, the elements of an array up to its end, and the members of an object. *)
Inductive text : json -> str -> Prop :=
  | t_null : text JNull #"null"
  | t_true : text (JBool true) #"true"
  | t_false : text (JBool false) #"false"
  | t_num s : number s -> text (JNum s) s
  | t_str b s : quoted b s -> (len s <= 2147483642)%N -> text (JStr s) (DQ :: b ++ [DQ])
  | t_arr_empty w : blank w -> text (JArr []) (#"[" ++ w ++ #"]")
  | t_arr l s :
      elements l s -> (N.of_nat (length l) <= 2147483647)%N -> text (JArr l) (#"[" ++ s)
  | t_obj_empty w : blank w -> text (JObj []) (#"{" ++ w ++ #"}")
  | t_obj l s : members l s -> text (JObj l) (#"{" ++ s)
with elements : list json -> str -> Prop :=
  | e_last w j t w' : blank w -> text j t -> blank w' -> elements [j] (w ++ t ++ w' ++ #"]")
  | e_cons w j t w' l s :
      blank w -> text j t -> blank w' -> elements l s ->
      elements (j :: l) (w ++ t ++ w' ++ #"," ++ s)
with members : list (str * json) -> str -> Prop :=
  | m_last w k b w1 w2 j t w3 :
      blank w -> quoted b k -> (len k < 2 ^ 30)%N -> blank w1 -> blank w2 -> text j t -> blank w3 ->
      members [(k, j)] (w ++ (DQ :: b ++ [DQ]) ++ w1 ++ #":" ++ w2 ++ t ++ w3 ++ #"}")
  | m_cons w k b w1 w2 j t w3 l s :
      blank w -> quoted b k -> (len k < 2 ^ 30)%N -> blank w1 -> blank w2 -> text j t -> blank w3 ->
      members l s ->
      members ((k, j) :: l) (w ++ (DQ :: b ++ [DQ]) ++ w1 ++ #":" ++ w2 ++ t ++ w3 ++ #"," ++ s).

Scheme text_rec := Induction for text Sort Prop
  with elements_rec := Induction for elements Sort Prop
  with members_rec := Induction for members Sort Prop.
Combined Scheme text_mutual from text_rec, elements_rec, members_rec.

(** ** Meaning *)
Fixpoint numbered {A} (i : N) (l : list A) : list (N * A) :=
  match l with [] => [] | x :: l' => (i, x) :: numbered (i + 1) l' end.
(** A number that is an integer of 64 bits is that integer: an [intValue] up to [maxInt], a
    [uintValue] beyond; any other number is the double that [sscanf] finds. *)
Definition dec_value (a : Z) (s : str) : Z := fold_left (fun a c => a * 10 + (code c - 48)) s a.
Definition integer_value (t : str) : option Z :=
  let '(neg, ds) := match t with
                    | c :: ds => if ceqb c "-" then (true, ds) else (false, t)
                    | [] => (false, t)
                    end in
  if forallb isdigit ds then Some (if neg : bool then - dec_value 0 ds else dec_value 0 ds) else None.
Definition read_integer (z : Z) : Value := if z <=? maxInt then Value_int z else Value_uint z.
Definition read_real (t : str) : Value :=
  match sscanf_lf t with Some d => Value_double d | None => nullSingleton end.
Definition number_value (t : str) : Value :=
  match integer_value t with
  | Some z => if (minInt64 <=? z) && (z <=? maxUInt64) then read_integer z else read_real t
  | None => read_real t
  end.
Definition store_members (m : list (str * Value)) (l : list (str * Value)) : list (str * Value) :=
  fold_left (fun m kv => map_set CZString_ltb nullSingleton (fst kv) (snd kv) m) l m.
Fixpoint denote (j : json) : Value :=
  match j with
  | JNull => nullSingleton
  | JBool b => Value_bool b
  | JNum t => number_value t
  | JStr s => initBasic (stringValue s)
  | JArr l => initBasic (arrayValue (numbered 0 (map denote l)))
  | JObj l => initBasic (objectValue (store_members [] (map (fun kj => (fst kj, denote (snd kj))) l)))
  end.
Fixpoint jdepth (j : json) : nat :=
  match j with
  | JArr l => S (list_max (map jdepth l))
  | JObj l => S (list_max (map (fun kj => jdepth (snd kj)) l))
  | _ => 1
  end%nat.
