(* ===== verification/JsonLexis.v ===== *)
(** * JSON: strings and numbers

    The reader scans every string and number of the grammar to its end and
    decodes it to what it denotes. *)
From Stdlib Require Import Ascii String.
From stdpp Require Import base tactics list numbers option strings.
From S2P Require Import Prelude Globals Double JsonText JsonUtf8 JsonValue JsonReader JsonLaws JsonGrammar.
Open Scope Z_scope.

(** ** Tables *)
Lemma white_blank c : c ∈ white <-> is_blank c = true.
Proof.
  split.
  - unfold white. rewrite !elem_of_cons, elem_of_nil. intros H. by destruct_or! H; subst.
  - byte_cases c; intros H; try discriminate H; repeat constructor.
Qed.
Lemma escapes_unescape e x : (e, x) ∈ escapes <-> unescape e = Some x.
Proof.
  split.
  - unfold escapes. rewrite !elem_of_cons, elem_of_nil. intros H. by destruct_or! H; simplify_eq.
  - byte_cases e; intros H; try discriminate H; injection H as <-; repeat constructor.
Qed.
Lemma hex_digit_val c d : hex_digit c d <-> hex_val c = Some d.
Proof.
  split.
  - intros [Hd H]. rewrite <-(Z2Nat.id d) by done. clear Hd. revert H. generalize (Z.to_nat d). clear d.
    intros n H.
    do 16 (destruct n as [|n]; [destruct H as [[= <-]|[= <-]]; reflexivity|]). by destruct H.
  - byte_cases c; intros H; try discriminate H; injection H as <-;
      (split; [vm_compute; discriminate|first [left; reflexivity|right; reflexivity]]).
Qed.

(** ** Strings *)
Lemma between_app x rest : between (x ++ rest) rest = x.
Proof.
  unfold between. rewrite length_app.
  replace (length x + length rest - length rest)%nat with (length x) by lia. apply take_app_exact.
Qed.

Lemma hex_digit_plain c d : hex_digit c d -> c <> "\"%char /\ c <> DQ.
Proof. intros H%hex_digit_val. split; intros ->; done. Qed.
Lemma hex4_plain h cp :
  hex4 h cp -> length h = 4%nat /\ Forall (fun c => c <> "\"%char /\ c <> DQ) h.
Proof. destruct 1. split; [done|]. repeat constructor; by eapply hex_digit_plain. Qed.
Lemma hex_digit_range c d : hex_digit c d -> 0 <= d < 16.
Proof.
  intros [Hd [H|H]]; apply lookup_lt_Some in H; cbn in H; lia.
Qed.
Lemma hex4_range h cp : hex4 h cp -> 0 <= cp < 65536.
Proof.
  destruct 1 as [c1 c2 c3 c4 d1 d2 d3 d4 H1%hex_digit_range H2%hex_digit_range H3%hex_digit_range
    H4%hex_digit_range]. lia.
Qed.
(** The code point of a surrogate pair. *)
Lemma pair_code_point hi lo :
  0xD800 <= hi <= 0xDBFF -> 0xDC00 <= lo <= 0xDFFF ->
  0x10000 + Z.shiftl (Z.land hi 0x3FF) 10 + Z.land lo 0x3FF =
  0x10000 + (hi - 0xD800) * 0x400 + (lo - 0xDC00).
Proof.
  intros Hhi Hlo. change 0x3FF with (2 ^ 10 - 1). rewrite !land_mod, Z.shiftl_mul_pow2 by done.
  change (2 ^ 10) with 1024. dlia.
Qed.
Lemma hex4_decode h cp : hex4 h cp -> forall b tl,
  decodeUnicodeEscapeSequence (h ++ b) tl = Decoded (cp, b).
Proof.
  destruct 1 as [c1 c2 c3 c4 d1 d2 d3 d4 H1%hex_digit_val H2%hex_digit_val H3%hex_digit_val
    H4%hex_digit_val]. intros b tl.
  unfold decodeUnicodeEscapeSequence.
  assert ((length ([c1; c2; c3; c4] ++ b) <? 4)%nat = false) as -> by (apply Nat.ltb_ge; cbn; lia).
  cbn. rewrite H1, H2, H3, H4. do 2 f_equal. lia.
Qed.
Lemma readString_plain h c :
  Forall (fun c => c <> "\"%char /\ c <> DQ) h ->
  exists c', forall r, readString DQ c (h ++ r) = readString DQ c' r.
Proof.
  revert c. induction h as [|x h IH]; intros c H; [by exists c|].
  apply Forall_cons in H as [[H1 H2] H]. destruct (IH x H) as [c' Hc']. exists c'. intros r.
  cbn [app readString]. apply ceqb_neq in H1, H2. rewrite H1, H2. apply Hc'.
Qed.
Lemma readString_quoted b s : quoted b s -> forall c rest,
  readString DQ c (b ++ DQ :: rest) = (true, rest).
Proof.
  induction 1 as [|c b s H1 H2 _ IH|e x b s _ _ IH|h cp b s [_ Hh]%hex4_plain _ _ IH
                 |h1 h2 hi lo b s [_ Hh1]%hex4_plain [_ Hh2]%hex4_plain _ _ _ IH]; intros c' rest.
  - done.
  - cbn [app readString]. apply ceqb_neq in H1, H2. by rewrite H1, H2.
  - cbn [app readString]. cbn. apply IH.
  - destruct (readString_plain h "\" Hh) as [c1 Hc1].
    cbn [app lit list_ascii_of_string readString]. cbn. rewrite <-app_assoc, Hc1. apply IH.
  - destruct (readString_plain h1 "\" Hh1) as [c1 Hc1].
    destruct (readString_plain h2 "\" Hh2) as [c2 Hc2].
    cbn. rewrite <-app_assoc, Hc1. cbn. rewrite <-app_assoc, Hc2. apply IH.
Qed.
Lemma decodeUnicodeCodePoint_one h cp b tl :
  hex4 h cp -> ~ 0xD800 <= cp <= 0xDBFF -> decodeUnicodeCodePoint (h ++ b) tl = Decoded (cp, b).
Proof.
  intros Hx Hcp. unfold decodeUnicodeCodePoint. rewrite (hex4_decode _ _ Hx).
  assert ((0xD800 <=? cp) && (cp <=? 0xDBFF) = false) as ->; [|done].
  apply andb_false_iff. rewrite !Z.leb_gt. lia.
Qed.
Lemma decodeUnicodeCodePoint_pair h1 hi h2 lo b tl :
  hex4 h1 hi -> hex4 h2 lo -> 0xD800 <= hi <= 0xDBFF ->
  decodeUnicodeCodePoint (h1 ++ #"\u" ++ h2 ++ b) tl =
  Decoded (0x10000 + Z.shiftl (Z.land hi 0x3FF) 10 + Z.land lo 0x3FF, b).
Proof.
  intros Hx1 Hx2 Hhi. unfold decodeUnicodeCodePoint. rewrite (hex4_decode _ _ Hx1).
  destruct (hex4_plain _ _ Hx2) as [Hl2 _].
  assert ((0xD800 <=? hi) && (hi <=? 0xDBFF) = true) as ->.
  { apply andb_true_iff. rewrite !Z.leb_le. lia. }
  assert (length (#"\u" ++ h2 ++ b) <? 6 = false)%nat as ->.
  { apply Nat.ltb_ge. rewrite !length_app, Hl2. cbn. lia. }
  cbn [lit list_ascii_of_string app next_char]. cbv beta iota zeta.
  change (ceqb "\" "\") with true. change (ceqb "u" "u") with true. cbv iota.
  by rewrite (hex4_decode _ _ Hx2).
Qed.
Lemma decode_loop_u fuel b tl acc :
  decode_loop (S fuel) (#"\u" ++ b) tl acc =
  match decodeUnicodeCodePoint b tl with
  | Bad m e => Bad m e
  | Decoded (unicode, b) => decode_loop fuel b tl (acc ++ codePointToUTF8 unicode)
  end.
Proof. done. Qed.
Lemma decode_quoted b s : quoted b s -> forall fuel tl acc,
  (length b < fuel)%nat -> decode_loop fuel b tl acc = Decoded (acc ++ s).
Proof.
  induction 1 as [|c b s H1 H2 _ IH|e x b s He%escapes_unescape _ IH|h cp b s Hx Hcp _ IH
                 |h1 h2 hi lo b s Hx1 Hx2 Hhi Hlo _ IH];
    intros fuel tl acc Hf; (destruct fuel as [|fuel]; [lia|]).
  - cbn. by rewrite app_nil_r.
  - cbn [decode_loop app]. apply ceqb_neq in H1, H2. rewrite H1, H2. rewrite IH by (cbn in Hf; lia).
    by rewrite <-app_assoc.
  - cbn [decode_loop]. change (ceqb "\" DQ) with false. change (ceqb "\" "\") with true. cbv iota.
    assert (ceqb e "u" = false) as ->.
    { destruct (ceqb e "u") eqn:E; [|done]. apply ceqb_eq in E as ->. done. }
    rewrite He, IH by (cbn in Hf; lia). by rewrite <-app_assoc.
  - rewrite decode_loop_u, (decodeUnicodeCodePoint_one h cp) by done.
    rewrite codePointToUTF8_bytes by (pose proof (hex4_range _ _ Hx); lia).
    rewrite IH by (rewrite !length_app in Hf; cbn in Hf; lia). by rewrite <-app_assoc.
  - rewrite decode_loop_u, (decodeUnicodeCodePoint_pair h1 hi h2 lo), pair_code_point by done.
    rewrite codePointToUTF8_bytes by lia.
    rewrite IH by (rewrite !length_app in Hf; cbn in Hf; lia). by rewrite <-app_assoc.
Qed.
Lemma decodeString_quoted b s rest :
  quoted b s ->
  decodeString (mkToken tokenString ((DQ :: b ++ [DQ]) ++ rest) rest) = Decoded s.
Proof.
  intros H. unfold decodeString, token_text. cbn [tok_start tok_end].
  rewrite between_app. change (drop 1 (DQ :: b ++ [DQ])) with (b ++ [DQ]).
  rewrite length_app. cbn [length].
  replace (length b + 1 - 1)%nat with (length b) by lia.
  rewrite take_app_exact. by rewrite (decode_quoted b s H) by lia.
Qed.

(** ** Numbers *)
Definition ends_number (rest : str) : Prop :=
  match rest with
  | [] => True
  | c :: _ => isdigit c = false /\ c <> "."%char /\ c <> "e"%char /\ c <> "E"%char
  end.
Definition no_digit (r : str) : Prop := match r with [] => True | c :: _ => isdigit c = false end.
Lemma ends_no_digit r : ends_number r -> no_digit r.
Proof. destruct r; [done|]. by intros [H _]. Qed.

Lemma digits_loop_run ds r cur c :
  isdigit c = true -> Forall (fun c => isdigit c = true) ds -> no_digit r ->
  digits_loop cur (ds ++ r) c = advance r.
Proof.
  revert cur c. induction ds as [|d ds IH]; intros cur c Hc Hds Hr; cbn [app].
  - destruct r as [|x r]; cbn; rewrite Hc; [done|]. cbn in Hr. destruct r; cbn; by rewrite Hr.
  - apply Forall_cons in Hds as [Hd Hds]. cbn. rewrite Hc. by apply IH.
Qed.
Lemma digits_loop_advance ds r :
  digits ds -> no_digit r ->
  (let '(cur, p, c) := advance (ds ++ r) in digits_loop cur p c) = advance r.
Proof.
  intros [Hn Hds] Hr. destruct ds as [|d ds]; [done|]. apply Forall_cons in Hds as [Hd Hds].
  cbn [app advance]. by apply digits_loop_run.
Qed.
Lemma advance_cur r : fst (fst (advance r)) = r.
Proof. by destruct r. Qed.

(** The part of [readNumber] behind the sign, on the rest of a number. *)
Lemma readNumber_run checkInf i f e rest :
  Forall (fun c => isdigit c = true) i ->
  (checkInf = true -> i <> []) ->
  f = [] \/ (exists ds, f = "."%char :: ds /\ digits ds) ->
  e = [] \/ (exists x sg ds, (x = "e" \/ x = "E")%char /\ sign sg /\ digits ds /\
               e = x :: sg ++ ds) ->
  ends_number rest ->
  readNumber checkInf (i ++ f ++ e ++ rest) = (true, rest).
Proof.
  intros Hi Hinf Hf He Hrest. unfold readNumber.
  assert (checkInf && match i ++ f ++ e ++ rest with c :: _ => ceqb c "I" | [] => false end = false)
    as ->.
  { destruct checkInf; [|done]. destruct i as [|d i]; [by destruct (Hinf eq_refl)|].
    apply Forall_cons in Hi as [Hd _]. cbn. destruct (ceqb d "I") eqn:E; [|done].
    by apply ceqb_eq in E as ->. }
  assert (He1 : no_digit (e ++ rest) /\ match e ++ rest with c :: _ => c <> "."%char | [] => True end).
  { destruct He as [->|(x & sg & ds & [-> | ->] & _ & _ & ->)]; cbn; [|done|done].
    destruct rest; [done|]. by destruct Hrest as (? & ? & _). }
  destruct He1 as [He1 He1'].
  assert (Hf1 : no_digit (f ++ e ++ rest)).
  { destruct Hf as [->|(ds & -> & _)]; done. }
  rewrite (digits_loop_run i (f ++ e ++ rest)) by done.
  assert ((let '(cur, p, c) := advance (f ++ e ++ rest) in
           if ceqb c "." then let '(cur, p, c) := advance p in digits_loop cur p c
           else (cur, p, c)) = advance (e ++ rest)) as Hfrac.
  { destruct Hf as [->|(ds & -> & Hds)]; cbn [app].
    - destruct (e ++ rest) as [|x l]; [done|]. cbn. apply ceqb_neq in He1'. by rewrite He1'.
    - cbn [advance]. cbn. by apply digits_loop_advance. }
  destruct (advance (f ++ e ++ rest)) as [[cur p] c]. rewrite Hfrac. clear Hfrac cur p c.
  destruct He as [->|(x & sg & ds & Hx & Hsg & Hds & ->)]; cbn [app].
  - destruct rest as [|c rest]; [done|]. destruct Hrest as (_ & _ & H1 & H2). cbn.
    apply ceqb_neq in H1, H2. by rewrite H1, H2.
  - cbn [advance]. assert (ceqb x "e" || ceqb x "E" = true) as -> by (by destruct Hx as [-> | ->]).
    rewrite <-app_assoc. apply ends_no_digit in Hrest.
    pose proof (digits_loop_advance ds rest Hds Hrest) as Hd.
    pose proof (advance_cur rest) as Hc. destruct Hds as [Hne Hall].
    destruct ds as [|d ds]; [done|]. apply Forall_cons in Hall as [Hd0 _].
    destruct Hsg as [-> | [-> | ->]]; cbn [app advance lit list_ascii_of_string] in *.
    + assert (ceqb d "+" || ceqb d "-" = false) as ->.
      { apply orb_false_iff. split; apply ceqb_neq; intros ->; done. }
      rewrite Hd. by destruct (advance rest) as [[cur p] c]; cbn in Hc; subst.
    + cbn [ceqb]. cbn in Hd |- *. rewrite Hd.
      by destruct (advance rest) as [[cur p] c]; cbn in Hc; subst.
    + cbn in Hd |- *. rewrite Hd. by destruct (advance rest) as [[cur p] c]; cbn in Hc; subst.
Qed.

Lemma scan_digits_run ds r a n :
  Forall (fun c => isdigit c = true) ds -> no_digit r ->
  exists a', scan_digits a n (ds ++ r) = (a', (n + length ds)%nat, r).
Proof.
  revert a n. induction ds as [|d ds IH]; intros a n Hds Hr; cbn [app].
  - exists a. rewrite Nat.add_0_r. destruct r as [|c r]; [done|]. cbn in *. by rewrite Hr.
  - apply Forall_cons in Hds as [Hd Hds]. cbn. rewrite Hd.
    destruct (IH (a * 10 + (code d - 48)) (S n) Hds Hr) as [a' ->]. exists a'. do 2 f_equal. lia.
Qed.
(** [sscanf] converts every number. *)
Lemma sscanf_number s : number s -> exists d, sscanf_lf s = Some d.
Proof.
  intros [neg i f e Hneg [Hi0 Hi] Hf He]. unfold sscanf_lf.
  assert (exists ng, scan_sign (neg ++ i ++ f ++ e) = (ng, i ++ f ++ e)) as [ng ->].
  { destruct Hneg as [-> | ->]; [|by eexists]. destruct i as [|d i]; [done|].
    apply Forall_cons in Hi as [Hd _]. cbn.
    destruct (ceqb d "-") eqn:E1; [by apply ceqb_eq in E1 as ->|].
    destruct (ceqb d "+") eqn:E2; [by apply ceqb_eq in E2 as ->|]. by eexists. }
  assert (Hfe : no_digit (f ++ e)).
  { destruct Hf as [->|(ds & -> & _)]; [|done].
    destruct He as [->|(x & sg & ds & [-> | ->] & _ & _ & ->)]; done. }
  destruct (scan_digits_run i (f ++ e) 0 0 Hi Hfe) as [m ->].
  destruct i as [|d i]; [done|]. cbn [length Nat.add].
  destruct (match f ++ e with [] => _ | _ => _ end) as [[m' k] s3]. by eexists.
Qed.
(** *** Integers *)
Lemma digit_range c : isdigit c = true -> 0 <= code c - 48 <= 9.
Proof. unfold isdigit. rewrite andb_true_iff, !Z.leb_le. lia. Qed.
Lemma dec_value_mono a s : Forall (fun c => isdigit c = true) s -> 0 <= a -> a <= dec_value a s.
Proof.
  revert a. induction s as [|c s IH]; intros a Hs Ha; cbn; [lia|].
  apply Forall_cons in Hs as [Hc%digit_range Hs].
  pose proof (IH (a * 10 + (code c - 48)) Hs ltac:(lia)). unfold dec_value in *. lia.
Qed.
Lemma dec_value_cons a c s : dec_value a (c :: s) = dec_value (a * 10 + (code c - 48)) s.
Proof. done. Qed.
(** Another digit makes ten times as much at least. *)
Lemma dec_value_more a s :
  Forall (fun c => isdigit c = true) s -> 0 <= a -> s <> [] -> a * 10 <= dec_value a s.
Proof.
  intros Hs Ha Hne. destruct s as [|c s]; [done|]. apply Forall_cons in Hs as [Hc%digit_range Hs].
  rewrite dec_value_cons. pose proof (dec_value_mono (a * 10 + (code c - 48)) s Hs ltac:(lia)). lia.
Qed.
(** The loop of [decodeNumber] finds the value of the digits, and its overflow
    test gives up exactly when that is beyond the bound. *)
Lemma number_loop_eq M s : 10 <= M <= maxUInt64 -> forall a, 0 <= a <= M ->
  number_loop M a s =
  if forallb isdigit s && (dec_value a s <=? M) then Some (dec_value a s) else None.
Proof.
  intros HM. induction s as [|c s IH]; intros a Ha; cbn [number_loop forallb].
  { cbn. by rewrite (proj2 (Z.leb_le _ _)) by lia. }
  destruct (isdigit c) eqn:Hc; [|done]. apply digit_range in Hc. cbn [negb andb].
  rewrite dec_value_cons. set (a' := a * 10 + (code c - 48)).
  destruct ((M / 10 <=? a) && _) eqn:Hover.
  - destruct (forallb isdigit s) eqn:Hs; [|done]. rewrite forallb_forall in Hs.
    assert (Forall (fun c => isdigit c = true) s) as Hall.
    { apply Forall_forall. intros x Hx. apply Hs. by apply list_elem_of_In. }
    pose proof (dec_value_mono a' s Hall ltac:(lia)) as Hmono.
    pose proof (dec_value_more a' s Hall ltac:(lia)) as Hmore.
    assert (dec_value a' s <=? M = false) as ->; [|done]. apply Z.leb_gt.
    apply andb_true_iff in Hover as [H1%Z.leb_le H2].
    rewrite !orb_true_iff, !Z.ltb_lt in H2. destruct H2 as [[H2|H2]|H2]; [dlia| |dlia].
    assert (s <> []) as Hne by (by destruct s). specialize (Hmore Hne). dlia.
  - assert (a' <= M) as Ha'.
    { apply andb_false_iff in Hover. rewrite Z.leb_gt, !orb_false_iff, !Z.ltb_ge in Hover.
      destruct Hover as [H|[[H1 _] H2]]; dlia. }
    unfold wrap_u, maxUInt64 in *. rewrite Z.mod_small by lia. apply IH. lia.
Qed.
Lemma negate_64 v : 0 <= v <= 9223372036854775808 -> wrap_s 64 (- wrap_s 64 v) = - v.
Proof.
  intros Hv. unfold wrap_s. change (2 ^ (64 - 1)) with 9223372036854775808.
  rewrite (Z.mod_small v) by lia. destruct (v <? 9223372036854775808) eqn:E.
  - apply Z.ltb_lt in E. destruct (decide (v = 0)) as [->|Hne]; [done|].
    assert ((- v) mod 2 ^ 64 = 2 ^ 64 - v) as -> by dlia.
    rewrite (proj2 (Z.ltb_ge _ _)) by lia. lia.
  - apply Z.ltb_ge in E. assert (v = 9223372036854775808) as -> by lia. done.
Qed.
Lemma wrap_s_small v : 0 <= v <= maxInt -> wrap_s 64 v = v.
Proof.
  unfold maxInt. intros H. unfold wrap_s. rewrite Z.mod_small by lia.
  by rewrite (proj2 (Z.ltb_lt _ _)) by lia.
Qed.
Lemma dec_value_nonneg s : forallb isdigit s = true -> 0 <= dec_value 0 s.
Proof.
  intros H. apply (dec_value_mono 0 s); [|done]. apply Forall_forall. intros x Hx.
  rewrite forallb_forall in H. apply H. by apply list_elem_of_In.
Qed.
(** [decodeNumber] computes the value of every text that [sscanf] converts. *)
Lemma decodeNumber_text t :
  is_Some (sscanf_lf (token_text t)) -> decodeNumber t = Decoded (number_value (token_text t)).
Proof.
  intros [d Hd]. unfold decodeNumber, decodeDouble, number_value, integer_value, read_real.
  set (s := token_text t) in *. rewrite Hd. clearbody s. clear t.
  assert (forall ds, number_loop maxLargestUInt 0 ds = (if forallb isdigit ds &&
    (dec_value 0 ds <=? maxUInt64) then Some (dec_value 0 ds) else None)) as Hpos.
  { intros ds. apply number_loop_eq; unfold maxLargestUInt, maxUInt64; lia. }
  assert (forall ds, number_loop (wrap_u 64 minLargestInt) 0 ds = (if forallb isdigit ds &&
    (dec_value 0 ds <=? 9223372036854775808) then Some (dec_value 0 ds) else None)) as Hneg.
  { intros ds. apply number_loop_eq; vm_compute; (split; [intros; discriminate|intros; discriminate]). }
  assert (forall ds, match (if forallb isdigit ds && (dec_value 0 ds <=? maxUInt64)
      then Some (dec_value 0 ds) else None) with
    | Some v => Decoded (if v <=? maxInt then Value_int (wrap_s 64 v) else Value_uint v)
    | None => Decoded (Value_double d) end =
    Decoded (match (if forallb isdigit ds then Some (dec_value 0 ds) else None) with
    | Some z => if (minInt64 <=? z) && (z <=? maxUInt64) then read_integer z else Value_double d
    | None => Value_double d end)) as Hread.
  { intros ds. destruct (forallb isdigit ds) eqn:Hds; [|done]. apply dec_value_nonneg in Hds.
    cbn [andb]. rewrite (proj2 (Z.leb_le minInt64 _)) by (unfold minInt64; lia). cbn [andb].
    destruct (dec_value 0 ds <=? maxUInt64); [|done]. unfold read_integer.
    destruct (dec_value 0 ds <=? maxInt) eqn:E; [|done]. apply Z.leb_le in E.
    by rewrite wrap_s_small. }
  destruct s as [|c s]; [by apply (Hread [])|]. destruct (ceqb c "-"); [|rewrite Hpos; apply (Hread (c :: s))].
  cbn [drop]. rewrite drop_0, Hneg. destruct (forallb isdigit s) eqn:Hds; [|done].
  apply dec_value_nonneg in Hds. cbn [andb].
  destruct (dec_value 0 s <=? 9223372036854775808) eqn:E.
  - apply Z.leb_le in E. rewrite negate_64 by lia.
    rewrite (proj2 (Z.leb_le minInt64 _)), (proj2 (Z.leb_le _ maxUInt64)) by (unfold minInt64, maxUInt64; lia).
    unfold read_integer. by rewrite (proj2 (Z.leb_le _ maxInt)) by (unfold maxInt; lia).
  - apply Z.leb_gt in E. by rewrite (proj2 (Z.leb_gt minInt64 _)) by (unfold minInt64; lia).
Qed.
Lemma decodeNumber_number s rest :
  number s -> decodeNumber (mkToken tokenNumber (s ++ rest) rest) = Decoded (number_value s).
Proof.
  intros H. assert (token_text (mkToken tokenNumber (s ++ rest) rest) = s) as Ht by apply between_app.
  rewrite decodeNumber_text; rewrite Ht; [done|]. destruct (sscanf_number s H) as [d ->]. by eexists.
Qed.
Lemma number_value_scalar s :
  (exists z, number_value s = Value_int z) \/ (exists z, number_value s = Value_uint z) \/
  (exists d, number_value s = Value_double d) \/ number_value s = nullSingleton.
Proof.
  assert ((exists d, read_real s = Value_double d) \/ read_real s = nullSingleton) as Hr.
  { unfold read_real. destruct (sscanf_lf s); eauto. }
  unfold number_value, read_integer. destruct (integer_value s); [|by tauto].
  destruct (_ && _); [|by tauto]. destruct (_ <=? maxInt); eauto.
Qed.
Lemma number_value_plain s : plain (number_value s) = number_value s.
Proof. by destruct (number_value_scalar s) as [[? ->]|[[? ->]|[[? ->]| ->]]]. Qed.
Lemma number_value_number s :
  number s -> type (number_value s) <> TNull /\ type (number_value s) <> TObject.
Proof.
  intros H. destruct (sscanf_number s H) as [d Hd]. unfold number_value, read_integer, read_real.
  rewrite Hd. destruct (integer_value s); [|done]. destruct (_ && _); [|done]. by destruct (_ <=? maxInt).
Qed.
