(* ===== verification/JsonAccepts.v ===== *)
(** * JSON: the reader accepts JSON

    The proof that [OurReader] in its default configuration reads every text of
    the grammar of [JsonGrammar] without an error and computes its value: lemmas
    on tokens, on writing through the stack of [nodes_], and an induction on the
    grammar. *)
From Stdlib Require Import Ascii String.
From stdpp Require Import base tactics list numbers option strings.
From S2P Require Import Prelude Globals Double JsonText JsonValue JsonReader JsonLaws JsonReaderLaws.
From S2P Require Import JsonUtf8 JsonGrammar JsonLexis.
Open Scope Z_scope.

(** ** Blanks *)
Lemma skipSpaces_blank w s : blank w -> skipSpaces (w ++ s) = skipSpaces s.
Proof.
  induction w as [|c w IH]; intros H; [done|]. apply Forall_cons in H as [Hc%white_blank H].
  unfold skipSpaces in *. cbn. rewrite Hc. by apply IH.
Qed.
Lemma skipSpaces_idem s : skipSpaces (skipSpaces s) = skipSpaces s.
Proof.
  unfold skipSpaces. induction s as [|c s IH]; [done|]. cbn.
  destruct (is_blank c) eqn:E; [done|]. cbn. by rewrite E.
Qed.
Lemma ends_number_blank w s : blank w -> ends_number s -> ends_number (w ++ s).
Proof.
  destruct w as [|c w]; [done|]. intros [Hc _]%Forall_cons _. unfold white in Hc.
  rewrite !elem_of_cons, elem_of_nil in Hc. by destruct_or! Hc; subst.
Qed.

(** The first character of a text. *)
Definition starts (t : str) : Prop :=
  exists c t', t = c :: t' /\ is_blank c = false /\ ceqb c "]" = false.
Lemma starts_digit c t : isdigit c = true -> starts (c :: t).
Proof. intros H. exists c, t. split; [done|]. revert H. by byte_cases c. Qed.
Lemma text_starts j t : text j t -> starts t.
Proof.
  destruct 1 as [| | |s [neg i f e Hneg [Hi0 Hi] _ _]| | | | |]; try by eexists _, _; split.
  destruct i as [|d i]; [done|]. apply Forall_cons in Hi as [Hd _].
  destruct Hneg as [-> | ->]; [by apply starts_digit|by eexists _, _; split].
Qed.
Lemma skip_starts t s : starts t -> skipSpaces (t ++ s) = t ++ s.
Proof. intros (c & t' & -> & Hc & _). unfold skipSpaces. cbn. by rewrite Hc. Qed.
Lemma starts_not_end t s :
  starts t -> match t ++ s with c :: _ => ceqb c "]" | [] => false end = false.
Proof. by intros (c & t' & -> & _ & Hc). Qed.

(** ** Tokens *)
Section Tokens.
Context (features_ : OurFeatures) (collectComments_ : bool) (begin_ : Location).
Abbreviation readToken := (readToken features_ collectComments_ begin_).
Abbreviation next_token := (next_token features_ collectComments_ begin_).

Definition punctuation (c : ascii) (ty : TokenType) : Prop :=
  In (c, ty) [("{", tokenObjectBegin); ("}", tokenObjectEnd); ("[", tokenArrayBegin);
              ("]", tokenArrayEnd); (",", tokenArraySeparator); (":", tokenMemberSeparator)]%char.
Lemma readToken_punctuation r c ty rest :
  punctuation c ty -> skipSpaces (current_ r) = c :: rest ->
  readToken r = Ret (set_current r rest, mkToken ty (c :: rest) rest).
Proof.
  intros Hp Hc. unfold JsonReader.readToken. rewrite Hc.
  by repeat (destruct Hp as [[= <- <-]|Hp]; [done|]).
Qed.
Lemma readToken_word r ty word rest :
  In (word, ty) [(#"null", tokenNull); (#"true", tokenTrue); (#"false", tokenFalse)] ->
  skipSpaces (current_ r) = word ++ rest ->
  readToken r = Ret (set_current r rest, mkToken ty (word ++ rest) rest).
Proof.
  intros Hp Hc. unfold JsonReader.readToken. rewrite Hc.
  repeat (destruct Hp as [[= <- <-]|Hp]; [by cbn; rewrite drop_0|]). done.
Qed.
Lemma readToken_string r b s rest :
  quoted b s -> skipSpaces (current_ r) = (DQ :: b ++ [DQ]) ++ rest ->
  readToken r = Ret (set_current r rest, mkToken tokenString ((DQ :: b ++ [DQ]) ++ rest) rest).
Proof.
  intros Hq Hc. unfold JsonReader.readToken. rewrite Hc. cbn [app next_char].
  cbv zeta. rewrite <-app_assoc. cbn [app]. rewrite (readString_quoted b s Hq). done.
Qed.
Lemma readToken_number r s rest :
  number s -> ends_number rest -> skipSpaces (current_ r) = s ++ rest ->
  readToken r = Ret (set_current r rest, mkToken tokenNumber (s ++ rest) rest).
Proof.
  intros [neg i f e Hneg [Hi0 Hi] Hf He] Hrest Hc. unfold JsonReader.readToken. rewrite Hc.
  rewrite <-!app_assoc in Hc |- *. destruct Hneg as [-> | ->].
  - destruct i as [|d i]; [done|]. apply Forall_cons in Hi as [Hd Hi]. cbn [app next_char].
    rewrite (readNumber_run false i f e rest) by done. cbv zeta.
    assert (Hnot : forall x, isdigit x = false -> ceqb d x = false).
    { intros x Hx. apply ceqb_neq. intros ->. congruence. }
    rewrite !Hnot by done. by rewrite Hd.
  - cbn [app lit list_ascii_of_string next_char]. cbv zeta.
    by rewrite (readNumber_run true i f e rest) by done.
Qed.
Lemma next_token_of r r' t :
  readToken r = Ret (r', t) -> is_token t tokenComment = false -> next_token r = Ret (r', t).
Proof. intros H Ht. unfold JsonReader.next_token. rewrite H. cbn. by rewrite Ht. Qed.
End Tokens.

(** ** Writing through the stack *)
Lemma map_upd_const {K V} (ltb : K -> K -> bool) k f (m : list (K * V)) w :
  map_find ltb k m = Some w -> map_upd ltb k f m = map_upd ltb k (fun _ => f w) m.
Proof.
  induction m as [|[k1 v1] m IH]; [done|]. cbn. destruct (ltb k1 k).
  - intros H. by rewrite IH.
  - destruct (ltb k k1); [done|]. by intros [= ->].
Qed.
Lemma upd_child_const s f v w : get_child v s = Some w -> upd_child s f v = upd_child s (fun _ => f w) v.
Proof.
  destruct v as [p c a b], s, p; cbn; try done; intros H; do 2 f_equal; by apply map_upd_const.
Qed.
Lemma upd_path_const p f v w : get_path p v = Some w -> upd_path p f v = upd_path p (fun _ => f w) v.
Proof.
  revert f w. induction p as [|s p IH]; intros f w H; cbn in *; [congruence|].
  destruct (get_path p v) as [u|]; [|done].
  rewrite (IH (upd_child s f) u), (IH (upd_child s (fun _ => f w)) u) by done.
  apply upd_path_ext. intros _. by apply upd_child_const.
Qed.

Lemma upd_child_id s v : upd_child s id v = v.
Proof.
  assert (H : forall K V (ltb : K -> K -> bool) k (m : list (K * V)), map_upd ltb k id m = m).
  { intros K V ltb k. induction m as [|[k1 v1] m IH]; [done|]. cbn.
    destruct (ltb k1 k); [by rewrite IH|]. by destruct (ltb k k1). }
  destruct v as [p c a b], s, p; cbn; try done; unfold set_payload; by rewrite H.
Qed.
Lemma upd_path_id p v : upd_path p id v = v.
Proof.
  revert v. induction p as [|s p IH]; intros v; [done|]. cbn.
  rewrite <-(IH v) at 2. apply upd_path_ext. intros x. apply upd_child_id.
Qed.

(** The value that is being read exists; [v] is what it holds. *)
Definition holds (r : OurReader) (v : Value) : Prop := get_path (nodes_ r) (root_ r) = Some v.
(** [result r r' rest p]: from [r] the reader came to [r'] with the text [rest]
    left, no errors or comments, and the current value has become one with the
    payload [p], up to comments and offsets. *)
Definition result (r r' : OurReader) (rest : str) (p : Payload Value) : Prop :=
  current_ r' = rest /\ commentsBefore_ r' = [] /\ errors_ r' = errors_ r /\
  nodes_ r' = nodes_ r /\
  exists v, root_ r' = upd_path (nodes_ r) (fun _ => v) (root_ r) /\ plain_payload (payload v) = p.

Lemma holds_current r v : holds r v -> currentValue r = v.
Proof. unfold holds, currentValue, value_at. by intros ->. Qed.
Lemma result_holds r v r' rest p :
  holds r v -> result r r' rest p -> exists v', holds r' v' /\ plain_payload (payload v') = p.
Proof.
  intros H (_ & _ & _ & Hn & v' & Hr & Hp). exists v'. split; [|done].
  unfold holds in *. by rewrite Hn, Hr, get_upd_path, H.
Qed.
Lemma result_trans r r1 r2 rest1 rest2 p1 p2 :
  result r r1 rest1 p1 -> result r1 r2 rest2 p2 -> result r r2 rest2 p2.
Proof.
  intros (_ & _ & He1 & Hn1 & v1 & Hr1 & _) (Hc & Hb & He2 & Hn2 & v2 & Hr2 & Hp).
  split_and!; [done|done|congruence|congruence|]. exists v2. split; [|done].
  by rewrite Hr2, Hn1, Hr1, upd_path_compose.
Qed.
(** The reader moves on in the text. *)
Lemma result_current r r' rest p rest' :
  result r r' rest p -> result r (set_current r' rest') rest' p.
Proof. intros (_ & H). by split. Qed.
Lemma result_from r r' rest p s : result (set_current r s) r' rest p -> result r r' rest p.
Proof. done. Qed.
Lemma result_on_current r v f :
  holds r v -> commentsBefore_ r = [] ->
  result r (on_current f r) (current_ r) (plain_payload (payload (f v))).
Proof.
  intros H Hb. split_and!; try done. exists (f v). split; [|done]. by apply upd_path_const.
Qed.
(** [nodes_.push(&currentValue()[s])], a result there, and [nodes_.pop()]. *)
Lemma result_child r v s u r' rest p :
  holds r v -> get_child v s = Some u -> result (push r s) r' rest p ->
  exists w, plain_payload (payload w) = p /\
    result r (pop r') rest (plain_payload (payload (upd_child s (fun _ => w) v))).
Proof.
  intros Hv Hu (Hc & Hb & He & Hn & w & Hr & Hp). exists w. split; [done|].
  split_and!; try done.
  - cbn. by rewrite Hn.
  - exists (upd_child s (fun _ => w) v). split; [|done]. cbn in Hr |- *.
    rewrite Hr. by apply upd_path_const.
Qed.
Lemma holds_push r v s u : holds r v -> get_child v s = Some u -> holds (push r s) u.
Proof. unfold holds. intros H Hu. cbn. by rewrite H. Qed.

(** ** Elements and members *)
Lemma numbered_snoc {A} i (l : list A) x :
  numbered i (l ++ [x]) = numbered i l ++ [((i + N.of_nat (length l))%N, x)].
Proof.
  revert i. induction l as [|y l IH]; intros i; cbn.
  - by rewrite N.add_0_r.
  - rewrite IH. do 4 f_equal. lia.
Qed.
Lemma numbered_below {A} i n (l : list A) :
  (i + N.of_nat (length l) <= n)%N -> Forall (fun kv => (fst kv <? n)%N = true) (numbered i l).
Proof.
  revert i. induction l as [|y l IH]; intros i H; constructor; cbn in H |- *.
  - apply N.ltb_lt. lia.
  - apply IH. lia.
Qed.
Lemma index_ref_stored v ds :
  plain_payload (payload v) = arrayValue (numbered 0 ds) ->
  let i := N.of_nat (length ds) in
  exists v1 u, index_ref v i = Ret v1 /\ get_child v1 (Index i) = Some u /\
    forall w, plain_payload (payload (upd_child (Index i) (fun _ => w) v1)) =
              arrayValue (numbered 0 (ds ++ [plain w])).
Proof.
  intros Hp i. destruct v as [p c a b]. cbn in Hp. destruct p as [| | | | | |m|]; try done.
  injection Hp as Hm. unfold index_ref. cbn.
  destruct (map_find_insert_same N.ltb i nullSingleton m) as [u Hu].
  eexists _, u. split_and!; [done|done|]. intros w.
  change (arrayValue (map_snd plain (map_set N.ltb nullSingleton i w m)) =
          arrayValue (numbered 0 (ds ++ [plain w]))).
  rewrite map_snd_set. change (map_snd plain m = numbered 0 ds) in Hm. rewrite Hm.
  rewrite (map_set_snoc N.ltb) by (apply numbered_below; lia). by rewrite numbered_snoc.
Qed.
Lemma resolveReference_stored v m k :
  plain_payload (payload v) = objectValue m -> (len k < 2 ^ 30)%N ->
  exists v1 u, resolveReference v k = Ret v1 /\ get_child v1 (Key (CZString k)) = Some u /\
    forall w, plain_payload (payload (upd_child (Key (CZString k)) (fun _ => w) v1)) =
              objectValue (map_set CZString_ltb nullSingleton k (plain w) m).
Proof.
  intros Hp Hk. destruct v as [p c a b]. cbn in Hp. destruct p as [| | | | | | |m0]; try done.
  injection Hp as Hm. unfold resolveReference. cbn. rewrite CZString_small by done.
  destruct (map_find_insert_same CZString_ltb k nullSingleton m0) as [u Hu].
  eexists _, u. split_and!; [done|done|]. intros w.
  change (objectValue (map_snd plain (map_set CZString_ltb nullSingleton k w m0)) =
          objectValue (map_set CZString_ltb nullSingleton k (plain w) m)).
  by rewrite map_snd_set, <-Hm.
Qed.
Lemma plain_of w p : plain_payload (payload w) = p -> plain w = initBasic p.
Proof. intros <-. apply plain_eq. Qed.
Lemma denote_basic j : initBasic (payload (denote j)) = denote j.
Proof.
  destruct j; try done. cbn [denote].
  by destruct (number_value_scalar text) as [[? ->]|[[? ->]|[[? ->]| ->]]].
Qed.

Lemma list_max_cons x l : list_max (x :: l) = Nat.max x (list_max l).
Proof. done. Qed.

(** The fuel of the loops is enough: an element takes a character. *)
Lemma elements_length l s : elements l s -> (length l <= length s)%nat.
Proof.
  induction 1 as [|w j t w' l s _ Ht _ _ IH]; cbn; rewrite !length_app; cbn; lia.
Qed.
Lemma members_length l s : members l s -> (length l <= length s)%nat.
Proof.
  induction 1 as [|w k b w1 w2 j t w3 l s _ _ _ _ _ _ _ _ IH]; cbn; repeat (rewrite length_app; cbn); lia.
Qed.

(** Blanks in front do not matter. *)
Lemma elements_head l s :
  elements l s -> exists w s', s = w ++ s' /\ blank w /\ elements l s' /\ starts s'.
Proof.
  destruct 1 as [w j t w' Hw Ht Hw'|w j t w' l s Hw Ht Hw' Hl].
  - exists w, (t ++ w' ++ #"]"). split_and!; [done|done|by apply (e_last [] j t w' (Forall_nil_2 _))|].
    destruct (text_starts _ _ Ht) as (c & t' & -> & H). by exists c, (t' ++ w' ++ #"]").
  - exists w, (t ++ w' ++ #"," ++ s). split_and!; [done|done|by apply (e_cons [] j t w' l s (Forall_nil_2 _))|].
    destruct (text_starts _ _ Ht) as (c & t' & -> & H). by exists c, (t' ++ w' ++ #"," ++ s).
Qed.

(** ** The induction on the grammar *)
Section Accepts.
Context (begin_ : Location).
Abbreviation readToken := (readToken default_features true begin_).
Abbreviation next_token := (next_token default_features true begin_).
Abbreviation readValue := (readValue default_features true begin_).
Abbreviation array_loop := (array_loop default_features true begin_).
Abbreviation object_loop := (object_loop default_features true begin_).
Abbreviation read_member := (read_member default_features true begin_).
Abbreviation read_token_value := (read_token_value default_features true begin_).

(** The reader is at the text [s], with a value to fill and no comment pending. *)
Definition at_text (r : OurReader) (v : Value) (s : str) : Prop :=
  skipSpaces (current_ r) = s /\ commentsBefore_ r = [] /\ holds r v.

Definition reads_value (j : json) (t : str) : Prop := forall fuel r v rest,
  at_text r v (t ++ rest) -> ends_number rest ->
  (jdepth j <= fuel)%nat -> (length (nodes_ r) + jdepth j <= 1000)%nat ->
  exists r', readValue fuel r = Ret (r', true) /\ result r r' rest (payload (denote j)).
Definition reads_elements (l : list json) (s : str) : Prop := forall fuel n r v ds rest,
  at_text r v (skipSpaces (s ++ rest)) ->
  plain_payload (payload v) = arrayValue (numbered 0 ds) ->
  (list_max (map jdepth l) <= fuel)%nat ->
  (S (length (nodes_ r)) + list_max (map jdepth l) <= 1000)%nat -> (length l <= n)%nat ->
  Z.of_nat (length ds) + Z.of_nat (length l) <= maxInt ->
  exists r', array_loop (readValue fuel) n r (Z.of_nat (length ds)) = Ret (r', true) /\
    result r r' rest (arrayValue (numbered 0 (ds ++ map denote l))).
Definition reads_members (l : list (str * json)) (s : str) : Prop := forall fuel n r v m name rest,
  at_text r v (skipSpaces (s ++ rest)) ->
  plain_payload (payload v) = objectValue m ->
  (list_max (map (fun kj => jdepth (snd kj)) l) <= fuel)%nat ->
  (S (length (nodes_ r)) + list_max (map (fun kj => jdepth (snd kj)) l) <= 1000)%nat ->
  (length l <= n)%nat ->
  exists r', object_loop (readValue fuel) n r name = Ret (r', true) /\
    result r r' rest (objectValue (store_members m (map (fun kj => (fst kj, denote (snd kj))) l))).

Lemma at_result r v r1 rest p :
  holds r v -> result r r1 rest p ->
  exists v1, at_text r1 v1 (skipSpaces rest) /\ plain_payload (payload v1) = p.
Proof.
  intros Hv Hr. destruct (result_holds _ _ _ _ _ Hv Hr) as (v1 & Hv1 & Hp).
  destruct Hr as (Hc & Hb & _). exists v1. split; [split_and!|]; try done. by rewrite Hc.
Qed.
Lemma at_current r v s rest :
  at_text r v s -> at_text (set_current r rest) v (skipSpaces rest).
Proof. by intros (_ & Hb & Hv). Qed.

(** [readValue] behind its first token. *)
Lemma readValue_token fuel r r1 t r2 rest p :
  (S (length (nodes_ r)) <= 1000)%nat ->
  readToken r = Ret (r1, t) -> is_token t tokenComment = false -> commentsBefore_ r1 = [] ->
  read_token_value (readValue fuel) r1 t = Ret (r2, Some true) -> result r r2 rest p ->
  exists r', readValue (S fuel) r = Ret (r', true) /\ result r r' rest p.
Proof.
  intros Hn Ht Hc Hb Hv Hr. cbn [JsonReader.readValue stackLimit_ default_features].
  assert ((1000 <? S (length (nodes_ r)))%nat = false) as -> by (by apply Nat.ltb_ge).
  unfold skipCommentTokens. cbn [allowComments_ default_features].
  rewrite (next_token_of _ _ _ r r1 t) by done. cbn [obind]. rewrite Hb. cbn [obind].
  rewrite Hv. cbn [obind]. eexists. split; [reflexivity|]. exact Hr.
Qed.
Lemma token_scalar_result r v0 s w t rest :
  at_text r v0 s ->
  result r (token_scalar begin_ (set_current r rest) w t) rest (plain_payload (payload w)).
Proof.
  intros (_ & Hb & Hv). apply result_from with rest.
  exact (result_on_current (set_current r rest) v0 _ Hv Hb).
Qed.
(** A token that is a scalar value by itself. *)
Lemma reads_scalar j t ty :
  (forall r rest, skipSpaces (current_ r) = t ++ rest -> ends_number rest ->
     readToken r = Ret (set_current r rest, mkToken ty (t ++ rest) rest)) ->
  ty <> tokenComment ->
  (forall fuel r rest, exists w, plain w = denote j /\
     read_token_value (readValue fuel) r (mkToken ty (t ++ rest) rest) =
     Ret (token_scalar begin_ r w (mkToken ty (t ++ rest) rest), Some true)) ->
  jdepth j = 1%nat -> reads_value j t.
Proof.
  intros Ht Hty Hv Hd fuel r v rest Hat Hrest Hf Hn.
  destruct fuel as [|fuel]; [lia|]. pose proof Hat as (Hc & Hb & _).
  destruct (Hv fuel (set_current r rest) rest) as (w & Hw & Hread).
  eapply readValue_token; [lia|by apply Ht|by apply bool_decide_eq_false|done|exact Hread|].
  rewrite <-Hw, plain_eq. by eapply token_scalar_result.
Qed.
Lemma Value_String_small s :
  (len s <= 2147483642)%N -> Value_String s = Ret (initBasic (stringValue s)).
Proof.
  intros H. unfold Value_String, duplicateAndPrefixStringValue, wrap_u.
  rewrite Z.mod_small by lia. unfold json_assert, maxInt.
  assert (Z.of_N (len s) <=? 2147483647 - 4 - 1 = true) as -> by (apply Z.leb_le; lia).
  cbn [obind]. rewrite take_ge; [done|]. unfold len. lia.
Qed.
Lemma reads_word word ty j w :
  In (word, ty) [(#"null", tokenNull); (#"true", tokenTrue); (#"false", tokenFalse)] ->
  (forall fuel r t, type_ t = ty ->
     read_token_value (readValue fuel) r t = Ret (token_scalar begin_ r w t, Some true)) ->
  plain w = denote j -> jdepth j = 1%nat -> reads_value j word.
Proof.
  intros Hin Hread Hw Hd. apply (reads_scalar j word ty); [| | |done].
  - intros r rest Hc _. by apply readToken_word.
  - by repeat (destruct Hin as [[= <- <-]|Hin]; [done|]).
  - intros fuel r rest. exists w. split; [done|]. by apply Hread.
Qed.
Lemma reads_number s : number s -> reads_value (JNum s) s.
Proof.
  intros H. apply (reads_scalar _ _ tokenNumber); [| done | |done].
  - intros r rest Hc Hr. by apply readToken_number.
  - intros fuel r rest. exists (number_value s). split; [apply number_value_plain|].
    unfold JsonReader.read_token_value. cbn [type_]. by rewrite decodeNumber_number.
Qed.
Lemma reads_string b s :
  quoted b s -> (len s <= 2147483642)%N -> reads_value (JStr s) (DQ :: b ++ [DQ]).
Proof.
  intros H Hl. apply (reads_scalar _ _ tokenString); [| done | |done].
  - intros r rest Hc _. by eapply readToken_string.
  - intros fuel r rest. exists (initBasic (stringValue s)). split; [done|].
    unfold JsonReader.read_token_value, read_string_value. cbn [type_].
    rewrite (decodeString_quoted b s) by done. by rewrite Value_String_small.
Qed.

(** *** Arrays *)
Lemma array_element j t fuel n r v ds rest :
  reads_value j t -> at_text r v (t ++ rest) -> ends_number rest ->
  plain_payload (payload v) = arrayValue (numbered 0 ds) ->
  (jdepth j <= fuel)%nat -> (S (length (nodes_ r)) + jdepth j <= 1000)%nat ->
  exists r1, result r r1 rest (arrayValue (numbered 0 (ds ++ [denote j]))) /\
    array_loop (readValue fuel) (S n) r (Z.of_nat (length ds)) =
    (let! (r, currentToken) := next_token r1 in
     if is_token currentToken tokenArrayEnd then Ret (r, true)
     else if is_token currentToken tokenArraySeparator then
       array_loop (readValue fuel) n r (wrap_s 32 (Z.of_nat (length ds) + 1))
     else addErrorAndRecover default_features true begin_ r
            #"Missing ',' or ']' in array declaration" currentToken tokenArrayEnd).
Proof.
  intros Hj (Hc & Hb & Hv) Hrest Hp Hf Hn.
  destruct (index_ref_stored v ds Hp) as (v1 & u & Hi & Hu & Hw).
  set (i := N.of_nat (length ds)) in *. cbn [JsonReader.array_loop].
  unfold index_int. rewrite (proj2 (Z.leb_le 0 _)) by lia. cbn [json_assert].
  replace (Z.to_N (Z.of_nat (length ds))) with i by lia.
  rewrite (holds_current r v Hv), Hi. cbn [obind].
  set (r0 := on_current (fun _ => v1) r).
  assert (H0 : result r r0 (current_ r) (plain_payload (payload v1))) by by apply (result_on_current r v).
  assert (Hv0 : holds r0 v1).
  { unfold holds, r0, on_current, on_value in *. cbn. by rewrite get_upd_path, Hv. }
  assert (Hat : at_text (push r0 (Index i)) u (t ++ rest)).
  { split_and!; [done|done|by apply (holds_push r0 v1)]. }
  destruct (Hj fuel (push r0 (Index i)) u rest) as (r' & Hread & Hres); [done|done|done|cbn; lia|].
  rewrite Hread. cbn [obind negb].
  destruct (result_child r0 v1 (Index i) u r' rest _ Hv0 Hu Hres) as (w & Hpw & Hchild).
  exists (pop r'). split; [|done]. eapply result_trans; [exact H0|].
  rewrite Hw in Hchild. by rewrite (plain_of w _ Hpw), denote_basic in Hchild.
Qed.
Lemma reads_last_element w j t w' :
  blank w -> starts t -> reads_value j t -> blank w' -> reads_elements [j] (w ++ t ++ w' ++ #"]").
Proof.
  intros Hbl Hst Hj Hbl' fuel n r v ds rest Hat Hp Hf Hn Hl Hsz.
  cbn [map length] in Hf, Hn, Hl. rewrite list_max_cons in Hf, Hn.
  destruct n as [|n]; [lia|].
  rewrite <-!app_assoc, skipSpaces_blank, skip_starts in Hat by done.
  destruct (array_element j t fuel n r v ds (w' ++ #"]" ++ rest)) as (r1 & Hres & ->);
    [done|done|by apply ends_number_blank|done|lia|lia|].
  destruct Hat as (_ & _ & Hv).
  destruct (at_result _ _ _ _ _ Hv Hres) as (v1 & (Hc1 & _) & _).
  rewrite skipSpaces_blank in Hc1 by done.
  rewrite (next_token_of _ _ _ r1 (set_current r1 rest) (mkToken tokenArrayEnd (#"]" ++ rest) rest))
    by (done || (apply readToken_punctuation; [cbn; tauto|done])).
  cbn. eexists. split; [reflexivity|]. by eapply result_current.
Qed.
Lemma reads_more_elements w j t w' l s :
  blank w -> starts t -> reads_value j t -> blank w' -> reads_elements l s ->
  reads_elements (j :: l) (w ++ t ++ w' ++ #"," ++ s).
Proof.
  intros Hbl Hst Hj Hbl' Hl fuel n r v ds rest Hat Hp Hf Hn Hlen Hsz.
  cbn [map length] in Hf, Hn, Hlen. rewrite list_max_cons in Hf, Hn.
  destruct n as [|n]; [lia|].
  rewrite <-!app_assoc, skipSpaces_blank, skip_starts in Hat by done.
  destruct (array_element j t fuel n r v ds (w' ++ #"," ++ s ++ rest)) as (r1 & Hres & ->);
    [done|done|by apply ends_number_blank|done|lia|lia|].
  destruct Hat as (_ & _ & Hv).
  destruct (at_result _ _ _ _ _ Hv Hres) as (v1 & Hat1 & Hp1).
  rewrite skipSpaces_blank in Hat1 by done. pose proof Hat1 as (Hc1 & _).
  rewrite (next_token_of _ _ _ r1 (set_current r1 (s ++ rest))
             (mkToken tokenArraySeparator (#"," ++ s ++ rest) (s ++ rest)))
    by (done || (apply readToken_punctuation; [cbn; tauto|done])).
  apply (result_current _ _ _ _ (s ++ rest)) in Hres. apply (at_current _ _ _ (s ++ rest)) in Hat1.
  cbn [obind].
  match goal with |- context [is_token ?t tokenArrayEnd] => change (is_token t tokenArrayEnd) with false end.
  match goal with |- context [is_token ?t tokenArraySeparator] => change (is_token t
    tokenArraySeparator) with true end.
  cbv iota.
  destruct (Hl fuel n (set_current r1 (s ++ rest)) v1 (ds ++ [denote j]) rest)
    as (r2 & Hloop & Hres2); [done|done|lia| |lia| |].
  { destruct Hres as (_ & _ & _ & -> & _). lia. }
  { rewrite length_app. cbn [length] in *. lia. }
  exists r2. split; [|rewrite <-app_assoc in Hres2; by eapply result_trans].
  rewrite length_app in Hloop. cbn [length] in Hloop, Hsz. rewrite <-Hloop. f_equal.
  rewrite wrap_s_32 by (unfold minInt; lia). lia.
Qed.
(** A container from its first token on. *)
Lemma start_container_result r v s ty t rest :
  at_text r v s ->
  result r (start_container begin_ (set_current r rest) ty t) rest
    (plain_payload (payload (Value_make ty))).
Proof.
  intros (_ & Hb & Hv). apply result_from with rest.
  exact (result_on_current (set_current r rest) v _ Hv Hb).
Qed.
(** The offset that is set at the end does not matter. *)
Lemma result_limit r v r' rest p l :
  holds r v -> result r r' rest p -> result r (on_current (fun w => setOffsetLimit w l) r') rest p.
Proof.
  intros Hv Hr. destruct (result_holds _ _ _ _ _ Hv Hr) as (v' & Hv' & Hp).
  pose proof Hr as (Hc & Hb & _). rewrite <-Hc, <-Hp in Hr |- *.
  eapply result_trans; [exact Hr|]. exact (result_on_current r' v' _ Hv' Hb).
Qed.
Lemma reads_empty_array w : blank w -> reads_value (JArr []) (#"[" ++ w ++ #"]").
Proof.
  intros Hw fuel r v rest Hat _ Hf Hn. cbn in Hf, Hn. destruct fuel as [|fuel]; [lia|].
  pose proof Hat as (Hc & Hb & Hv). rewrite <-!app_assoc in Hc.
  pose proof (start_container_result r v _ TArray
    (mkToken tokenArrayBegin (#"[" ++ w ++ #"]" ++ rest) (w ++ #"]" ++ rest))
    (w ++ #"]" ++ rest) Hat) as H0.
  eapply readValue_token;
    [lia|apply (readToken_punctuation _ _ _ r "[" tokenArrayBegin (w ++ #"]" ++ rest)); [cbn; tauto|exact Hc]
    |done|done| |].
  all: swap 1 2.
  { eapply (result_limit r v _ rest _ _ Hv). by apply (result_current _ _ _ _ rest) in H0. }
  unfold JsonReader.read_token_value, readArray. cbv zeta. cbn [type_].
  cbn [current_ set_current start_container on_current on_value set_root].
  rewrite skipSpaces_blank by done. reflexivity.
Qed.
Lemma reads_array l s :
  elements l s -> (N.of_nat (length l) <= 2147483647)%N -> reads_elements l s ->
  reads_value (JArr l) (#"[" ++ s).
Proof.
  intros Hel Hsz Hl fuel r v rest Hat _ Hf Hn.
  cbn [jdepth] in Hf, Hn. destruct fuel as [|fuel]; [lia|].
  pose proof Hat as (Hc & Hb & Hv).
  destruct (elements_head _ _ Hel) as (w & s0 & -> & Hw & Hel0 & Hs0).
  assert (Hskip : skipSpaces ((w ++ s0) ++ rest) = s0 ++ rest).
  { by rewrite <-app_assoc, skipSpaces_blank, skip_starts. }
  set (t := mkToken tokenArrayBegin ((#"[" ++ w ++ s0) ++ rest) ((w ++ s0) ++ rest)).
  pose proof (start_container_result r v _ TArray t ((w ++ s0) ++ rest) Hat) as H0.
  set (r0 := start_container begin_ _ TArray t) in *.
  destruct (at_result _ _ _ _ _ Hv H0) as (v0 & Hat0 & Hp0).
  apply (at_current _ _ _ (s0 ++ rest)) in Hat0.
  apply (result_current _ _ _ _ (s0 ++ rest)) in H0.
  destruct (Hl fuel (S (length (s0 ++ rest))) (set_current r0 (s0 ++ rest)) v0 [] rest)
    as (r2 & Hloop & Hres2).
  { rewrite skip_starts in Hat0 by done. by rewrite Hskip. }
  { done. } { lia. } { cbn. lia. }
  { pose proof (elements_length _ _ Hel0). rewrite length_app. lia. }
  { unfold maxInt. cbn. lia. }
  eapply (readValue_token _ _ _ t);
    [lia|apply (readToken_punctuation _ _ _ r "[" tokenArrayBegin ((w ++ s0) ++ rest)); [cbn; tauto|exact Hc]
    |done|done| |].
  all: swap 1 2.
  { eapply (result_limit r v _ rest _ _ Hv). eapply result_trans; [exact H0|exact Hres2]. }
  unfold JsonReader.read_token_value, readArray. cbv zeta. cbn [type_ t].
  fold t r0.
  change (current_ r0) with ((w ++ s0) ++ rest). rewrite Hskip. cbn [current_ set_current].
  rewrite (starts_not_end s0 rest Hs0). change (Z.of_nat (length [])) with 0 in Hloop.
  rewrite Hloop. reflexivity.
Qed.

(** *** Objects *)
Definition member_end (c : ascii) (stop : option bool) : Prop :=
  c = "}"%char /\ stop = Some true \/ c = ","%char /\ stop = None.
Lemma member_end_token r rest c stop :
  member_end c stop -> skipSpaces (current_ r) = c :: rest ->
  exists comma, readToken r = Ret (set_current r rest, comma) /\
    is_token comma tokenComment = false /\
    is_token comma tokenObjectEnd || is_token comma tokenArraySeparator = true /\
    (if is_token comma tokenObjectEnd then Some true else None) = stop.
Proof.
  intros [[-> ->]|[-> ->]] Hc; eexists;
    (split; [apply readToken_punctuation; [|exact Hc]; cbn; tauto|done]).
Qed.
Lemma read_member_value j t k c stop fuel r v m tokenName w1 w2 w3 rest :
  reads_value j t -> starts t -> (len k < 2 ^ 30)%N -> member_end c stop ->
  blank w1 -> blank w2 -> blank w3 ->
  at_text r v (skipSpaces (w1 ++ #":" ++ w2 ++ t ++ w3 ++ c :: rest)) ->
  plain_payload (payload v) = objectValue m ->
  (jdepth j <= fuel)%nat -> (S (length (nodes_ r)) + jdepth j <= 1000)%nat ->
  exists r1, read_member (readValue fuel) r tokenName k = Ret (r1, stop) /\
    result r r1 rest (objectValue (map_set CZString_ltb nullSingleton k (denote j) m)).
Proof.
  intros Hj Hst Hk Hend Hw1 Hw2 Hw3 (Hc & Hb & Hv) Hp Hf Hn.
  rewrite skipSpaces_blank in Hc by done. unfold JsonReader.read_member. cbv zeta.
  rewrite (readToken_punctuation _ _ _ r ":" tokenMemberSeparator (w2 ++ t ++ w3 ++ c :: rest))
    by (done || (cbn; tauto)).
  cbn [obind]. change (negb (is_token _ _)) with false. cbv iota.
  assert ((2 ^ 30 <=? len k)%N = false) as -> by (by apply N.leb_gt).
  cbn [rejectDupKeys_ default_features obind].
  destruct (resolveReference_stored v m k Hp Hk) as (v1 & u & Hi & Hu & Hw).
  set (r0 := set_current r _). assert (Hv0 : holds r0 v) by done.
  rewrite (holds_current r0 v Hv0), Hi. cbn [obind].
  set (r1 := on_current (fun _ => v1) r0).
  assert (H1 : result r r1 (current_ r0) (plain_payload (payload v1))).
  { apply result_from with (current_ r0). by apply (result_on_current r0 v). }
  assert (Hv1 : holds r1 v1).
  { unfold holds, r1, on_current, on_value in *. cbn. by rewrite get_upd_path, Hv. }
  assert (Hat : at_text (push r1 (Key (CZString k))) u (t ++ w3 ++ c :: rest)).
  { split_and!; [|done|by apply (holds_push r1 v1)]. cbn.
    by rewrite skipSpaces_blank, skip_starts. }
  destruct (Hj fuel (push r1 (Key (CZString k))) u (w3 ++ c :: rest)) as (r' & Hread & Hres);
    [done| |done|cbn; lia|].
  { apply ends_number_blank; [done|]. by destruct Hend as [[-> _]|[-> _]]. }
  rewrite Hread. cbn [obind negb].
  destruct (result_child r1 v1 _ u r' _ _ Hv1 Hu Hres) as (w & Hpw & Hchild).
  rewrite Hw, (plain_of w _ Hpw), denote_basic in Hchild.
  assert (Hres1 := result_trans _ _ _ _ _ _ _ H1 Hchild).
  assert (Hc' : skipSpaces (current_ (pop r')) = c :: rest).
  { destruct Hres1 as (-> & _). rewrite skipSpaces_blank by done.
    by destruct Hend as [[-> _]|[-> _]]. }
  destruct (member_end_token (pop r') rest c stop Hend Hc') as (comma & -> & Hcm & Hce & Hstop).
  cbn [obind]. rewrite Hce. cbn [orb negb skip_comments]. rewrite Hcm. cbn [obind]. rewrite Hstop.
  eexists. split; [done|]. by eapply result_current.
Qed.
Lemma object_member j t k b c stop fuel n r v m name w w1 w2 w3 rest :
  reads_value j t -> starts t -> quoted b k -> (len k < 2 ^ 30)%N -> member_end c stop ->
  blank w -> blank w1 -> blank w2 -> blank w3 ->
  at_text r v (skipSpaces (w ++ (DQ :: b ++ [DQ]) ++ w1 ++ #":" ++ w2 ++ t ++ w3 ++ c :: rest)) ->
  plain_payload (payload v) = objectValue m ->
  (jdepth j <= fuel)%nat -> (S (length (nodes_ r)) + jdepth j <= 1000)%nat ->
  exists r1, object_loop (readValue fuel) (S n) r name =
      match stop with Some ok => Ret (r1, ok) | None => object_loop (readValue fuel) n r1 k end /\
    result r r1 rest (objectValue (map_set CZString_ltb nullSingleton k (denote j) m)).
Proof.
  intros Hj Hst Hq Hk Hend Hw Hw1 Hw2 Hw3 Hat Hp Hf Hn.
  set (behind := w1 ++ #":" ++ w2 ++ t ++ w3 ++ c :: rest) in *.
  rewrite skipSpaces_blank in Hat by done.
  change (skipSpaces ((DQ :: b ++ [DQ]) ++ behind)) with ((DQ :: b ++ [DQ]) ++ behind) in Hat.
  pose proof Hat as (Hc & _). cbn [JsonReader.object_loop].
  rewrite (next_token_of _ _ _ r (set_current r behind)
             (mkToken tokenString ((DQ :: b ++ [DQ]) ++ behind) behind))
    by (done || by eapply readToken_string).
  cbn [obind]. change (is_token _ tokenObjectEnd) with false.
  unfold read_name. change (is_token _ tokenString) with true. cbn [andb]. cbv iota.
  rewrite (decodeString_quoted b k) by done. cbn [obind].
  destruct (read_member_value j t k c stop fuel (set_current r behind) v m
              (mkToken tokenString ((DQ :: b ++ [DQ]) ++ behind) behind) w1 w2 w3 rest)
    as (r1 & -> & Hres); try done; [by apply (at_current r v _ behind) in Hat|].
  exists r1. by destruct stop.
Qed.
Lemma reads_last_member w k b w1 w2 j t w3 :
  blank w -> quoted b k -> (len k < 2 ^ 30)%N -> blank w1 -> blank w2 -> starts t ->
  reads_value j t -> blank w3 ->
  reads_members [(k, j)] (w ++ (DQ :: b ++ [DQ]) ++ w1 ++ #":" ++ w2 ++ t ++ w3 ++ #"}").
Proof.
  intros Hw Hq Hk Hw1 Hw2 Hst Hj Hw3 fuel n r v m name rest Hat Hp Hf Hn Hl.
  cbn [map length snd] in Hf, Hn, Hl. rewrite list_max_cons in Hf, Hn. destruct n as [|n]; [lia|].
  rewrite <-!app_assoc in Hat.
  destruct (object_member j t k b "}" (Some true) fuel n r v m name w w1 w2 w3 rest)
    as (r1 & -> & Hres); try done; [by left|lia|lia|]. by exists r1.
Qed.
Lemma reads_more_members w k b w1 w2 j t w3 l s :
  blank w -> quoted b k -> (len k < 2 ^ 30)%N -> blank w1 -> blank w2 -> starts t ->
  reads_value j t -> blank w3 -> reads_members l s ->
  reads_members ((k, j) :: l)
    (w ++ (DQ :: b ++ [DQ]) ++ w1 ++ #":" ++ w2 ++ t ++ w3 ++ #"," ++ s).
Proof.
  intros Hw Hq Hk Hw1 Hw2 Hst Hj Hw3 Hl fuel n r v m name rest Hat Hp Hf Hn Hlen.
  cbn [map length snd] in Hf, Hn, Hlen. rewrite list_max_cons in Hf, Hn.
  destruct n as [|n]; [lia|]. rewrite <-!app_assoc in Hat.
  destruct (object_member j t k b "," None fuel n r v m name w w1 w2 w3 (s ++ rest))
    as (r1 & -> & Hres); try done; [by right|lia|lia|].
  pose proof Hat as (_ & _ & Hv). destruct (at_result _ _ _ _ _ Hv Hres) as (v1 & Hat1 & Hp1).
  destruct (Hl fuel n r1 v1 _ k rest Hat1 Hp1) as (r2 & -> & Hres2); [lia| |lia|].
  { destruct Hres as (_ & _ & _ & -> & _). lia. }
  exists r2. split; [done|]. by eapply result_trans.
Qed.
Lemma reads_object_by j s :
  (1 <= jdepth j)%nat ->
  (forall fuel r v rest, at_text r v (skipSpaces (s ++ rest)) ->
     plain_payload (payload v) = objectValue [] ->
     (jdepth j <= S fuel)%nat -> (length (nodes_ r) + jdepth j <= 1000)%nat ->
     exists r', object_loop (readValue fuel) (S (length (s ++ rest))) r [] = Ret (r', true) /\
       result r r' rest (payload (denote j))) ->
  reads_value j (#"{" ++ s).
Proof.
  intros Hd Hloop fuel r v rest Hat _ Hf Hn. destruct fuel as [|fuel]; [lia|].
  pose proof Hat as (Hc & Hb & Hv).
  set (t := mkToken tokenObjectBegin ("{"%char :: s ++ rest) (s ++ rest)).
  pose proof (start_container_result r v _ TObject t (s ++ rest) Hat) as H0.
  set (r0 := start_container begin_ _ TObject t) in *.
  destruct (at_result _ _ _ _ _ Hv H0) as (v0 & Hat0 & Hp0).
  destruct (Hloop fuel r0 v0 rest Hat0 Hp0 Hf Hn) as (r2 & Hr2 & Hres2).
  eapply (readValue_token _ _ _ t);
    [lia|apply (readToken_punctuation _ _ _ r "{" tokenObjectBegin (s ++ rest)); [cbn; tauto|exact Hc]
    |done|done| |].
  all: swap 1 2.
  { eapply (result_limit r v _ rest _ _ Hv). eapply result_trans; [exact H0|exact Hres2]. }
  unfold JsonReader.read_token_value, readObject. cbv zeta. cbn [type_ t]. fold t r0.
  change (current_ r0) with (s ++ rest). rewrite Hr2. reflexivity.
Qed.
Lemma reads_empty_object w : blank w -> reads_value (JObj []) (#"{" ++ w ++ #"}").
Proof.
  intros Hw. apply reads_object_by; [done|].
  intros fuel r v rest Hat Hp _ _. rewrite <-app_assoc, skipSpaces_blank in Hat by done.
  pose proof Hat as (Hc & Hb & Hv). cbn [JsonReader.object_loop].
  rewrite (next_token_of _ _ _ r (set_current r rest) (mkToken tokenObjectEnd (#"}" ++ rest) rest))
    by (done || (apply readToken_punctuation; [cbn; tauto|done])).
  eexists. split; [reflexivity|]. split_and!; try done. exists v. split; [|done].
  pose proof (upd_path_const (nodes_ r) id (root_ r) v Hv) as Hid. by rewrite upd_path_id in Hid.
Qed.
Lemma reads_object l s : members l s -> reads_members l s -> reads_value (JObj l) (#"{" ++ s).
Proof.
  intros Hm Hl. apply reads_object_by; [cbn; lia|].
  intros fuel r v rest Hat Hp Hf Hn. cbn [jdepth] in Hf, Hn.
  pose proof (members_length _ _ Hm). apply (Hl fuel _ r v []); [done|done|lia|lia|].
  rewrite length_app. lia.
Qed.

Theorem reads_all :
  (forall j t, text j t -> reads_value j t) /\
  (forall l s, elements l s -> reads_elements l s) /\
  (forall l s, members l s -> reads_members l s).
Proof.
  apply (text_mutual (fun j t _ => reads_value j t) (fun l s _ => reads_elements l s)
           (fun l s _ => reads_members l s)).
  - by apply (reads_word #"null" tokenNull JNull nullSingleton);
      [cbn; tauto|intros fuel r t; unfold JsonReader.read_token_value; by intros ->| |].
  - by apply (reads_word #"true" tokenTrue (JBool true) (Value_bool true));
      [cbn; tauto|intros fuel r t; unfold JsonReader.read_token_value; by intros ->| |].
  - by apply (reads_word #"false" tokenFalse (JBool false) (Value_bool false));
      [cbn; tauto|intros fuel r t; unfold JsonReader.read_token_value; by intros ->| |].
  - intros. by apply reads_number.
  - intros. by apply reads_string.
  - intros. by apply reads_empty_array.
  - intros. by apply reads_array.
  - intros. by apply reads_empty_object.
  - intros. by apply reads_object.
  - intros. apply reads_last_element; eauto using text_starts.
  - intros. apply reads_more_elements; eauto using text_starts.
  - intros. apply reads_last_member; eauto using text_starts.
  - intros. apply reads_more_members; eauto using text_starts.
Qed.
End Accepts.

Lemma parse_text j t w w' root :
  text j t -> blank w -> blank w' -> (jdepth j <= 1000)%nat ->
  exists r, parse default_features true (w ++ t ++ w') root = Ret (r, true) /\
    errors_ r = [] /\ plain (root_ r) = denote j.
Proof.
  intros Ht Hw Hw' Hd. unfold parse. set (doc := w ++ t ++ w').
  set (r0 := mkReader _ _ _ _ _ _).
  destruct (reads_all doc) as (Hread & _ & _).
  destruct (Hread j t Ht (S (stackLimit_ default_features)) r0 root w')
    as (r1 & -> & Hc & Hb & He & Hn & v & Hr & Hp).
  - split_and!; [|done|done]. unfold r0, doc. cbn [current_].
    by rewrite skipSpaces_blank, skip_starts by eauto using text_starts.
  - rewrite <-(app_nil_r w'). by apply ends_number_blank.
  - change (stackLimit_ default_features) with 1000%nat. lia.
  - change (length (nodes_ r0)) with 0%nat. lia.
  - cbn [obind]. unfold skipCommentTokens. cbn [allowComments_ default_features].
    assert (Htok : readToken default_features true doc r1 =
                   Ret (set_current r1 [], mkToken tokenEndOfStream [] [])).
    { unfold readToken. rewrite Hc, <-(app_nil_r w'), skipSpaces_blank by done. done. }
    rewrite (next_token_of _ _ _ _ _ _ Htok) by done.
    cbn [obind failIfExtra_ default_features andb]. cbv iota.
    change (commentsBefore_ (set_current r1 [])) with (commentsBefore_ r1). rewrite Hb. cbn.
    eexists. split; [reflexivity|]. split; [done|]. cbn in Hr |- *. rewrite Hr.
    by rewrite (plain_of v _ Hp), denote_basic.
Qed.
