(* ===== verification/JsonQuote.v ===== *)
(** * JSON: quoted strings

    The laws of [valueToQuotedStringN]: whatever the bytes, what it writes is one
    string token of printable ASCII, and the reader gives back the bytes when
    they are UTF-8. *)
From Stdlib Require Import Ascii String.
From stdpp Require Import base tactics list numbers option strings.
From S2P Require Import Prelude Globals Double JsonText JsonUtf8 JsonReader JsonGrammar JsonLexis.
Open Scope Z_scope.

(** ** Escapes *)
Lemma hex2_digits z :
  0 <= z < 256 ->
  hex_val (hex2_at (2 * z)) = Some (z / 16) /\ hex_val (hex2_at (2 * z + 1)) = Some (z mod 16).
Proof.
  intros H.
  assert (Hb : (match hex_val (hex2_at (2 * z)), hex_val (hex2_at (2 * z + 1)) with
                | Some a, Some b => (a =? z / 16) && (b =? z mod 16) | _, _ => false end) = true).
  { by apply (range_forall (fun z => match hex_val (hex2_at (2 * z)), hex_val (hex2_at (2 * z + 1)) with
                | Some a, Some b => (a =? z / 16) && (b =? z mod 16) | _, _ => false end) 256). }
  destruct (hex_val (hex2_at (2 * z))), (hex_val (hex2_at (2 * z + 1))); try done.
  bsimpl. split; f_equal; lia.
Qed.
Lemma toHex16Bit_hex4 x : 0 <= x < 65536 -> hex4 (toHex16Bit x) x.
Proof.
  intros H. unfold toHex16Bit. change 0xff with (2 ^ 8 - 1).
  rewrite !land_mod, Z.shiftr_div_pow2 by done. change (2 ^ 8) with 256.
  destruct (hex2_digits (x / 256 mod 256)) as [H1 H2]; [by apply Z.mod_pos_bound|].
  destruct (hex2_digits (x mod 256)) as [H3 H4]; [by apply Z.mod_pos_bound|].
  replace x with (4096 * (x / 256 mod 256 / 16) + 256 * (x / 256 mod 256 mod 16)
                  + 16 * (x mod 256 / 16) + x mod 256 mod 16) at 5 by dlia.
  by apply h_digits; apply hex_digit_val.
Qed.
Lemma short_escape_escapes c e : short_escape c = Some e -> (e, c) ∈ escapes.
Proof. byte_cases c; intros H; try discriminate H; injection H as <-; repeat constructor. Qed.
Lemma short_escape_plain c : short_escape c = None -> c <> DQ /\ c <> "\"%char.
Proof. intros H. split; intros ->; done. Qed.
Lemma short_escape_high c : 0x80 <= code c -> short_escape c = None.
Proof. by byte_cases c. Qed.

(** The text of a code point is an escape sequence or a plain character; it
    stands for the code point when that is one of Unicode. *)
Lemma quote_codepoint_quoted cp b s :
  0 <= cp <= 0x1FFFFF -> ~ 0xD800 <= cp <= 0xDFFF ->
  (0x20 <= cp < 0x80 -> short_escape (chr cp) = None) ->
  quoted b s ->
  exists x, quoted (quote_codepoint cp ++ b) (x ++ s) /\
    (cp <= 0x10FFFF -> x = utf8_bytes cp).
Proof.
  intros Hcp Hs Hplain Hq. unfold quote_codepoint.
  destruct ((cp <? 0x80) && (0x20 <=? cp)) eqn:E1.
  { bsimpl. destruct (short_escape_plain (chr cp)) as [H1 H2]; [apply Hplain; lia|].
    exists [chr cp]. split; [by apply q_char|]. intros _. by rewrite utf8_bytes_one by lia. }
  destruct (cp <? 0x10000) eqn:E2.
  { apply Z.ltb_lt in E2. exists (utf8_bytes cp). split; [|done].
    rewrite <-app_assoc. apply q_unicode; [apply toHex16Bit_hex4; lia|lia|done]. }
  apply Z.ltb_ge in E2. clear E1 Hplain. rewrite <-!app_assoc, Z.shiftr_div_pow2 by done.
  change 0x3FF with (2 ^ 10 - 1). rewrite land_mod by done. change (2 ^ 10) with 1024.
  set (hi := (cp - 0x10000) / 1024 + 0xD800). set (lo := (cp - 0x10000) mod 1024 + 0xDC00).
  assert (Hh : 0xD800 <= hi <= 0xDFBF /\ (cp <= 0x10FFFF <-> hi <= 0xDBFF)).
  { unfold hi. dlia. }
  assert (Hl : 0xDC00 <= lo <= 0xDFFF) by (unfold lo; dlia).
  assert (Hhi : hex4 (toHex16Bit hi) hi) by (apply toHex16Bit_hex4; lia).
  assert (Hlo : hex4 (toHex16Bit lo) lo) by (apply toHex16Bit_hex4; lia).
  destruct (Z.le_gt_cases cp 0x10FFFF) as [Hu|Hu].
  - exists (utf8_bytes cp). split; [|done].
    replace cp with (0x10000 + (hi - 0xD800) * 0x400 + (lo - 0xDC00)) at 1 by (unfold hi, lo; dlia).
    apply q_pair; [done|done|lia|lia|done].
  - exists (utf8_bytes hi ++ utf8_bytes lo). split; [|lia]. rewrite <-app_assoc.
    apply q_unicode; [done|lia|]. apply q_unicode; [done|lia|done].
Qed.

(** ** Strings *)
Lemma quote_skip k s : quote_loop (length k) (k ++ s) = quote_loop 0 s.
Proof. by induction k. Qed.
(** Whatever the bytes are, the text is that of one string. *)
Lemma quote_loop_quoted k s : exists x, quoted (quote_loop k s) x.
Proof.
  revert k. induction s as [|c s IH]; intros k; [by exists []; destruct k; constructor|].
  destruct k as [|k]; [|apply IH]. cbn [quote_loop].
  destruct (short_escape c) as [e|] eqn:E.
  { destruct (IH 0%nat) as [x Hx]. exists (c :: x). apply q_escape; [|done].
    by apply short_escape_escapes. }
  destruct (utf8ToCodepoint (c :: s)) as [cp k] eqn:Eu.
  destruct (utf8ToCodepoint_range _ _ _ Eu) as (H1 & H2 & H3).
  destruct (IH k) as [x Hx].
  destruct (quote_codepoint_quoted cp (quote_loop k s) x H1 H2) as (y & Hy & _); [|done|by eauto].
  intros Hc. destruct (H3 ltac:(lia)) as [-> _]. cbn [hd]. by rewrite chr_code.
Qed.
Lemma quote_loop_utf8 s : utf8 s -> quoted (quote_loop 0 s) s.
Proof.
  induction 1 as [|cp s [Hcp Hs] H IH]; [constructor|].
  destruct (Z.lt_ge_cases cp 0x80) as [Hlt|Hge].
  - rewrite utf8_bytes_one by lia. cbn [app quote_loop].
    destruct (short_escape (chr cp)) as [e|] eqn:E.
    { apply q_escape; [|done]. by apply short_escape_escapes. }
    assert (utf8ToCodepoint (chr cp :: s) = (cp, 0%nat)) as ->.
    { unfold utf8ToCodepoint. cbn [hd]. rewrite code_chr by lia. by rewrite (proj2 (Z.ltb_lt _ _)). }
    destruct (quote_codepoint_quoted cp (quote_loop 0 s) s) as (x & Hx & Heq); [lia|lia|done|done|].
    rewrite Heq in Hx by lia. by rewrite utf8_bytes_one in Hx by lia.
  - rewrite <-codePointToUTF8_bytes in * by lia.
    destruct (utf8ToCodepoint_encoded cp s) as (c & k & Hc & Hu); [done|done|].
    rewrite Hc in Hu |- *. cbn [app quote_loop].
    assert (0x80 <= code c).
    { destruct (Z.le_gt_cases cp 0x7FF); [|destruct (Z.le_gt_cases cp 0xFFFF)].
      - rewrite utf8_two in Hc by lia. injection Hc as <- _. rewrite code_chr by dlia. dlia.
      - rewrite utf8_three in Hc by lia. injection Hc as <- _. rewrite code_chr by dlia. dlia.
      - rewrite utf8_four in Hc by lia. injection Hc as <- _. rewrite code_chr by dlia. dlia. }
    rewrite short_escape_high by done. cbn [app] in Hu. rewrite Hu, quote_skip.
    destruct (quote_codepoint_quoted cp (quote_loop 0 s) s) as (x & Hx & Heq); [lia|lia|lia|done|].
    rewrite Heq, <-codePointToUTF8_bytes in Hx by lia. by rewrite Hc in Hx.
Qed.
(** No control characters and no bytes beyond ASCII are written. *)
Definition visible (c : ascii) : Prop := 0x20 <= code c < 0x80.
Lemma hex2_visible i : 0 <= i < 512 -> visible (hex2_at i).
Proof.
  intros H. unfold visible.
  assert (Hb : ((0x20 <=? code (hex2_at i)) && (code (hex2_at i) <? 0x80)) = true).
  { by apply (range_forall (fun i => (0x20 <=? code (hex2_at i)) && (code (hex2_at i) <? 0x80)) 512). }
  bsimpl. lia.
Qed.
Lemma toHex16Bit_visible x : Forall visible (toHex16Bit x).
Proof.
  unfold toHex16Bit. change 0xff with (2 ^ 8 - 1). rewrite !land_mod by done.
  change (2 ^ 8) with 256.
  pose proof (Z.mod_pos_bound (Z.shiftr x 8) 256 eq_refl). pose proof (Z.mod_pos_bound x 256 eq_refl).
  repeat constructor; apply hex2_visible; lia.
Qed.
Lemma quote_codepoint_visible cp : Forall visible (quote_codepoint cp).
Proof.
  unfold quote_codepoint. destruct (_ && _) eqn:E.
  - bsimpl. repeat constructor; unfold visible; rewrite code_chr; lia.
  - destruct (cp <? 0x10000); rewrite ?Forall_app; split_and!;
      try apply toHex16Bit_visible; repeat constructor; done.
Qed.
Lemma short_escape_visible c e : short_escape c = Some e -> visible e.
Proof. unfold visible. byte_cases c; by intros [= <-]. Qed.
Lemma quote_loop_visible k s : Forall visible (quote_loop k s).
Proof.
  revert k. induction s as [|c s IH]; intros [|k]; cbn [quote_loop]; [constructor|constructor| |apply IH].
  destruct (short_escape c) as [e|] eqn:E.
  { constructor; [done|]. constructor; [|apply IH]. by eapply short_escape_visible. }
  destruct (utf8ToCodepoint (c :: s)) as [cp k]. apply Forall_app.
  split; [apply quote_codepoint_visible|apply IH].
Qed.

(** The test in front of the loop only finds the empty string. *)
Lemma valueToQuotedStringN_loop s : valueToQuotedStringN s = DQ :: quote_loop 0 s ++ [DQ].
Proof.
  unfold valueToQuotedStringN. destruct s as [|c s]; [done|].
  assert (isAnyCharRequiredQuoting (c :: s) = true) as ->; [|done].
  cbn. apply orb_true_iff. left. by byte_cases c.
Qed.
