(* ===== verification/JsonNumber.v ===== *)
(** * JSON: integers as text

    [valueToString] of an integer is a number of the grammar, and [decodeNumber]
    gives the integer back: below [2^31] as an [intValue], from there on as a
    [uintValue]. *)
From Stdlib Require Import Ascii String.
From stdpp Require Import base tactics list numbers option strings.
From S2P Require Import Prelude Globals Double JsonText JsonValue JsonReader JsonGrammar JsonLexis.
Open Scope Z_scope.

(** ** Digits *)
Lemma read_digits_value a s :
  Forall (fun c => isdigit c = true) s -> 0 <= a ->
  read_digits 10 (Z.to_N a) true s = (true, Z.to_N (dec_value a s)).
Proof.
  revert a. induction s as [|c s IH]; intros a Hs Ha; [done|].
  apply Forall_cons in Hs as [Hc Hs]. pose proof (digit_range _ Hc) as Hd. cbn [read_digits].
  assert (base_digit 10 c = Some (Z.to_N (code c - 48))) as ->.
  { unfold base_digit, digit_val. rewrite Hc. by rewrite (proj2 (N.ltb_lt _ _)) by lia. }
  change (dec_value a (c :: s)) with (dec_value (a * 10 + (code c - 48)) s).
  rewrite <-IH by (done || lia). f_equal. lia.
Qed.
#[local] Opaque dec_digits.
Lemma dec_value_uintToString n : 0 <= n <= maxUInt64 -> dec_value 0 (uintToString n) = n.
Proof.
  intros Hn. unfold maxUInt64 in Hn. unfold uintToString.
  pose proof (dec_digits_all 20 (Z.to_N n) [] (Forall_nil_2 _)) as Hall.
  destruct (read_dec_digits 20 (Z.to_N n) []) as [k Hk];
    [change (10 ^ N.of_nat 20)%N with 100000000000000000000%N; lia|lia|].
  pose proof (read_digits_value 0 _ Hall (Z.le_refl 0)) as H. change (Z.to_N 0) with 0%N in H.
  rewrite Hk in H. cbn [read_digits] in H. apply (f_equal snd) in H. cbn [snd] in H.
  pose proof (dec_value_mono 0 _ Hall (Z.le_refl 0)). lia.
Qed.
Lemma uintToString_digits n : digits (uintToString n).
Proof. split; [apply (to_dec_nonempty (Z.to_N n))|apply (to_dec_all (Z.to_N n))]. Qed.
Lemma valueToString_int_number z : number (valueToString_int z).
Proof.
  assert (H : forall neg n, neg = [] \/ neg = #"-" -> number (neg ++ uintToString n)).
  { intros neg n Hneg. rewrite <-(app_nil_r (uintToString n)).
    apply (n_number neg (uintToString n) [] []); auto using uintToString_digits. }
  unfold valueToString_int. destruct (_ =? _); [apply (H #"-"); by right|].
  destruct (_ <? _); [apply (H #"-"); by right|apply (H []); by left].
Qed.
Lemma valueToString_uint_number z : number (valueToString_uint z).
Proof.
  unfold valueToString_uint. rewrite <-(app_nil_r (uintToString z)).
  apply (n_number [] (uintToString z) [] []); auto using uintToString_digits.
Qed.

(** ** Reading back *)
Lemma integer_value_digits n : 0 <= n <= maxUInt64 ->
  integer_value (uintToString n) = Some n /\ integer_value ("-"%char :: uintToString n) = Some (- n).
Proof.
  intros Hn. destruct (uintToString_digits n) as [Hne Hall].
  assert (forallb isdigit (uintToString n) = true) as Hb.
  { apply forallb_forall. intros x Hx. rewrite Forall_forall in Hall. apply Hall. by apply list_elem_of_In. }
  unfold integer_value. change (ceqb "-" "-") with true. cbv iota.
  rewrite Hb, dec_value_uintToString by done. split; [|done].
  destruct (uintToString n) as [|c s] eqn:E; [done|]. pose proof Hall as [Hc _]%Forall_cons.
  destruct (isdigit_not_sign c Hc) as [-> _]. by rewrite Hb, <-E, dec_value_uintToString.
Qed.
Lemma number_value_nonneg n :
  0 <= n <= maxUInt64 -> number_value (uintToString n) = read_integer n.
Proof.
  intros Hn. unfold number_value. destruct (integer_value_digits n Hn) as [-> _].
  unfold minInt64, maxUInt64 in *. by rewrite !(proj2 (Z.leb_le _ _)) by lia.
Qed.
Lemma number_value_negative n :
  0 < n <= 9223372036854775808 -> number_value ("-"%char :: uintToString n) = read_integer (- n).
Proof.
  intros Hn. unfold number_value.
  destruct (integer_value_digits n ltac:(unfold maxUInt64; lia)) as [_ ->].
  unfold minInt64, maxUInt64. by rewrite !(proj2 (Z.leb_le _ _)) by lia.
Qed.
Lemma number_value_int z :
  minInt64 <= z <= maxInt64 -> number_value (valueToString_int z) = read_integer z.
Proof.
  unfold minInt64, maxInt64. intros Hz. unfold valueToString_int. destruct (z =? _) eqn:E1.
  { apply Z.eqb_eq in E1 as ->. by apply number_value_negative. }
  apply Z.eqb_neq in E1. destruct (z <? 0) eqn:E2.
  - apply Z.ltb_lt in E2. rewrite number_value_negative by lia. by rewrite Z.opp_involutive.
  - apply Z.ltb_ge in E2. apply number_value_nonneg. unfold maxUInt64. lia.
Qed.
Lemma number_value_uint z :
  0 <= z <= maxUInt64 -> number_value (valueToString_uint z) = read_integer z.
Proof. apply number_value_nonneg. Qed.
