(* ===== verification/JsonReal.v ===== *)
(** * JSON: doubles as text

    [valueToString] of a finite double is a number of the grammar with a fraction or an
    exponent, so that it is read as a double again; of an infinity it is a number too
    large for a double.  With [decimalPlaces] this needs a digit behind the point:
    without one [fixZerosInTheEnd] takes zeros from the integer. *)
From Stdlib Require Import Ascii String SpecFloat.
From stdpp Require Import base tactics list numbers option strings.
From S2P Require Import Prelude Globals Double JsonText JsonValue JsonReader JsonGrammar JsonLexis.
Open Scope Z_scope.

(** What [snprintf] prints: sign, digits, perhaps a fraction and an exponent. *)
Definition fraction_part (f : str) : Prop := f = [] \/ exists ds, f = "."%char :: ds /\ digits ds.
Definition exponent_part (e : str) : Prop :=
  e = [] \/ exists sg ds, sign sg /\ digits ds /\ e = "e"%char :: sg ++ ds.
Inductive printed : str -> Prop :=
  | p_printed neg i f e :
      neg = [] \/ neg = #"-" -> digits i -> fraction_part f -> exponent_part e ->
      printed (neg ++ i ++ f ++ e).

#[local] Opaque dec_digits.
Definition all_digits (s : str) : Prop := Forall (fun c => isdigit c = true) s.
Lemma to_dec_any_digits n : digits (to_dec_any n).
Proof.
  unfold to_dec_any. split.
  - destruct (dec_digits_head (Z.to_nat (Z.log2 n + 1)) (Z.to_N n) []) as (c & t & E & _).
    + pose proof (Z.log2_nonneg n). lia.
    + by rewrite E.
  - by apply dec_digits_all.
Qed.
Lemma digits_app s t : digits s -> all_digits t -> digits (s ++ t).
Proof.
  intros [H1 H2] H3. split; [by destruct s|]. by apply Forall_app.
Qed.
Lemma digits_take n s : digits s -> digits (take (S n) s).
Proof. intros [H1 H2]. split; [by destruct s|]. by apply Forall_take. Qed.
Lemma drop_while_all (f : ascii -> bool) (P : ascii -> Prop) l : Forall P l -> Forall P (drop_while f l).
Proof. induction 1 as [|x l Hx Hl IH]; cbn; [constructor|]. destruct (f x); [done|by constructor]. Qed.
Lemma strip_zeros_all s : all_digits s -> all_digits (strip_zeros s).
Proof. intros H. apply Forall_rev, drop_while_all. by apply Forall_rev. Qed.
Lemma zeros_all n : all_digits (repeat "0"%char n).
Proof. induction n; cbn; constructor; done. Qed.
Lemma with_point_parts i f : digits i -> all_digits f ->
  exists f', with_point i f = i ++ f' /\ fraction_part f'.
Proof.
  intros Hi Hf. destruct f as [|c f].
  - exists []. by rewrite app_nil_r; split; [|left].
  - exists ("."%char :: c :: f). split; [done|]. right. eexists. split; [done|]. by split.
Qed.

Lemma print_g_parts p num den : exists i f e,
  print_g p num den = i ++ f ++ e /\ digits i /\ fraction_part f /\ exponent_part e.
Proof.
  unfold print_g. destruct (if _ =? _ then _ else _) as [n x]. pose proof (to_dec_any_digits n) as Hds.
  set (ds := to_dec_any n) in *. destruct (_ && _).
  - destruct (0 <=? x) eqn:Ex.
    + replace (Z.to_nat (x + 1)) with (S (Z.to_nat x)) by lia.
      destruct (with_point_parts (take (S (Z.to_nat x)) ds) (strip_zeros (drop (S (Z.to_nat x)) ds)))
        as (f & -> & Hf); [by apply digits_take|apply strip_zeros_all, Forall_drop, Hds|].
      exists (take (S (Z.to_nat x)) ds), f, []. rewrite app_nil_r.
      split_and!; [done|by apply digits_take|done|by left].
    + destruct (with_point_parts #"0" (strip_zeros (repeat "0"%char (Z.to_nat (- x - 1)) ++ ds)))
        as (f & -> & Hf).
      { split; [done|]. by constructor. }
      { apply strip_zeros_all, Forall_app. split; [apply zeros_all|apply Hds]. }
      exists #"0", f, []. rewrite app_nil_r. split_and!; [done| |done|by left].
      split; [done|]. by constructor.
  - destruct (with_point_parts (take 1 ds) (strip_zeros (drop 1 ds))) as (f & -> & Hf);
      [by apply digits_take|apply strip_zeros_all, Forall_drop, Hds|].
    eexists (take 1 ds), f, _. rewrite <-app_assoc. split_and!; [done|by apply digits_take|done|].
    right. exists (if x <? 0 then #"-" else #"+"),
      ((if Z.abs x <? 10 then #"0" else #"") ++ to_dec_any (Z.abs x)).
    split_and!; [destruct (x <? 0); [by right; right|by right; left]| |done].
    split.
    + destruct (Z.abs x <? 10); [done|]. apply to_dec_any_digits.
    + apply Forall_app. split; [|apply to_dec_any_digits].
      destruct (Z.abs x <? 10); [by constructor|constructor].
Qed.
Lemma print_f_parts p num den : 0 < p -> exists i ds,
  print_f p num den = i ++ "."%char :: ds /\ digits i /\ digits ds.
Proof.
  intros Hp. unfold print_f. pose proof (to_dec_any_digits (scaled num den p)) as Hds.
  set (ds0 := to_dec_any _) in *. set (k := Z.to_nat p).
  set (ds := repeat "0"%char (S k - length ds0) ++ ds0).
  assert (all_digits ds) as Hall by (apply Forall_app; split; [apply zeros_all|apply Hds]).
  assert (k < length ds)%nat as Hlen.
  { subst ds. rewrite length_app, repeat_length. lia. }
  exists (take (length ds - k) ds), (drop (length ds - k) ds).
  assert (length (drop (length ds - k) ds) = k) as Hdrop by (rewrite length_drop; lia).
  split_and!.
  - unfold with_point. destruct (drop _ ds) eqn:E; [|done]. cbn in Hdrop. lia.
  - replace (length ds - k)%nat with (S (length ds - k - 1)) by lia. apply digits_take.
    split; [|done]. by destruct ds; cbn in Hlen; [lia|].
  - split; [|by apply Forall_drop]. intros E. rewrite E in Hdrop. cbn in Hdrop. lia.
Qed.
Lemma fixZeros_fraction ds ra : digits ds ->
  exists ds', fixZeros_rev (rev ds ++ "."%char :: ra) = rev ds' ++ "."%char :: ra /\ digits ds'.
Proof.
  intros [Hne Hall]. rewrite <-(rev_involutive ds) in Hne |- *. apply Forall_rev in Hall.
  change (Forall (fun c => isdigit c = true) (rev ds)) in Hall. rewrite rev_involutive.
  induction (rev ds) as [|c r IH]; [done|]. cbn [fixZeros_rev app].
  assert (digits (rev (c :: r))) as Hd.
  { split; [|by apply Forall_rev]. intros E. apply (f_equal length) in E. rewrite length_rev in E. done. }
  destruct (ceqb c "0"); cbn [negb].
  - destruct r as [|d r].
    + cbn. by exists [c].
    + cbn [app]. assert (ceqb d "." = false) as ->.
      { apply Forall_cons in Hall as [_ [Hx _]%Forall_cons]. revert Hx. by byte_cases d. }
      apply IH; [|by apply Forall_cons in Hall as [_ ?]].
      intros E. apply (f_equal length) in E. rewrite length_rev in E. done.
  - exists (rev (c :: r)). by rewrite rev_involutive.
Qed.
Lemma fixZerosInTheEnd_fraction a ds : digits ds ->
  exists ds', fixZerosInTheEnd (a ++ "."%char :: ds) = a ++ "."%char :: ds' /\ digits ds'.
Proof.
  intros Hd. destruct (fixZeros_fraction ds (rev a) Hd) as (ds' & E & Hd'). exists ds'. split; [|done].
  unfold fixZerosInTheEnd. rewrite rev_app_distr. cbn [rev]. rewrite <-app_assoc. cbn [app].
  rewrite E, rev_app_distr, rev_involutive. cbn [rev]. by rewrite rev_involutive, <-app_assoc.
Qed.
(** There is no comma in what is printed. *)
Definition plain_char (c : ascii) : bool := negb (ceqb c ",").
Lemma digits_plain s : all_digits s -> Forall (fun c => plain_char c = true) s.
Proof. intros H. eapply Forall_impl; [exact H|]. intros c. cbn beta. by byte_cases c. Qed.
Lemma fixNumericLocale_id s : Forall (fun c => plain_char c = true) s -> fixNumericLocale s = s.
Proof.
  induction 1 as [|c s Hc Hs IH]; [done|]. unfold fixNumericLocale in *. cbn [map].
  unfold plain_char in Hc. destruct (ceqb c ","); [done|]. by rewrite IH.
Qed.
Lemma printed_plain s : printed s -> Forall (fun c => plain_char c = true) s.
Proof.
  intros [neg i f e Hneg [_ Hi] Hf He]. repeat apply Forall_app_2.
  - destruct Hneg as [->| ->]; by repeat constructor.
  - by apply digits_plain.
  - destruct Hf as [->|(ds & -> & [_ Hd])]; [constructor|]. constructor; [done|by apply digits_plain].
  - destruct He as [->|(sg & ds & Hs & [_ Hd] & ->)]; [constructor|]. constructor; [done|].
    apply Forall_app_2; [|by apply digits_plain].
    destruct Hs as [->|[->| ->]]; by repeat constructor.
Qed.
Lemma existsb_digits c s : isdigit c = false -> all_digits s -> existsb (fun d => ceqb d c) s = false.
Proof.
  intros Hc. induction 1 as [|d s Hd Hs IH]; [done|]. cbn. rewrite IH, orb_false_r.
  destruct (ceqb d c) eqn:E; [|done]. apply ceqb_eq in E as ->. congruence.
Qed.
(** A fraction or an exponent that is there is seen. *)
Definition marked (s : str) : bool :=
  existsb (fun c => ceqb c ".") s || existsb (fun c => ceqb c "e") s.
Lemma marked_not_integer s : marked s = true -> integer_value s = None.
Proof.
  intros H. unfold integer_value.
  assert (forall t, marked t = true -> forallb isdigit t = false) as Hm.
  { intros t Ht. destruct (forallb isdigit t) eqn:E; [|done].
    assert (all_digits t) as Ha.
    { apply List.Forall_forall. by apply forallb_forall. }
    unfold marked in Ht. by rewrite !existsb_digits in Ht. }
  destruct s as [|c s]; [done|]. destruct (ceqb c "-") eqn:E; [|by rewrite Hm].
  apply ceqb_eq in E as ->. rewrite Hm; [done|]. exact H.
Qed.
Lemma printed_number s : printed s ->
  let s' := if marked s then s else s ++ #".0" in number s' /\ marked s' = true.
Proof.
  intros [neg i f e Hneg Hi Hf He].
  assert (number (neg ++ i ++ f ++ e)) as Hn.
  { apply n_number; [done|done|by destruct Hf; [left|right]|].
    destruct He as [->|(sg & ds & Hs & Hd & ->)]; [by left|right]. exists "e"%char, sg, ds. by split; [left|]. }
  destruct (marked (neg ++ i ++ f ++ e)) eqn:E; [done|]. cbn zeta.
  assert (f = []) as ->.
  { destruct Hf as [?|(ds & -> & _)]; [done|]. unfold marked in E.
    rewrite !existsb_app in E. cbn [existsb app] in E. rewrite ceqb_refl in E.
    cbn in E. rewrite !orb_true_r in E. done. }
  assert (e = []) as ->.
  { destruct He as [?|(sg & ds & _ & _ & ->)]; [done|]. unfold marked in E.
    rewrite !existsb_app in E. cbn [existsb app] in E. rewrite (ceqb_refl "e"), !orb_true_r in E.
    cbn in E. by rewrite ?orb_true_r in E. }
  rewrite !app_nil_r, <-app_assoc. split.
  - rewrite <-(app_nil_r #".0"). apply n_number; [done|done| |by left]. right. exists #"0".
    split; [done|]. split; [done|by constructor].
  - unfold marked. rewrite !existsb_app. cbn. by rewrite !orb_true_r.
Qed.

Lemma snprintf_printed (general : bool) p d : isfinite d = true -> general = true \/ 0 < p ->
  printed (snprintf_double general p d) /\
  (general = false -> exists a ds, snprintf_double general p d = a ++ "."%char :: ds /\ digits ds /\
     forall ds', digits ds' -> printed (a ++ "."%char :: ds')).
Proof.
  intros Hd Hp.
  assert (exists neg num den, snprintf_double general p d =
    (if neg : bool then #"-" else []) ++
    (if general then match num with Z0 => #"0" | _ => print_g p num den end else print_f p num den))
    as (neg & num & den & ->).
  { unfold snprintf_double. destruct d as [s|s| |s m e]; try done; [by exists s, 0, 1|].
    destruct (fraction m e) as [num den]. by exists s, num, den. }
  assert ((if neg then #"-" else []) = [] \/ (if neg then #"-" else []) = #"-") as Hneg.
  { destruct neg; [by right|by left]. }
  destruct general.
  - split; [|done].
    assert (exists i f e, match num with Z0 => #"0" | _ => print_g p num den end = i ++ f ++ e /\
      digits i /\ fraction_part f /\ exponent_part e) as (i & f & e & -> & Hi & Hf & He).
    { destruct num; [|apply print_g_parts..]. exists #"0", [], []. split_and!; [done| |by left|by left].
      split; [done|by constructor]. }
    by apply p_printed.
  - destruct Hp as [|Hp]; [done|]. destruct (print_f_parts p num den Hp) as (i & ds & -> & Hi & Hds).
    assert (forall ds', digits ds' -> printed ((if neg then #"-" else []) ++ i ++ "."%char :: ds')) as H.
    { intros ds' Hds'. rewrite <-(app_nil_r (_ :: ds')). apply p_printed; [done|done| |by left].
      right. by eexists. }
    split; [by apply H|]. intros _. exists ((if neg then #"-" else []) ++ i), ds. rewrite <-app_assoc.
    split_and!; [done|done|]. intros ds' Hds'. rewrite <-app_assoc. by apply H.
Qed.
(** A finite double is written as a number that is not an integer. *)
Lemma valueToString_double_number d usf p pt :
  isfinite d = true -> pt = significantDigits \/ 0 < p ->
  number (valueToString_double d usf p pt) /\ integer_value (valueToString_double d usf p pt) = None.
Proof.
  intros Hd Hp.
  assert (exists s, printed s /\
    valueToString_double d usf p pt = if marked s then s else s ++ #".0") as (s & Hs & ->).
  { unfold valueToString_double. rewrite Hd. cbn [negb]. destruct pt.
    - destruct (snprintf_printed true p d Hd (or_introl eq_refl)) as [H _].
      rewrite fixNumericLocale_id by by apply printed_plain. by eexists.
    - destruct Hp as [|Hp]; [done|].
      destruct (snprintf_printed false p d Hd (or_intror Hp)) as [H Hf].
      destruct (Hf eq_refl) as (a & ds & E & Hds & Hpr).
      rewrite fixNumericLocale_id by by apply printed_plain. rewrite E.
      destruct (fixZerosInTheEnd_fraction a ds Hds) as (ds' & -> & Hds'). eexists. split; [|done].
      by apply Hpr. }
  destruct (printed_number s Hs) as [H1 H2]. split; [done|]. by apply marked_not_integer.
Qed.
Lemma infinity_number (neg : bool) :
  number (special_rep false (infinity neg)) /\
  integer_value (special_rep false (infinity neg)) = None.
Proof.
  assert (number #"1e+9999" /\ number #"-1e+9999") as [H1 H2].
  { assert (forall neg, neg = [] \/ neg = #"-" -> number (neg ++ #"1" ++ [] ++ #"e+9999")) as H.
    { intros neg' Hn. apply n_number; [done|split; [done|by constructor]|by left|]. right.
      exists "e"%char, #"+", #"9999". split_and!; [by left|by right; left| |done].
      split; [done|by repeat constructor]. }
    split; [apply (H []); by left|apply (H #"-"); by right]. }
  destruct neg; cbn; by split.
Qed.

(** Without a digit behind the point the zeros of an integer are lost. *)
Example decimal_places_0 :
  valueToString_double (of_int 100) false 0 decimalPlaces = #"1.0" /\
  valueToString_double (of_int 0) false 0 decimalPlaces = #".0".
Proof. vm_compute. done. Qed.
