(* ===== verification/JsonWritten.v ===== *)
(** * JSON: what is written

    The texts that the writers are to write: [json_of] is the JSON text of a value as a
    tree of the grammar of [JsonGrammar], [reread] the value it stands for, [writable] the
    values the theorems are about, [json_style] the configurations. *)
From Stdlib Require Import Ascii String Sorting.Sorted.
From stdpp Require Import base tactics list numbers option strings.
From S2P Require Import Prelude Globals Double JsonText JsonValue JsonReader JsonWriter JsonLaws.
From S2P Require Import JsonUtf8 JsonGrammar JsonLexis JsonQuote JsonNumber JsonReal.
Open Scope Z_scope.

(** ** Values that are written *)

(** The configurations the theorems are about: blanks for indentation, a colon with blanks
    around it, nulls in full, no special floats, and not a number of decimal places of
    zero. *)
Record json_style (st : Style) : Prop := {
  js_indentation : blank (indentation_ st);
  js_colon : exists w1 w2, colonSymbol_ st = w1 ++ #":" ++ w2 /\ blank w1 /\ blank w2;
  js_null : nullSymbol_ st = #"null";
  js_end : blank (endingLineFeedSymbol_ st);
  js_special : useSpecialFloats_ st = false;
  js_precision : precisionType_ st = significantDigits \/ 0 < precision_ st
}.
Lemma default_json_style : json_style default_style.
Proof.
  split; try done; [by repeat constructor| |constructor|by left].
  exists #" ", #" ". by split_and!; repeat constructor.
Qed.

Definition real_text (st : Style) (d : double) : str :=
  valueToString_double d (useSpecialFloats_ st) (precision_ st) (precisionType_ st).
Fixpoint json_of (st : Style) (v : Value) : json :=
  let 'mkValue p _ _ _ := v in
  match p with
  | nullValue => JNull
  | intValue z => JNum (valueToString_int z)
  | uintValue z => JNum (valueToString_uint z)
  | realValue d => if isnan d then JNull else JNum (real_text st d)
  | stringValue s => JStr s
  | booleanValue b => JBool b
  | arrayValue m => JArr (map (fun kv => json_of st (snd kv)) m)
  | objectValue m => JObj (map (fun kv => (fst kv, json_of st (snd kv))) m)
  end.
(** The value that is read from the text: [plain], except that an integer becomes
    an [intValue] or a [uintValue] by its size, a double what its text gives, NaN a null. *)
Fixpoint reread (st : Style) (v : Value) : Value :=
  let 'mkValue p _ _ _ := v in
  match p with
  | intValue z | uintValue z => read_integer z
  | realValue d => if isnan d then nullSingleton else read_real (real_text st d)
  | arrayValue m => initBasic (arrayValue (map (fun kv => (fst kv, reread st (snd kv))) m))
  | objectValue m => initBasic (objectValue (map (fun kv => (fst kv, reread st (snd kv))) m))
  | p => initBasic p
  end.
(** Values without comments, with strings in UTF-8, integers of 64 bits, arrays without
    gaps and objects as the library builds them. *)
Fixpoint writable (v : Value) : Prop :=
  let 'mkValue p c _ _ := v in
  c = no_comments /\
  match p with
  | intValue z => minInt64 <= z <= maxInt64
  | uintValue z => 0 <= z <= maxUInt64
  | stringValue s => utf8 s /\ (len s <= 2147483642)%N
  | arrayValue m =>
      m = numbered 0 (map snd m) /\ (N.of_nat (length m) <= 2147483647)%N /\
      foldr (fun kv P => writable (snd kv) /\ P) True m
  | objectValue m =>
      sorted CZString_ltb m /\ (N.of_nat (length m) < 4294967296)%N /\
      foldr (fun kv P => (utf8 (fst kv) /\ (len (fst kv) < 2 ^ 30)%N /\ writable (snd kv)) /\ P) True m
  | _ => True
  end.
Lemma foldr_Forall {A} (P : A -> Prop) l : foldr (fun x Q => P x /\ Q) True l <-> Forall P l.
Proof. induction l as [|x l IH]; cbn; [by split|]. by rewrite IH, Forall_cons. Qed.

(** *** Depth *)
Lemma list_max_in x l : In x l -> (x <= list_max l)%nat.
Proof.
  intros H. pose proof (proj1 (list_max_le l (list_max l)) (le_n _)) as Hall.
  by apply (proj1 (List.Forall_forall _ l) Hall).
Qed.
Lemma depth_element (kv : N * Value) m c a b :
  In kv m -> (depth (snd kv) < depth (mkValue (arrayValue m) c a b))%nat.
Proof. intros H. cbn. apply le_n_S, list_max_in. by apply (in_map (fun kv => depth (snd kv))). Qed.
Lemma depth_member (kv : str * Value) m c a b :
  In kv m -> (depth (snd kv) < depth (mkValue (objectValue m) c a b))%nat.
Proof. intros H. cbn. apply le_n_S, list_max_in. by apply (in_map (fun kv => depth (snd kv))). Qed.
(** Induction on the depth. *)
Lemma Value_depth_ind (P : Value -> Prop) :
  (forall v, (forall u, (depth u < depth v)%nat -> P u) -> P v) -> forall v, P v.
Proof.
  intros H v. remember (depth v) as n eqn:E. revert v E.
  induction n as [n IH] using lt_wf_ind. intros v ->. apply H. intros u Hu. by apply (IH (depth u)).
Qed.
Lemma jdepth_json_of st v : jdepth (json_of st v) = depth v.
Proof.
  induction v as [[p c a b] IH] using Value_depth_ind. destruct p as [| | |d| | |m|m]; try done.
  - cbn. by destruct (isnan d).
  - cbn. rewrite map_map. do 2 f_equal. apply map_ext_in. intros kv H.
    apply IH. by apply depth_element.
  - cbn. rewrite map_map. do 2 f_equal. apply map_ext_in. intros kv H.
    apply IH. by apply depth_member.
Qed.

(** ** What the text stands for *)
Lemma sorted_app_below (acc l : list (str * Value)) k v :
  sorted CZString_ltb (acc ++ (k, v) :: l) ->
  Forall (fun kv => CZString_ltb (fst kv) k = true) acc.
Proof.
  induction acc as [|kv acc IH]; [done|]. intros [H1 H2]%StronglySorted_inv.
  constructor; [|by apply IH]. apply Forall_app in H2 as [_ H2]. by apply Forall_cons in H2 as [H2 _].
Qed.
Lemma store_members_sorted acc l :
  sorted CZString_ltb (acc ++ l) -> store_members acc l = acc ++ l.
Proof.
  revert acc. induction l as [|[k v] l IH]; intros acc H; [by rewrite app_nil_r|].
  unfold store_members in *. cbn. rewrite (map_set_snoc CZString_ltb) by by eapply sorted_app_below.
  change (acc ++ (k, v) :: l) with (acc ++ [(k, v)] ++ l) in *. rewrite app_assoc in *. by apply IH.
Qed.
Lemma numbered_map {A B} (f : A -> B) i l :
  numbered i (map f l) = map (fun kv => (fst kv, f (snd kv))) (numbered i l).
Proof. revert i. induction l as [|x l IH]; intros i; [done|]. cbn. by rewrite IH. Qed.
(** A real is written as [null] or as a number that is read as a real. *)
Lemma real_number st d : json_style st -> isnan d = false ->
  number (real_text st d) /\ number_value (real_text st d) = read_real (real_text st d).
Proof.
  intros Hst Hd.
  assert (number (real_text st d) /\ integer_value (real_text st d) = None) as [H1 H2].
  { destruct (isfinite d) eqn:E.
    - by apply valueToString_double_number, Hst.
    - unfold real_text, valueToString_double. rewrite E, (js_special st Hst). cbn [negb].
      destruct d as [|neg| |]; try done. apply (infinity_number neg). }
  split; [done|]. unfold number_value. by rewrite H2.
Qed.
Lemma denote_json_of st v : json_style st -> writable v -> denote (json_of st v) = reread st v.
Proof.
  intros Hst. induction v as [[p c a b] IH] using Value_depth_ind. intros [-> H].
  destruct p as [|z|z|d|s|b'|m|m]; try done.
  - by apply number_value_int.
  - by apply number_value_uint.
  - cbn. destruct (isnan d) eqn:E; [done|]. by apply real_number.
  - destruct H as (Hm & _ & Hall%(foldr_Forall (fun kv => writable (snd kv)))).
    cbn. do 2 f_equal. rewrite map_map.
    transitivity (numbered 0 (map (reread st) (map snd m))).
    + f_equal. rewrite map_map. apply map_ext_in. intros kv Hin. apply IH; [by apply depth_element|].
      by apply (proj1 (List.Forall_forall _ m) Hall).
    + by rewrite numbered_map, <-Hm.
  - destruct H as (Hs & _ & Hall%(foldr_Forall (fun kv => utf8 (fst kv) /\ _ /\ writable (snd kv)))).
    cbn. do 2 f_equal. rewrite map_map. cbn [fst snd].
    assert (map (fun kv => (fst kv, denote (json_of st (snd kv)))) m =
            map (fun kv => (fst kv, reread st (snd kv))) m) as ->.
    { apply map_ext_in. intros kv Hin. f_equal. apply IH; [by apply depth_member|].
      by apply (proj1 (List.Forall_forall _ m) Hall). }
    apply (store_members_sorted []). cbn [app]. apply (sorted_keys CZString_ltb).
    rewrite map_map. by apply (sorted_keys CZString_ltb).
Qed.

(** ** Looking up *)
Lemma numbered_sorted {A} i (l : list A) : sorted N.ltb (numbered i l).
Proof.
  revert i. induction l as [|x l IH]; intros i; constructor; [apply IH|]. cbn.
  assert (H : forall j, (i < j)%N -> Forall (fun kv => (i <? fst kv)%N = true) (numbered j l)).
  { clear. induction l as [|x l IH]; intros j Hj; constructor; [by apply N.ltb_lt|apply IH; lia]. }
  apply H. lia.
Qed.
Lemma numbered_in {A} i (pre : list A) x suf :
  In ((i + N.of_nat (length pre))%N, x) (numbered i (pre ++ x :: suf)).
Proof.
  revert i. induction pre as [|y pre IH]; intros i; cbn.
  - left. f_equal. lia.
  - right. replace (i + N.of_nat (S (length pre)))%N with (i + 1 + N.of_nat (length pre))%N by lia.
    apply IH.
Qed.
Lemma size_numbered {A} (l : list A) x :
  match rev (numbered 0 (l ++ [x])) with
  | (i, _) :: _ => (i + 1)%N = N.of_nat (length (l ++ [x]))
  | [] => False
  end.
Proof.
  assert (H : forall i, rev (numbered i (l ++ [x])) =
                (i + N.of_nat (length l), x)%N :: rev (numbered i l)).
  { induction l as [|y l IH]; intros i; cbn; [by rewrite N.add_0_r|]. rewrite IH. cbn.
    do 2 f_equal. lia. }
  rewrite H, length_app. cbn. lia.
Qed.

Definition no_comment (v : Value) : Prop := comments_ v = no_comments.
Lemma writable_no_comment v : writable v -> no_comment v.
Proof. destruct v as [p c a b]. by intros [-> _]. Qed.
#[export] Hint Resolve writable_no_comment : webcc.
Lemma Forall_choice {A B} (P : A -> B -> Prop) l :
  Forall (fun x => exists y, P x y) l -> exists k, Forall2 P l k.
Proof. induction 1 as [|x l [y Hy] _ [k Hk]]; [by exists []|]. exists (y :: k). by constructor. Qed.
