(* ===== verification/JsonPrinter.v ===== *)
(** * JSON: printers

    [BuiltStyledStreamWriter], [StyledStreamWriter] and [StyledWriter] are one algorithm
    over different states and layouts.  [Printer] is the record of the operations they
    differ in, the functions of its section are the algorithm, and [LawfulPrinter] says what
    the operations promise: texts are added at the end of the document, line breaks
    and indentation are blanks.  Every lawful printer turns a writable value into a
    text of the grammar; an array takes several lines, written element by element or from
    the texts that were measured, or one line. *)
From Stdlib Require Import Ascii String Sorting.Sorted.
From stdpp Require Import base tactics list numbers option strings.
From S2P Require Import Prelude Globals Double JsonText JsonValue JsonReader JsonWriter JsonLaws.
From S2P Require Import JsonUtf8 JsonGrammar JsonLexis JsonQuote JsonNumber JsonReal JsonWritten.
Open Scope Z_scope.

(** ** The interface *)
Record Printer (W : Type) := mkPrinter {
  p_style : Style;
  (** Whether every array takes several lines. *)
  p_all_multi : bool;
  p_quote_key : str -> str;
  p_document : W -> str;
  p_children : W -> list str;
  p_adding : W -> bool;
  p_put : W -> str -> W;
  p_push : W -> str -> W;
  p_set_children : W -> list str -> W;
  p_set_adding : W -> bool -> W;
  (** [writeWithIndent]; what surrounds an element. *)
  p_indented : W -> str -> W;
  p_line : W -> W;
  p_unline : W -> W;
  p_indent : W -> W;
  p_unindent : W -> W;
  p_before : W -> Value -> W;
  p_after : W -> Value -> W;
  (** An array on one line: its beginning, separator and end. *)
  p_open : W -> W;
  p_separator : str;
  p_close : W -> W
}.
Arguments p_style {W}. Arguments p_all_multi {W}. Arguments p_quote_key {W}. Arguments p_document {W}.
Arguments p_children {W}. Arguments p_adding {W}. Arguments p_put {W}. Arguments p_push {W}.
Arguments p_set_children {W}. Arguments p_set_adding {W}. Arguments p_indented {W}.
Arguments p_line {W}. Arguments p_unline {W}. Arguments p_indent {W}. Arguments p_unindent {W}.
Arguments p_before {W}. Arguments p_after {W}. Arguments p_open {W}. Arguments p_separator {W}.
Arguments p_close {W}.

(** ** The algorithm *)
Section Algorithm.
Context {W : Type} (P : Printer W).

Section Rec.
Context (rec : W -> Value -> outcome W).
Fixpoint print_members (w : W) (v : Value) (members : list str) : outcome W :=
  match members with
  | [] => Ret w
  | name :: members' =>
      let! childValue := member_const v name in
      let w := p_before P w childValue in
      let w := p_indented P w (p_quote_key P name) in
      let w := p_put P w (colonSymbol_ (p_style P)) in
      let! w := rec w childValue in
      match members' with
      | [] => Ret (p_after P w childValue)
      | _ => print_members (p_after P (p_put P w #",") childValue) v members'
      end
  end.
Definition print_object (w : W) (v : Value) : outcome W :=
  let! members := getMemberNames v in
  match members with
  | [] => Ret (p_push P w #"{}")
  | _ =>
      let w := p_indent P (p_indented P w #"{") in
      let! w := print_members w v members in
      Ret (p_indented P (p_unindent P w) #"}")
  end.
Fixpoint print_measure (w : W) (v : Value) (ix : list N) (isMultiLine : bool) (lineLength : Z)
    : outcome (W * bool * Z) :=
  match ix with
  | [] => Ret (w, isMultiLine, lineLength)
  | i :: ix =>
      let! childValue := index_const v i in
      let isMultiLine := isMultiLine || hasCommentForValue childValue in
      let! w := rec w childValue in
      let lineLength :=
        wrap_u 32 (lineLength + Z.of_nat (length (nth (N.to_nat i) (p_children P w) []))) in
      print_measure w v ix isMultiLine lineLength
  end.
Definition print_multiline (w : W) (v : Value) : outcome (W * bool) :=
  let n := size v in
  let w := p_set_children P w [] in
  let! isMultiLine :=
    (if rightMargin_ <=? wrap_u 32 (Z.of_N n * 3) then Ret true else any_composite v (indices n)) in
  if isMultiLine : bool then Ret (w, true)
  else
    let w := p_set_adding P w true in
    let! (w, isMultiLine, lineLength) :=
      print_measure w v (indices n) false (wrap_u 32 (4 + (Z.of_N n - 1) * 2)) in
    Ret (p_set_adding P w false, isMultiLine || (rightMargin_ <=? lineLength)).
Fixpoint print_elements (w : W) (v : Value) (hasChildValue : bool) (ix : list N) : outcome W :=
  match ix with
  | [] => Ret w
  | i :: ix' =>
      let! childValue := index_const v i in
      let w := p_before P w childValue in
      let! w :=
        (if hasChildValue then Ret (p_indented P w (nth (N.to_nat i) (p_children P w) []))
         else
           let w := p_line P w in
           let! w := rec w childValue in
           Ret (p_unline P w)) in
      match ix' with
      | [] => Ret (p_after P w childValue)
      | _ => print_elements (p_after P (p_put P w #",") childValue) v hasChildValue ix'
      end
  end.
Definition print_single (w : W) (ix : list N) : W :=
  let w := p_open P w in
  let w := fold_left (fun w i =>
             p_put P (if (0 <? i)%N then p_put P w (p_separator P) else w)
               (nth (N.to_nat i) (p_children P w) [])) ix w in
  p_close P w.
Definition print_array (w : W) (v : Value) : outcome W :=
  let n := size v in
  if (n =? 0)%N then Ret (p_push P w #"[]")
  else
    let! (w, isMultiLine) :=
      (if p_all_multi P then Ret (w, true) else print_multiline w v) in
    if isMultiLine : bool then
      let w := p_indent P (p_indented P w #"[") in
      let hasChildValue := match p_children P w with [] => false | _ => true end in
      let! w := print_elements w v hasChildValue (indices n) in
      Ret (p_indented P (p_unindent P w) #"]")
    else Ret (print_single w (indices n)).
End Rec.
Fixpoint print_value (fuel : nat) (w : W) (v : Value) : outcome W :=
  match fuel with
  | O => OutOfFuel
  | S fuel' =>
      match payload v with
      | nullValue => Ret (p_push P w (nullSymbol_ (p_style P)))
      | intValue _ => let! z := asLargestInt v in Ret (p_push P w (valueToString_int z))
      | uintValue _ => let! z := asLargestUInt v in Ret (p_push P w (valueToString_uint z))
      | realValue _ => let! d := asDouble v in Ret (p_push P w (real_text (p_style P) d))
      | stringValue _ =>
          match getString v with
          | Some s => Ret (p_push P w (valueToQuotedStringN s))
          | None => Ret (p_push P w [])
          end
      | booleanValue _ => let! b := asBool v in Ret (p_push P w (valueToString_bool b))
      | arrayValue _ => print_array (print_value fuel') w v
      | objectValue _ => print_object (print_value fuel') w v
      end
  end.
End Algorithm.

(** ** What the operations promise

    [wrote w w' t]: from [w] to [w'] the text [t] was written.  [at_start]: the layout has
    written what comes before a value.  The keys that are quoted in full. *)
Class LawfulPrinter {W : Type} (P : Printer W) := {
  ready : W -> Prop;
  wrote : W -> W -> str -> Prop;
  at_start : W -> Prop;
  key_ok : str -> Prop;
  lp_style : json_style (p_style P);
  lp_key k : key_ok k -> p_quote_key P k = valueToQuotedStringN k;
  lp_refl w : wrote w w [];
  lp_trans w1 w2 w3 t1 t2 : wrote w1 w2 t1 -> wrote w2 w3 t2 -> wrote w1 w3 (t1 ++ t2);
  lp_ready w w' t : wrote w w' t -> ready w -> ready w';
  lp_document w w' t : wrote w w' t -> p_document P w' = p_document P w ++ t;
  lp_put w t : wrote w (p_put P w t) t;
  lp_push w t : ready w -> wrote w (p_push P w t) t;
  lp_indented w t : ready w -> exists bl, blank bl /\ (at_start w -> bl = []) /\
    wrote w (p_indented P w t) (bl ++ t);
  lp_line w : ready w -> exists bl, blank bl /\ wrote w (p_line P w) bl;
  lp_unline w : wrote w (p_unline P w) [];
  lp_indent w : ready w -> ready (p_indent P w);
  lp_unindent w w' t : wrote (p_indent P w) w' t -> wrote w (p_unindent P w') t;
  lp_before w v : no_comment v -> p_before P w v = w;
  lp_after w v : no_comment v -> p_after P w v = w;
  lp_open : exists pad, blank pad /\ forall w, wrote w (p_open P w) (#"[" ++ pad);
  lp_separator : exists pad, blank pad /\ p_separator P = #"," ++ pad;
  lp_close : exists pad, blank pad /\ forall w, wrote w (p_close P w) (pad ++ #"]");
  (** Measuring leaves the document alone. *)
  lp_all_multi w : p_all_multi P = true -> ready w -> p_children P w = [];
  lp_clear w : p_all_multi P = false -> ready w ->
    wrote w (p_set_children P w []) [] /\ (at_start w -> at_start (p_set_children P w []));
  lp_measured w ts : p_all_multi P = false -> ready w ->
    let w0 := p_set_adding P (p_set_children P w []) true in
    let w' := p_set_adding P (p_set_children P w0 ts) false in
    wrote w w' [] /\ (at_start w -> at_start w') /\ p_children P w' = ts;
  lp_adding w : p_adding P (p_set_adding P w true) = true;
  lp_adding_children w ts : p_adding P (p_set_children P w ts) = p_adding P w;
  lp_push_adding w t : p_adding P w = true -> p_push P w t = p_set_children P w (p_children P w ++ [t]);
  lp_set_set w ts ts' : p_set_children P (p_set_children P w ts) ts' = p_set_children P w ts';
  lp_set_same w : p_set_children P w (p_children P w) = w;
  lp_children_set w ts : p_children P (p_set_children P w ts) = ts;
  lp_children_adding w b : p_children P (p_set_adding P w b) = p_children P w;
  lp_children_put w t : p_children P (p_put P w t) = p_children P w;
  lp_children_indented w t : p_children P (p_indented P w t) = p_children P w;
  lp_children_indent w : p_children P (p_indent P w) = p_children P w;
  lp_children_open w : p_children P (p_open P w) = p_children P w
}.

(** ** Every lawful printer writes JSON *)
Section Laws.
Context {W : Type} (P : Printer W) `{HP : !LawfulPrinter P}.
Abbreviation st := (p_style P).
#[local] Hint Resolve lp_refl lp_put lp_ready : core.

Lemma wrote_after w1 w2 w3 t1 t2 t : wrote w1 w2 t1 -> wrote w2 w3 t2 -> t = t1 ++ t2 -> wrote w1 w3 t.
Proof. intros H1 H2 ->. by eapply lp_trans. Qed.

(** Writing a value: blanks, when it starts on a line of its own, and its text. *)
Definition writes (fuel : nat) (v : Value) : Prop := forall w, ready w ->
  exists w' bl t, print_value P fuel w v = Ret w' /\ text (json_of st v) t /\ blank bl /\
    (at_start w -> bl = []) /\ wrote w w' (bl ++ t).
(** Pushing a text, as a scalar or an empty container does. *)
Definition pushes (fuel : nat) (v : Value) (t : str) : Prop :=
  (forall w, print_value P fuel w v = Ret (p_push P w t)) /\ text (json_of st v) t.
Lemma pushes_writes fuel v t : pushes fuel v t -> writes fuel v.
Proof.
  intros [Hw Ht] w Hr. exists (p_push P w t), [], t. rewrite Hw.
  split_and!; [done|done|constructor|done|]. by apply lp_push.
Qed.

(** A container: its first character, the rest with the indentation one longer,
    and its last character. *)
Lemma wrote_container w open o close w2 :
  ready w -> wrote (p_indent P (p_indented P w open)) w2 o ->
  exists bl bl', blank bl /\ (at_start w -> bl = []) /\ blank bl' /\
    wrote w (p_indented P (p_unindent P w2) close) (bl ++ open ++ o ++ bl' ++ close).
Proof.
  intros Hr Hw2. destruct (lp_indented w open Hr) as (bl & Hbl & Hs & H1).
  pose proof (lp_unindent _ _ _ Hw2) as H2.
  destruct (lp_indented (p_unindent P w2) close) as (bl' & Hbl' & _ & H3); [by eauto|].
  exists bl, bl'. split_and!; [done|done|done|].
  eapply wrote_after; [exact H1|eapply lp_trans; [exact H2|exact H3]|]. by rewrite <-!app_assoc.
Qed.

(** *** Objects *)
Lemma member_const_in v m k x :
  payload v = objectValue m -> sorted CZString_ltb m -> (len k < 2 ^ 30)%N -> In (k, x) m ->
  member_const v k = Ret x.
Proof.
  intros Hp Hs Hk Hin. unfold member_const, find, isNull, isObject, type. rewrite Hp. cbn.
  unfold get_child. rewrite Hp, CZString_small by done. by rewrite (map_find_in CZString_ltb m k x).
Qed.
Definition member_ok (kv : str * Value) : Prop :=
  utf8 (fst kv) /\ (len (fst kv) < 2 ^ 30)%N /\ writable (snd kv).
Definition json_member (kv : str * Value) : str * json := (fst kv, json_of st (snd kv)).
(** One member up to its value. *)
Lemma member_written fuel k u w :
  utf8 k -> key_ok k -> writable u -> writes fuel u -> ready w ->
  exists w' w0 w1 w2 t,
    print_value P fuel (p_put P (p_indented P w (p_quote_key P k)) (colonSymbol_ st)) u = Ret w' /\
    quoted (quote_loop 0 k) k /\ text (json_of st u) t /\ blank w0 /\ blank w1 /\ blank w2 /\
    wrote w w' (w0 ++ (DQ :: quote_loop 0 k ++ [DQ]) ++ w1 ++ #":" ++ w2 ++ t).
Proof.
  intros Hk Hko Hu Hwr Hr. destruct (js_colon st lp_style) as (c1 & c2 & E & Hc1 & Hc2).
  rewrite (lp_key k Hko). destruct (lp_indented w (valueToQuotedStringN k) Hr) as (w0 & Hw0 & _ & H1).
  set (wk := p_indented P w (valueToQuotedStringN k)) in *.
  destruct (Hwr (p_put P wk (colonSymbol_ st))) as (w' & bl & t & Hw' & Ht & Hbl & _ & H2).
  { eapply lp_ready; [apply lp_put|]. by eapply lp_ready. }
  exists w', w0, c1, (c2 ++ bl), t.
  split_and!; [done|by apply quote_loop_utf8|done|done|done|by apply Forall_app|].
  eapply wrote_after; [exact H1|eapply lp_trans; [apply lp_put|exact H2]|].
  by rewrite E, valueToQuotedStringN_loop, <-!app_assoc.
Qed.
Lemma members_written fuel v m suf w :
  payload v = objectValue m -> sorted CZString_ltb m ->
  suf <> [] -> (forall kv, In kv suf -> In kv m) -> Forall member_ok suf ->
  Forall (fun kv => key_ok (fst kv)) suf -> Forall (fun kv => writes fuel (snd kv)) suf -> ready w ->
  exists w' o, print_members P (print_value P fuel) w v (map fst suf) = Ret w' /\ wrote w w' o /\
    forall bl, blank bl -> members (map json_member suf) (o ++ bl ++ #"}").
Proof.
  intros Hp Hs. revert w. induction suf as [|[k u] suf IH]; [done|].
  intros w _ Hin [(Hk & Hlk & Hu) Hall]%Forall_cons [Hko Hkos]%Forall_cons [Hwr Hwrs]%Forall_cons Hr.
  cbn [fst snd] in *. cbn [map print_members fst].
  rewrite (member_const_in v m k u) by (done || by apply Hin; left). cbn [obind].
  rewrite lp_before by auto with webcc.
  destruct (member_written fuel k u w) as (w' & w0 & c1 & c2 & t & Hw' & Hq & Ht & Hw0 & Hc1 & Hc2 & H1);
    [done..|].
  rewrite Hw'. cbn [obind]. rewrite !lp_after by auto with webcc.
  destruct suf as [|kv suf].
  - cbn [map]. eexists w', _. split_and!; [done|exact H1|]. intros bl' Hbl'. rewrite <-!app_assoc.
    by apply (m_last w0 k (quote_loop 0 k) c1 c2 (json_of st u) t bl').
  - destruct (IH (p_put P w' #",")) as (w2 & o & Hw2 & Ho & Hm);
      [done|intros; apply Hin; by right|done|done|done|by eapply lp_ready; [|eapply lp_ready]|].
    cbn [map] in Hw2 |- *. exists w2. eexists.
    split_and!; [exact Hw2|by eapply lp_trans; [exact H1|eapply lp_trans; [apply lp_put|exact Ho]]|].
    intros bl' Hbl'. rewrite <-!app_assoc.
    apply (m_cons w0 k (quote_loop 0 k) c1 c2 (json_of st u) t []); auto. constructor.
Qed.
Lemma writes_object fuel m c a b :
  m <> [] -> writable (mkValue (objectValue m) c a b) ->
  Forall (fun kv => key_ok (fst kv)) m -> Forall (fun kv => writes fuel (snd kv)) m ->
  writes (S fuel) (mkValue (objectValue m) c a b).
Proof.
  intros Hne (Hc & Hs & _ & Hok%foldr_Forall) Hko Hwr w Hr.
  cbn [print_value payload]. unfold print_object.
  change (getMemberNames _) with (Ret (map fst m)). cbn [obind].
  destruct m as [|kv m]; [done|].
  cbn [map]. cbv iota zeta. change (fst kv :: map fst m) with (map fst (kv :: m)).
  destruct (members_written fuel (mkValue (objectValue (kv :: m)) c a b) (kv :: m) (kv :: m)
              (p_indent P (p_indented P w #"{"))) as (w2 & o & Hw2 & Ho & Hm); try done.
  { apply lp_indent. destruct (lp_indented w #"{" Hr) as (bl & _ & _ & H). by eapply lp_ready. }
  rewrite Hw2. cbn [obind].
  destruct (wrote_container w #"{" o #"}" w2 Hr Ho) as (bl & bl' & Hbl & Hst & Hbl' & H).
  eexists _, bl, (#"{" ++ o ++ bl' ++ #"}"). split_and!; [done| |done|done|exact H].
  apply t_obj. by apply Hm.
Qed.

(** *** Arrays *)
Lemma index_const_numbered v pre x suf :
  payload v = arrayValue (numbered 0 (pre ++ x :: suf)) ->
  index_const v (N.of_nat (length pre)) = Ret x.
Proof.
  intros Hp. unfold index_const, isNull, isArray, type. rewrite Hp. cbn.
  unfold get_child. rewrite Hp. rewrite (map_find_in N.ltb _ _ x); [done|apply numbered_sorted|].
  apply (numbered_in 0).
Qed.
(** The indices from [i] on. *)
Abbreviation from i n := (map N.of_nat (seq i n)).
Lemma next_index (pre : list Value) u : S (length pre) = length (pre ++ [u]).
Proof. rewrite length_app. cbn. lia. Qed.

(** One element, and the elements behind it. *)
Definition elements_done (w : W) (suf : list Value) (r : outcome W) : Prop :=
  exists w' o, r = Ret w' /\ wrote w w' o /\
    forall bl, blank bl -> elements (map (json_of st) suf) (o ++ bl ++ #"]").
Lemma elements_done_last w u w' bl t :
  blank bl -> text (json_of st u) t -> wrote w w' (bl ++ t) -> elements_done w [u] (Ret w').
Proof.
  intros Hbl Ht H. exists w'. eexists. split_and!; [done|exact H|]. intros bl' Hbl'.
  rewrite <-!app_assoc. by apply (e_last bl (json_of st u) t bl').
Qed.
Lemma elements_done_cons w u w' bl t suf r :
  blank bl -> text (json_of st u) t -> wrote w w' (bl ++ t) ->
  elements_done (p_put P w' #",") suf r -> elements_done w (u :: suf) r.
Proof.
  intros Hbl Ht H (w2 & o & -> & Ho & He). exists w2. eexists.
  split_and!; [done|eapply lp_trans; [exact H|eapply lp_trans; [apply lp_put|exact Ho]]|].
  intros bl' Hbl'. rewrite <-!app_assoc. apply (e_cons bl (json_of st u) t []); auto. constructor.
Qed.
Lemma elements_written fuel v pre suf w :
  payload v = arrayValue (numbered 0 (pre ++ suf)) -> suf <> [] ->
  Forall writable suf -> Forall (writes fuel) suf -> ready w ->
  elements_done w suf
    (print_elements P (print_value P fuel) w v false (from (length pre) (length suf))).
Proof.
  revert pre w. induction suf as [|u suf IH]; [done|].
  intros pre w Hp _ [Hu Hus]%Forall_cons [Hwr Hwrs]%Forall_cons Hr.
  cbn [length seq map print_elements].
  rewrite (index_const_numbered v pre u suf) by done. cbn [obind].
  rewrite lp_before by auto with webcc. destruct (lp_line w Hr) as (b1 & Hb1 & H1).
  destruct (Hwr (p_line P w)) as (w' & b2 & t & Hw' & Ht & Hb2 & _ & H2); [by eapply lp_ready|].
  rewrite Hw'. cbn [obind]. rewrite !lp_after by auto with webcc.
  assert (H : wrote w (p_unline P w') ((b1 ++ b2) ++ t)).
  { eapply wrote_after; [exact H1|eapply lp_trans; [exact H2|apply lp_unline]|].
    by rewrite app_nil_r, <-app_assoc. }
  assert (Hb : blank (b1 ++ b2)) by by apply Forall_app.
  destruct suf as [|u2 suf]; [by eapply elements_done_last|].
  cbn [length seq map]. change (N.of_nat (S (length pre)) :: from (S (S (length pre))) (length suf))
    with (from (S (length pre)) (length (u2 :: suf))).
  apply (elements_done_cons w u _ _ t _ _ Hb Ht H). rewrite (next_index pre u).
  apply IH; [by rewrite <-app_assoc|done|done|done|]. eapply lp_ready; [apply lp_put|by eapply lp_ready].
Qed.

(** The texts that were measured: one for each element. *)
Lemma elements_from_texts rec v pre suf tpre ts w :
  payload v = arrayValue (numbered 0 (pre ++ suf)) -> suf <> [] -> Forall writable suf ->
  p_children P w = tpre ++ ts -> length tpre = length pre ->
  Forall2 (fun u t => text (json_of st u) t) suf ts -> ready w ->
  elements_done w suf (print_elements P rec w v true (from (length pre) (length suf))).
Proof.
  revert pre tpre ts w. induction suf as [|u suf IH]; [done|].
  intros pre tpre ts w Hp _ [Hu Hus]%Forall_cons Hc Hl Hts Hr.
  inversion Hts as [|? t ? ts' Ht Hts']; subst. cbn [length seq map print_elements].
  rewrite (index_const_numbered v pre u suf) by done. cbn [obind].
  rewrite lp_before, Nat2N.id, Hc by auto with webcc.
  assert (nth (length pre) (tpre ++ t :: ts') [] = t) as ->.
  { rewrite <-Hl, app_nth2, Nat.sub_diag by lia. done. }
  rewrite !lp_after by auto with webcc. destruct (lp_indented w t Hr) as (bl & Hbl & _ & H1).
  destruct suf as [|u2 suf]; [by eapply elements_done_last|].
  cbn [length seq map]. change (N.of_nat (S (length pre)) :: from (S (S (length pre))) (length suf))
    with (from (S (length pre)) (length (u2 :: suf))).
  apply (elements_done_cons w u _ _ t _ _ Hbl Ht H1). rewrite (next_index pre u).
  apply (IH _ (tpre ++ [t]) ts'); try done.
  - by rewrite <-app_assoc.
  - by rewrite lp_children_put, lp_children_indented, Hc, <-app_assoc.
  - by rewrite !length_app, Hl.
  - eapply lp_ready; [apply lp_put|by eapply lp_ready].
Qed.

(** An array on one line. *)
Fixpoint joined (ts : list str) : str :=
  match ts with [] => [] | [t] => t | t :: ts => t ++ p_separator P ++ joined ts end.
Lemma joined_elements suf ts bl bl' :
  suf <> [] -> Forall2 (fun u t => text (json_of st u) t) suf ts -> blank bl -> blank bl' ->
  elements (map (json_of st) suf) (bl ++ joined ts ++ bl' ++ #"]").
Proof.
  destruct lp_separator as (pad & Hpad & Hsep).
  intros Hne H. revert Hne bl. induction H as [|u t suf ts Ht H IH]; [done|]. intros _ bl Hbl Hbl'.
  destruct H as [|u2 t2 suf ts Ht2 H].
  - by apply (e_last bl (json_of st u) t bl').
  - change (joined (t :: t2 :: ts)) with (t ++ p_separator P ++ joined (t2 :: ts)). rewrite Hsep, <-!app_assoc.
    apply (e_cons bl (json_of st u) t []); [done|done|constructor|]. by apply IH.
Qed.
Definition line_step (w : W) (i : N) : W :=
  p_put P (if (0 <? i)%N then p_put P w (p_separator P) else w) (nth (N.to_nat i) (p_children P w) []).
Lemma single_line_loop w tpre ts : ts <> [] -> p_children P w = tpre ++ ts ->
  wrote w (fold_left line_step (from (length tpre) (length ts)) w)
    ((match tpre with [] => [] | _ => p_separator P end) ++ joined ts).
Proof.
  revert w tpre. induction ts as [|t ts IH]; [done|]. intros w tpre _ Hc.
  cbn [length seq map fold_left]. unfold line_step at 2. rewrite Nat2N.id.
  assert (nth (length tpre) (p_children P w) [] = t) as ->.
  { by rewrite Hc, app_nth2, Nat.sub_diag by lia. }
  set (w1 := if (0 <? N.of_nat (length tpre))%N then p_put P w (p_separator P) else w).
  assert (wrote w w1 (match tpre with [] => [] | _ => p_separator P end) /\
          p_children P w1 = p_children P w) as (H1 & Hc1).
  { subst w1. destruct tpre as [|x tpre]; [by split; [apply lp_refl|]|].
    assert ((0 <? N.of_nat (length (x :: tpre)))%N = true) as -> by (apply N.ltb_lt; cbn; lia).
    by split; [apply lp_put|rewrite lp_children_put]. }
  destruct ts as [|t2 ts].
  { eapply wrote_after; [exact H1|apply lp_put|done]. }
  replace (S (length tpre)) with (length (tpre ++ [t])) by (rewrite length_app; cbn; lia).
  pose proof (IH (p_put P w1 t) (tpre ++ [t]) ltac:(done)) as H3.
  rewrite lp_children_put, Hc1, Hc, <-app_assoc in H3. specialize (H3 eq_refl).
  eapply wrote_after; [exact H1|eapply lp_trans; [apply lp_put|exact H3]|]. by destruct tpre.
Qed.
Lemma single_line_wrote w suf ts :
  suf <> [] -> Forall2 (fun u t => text (json_of st u) t) suf ts -> p_children P w = ts ->
  exists o, wrote w (print_single P w (from 0 (length suf))) (#"[" ++ o) /\
    elements (map (json_of st) suf) o.
Proof.
  intros Hne Hts Hc. unfold print_single. fold line_step.
  change (fold_left (fun w i => p_put P (if (0 <? i)%N then p_put P w (p_separator P) else w)
    (nth (N.to_nat i) (p_children P w) []))) with (fold_left line_step).
  rewrite (Forall2_length _ _ _ Hts). destruct lp_open as (p1 & Hp1 & Ho), lp_close as (p2 & Hp2 & Hcl).
  pose proof (single_line_loop (p_open P w) [] ts) as H1. cbn [length] in H1.
  exists (p1 ++ joined ts ++ p2 ++ #"]"). split; [|by apply joined_elements].
  eapply wrote_after; [apply Ho|eapply lp_trans; [apply H1|apply Hcl]|by rewrite <-!app_assoc].
  - intros ->. inversion Hts; by subst.
  - by rewrite lp_children_open.
Qed.

(** Measuring: elements that are scalars or empty containers push one text each. *)
Definition composite (u : Value) : bool := (isArray u || isObject u) && negb (empty u).
Lemma any_composite_eq v pre suf :
  payload v = arrayValue (numbered 0 (pre ++ suf)) ->
  any_composite v (from (length pre) (length suf)) = Ret (existsb composite suf).
Proof.
  revert pre. induction suf as [|u suf IH]; [done|]. intros pre Hp. cbn [length seq map any_composite].
  rewrite (index_const_numbered v pre u suf) by done. cbn [obind existsb]. fold (composite u).
  destruct (composite u); [done|]. cbn [orb]. rewrite (next_index pre u).
  apply IH. by rewrite <-app_assoc.
Qed.
Lemma measure_pushes fuel v pre suf ts w ml ll :
  payload v = arrayValue (numbered 0 (pre ++ suf)) -> Forall2 (pushes fuel) suf ts ->
  p_adding P w = true ->
  exists ml' ll', print_measure P (print_value P fuel) w v (from (length pre) (length suf)) ml ll =
    Ret (p_set_children P w (p_children P w ++ ts), ml', ll').
Proof.
  revert pre ts w ml ll. induction suf as [|u suf IH]; intros pre ts w ml ll Hp Hts Ha;
    inversion Hts as [|? t ? ts' [Hpush _] Hts']; subst.
  - exists ml, ll. by rewrite app_nil_r, lp_set_same.
  - cbn [length seq map print_measure]. rewrite (index_const_numbered v pre u suf) by done. cbn [obind].
    rewrite Hpush. cbn [obind]. rewrite lp_push_adding, (next_index pre u) by done.
    edestruct (IH (pre ++ [u]) ts' (p_set_children P w (p_children P w ++ [t]))) as (ml' & ll' & E);
      [by rewrite <-app_assoc|done|by rewrite lp_adding_children|].
    exists ml', ll'. by rewrite E, lp_set_set, lp_children_set, <-app_assoc.
Qed.
(** What [isMultilineArray] leaves: nothing, or the texts of all elements. *)
Lemma multiline_measures fuel v l w :
  payload v = arrayValue (numbered 0 l) -> size v = N.of_nat (length l) -> p_all_multi P = false ->
  Forall (fun u => composite u = false -> exists t, pushes fuel u t) l -> ready w ->
  exists w' multi, print_multiline P (print_value P fuel) w v = Ret (w', multi) /\
    wrote w w' [] /\ (at_start w -> at_start w') /\
    (p_children P w' = [] /\ multi = true \/
     Forall2 (fun u t => text (json_of st u) t) l (p_children P w')).
Proof.
  intros Hp Hs Hall Hl Hr. unfold print_multiline. rewrite Hs. unfold indices.
  rewrite Nat2N.id. pose proof (any_composite_eq v [] l Hp) as Hany. cbn [length] in Hany.
  destruct (lp_clear w Hall Hr) as [H0 Hst0].
  destruct (rightMargin_ <=? _); cbn [obind].
  { eexists _, true. split_and!; [done|done|done|left; by rewrite lp_children_set]. }
  rewrite Hany. cbn [obind]. destruct (existsb composite l) eqn:E.
  { eexists _, true. split_and!; [done|done|done|left; by rewrite lp_children_set]. }
  assert (exists ts, Forall2 (pushes fuel) l ts) as [ts Hts].
  { apply Forall_choice. apply List.Forall_forall. intros u Hu.
    apply (proj1 (List.Forall_forall _ l) Hl u Hu). destruct (composite u) eqn:Ec; [|done].
    rewrite <-E. symmetry. apply existsb_exists. by exists u. }
  edestruct (measure_pushes fuel v [] l ts (p_set_adding P (p_set_children P w []) true))
    as (ml & ll & ->); [done|done|apply lp_adding|]. cbn [obind].
  rewrite lp_children_adding, lp_children_set. cbn [app].
  destruct (lp_measured w ts Hall Hr) as (H1 & Hst1 & Hc1).
  eexists _, _. split_and!; [done|exact H1|exact Hst1|]. right. rewrite Hc1.
  eapply Forall2_impl; [exact Hts|]. by intros u t [_ Ht].
Qed.

Lemma writes_elements fuel v l :
  payload v = arrayValue (numbered 0 l) -> size v = N.of_nat (length l) -> l <> [] ->
  (N.of_nat (length l) <= 2147483647)%N ->
  json_of st v = JArr (map (json_of st) l) -> Forall writable l -> Forall (writes fuel) l ->
  Forall (fun u => composite u = false -> exists t, pushes fuel u t) l ->
  writes (S fuel) v.
Proof.
  intros Hp Hsize Hne Hmax Hjson Hok Hwr Hsimple w Hr. cbn [print_value]. rewrite Hp.
  unfold print_array. cbv zeta. rewrite Hsize, Hjson.
  assert (Hmax' : (N.of_nat (length (map (json_of st) l)) <= 2147483647)%N) by by rewrite length_map.
  assert ((N.of_nat (length l) =? 0)%N = false) as -> by (apply N.eqb_neq; by destruct l).
  assert (exists w0 multi,
    (if p_all_multi P then Ret (w, true) else print_multiline P (print_value P fuel) w v) =
      Ret (w0, multi) /\
    wrote w w0 [] /\ (at_start w -> at_start w0) /\
    (p_children P w0 = [] /\ multi = true \/
     Forall2 (fun u t => text (json_of st u) t) l (p_children P w0)))
    as (w0 & multi & -> & H0 & Hst0 & Hc0).
  { destruct (p_all_multi P) eqn:Hall.
    - exists w, true. split_and!; [done|apply lp_refl|done|]. left. split; [by apply lp_all_multi|done].
    - by apply multiline_measures. }
  cbn [obind]. pose proof (lp_ready _ _ _ H0 Hr) as Hr0. unfold indices. rewrite Nat2N.id.
  destruct multi.
  - set (w1 := p_indent P (p_indented P w0 #"[")).
    assert (Hr1 : ready w1).
    { apply lp_indent. destruct (lp_indented w0 #"[" Hr0) as (bl & _ & _ & H1). by eapply lp_ready. }
    assert (Hc1 : p_children P w1 = p_children P w0).
    { subst w1. by rewrite lp_children_indent, lp_children_indented. }
    assert (elements_done w1 l (print_elements P (print_value P fuel) w1 v
      (match p_children P w1 with [] => false | _ => true end) (from 0 (length l))))
      as (w2 & o & -> & Ho & He).
    { destruct Hc0 as [[Hc0 _]|Hc0].
      - rewrite Hc1, Hc0. by apply (elements_written fuel v [] l w1).
      - rewrite Hc1. destruct (p_children P w0) as [|t ts] eqn:E; [by inversion Hc0; subst|].
        by apply (elements_from_texts _ v [] l [] (t :: ts) w1). }
    cbn [obind]. destruct (wrote_container w0 #"[" o #"]" w2 Hr0 Ho) as (bl & bl' & Hbl & Hst & Hbl' & H).
    eexists _, bl, (#"[" ++ o ++ bl' ++ #"]"). split_and!; [done| |done|by auto|].
    + apply t_arr; [by apply He|done].
    + eapply wrote_after; [exact H0|exact H|done].
  - destruct Hc0 as [[_ ?]|Hc0]; [done|].
    destruct (single_line_wrote w0 l _ Hne Hc0 eq_refl) as (o & Hwrote & He).
    eexists _, [], (#"[" ++ o). split_and!; [done|apply t_arr; [exact He|done]|constructor|done|].
    eapply wrote_after; [exact H0|exact Hwrote|done].
Qed.
Lemma size_array m c a b :
  writable (mkValue (arrayValue m) c a b) -> size (mkValue (arrayValue m) c a b) = N.of_nat (length m).
Proof.
  intros (_ & Hm & Hlen & _). unfold size. cbn [payload].
  destruct (map snd m) as [|x l _] eqn:E using rev_ind; [by destruct m|].
  pose proof (size_numbered l x) as Hs. rewrite <-Hm in Hs.
  destruct (rev m) as [|[i y] m']; [done|]. unfold ArrayIndex_wrap.
  rewrite Hs, <-E, length_map, N.mod_small; [done|lia].
Qed.
Lemma writes_array fuel m c a b :
  m <> [] -> writable (mkValue (arrayValue m) c a b) ->
  Forall (fun kv => writes fuel (snd kv)) m ->
  Forall (fun kv => composite (snd kv) = false -> exists t, pushes fuel (snd kv) t) m ->
  writes (S fuel) (mkValue (arrayValue m) c a b).
Proof.
  intros Hne Hw Hwr Hsimple. pose proof Hw as (Hc & Hm & Hlen & Hok%(foldr_Forall (fun kv =>
    writable (snd kv)))).
  apply (writes_elements fuel _ (map snd m)).
  - exact (f_equal arrayValue Hm).
  - rewrite length_map. by apply size_array.
  - by destruct m.
  - by rewrite length_map.
  - cbn. by rewrite map_map.
  - by rewrite Forall_map.
  - by rewrite Forall_map.
  - by rewrite Forall_map.
Qed.

(** *** All values *)
(** The keys of a value, hereditarily. *)
Fixpoint keys_ok (v : Value) : Prop :=
  let 'mkValue p _ _ _ := v in
  match p with
  | arrayValue m => foldr (fun kv Q => keys_ok (snd kv) /\ Q) True m
  | objectValue m => foldr (fun kv Q => (key_ok (fst kv) /\ keys_ok (snd kv)) /\ Q) True m
  | _ => True
  end.
(** A scalar or an empty container. *)
Lemma simple_pushes fuel u : writable u -> composite u = false -> exists t, pushes (S fuel) u t.
Proof.
  pose proof lp_style as Hst.
  intros Hw Hc. destruct u as [[|z|z|d|s|b'|m|m] c a b]; pose proof Hw as [_ Hp].
  - exists (nullSymbol_ st). split; [done|]. rewrite js_null by done. apply t_null.
  - eexists. split; [done|]. apply t_num, valueToString_int_number.
  - eexists. split; [done|]. apply t_num, valueToString_uint_number.
  - eexists. split; [done|]. cbn [json_of asDouble payload].
    destruct (isnan d) eqn:E; [|by apply t_num, real_number].
    destruct d; try done. unfold real_text, valueToString_double, special_rep. cbn.
    rewrite js_special by done. apply t_null.
  - destruct Hp as [Hs Hl]. eexists. split; [done|]. cbn [getString payload].
    rewrite valueToQuotedStringN_loop. apply t_str; [by apply quote_loop_utf8|done].
  - eexists. split; [done|]. destruct b'; [apply t_true|apply t_false].
  - unfold composite, empty in Hc. rewrite (size_array m c a b Hw) in Hc.
    destruct m; [|done]. eexists. split; [done|]. apply (t_arr_empty []). constructor.
  - unfold composite, empty in Hc. cbn in Hc. destruct Hp as (_ & Hlen & _). unfold ArrayIndex_wrap in Hc.
    rewrite N.mod_small in Hc by done. destruct m; [|done].
    eexists. split; [done|]. apply (t_obj_empty []). constructor.
Qed.
Lemma writes_all v fuel : writable v -> keys_ok v -> (depth v <= fuel)%nat -> writes fuel v.
Proof.
  revert fuel. induction v as [[p c a b] IH] using Value_depth_ind. intros fuel Hw Hk Hd.
  destruct fuel as [|fuel]; [destruct p; cbn in Hd; lia|].
  destruct (composite (mkValue p c a b)) eqn:Ec;
    [|destruct (simple_pushes fuel _ Hw Ec) as [t Ht]; by eapply pushes_writes].
  pose proof Hw as (Hc & Hp). destruct p as [|z|z|d|s|b'|m|m]; try done.
  - destruct Hp as (_ & _ & Hall%(foldr_Forall (fun kv => writable (snd kv)))).
    apply (foldr_Forall (fun kv => keys_ok (snd kv))) in Hk.
    apply writes_array; [by intros ->|done|..]; apply List.Forall_forall; intros kv Hin;
      pose proof (depth_element kv m c a b Hin) as Hlt;
      pose proof (proj1 (List.Forall_forall _ m) Hall kv Hin) as Hkv.
    + apply IH; [done|done| |lia]. by apply (proj1 (List.Forall_forall _ m) Hk).
    + intros Hs. destruct fuel as [|fuel]; [destruct (snd kv) as [[] ? ? ?]; cbn in Hlt, Hd; lia|].
      by apply simple_pushes.
  - destruct Hp as (_ & _ & Hall%(foldr_Forall member_ok)).
    apply (foldr_Forall (fun kv => key_ok (fst kv) /\ keys_ok (snd kv))) in Hk.
    apply writes_object; [by intros ->|done|by eapply Forall_impl; [exact Hk|intros kv [? _]]|].
    apply List.Forall_forall. intros kv Hin.
    pose proof (depth_member kv m c a b Hin) as Hlt. apply IH; [done| | |lia].
    + by apply (proj1 (List.Forall_forall _ m) Hall).
    + by apply (proj1 (List.Forall_forall _ m) Hk).
Qed.
(** From the start of a document: the text of the value and nothing else. *)
Theorem printer_writes v fuel w :
  writable v -> keys_ok v -> (depth v <= fuel)%nat -> ready w -> at_start w ->
  exists w' t, print_value P fuel w v = Ret w' /\ text (json_of st v) t /\
    p_document P w' = p_document P w ++ t.
Proof.
  intros Hw Hk Hd Hr Hs. destruct (writes_all v fuel Hw Hk Hd w Hr) as (w' & bl & t & H & Ht & _ & Hbl & Hwr).
  exists w', t. rewrite (Hbl Hs) in Hwr. split_and!; [done|done|by apply lp_document in Hwr].
Qed.
End Laws.
