(* ===== verification/JsonWriterLaws.v ===== *)
(** * JSON: laws of the writer

    [BuiltStyledStreamWriter] is a lawful printer in every configuration that indents with
    blanks and writes nulls: it turns every value without comments into a JSON text
    which stands for the value itself. *)
From Stdlib Require Import Ascii String.
From stdpp Require Import base tactics list numbers option strings.
From S2P Require Import Prelude Globals Double JsonText JsonValue JsonWriter JsonLaws.
From S2P Require Import JsonGrammar JsonWritten JsonPrinter.
Open Scope Z_scope.

Definition line_pad (st : Style) : str := match indentation_ st with [] => [] | _ => #" " end.
Definition line_separator (st : Style) : str := match indentation_ st with [] => #"," | _ => #", " end.
(** The printer, and that its functions are those of the source. *)
Definition built (st : Style) : Printer Writer :=
  {| p_style := st; p_all_multi := bool_decide (cs_ st = CommentsAll);
     p_quote_key := valueToQuotedStringN; p_document := sout_; p_children := childValues_;
     p_adding := addChildValues_; p_put := put; p_push := pushValue;
     p_set_children := set_children; p_set_adding := set_add; p_indented := writeWithIndent st;
     p_line := fun w => set_indented (unless_indented st w) true;
     p_unline := fun w => set_indented w false; p_indent := indent st; p_unindent := unindent st;
     p_before := writeCommentBeforeValue st; p_after := writeCommentAfterValueOnSameLine st;
     p_open := fun w => put (put w #"[") (line_pad st); p_separator := line_separator st;
     p_close := fun w => put (put w (line_pad st)) #"]" |}.
Lemma built_writeValue st : writeValue st = print_value (built st).
Proof. reflexivity. Qed.

Definition stream_ready (all_multi : bool) (w : Writer) : Prop :=
  (all_multi = true -> childValues_ w = []) /\ addChildValues_ w = false /\ blank (indentString_ w).
Definition stream_wrote (all_multi : bool) (w w' : Writer) (t : str) : Prop :=
  sout_ w' = sout_ w ++ t /\ (all_multi = true -> childValues_ w' = childValues_ w) /\
  addChildValues_ w' = addChildValues_ w /\ indentString_ w' = indentString_ w.
Lemma stream_wrote_put b w t : stream_wrote b w (put w t) t.
Proof. by split_and!. Qed.
Lemma stream_wrote_trans b w1 w2 w3 t1 t2 :
  stream_wrote b w1 w2 t1 -> stream_wrote b w2 w3 t2 -> stream_wrote b w1 w3 (t1 ++ t2).
Proof.
  intros (H1 & H2 & H3 & H4) (G1 & G2 & G3 & G4). split_and!; [|by intros; rewrite G2, H2|congruence..].
  by rewrite G1, H1, app_assoc.
Qed.
Lemma stream_wrote_two b w s t : stream_wrote b w (put (put w s) t) (s ++ t).
Proof. exact (stream_wrote_trans _ _ _ _ _ _ (stream_wrote_put b w s) (stream_wrote_put b _ t)). Qed.
Lemma stream_wrote_same b w : stream_wrote b w w [].
Proof. split_and!; try done. by rewrite app_nil_r. Qed.
(** A line break and the indentation. *)
Lemma unless_indented_wrote st b w : stream_ready b w ->
  exists bl, blank bl /\ (indented_ w = true -> bl = []) /\ stream_wrote b w (unless_indented st w) bl /\
    childValues_ (unless_indented st w) = childValues_ w.
Proof.
  intros (_ & _ & Hb). unfold unless_indented, writeIndent. destruct (indented_ w), (indentation_ st).
  1-3: exists []; split_and!; [constructor|done|apply stream_wrote_same|done].
  exists (LF :: indentString_ w). split_and!; [by apply blank_LF|done|apply stream_wrote_put|done].
Qed.

Lemma before_nothing st w v : no_comment v -> writeCommentBeforeValue st w v = w.
Proof.
  intros H. unfold writeCommentBeforeValue, hasComment. rewrite H. by destruct (bool_decide _).
Qed.
Lemma after_nothing st w v : no_comment v -> writeCommentAfterValueOnSameLine st w v = w.
Proof.
  intros H. unfold writeCommentAfterValueOnSameLine, hasComment. rewrite H. by destruct (bool_decide _).
Qed.
#[export] Instance built_lawful st (Hst : json_style st) : LawfulPrinter (built st).
Proof.
  set (b := bool_decide (cs_ st = CommentsAll)).
  refine {| ready := stream_ready b; wrote := stream_wrote b; at_start w := indented_ w = true;
            key_ok _ := True |}; try done; cbn.
  - apply stream_wrote_same.
  - apply stream_wrote_trans.
  - intros w w' t (_ & H2 & H3 & H4) (G1 & G2 & G3). split_and!; [by intros; rewrite H2, G1|congruence..].
  - by intros w w' t [].
  - intros w t (_ & Ha & _). unfold pushValue. rewrite Ha. apply stream_wrote_put.
  - intros w t Hr. destruct (unless_indented_wrote st b w Hr) as (bl & Hbl & Hs & H & _).
    exists bl. split_and!; [done|done|].
    exact (stream_wrote_trans _ _ _ _ _ _ H (stream_wrote_put _ _ t)).
  - intros w Hr. destruct (unless_indented_wrote st b w Hr) as (bl & Hbl & Hs & H & _). by exists bl.
  - intros w. split_and!; [cbn; by rewrite app_nil_r|done..].
  - intros w (H1 & H2 & H3). split_and!; [done|done|]. apply Forall_app. split; [done|]. apply Hst.
  - intros w w' t (H1 & H2 & H3 & H4). split_and!; try done. cbn in *. rewrite H4.
    rewrite length_app, Nat.add_sub. apply take_app_exact.
  - apply before_nothing.
  - apply after_nothing.
  - exists (line_pad st). split; [unfold line_pad; destruct (indentation_ st); by repeat constructor|].
    intros w. apply (stream_wrote_two b w #"[").
  - exists (line_pad st). unfold line_pad, line_separator.
    destruct (indentation_ st); split; done || by repeat constructor.
  - exists (line_pad st). split; [unfold line_pad; destruct (indentation_ st); by repeat constructor|].
    intros w. apply (stream_wrote_two b w _ #"]").
  - intros w E (H & _). by apply H.
  - intros w E Hr. split; [|done]. split_and!; try done; [by cbn; rewrite app_nil_r|intros Hb;
    unfold b in Hb; congruence].
  - intros w ts E (H1 & H2 & H3). split_and!; try done.
  split_and!; try done; [by cbn; rewrite app_nil_r|intros Hb; unfold b in Hb; congruence].
  - intros w t Ha. unfold pushValue. by rewrite Ha.
  - by intros [].
  - intros w _. unfold unless_indented, writeIndent. by destruct (indented_ w), (indentation_ st).
Defined.

(** [write] from an empty stream: the text, and what the configuration puts at the end. *)
Lemma keys_ok_all {W} (P : Printer W) `{!LawfulPrinter P} v : (forall k, key_ok k) -> keys_ok P v.
Proof.
  intros H. induction v as [[p c a b] IH] using Value_depth_ind. destruct p; try done; cbn.
  - apply foldr_Forall, List.Forall_forall. intros kv Hin. apply IH. by eapply depth_element.
  - apply foldr_Forall, List.Forall_forall. intros kv Hin. split; [done|].
    apply IH. by eapply depth_member.
Qed.
Lemma write_text st v fuel :
  json_style st -> writable v -> (depth v <= fuel)%nat ->
  exists t, write st fuel v = Ret (t ++ endingLineFeedSymbol_ st) /\ text (json_of st v) t.
Proof.
  intros Hst Hw Hd. pose (HP := built_lawful st Hst). unfold write.
  set (w0 := mkWriter [] [] [] false true).
  assert (writeCommentBeforeValue st w0 v = w0) as -> by (apply (lp_before (P:=built st)); auto with webcc).
  destruct (printer_writes (built st) v fuel w0) as (w' & t & H & Ht & Hout); try done.
  { by apply keys_ok_all. }
  { split_and!; try done. constructor. }
  change (set_indented (unless_indented st w0) true) with w0. rewrite built_writeValue, H. cbn [obind].
  assert (writeCommentAfterValueOnSameLine st w' v = w') as ->
    by (apply (lp_after (P:=built st)); auto with webcc).
  exists t. split; [|done]. cbn. cbn in Hout. by rewrite Hout.
Qed.
