(* ===== verification/JsonWritersLaws.v ===== *)
(** * JSON: the writers agree

    [StyledWriter] is a lawful printer.  [StyledStreamWriter] writes exactly what
    [BuiltStyledStreamWriter] writes with one configuration, comments included, and
    [FastWriter] what it writes with the compact ones.  So all four write JSON; but
    [StyledWriter] and [StyledStreamWriter] cut keys at a NUL. *)
From Stdlib Require Import Ascii String.
From stdpp Require Import base tactics list numbers option strings.
From S2P Require Import Prelude Globals Double JsonText JsonValue JsonWriter JsonWriters JsonLaws.
From S2P Require Import JsonTypes JsonUtf8 JsonGrammar JsonWritten JsonPrinter JsonWriterLaws.
Open Scope Z_scope.

(** ** [StyledWriter] *)
Definition stream_style (indentation : str) : Style :=
  mkStyle indentation CommentsMost #" : " #"null" [LF] false 17 significantDigits.
Lemma stream_json_style indentation : blank indentation -> json_style (stream_style indentation).
Proof.
  intros H. split; try done; [|by repeat constructor|by left].
  exists #" ", #" ". by split_and!; repeat constructor.
Qed.
Definition styled_style : Style := stream_style (repeat SP Styled.indentSize_).
Definition styled : Printer Styled.StyledWriter :=
  {| p_style := styled_style; p_all_multi := false;
     p_quote_key := valueToQuotedString; p_document := Styled.document_;
     p_children := Styled.childValues_; p_adding := Styled.addChildValues_;
     p_put := Styled.put; p_push := Styled.pushValue;
     p_set_children := Styled.set_children; p_set_adding := Styled.set_add;
     p_indented := Styled.writeWithIndent; p_line := Styled.writeIndent; p_unline := fun w => w;
     p_indent := Styled.indent; p_unindent := Styled.unindent;
     p_before := Styled.writeCommentBeforeValue; p_after := Styled.writeCommentAfterValueOnSameLine;
     p_open := fun w => Styled.put w #"[ "; p_separator := #", ";
     p_close := fun w => Styled.put w #" ]" |}.
Lemma styled_writeValue : Styled.writeValue = print_value styled.
Proof. reflexivity. Qed.

(** A key without NUL, which [c_str] does not cut. *)
Definition whole (k : str) : Prop := c_str k = k.
Definition styled_wrote (w w' : Styled.StyledWriter) (t : str) : Prop :=
  Styled.document_ w' = Styled.document_ w ++ t /\
  Styled.addChildValues_ w' = Styled.addChildValues_ w /\
  Styled.indentString_ w' = Styled.indentString_ w.
Lemma styled_wrote_put w t : styled_wrote w (Styled.put w t) t.
Proof. done. Qed.
Lemma styled_wrote_trans w1 w2 w3 t1 t2 :
  styled_wrote w1 w2 t1 -> styled_wrote w2 w3 t2 -> styled_wrote w1 w3 (t1 ++ t2).
Proof. intros (H1 & H2 & H3) (G1 & G2 & G3). split_and!; [|congruence..]. by rewrite G1, H1, app_assoc. Qed.
Lemma styled_wrote_same w : styled_wrote w w [].
Proof. split_and!; try done. by rewrite app_nil_r. Qed.
Lemma styled_writeIndent w : blank (Styled.indentString_ w) ->
  exists bl, blank bl /\ (Styled.document_ w = [] /\ Styled.indentString_ w = [] -> bl = []) /\
    styled_wrote w (Styled.writeIndent w) bl.
Proof.
  intros Hb. unfold Styled.writeIndent. destruct (rev (Styled.document_ w)) as [|last r] eqn:E.
  - exists (Styled.indentString_ w). by split_and!; [|by intros [_ H]|].
  - assert (Styled.document_ w <> []) by (intros H; by rewrite H in E).
    destruct (ceqb last SP); [exists []; by split_and!; [constructor| |apply styled_wrote_same]|].
    destruct (ceqb last LF).
    + exists (Styled.indentString_ w). by split_and!; [|by intros [? _]|].
    + exists (LF :: Styled.indentString_ w). split_and!; [by apply blank_LF|by intros [? _]|].
      exact (styled_wrote_trans _ _ _ _ _ (styled_wrote_put w [LF]) (styled_wrote_put _ _)).
Qed.
Lemma styled_children_indent w : Styled.childValues_ (Styled.writeIndent w) = Styled.childValues_ w.
Proof.
  unfold Styled.writeIndent. destruct (rev _) as [|last r]; [done|]. by destruct (ceqb last SP), (ceqb last LF).
Qed.
Lemma styled_before w v : no_comment v -> Styled.writeCommentBeforeValue w v = w.
Proof. intros H. unfold Styled.writeCommentBeforeValue, hasComment. by rewrite H. Qed.
Lemma styled_after w v : no_comment v -> Styled.writeCommentAfterValueOnSameLine w v = w.
Proof. intros H. unfold Styled.writeCommentAfterValueOnSameLine, hasComment. by rewrite H. Qed.
#[export] Instance styled_lawful : LawfulPrinter styled.
Proof.
  refine {| ready w := Styled.addChildValues_ w = false /\ blank (Styled.indentString_ w);
            wrote := styled_wrote;
            at_start w := Styled.document_ w = [] /\ Styled.indentString_ w = [];
            key_ok := whole |}; try done; cbn.
  - apply stream_json_style. by repeat constructor.
  - intros k H. unfold valueToQuotedString. by rewrite H.
  - apply styled_wrote_same.
  - apply styled_wrote_trans.
  - intros w w' t (_ & H2 & H3) (G1 & G2). by rewrite H2, H3.
  - by intros w w' t [].
  - intros w t [Ha _]. unfold Styled.pushValue. rewrite Ha. apply styled_wrote_put.
  - intros w t [_ Hb]. destruct (styled_writeIndent w Hb) as (bl & Hbl & Hs & H).
    exists bl. split_and!; [done|done|]. exact (styled_wrote_trans _ _ _ _ _ H (styled_wrote_put _ t)).
  - intros w [_ Hb]. destruct (styled_writeIndent w Hb) as (bl & Hbl & _ & H). by exists bl.
  - apply styled_wrote_same.
  - intros w [Ha Hb]. split; [done|]. apply Forall_app. split; [done|]. by repeat constructor.
  - intros w w' t (H1 & H2 & H3). split_and!; try done. cbn in *. rewrite H3, length_app.
    cbn [length]. rewrite Nat.add_sub. apply take_app_exact.
  - apply styled_before.
  - apply styled_after.
  - exists #" ". split; [by repeat constructor|done].
  - exists #" ". split; [by repeat constructor|done].
  - exists #" ". split; [by repeat constructor|done].
  - intros w _ _. split; [apply (styled_wrote_same w)|done].
  - intros w ts _ [Ha _]. split_and!; [|done|done]. split_and!; [by cbn; rewrite app_nil_r|done|done].
  - intros w t Ha. unfold Styled.pushValue. by rewrite Ha.
  - by intros [].
  - intros w _. apply styled_children_indent.
Defined.

(** ** [StyledStreamWriter] *)
(** Every key of the value is without NUL. *)
Definition whole_keys (v : Value) : Prop := keys_ok styled v.
Lemma map_find_member {K V} (ltb : K -> K -> bool) (m : list (K * V)) k v :
  map_find ltb k m = Some v -> exists k', In (k', v) m.
Proof.
  induction m as [|[k1 v1] m IH]; [done|]. cbn. destruct (ltb k1 k).
  - intros H. destruct (IH H) as [k' ?]. exists k'. by right.
  - destruct (ltb k k1); [done|]. intros [= ->]. exists k1. by left.
Qed.
(** What the const subscript operators give: a child, or null. *)
Lemma index_const_child v i u : index_const v i = Ret u ->
  u = nullSingleton \/ exists m k, payload v = arrayValue m /\ In (k, u) m.
Proof.
  unfold index_const, json_assert. destruct (_ || _); [|done]. unfold get_child.
  destruct (payload v) as [| | | | | |m|m]; intros [= <-]; try (by left).
  destruct (map_find N.ltb i m) as [x|] eqn:E; [|by left]. right.
  destruct (map_find_member _ _ _ _ E) as [k Hk]. by exists m, k.
Qed.
Lemma member_const_child v n u : member_const v n = Ret u ->
  u = nullSingleton \/ exists m k, payload v = objectValue m /\ In (k, u) m.
Proof.
  unfold member_const, find, json_assert. destruct (_ || _); [|done]. unfold get_child. cbn [obind].
  destruct (payload v) as [| | | | | |m|m]; intros [= <-]; try (by left).
  destruct (map_find CZString_ltb (CZString n) m) as [x|] eqn:E; [|by left]. right.
  destruct (map_find_member _ _ _ _ E) as [k Hk]. by exists m, k.
Qed.
Lemma whole_index v i u : whole_keys v -> index_const v i = Ret u -> whole_keys u.
Proof.
  intros Hv [->|(m & k & Hp & Hin)]%index_const_child; [done|]. destruct v as [p ? ? ?]. cbn in Hp. subst p.
  apply (foldr_Forall (fun kv => keys_ok styled (snd kv))) in Hv.
  by apply (proj1 (List.Forall_forall _ m) Hv (k, u)).
Qed.
Lemma whole_member v n u : whole_keys v -> member_const v n = Ret u -> whole_keys u.
Proof.
  intros Hv [->|(m & k & Hp & Hin)]%member_const_child; [done|]. destruct v as [p ? ? ?]. cbn in Hp. subst p.
  apply (foldr_Forall (fun kv => whole (fst kv) /\ keys_ok styled (snd kv))) in Hv.
  by apply (proj1 (List.Forall_forall _ m) Hv (k, u)).
Qed.
Lemma whole_names v names : whole_keys v -> getMemberNames v = Ret names -> Forall whole names.
Proof.
  intros Hv. unfold getMemberNames, json_assert. destruct (_ || _); [|done].
  destruct v as [[| | | | | |m|m] ? ? ?]; intros [= <-]; try constructor. cbn.
  apply (foldr_Forall (fun kv => whole (fst kv) /\ keys_ok styled (snd kv))) in Hv.
  apply Forall_map. eapply Forall_impl; [exact Hv|]. by intros kv [? _].
Qed.

(** The indentation of a line is not written twice: behind a value that did not begin a
    line there is none. *)
Definition settled (w w' : Writer) : Prop := indented_ w = false -> indented_ w' = false.
Section Settled.
Context (st : Style) (rec : Writer -> Value -> outcome Writer).
Hypothesis rec_settled : forall w v, returns (rec w v) (settled w).
Lemma measure_settled v ix w ml ll :
  returns (measure_loop rec w v ix ml ll) (fun r => settled w (fst (fst r))).
Proof.
  revert w ml ll. induction ix as [|i ix IH]; intros w ml ll; [by intros ?|]. cbn [measure_loop].
  eapply returns_then; [by apply returns_any|]. intros u _.
  eapply returns_then; [apply rec_settled|]. intros w' Hw'.
  eapply returns_weaken; [apply IH|]. intros r Hr Hi. auto.
Qed.
Lemma fold_put_indented (f : Writer -> N -> Writer) ix w :
  (forall w i, indented_ (f w i) = indented_ w) -> indented_ (fold_left f ix w) = indented_ w.
Proof. intros H. revert w. induction ix as [|i ix IH]; intros w; [done|]. cbn. by rewrite IH, H. Qed.
Lemma array_settled w v : returns (writeArrayValue st rec w v) (settled w).
Proof.
  unfold writeArrayValue. cbv zeta. destruct (_ =? _)%N.
  { cbn. unfold settled, pushValue. by destruct (addChildValues_ w). }
  eapply (returns_then _ _ (fun r => settled w (fst r))).
  - case_bool_decide; [by intros ?|]. unfold isMultilineArray. cbv zeta.
    eapply returns_then; [by apply returns_any|]. intros [] _; [by intros ?|].
    eapply returns_then; [apply measure_settled|]. by intros [[w' ml] ll] Hm.
  - intros [w' []] H; [|].
    + eapply returns_then; [by apply returns_any|]. by intros w2 _.
    + cbn in *. intros Hi. unfold single_line. cbn. rewrite fold_put_indented; [by apply H|].
      intros w2 i. cbn. by destruct (0 <? i)%N.
Qed.
Lemma object_settled w v : returns (writeObjectValue st rec w v) (settled w).
Proof.
  unfold writeObjectValue. eapply returns_then; [by apply returns_any|]. intros [|name names] _.
  { cbn. unfold settled, pushValue. by destruct (addChildValues_ w). }
  eapply returns_then; [by apply returns_any|]. by intros w2 _.
Qed.
End Settled.
Lemma push_settled w t : settled w (pushValue w t).
Proof. unfold settled, pushValue. by destruct (addChildValues_ w). Qed.
Lemma value_settled st fuel w v : returns (writeValue st fuel w v) (settled w).
Proof.
  revert w v. induction fuel as [|fuel IH]; intros w v; [done|]. cbn [writeValue].
  destruct (payload v); try apply push_settled;
    try (eapply returns_then; [by apply returns_any|]; intros; apply push_settled).
  - destruct (getString v); apply push_settled.
  - by apply array_settled.
  - by apply object_settled.
Qed.

(** With an indentation the two classes have one layout. *)
Section Stream.
Context (ind : str) (Hind : ind <> []).
Abbreviation st := (stream_style ind).

Lemma stream_indent w : Stream.writeIndent w = writeIndent st w.
Proof. unfold writeIndent. cbn. by destruct ind. Qed.
Lemma stream_unless w : Stream.unless_indented w = unless_indented st w.
Proof. unfold Stream.unless_indented, unless_indented. by rewrite stream_indent. Qed.
Lemma stream_with w s : Stream.writeWithIndent w s = writeWithIndent st w s.
Proof. unfold Stream.writeWithIndent, writeWithIndent. by rewrite stream_unless. Qed.
Lemma stream_before w v : Stream.writeCommentBeforeValue w v = writeCommentBeforeValue st w v.
Proof. unfold Stream.writeCommentBeforeValue, writeCommentBeforeValue. cbn. by rewrite stream_unless. Qed.
Lemma after_indented w v : indented_ (writeCommentAfterValueOnSameLine st w v) = indented_ w.
Proof.
  unfold writeCommentAfterValueOnSameLine, writeIndent. cbn. destruct ind;
    by destruct (hasComment v commentAfterOnSameLine), (hasComment v commentAfter).
Qed.
Lemma set_indented_false w : indented_ w = false -> set_indented w false = w.
Proof. destruct w. cbn. by intros ->. Qed.
Lemma stream_after w v : indented_ w = false ->
  Stream.writeCommentAfterValueOnSameLine w v = writeCommentAfterValueOnSameLine st w v.
Proof.
  intros Hi. pose proof (after_indented w v) as Ha. rewrite Hi in Ha.
  rewrite <-(set_indented_false _ Ha). unfold Stream.writeCommentAfterValueOnSameLine.
  cbv zeta. rewrite stream_indent. done.
Qed.

Section Rec.
Context (rec rec' : Writer -> Value -> outcome Writer).
Hypothesis Hrec : forall w v, whole_keys v -> rec w v = rec' w v.
Hypothesis Hsettled : forall w v, returns (rec' w v) (settled w).

Lemma stream_members w v names : whole_keys v -> Forall whole names -> indented_ w = false ->
  Stream.members_loop rec w v names = members_loop st rec' w v names.
Proof.
  intros Hv Hn. revert w. induction Hn as [|n names Hk Hn IH]; intros w Hi; [done|].
  cbn [Stream.members_loop members_loop]. destruct (member_const v n) as [u| |] eqn:Eu; try done. cbn [obind].
  rewrite stream_before, stream_with. unfold valueToQuotedString. rewrite Hk.
  rewrite Hrec by by eapply whole_member.
  set (w1 := put (writeWithIndent st (writeCommentBeforeValue st w u) (valueToQuotedStringN n)) #" : ").
  pose proof (Hsettled w1 u) as Hs. change (colonSymbol_ st) with #" : ". fold w1.
  destruct (rec' w1 u) as [w2| |]; try done. cbn in Hs. cbn [obind]. specialize (Hs eq_refl).
  destruct names as [|n2 names]; [by rewrite stream_after|].
  rewrite stream_after by done. apply IH. by rewrite after_indented.
Qed.
Lemma stream_object w v : whole_keys v -> Stream.writeObjectValue ind rec w v = writeObjectValue st rec' w v.
Proof.
  intros Hv. unfold Stream.writeObjectValue, writeObjectValue.
  destruct (getMemberNames v) as [names| |] eqn:E; try done. cbn [obind].
  pose proof (whole_names _ _ Hv E) as Hn. destruct names as [|n names]; [done|].
  rewrite stream_with. change (Stream.indent ind) with (indent st).
  rewrite stream_members by done. destruct (members_loop _ _ _ _ _); try done. cbn [obind].
  by rewrite stream_with.
Qed.
Lemma stream_measure w v ix ml ll : whole_keys v ->
  Stream.measure_loop rec w v ix ml ll = measure_loop rec' w v ix ml ll.
Proof.
  intros Hv. revert w ml ll. induction ix as [|i ix IH]; intros w ml ll; [done|].
  cbn [Stream.measure_loop measure_loop]. destruct (index_const v i) as [u| |] eqn:E; try done.
  cbn [obind]. rewrite Hrec by by eapply whole_index. destruct (rec' w u); try done. apply IH.
Qed.
Lemma stream_multiline w v : whole_keys v -> Stream.isMultilineArray rec w v = isMultilineArray rec' w v.
Proof.
  intros Hv. unfold Stream.isMultilineArray, isMultilineArray. cbv zeta.
  destruct (if rightMargin_ <=? _ then _ else _) as [[]| |]; try done. cbn [obind].
  by rewrite stream_measure.
Qed.
Lemma stream_elements w v b ix : whole_keys v ->
  Stream.elements_loop rec w v b ix = elements_loop st rec' w v b ix.
Proof.
  intros Hv. revert w. induction ix as [|i ix IH]; intros w; [done|].
  cbn [Stream.elements_loop elements_loop]. destruct (index_const v i) as [u| |] eqn:E; try done.
  cbn [obind]. rewrite stream_before, stream_with, stream_unless. rewrite Hrec by by eapply whole_index.
  assert (forall w2, indented_ w2 = false ->
    match ix with
    | [] => Ret (Stream.writeCommentAfterValueOnSameLine w2 u)
    | _ => Stream.elements_loop rec (Stream.writeCommentAfterValueOnSameLine (put w2 #",") u) v b ix
    end =
    match ix with
    | [] => Ret (writeCommentAfterValueOnSameLine st w2 u)
    | _ => elements_loop st rec' (writeCommentAfterValueOnSameLine st (put w2 #",") u) v b ix
    end) as H.
  { intros w2 Hi. rewrite !stream_after by done. destruct ix; [done|apply IH]. }
  destruct b; cbn [obind]; [by apply H|]. destruct (rec' _ u); try done. cbn [obind]. by apply H.
Qed.
Lemma stream_single w ix : Stream.single_line w ix = single_line st w ix.
Proof.
  unfold Stream.single_line, single_line. cbn [indentation_ st]. destruct ind; [done|].
  assert (forall w s t, put (put w s) t = put w (s ++ t)) as Hp.
  { intros w' s t. unfold put. cbn. by rewrite app_assoc. }
  by rewrite !Hp.
Qed.
Lemma stream_array w v : whole_keys v -> Stream.writeArrayValue ind rec w v = writeArrayValue st rec' w v.
Proof.
  intros Hv. unfold Stream.writeArrayValue, writeArrayValue. cbv zeta. destruct (_ =? _)%N; [done|].
  change (bool_decide (cs_ st = CommentsAll)) with false. cbv iota. rewrite stream_multiline by done.
  destruct (isMultilineArray rec' w v) as [[w' []]| |]; try done; cbn [obind]; [|by rewrite stream_single].
  rewrite stream_with, stream_elements by done. change (Stream.indent ind) with (indent st).
  destruct (elements_loop _ _ _ _ _ _); try done. cbn [obind]. by rewrite stream_with.
Qed.
End Rec.

Lemma stream_value fuel w v : whole_keys v -> Stream.writeValue ind fuel w v = writeValue st fuel w v.
Proof.
  revert w v. induction fuel as [|fuel IH]; intros w v Hv; [done|].
  cbn [Stream.writeValue writeValue]. destruct (payload v); try done.
  - by apply stream_array.
  - apply stream_object; [done|apply value_settled|done].
Qed.
Lemma stream_write fuel v : whole_keys v -> Stream.write ind fuel v = write st fuel v.
Proof.
  intros Hv. unfold Stream.write, write. rewrite stream_before, stream_unless, stream_value by done.
  destruct (writeValue _ _ _ _) as [w| |]; try done. cbn [obind].
  unfold Stream.writeCommentAfterValueOnSameLine, writeCommentAfterValueOnSameLine. cbn [cs_ st].
  rewrite stream_indent. done.
Qed.
End Stream.

(** ** [FastWriter] *)

(** The configuration without comments and indentation. *)
Definition compact (self : Fast.FastWriter) : Style :=
  mkStyle [] CommentsNone (if Fast.yamlCompatibilityEnabled_ self then #": " else #":")
    (if Fast.dropNullPlaceholders_ self then [] else #"null")
    (if Fast.omitEndingLineFeed_ self then [] else [LF]) false 17 significantDigits.
(** Objects of less than [2^32] members, the size of which does not wrap. *)
Fixpoint counted (v : Value) : Prop :=
  let 'mkValue p _ _ _ := v in
  match p with
  | arrayValue m => foldr (fun kv Q => counted (snd kv) /\ Q) True m
  | objectValue m =>
      (N.of_nat (length m) < 4294967296)%N /\ foldr (fun kv Q => counted (snd kv) /\ Q) True m
  | _ => True
  end.
Lemma counted_index v i u : counted v -> index_const v i = Ret u -> counted u.
Proof.
  intros Hv [->|(m & k & Hp & Hin)]%index_const_child; [done|]. destruct v as [p ? ? ?]. cbn in Hp. subst p.
  apply (foldr_Forall (fun kv => counted (snd kv))) in Hv.
  by apply (proj1 (List.Forall_forall _ m) Hv (k, u)).
Qed.
Lemma counted_member v n u : counted v -> member_const v n = Ret u -> counted u.
Proof.
  intros Hv [->|(m & k & Hp & Hin)]%member_const_child; [done|]. destruct v as [p ? ? ?]. cbn in Hp. subst p.
  destruct Hv as [_ Hv]. apply (foldr_Forall (fun kv => counted (snd kv))) in Hv.
  by apply (proj1 (List.Forall_forall _ m) Hv (k, u)).
Qed.

Section Fast.
Context (self : Fast.FastWriter).
Abbreviation st := (compact self).

(** [same o o']: the document [FastWriter] has is what the stream holds. *)
Definition same (o : outcome str) (o' : outcome Writer) : Prop :=
  match o with
  | Ret d => exists w, o' = Ret w /\ sout_ w = d /\ addChildValues_ w = false
  | Throw e => o' = Throw e
  | OutOfFuel => o' = OutOfFuel
  end.
Lemma same_Ret d w : sout_ w = d -> addChildValues_ w = false -> same (Ret d) (Ret w).
Proof. intros H1 H2. by exists w. Qed.
Lemma same_bind o o' k k' :
  same o o' -> (forall d w, sout_ w = d -> addChildValues_ w = false -> same (k d) (k' w)) ->
  same (obind o k) (obind o' k').
Proof. destruct o; cbn; [|by intros ->..]. intros (w & -> & H1 & H2) H. by apply H. Qed.
(** The same value is looked up on both sides. *)
Lemma same_child {A} (o : outcome A) k k' :
  (forall a, o = Ret a -> same (k a) (k' a)) -> same (obind o k) (obind o k').
Proof. intros H. destruct o; cbn; auto. Qed.
Lemma same_push w t : addChildValues_ w = false -> same (Ret (sout_ w ++ t)) (Ret (pushValue w t)).
Proof. intros Ha. unfold pushValue. rewrite Ha. by apply same_Ret. Qed.

Lemma compact_with w t : writeWithIndent st w t = set_indented (put w t) false.
Proof. unfold writeWithIndent, unless_indented, writeIndent. cbn. by destruct (indented_ w). Qed.

Section Rec.
Context (rec : str -> Value -> outcome str) (rec' : Writer -> Value -> outcome Writer).
Hypothesis Hrec : forall w v, counted v -> addChildValues_ w = false ->
  same (rec (sout_ w) v) (rec' w v).

Lemma compact_members w v names : counted v -> addChildValues_ w = false ->
  names <> [] -> same (Fast.members_loop self rec (sout_ w) v true names) (members_loop st rec' w v names).
Proof.
  intros Hv. revert w. induction names as [|n names IH]; [done|]. intros w Ha _.
  cbn [Fast.members_loop members_loop]. apply same_child. intros u Hu.
  change (writeCommentBeforeValue st w u) with w. rewrite compact_with.
  apply same_bind.
  - rewrite <-app_assoc. cbn [colonSymbol_ st].
    set (w1 := put (set_indented (put w (valueToQuotedStringN n)) false)
                 (if Fast.yamlCompatibilityEnabled_ self then #": " else #":")).
    replace (sout_ w ++ valueToQuotedStringN n ++ _) with (sout_ w1) by (cbn; by rewrite <-app_assoc).
    apply Hrec; [by eapply counted_member|done].
  - intros d w2 <- Ha2. destruct names as [|n2 names]; [by apply same_Ret|].
    apply (IH (put w2 #",")); done.
Qed.
Lemma compact_object w v : counted v -> addChildValues_ w = false ->
  same (let! members := getMemberNames v in
        let document_ := sout_ w ++ #"{" in
        let! document_ := Fast.members_loop self rec document_ v true members in
        Ret (document_ ++ #"}")) (writeObjectValue st rec' w v).
Proof.
  intros Hv Ha. unfold writeObjectValue. apply same_child. intros [|n names] _.
  { cbn [Fast.members_loop obind]. rewrite <-app_assoc. by apply same_push. }
  apply same_bind.
  - rewrite compact_with. cbv zeta.
    by apply (compact_members (indent st (set_indented (put w #"{") false))).
  - intros d w2 <- Ha2. rewrite compact_with. by apply same_Ret.
Qed.
Abbreviation from i n := (map N.of_nat (seq i n)).
Lemma compact_elements w d v i k : counted v -> addChildValues_ w = false -> (0 < k)%nat ->
  sout_ w = d ++ (if (0 <? N.of_nat i)%N then #"," else []) ->
  same (Fast.elements_loop rec d v (from i k)) (elements_loop st rec' w v false (from i k)).
Proof.
  intros Hv. revert w d i. induction k as [|k IH]; [lia|]. intros w d i Ha _ Hs.
  cbn [seq map Fast.elements_loop elements_loop]. cbv zeta. apply same_child. intros u Hu.
  change (writeCommentBeforeValue st w u) with w.
  assert (unless_indented st w = w) as ->.
  { unfold unless_indented, writeIndent. cbn. by destruct (indented_ w). }
  assert ((if (0 <? N.of_nat i)%N then d ++ #"," else d) = sout_ w) as ->.
  { rewrite Hs. destruct (0 <? N.of_nat i)%N; [done|by rewrite app_nil_r]. }
  pose proof (Hrec (set_indented w true) u ltac:(by eapply counted_index) Ha) as H.
  change (sout_ (set_indented w true)) with (sout_ w) in H.
  destruct (rec (sout_ w) u) as [d2| |]; cbn in H; [|by rewrite H..].
  destruct H as (w2 & -> & <- & Ha2). cbn [obind]. destruct k as [|k]; [by apply same_Ret|].
  cbn [seq map]. change (N.of_nat (S i) :: from (S (S i)) k) with (from (S i) (S k)).
  apply IH; [done|lia|]. by destruct i.
Qed.
End Rec.

(** Measured arrays: every element is a scalar or an empty container. *)
Definition simple_text (v : Value) : str :=
  match payload v with
  | nullValue => nullSymbol_ st
  | intValue z => valueToString_int z
  | uintValue z => valueToString_uint z
  | realValue d => valueToString_default d
  | stringValue s => valueToQuotedStringN s
  | booleanValue b => valueToString_bool b
  | arrayValue _ => #"[]"
  | objectValue _ => #"{}"
  end.
Lemma simple_both fuel v : composite v = false -> counted v ->
  (forall w, writeValue st (S fuel) w v = Ret (pushValue w (simple_text v))) /\
  (forall d, Fast.writeValue self (S fuel) d v = Ret (d ++ simple_text v)).
Proof.
  intros Hc Hv. destruct v as [[|z|z|d|s|b|m|m] c a b']; try (by split).
  - split; [done|]. intros d. cbn. destruct (Fast.dropNullPlaceholders_ self); [by rewrite app_nil_r|done].
  - assert (size (mkValue (arrayValue m) c a b') = 0%N) as Hs.
    { unfold composite, empty in Hc. cbn -[size] in Hc. apply negb_false_iff, N.eqb_eq in Hc. done. }
    cbn [writeValue Fast.writeValue payload]. unfold writeArrayValue. rewrite Hs. split; [done|].
    intros d. change (indices 0) with (@nil N). cbn [Fast.elements_loop obind]. by rewrite <-app_assoc.
  - unfold composite, empty in Hc. cbn in Hc. destruct Hv as [Hlen _]. unfold ArrayIndex_wrap in Hc.
    rewrite N.mod_small in Hc by done. destruct m; [|done]. split; [done|].
    intros d. cbn [Fast.writeValue payload]. change (getMemberNames _) with (Ret (A:=list str) []).
    cbn [obind Fast.members_loop]. by rewrite <-app_assoc.
Qed.
Definition elem (v : Value) (i : N) : Value := default nullSingleton (get_child v (Index i)).
Lemma index_const_elem m c a b i :
  index_const (mkValue (arrayValue m) c a b) i = Ret (elem (mkValue (arrayValue m) c a b) i).
Proof. done. Qed.
(** The texts of the elements with commas between them. *)
Definition listed (v : Value) (ix : list N) : str :=
  concat (map (fun i => (if (0 <? i)%N then #"," else []) ++ simple_text (elem v i)) ix).

Section Measured.
Context (m : list (N * Value)) (c : Comments) (a b : Z) (fuel : nat).
Abbreviation v := (mkValue (arrayValue m) c a b).
Context (Hv : counted v).
Lemma any_composite_elem ix : any_composite v ix = Ret (existsb (fun i => composite (elem v i)) ix).
Proof.
  induction ix as [|i ix IH]; [done|]. cbn [any_composite]. rewrite index_const_elem. cbn [obind existsb].
  fold (composite (elem v i)). destruct (composite (elem v i)); [done|apply IH].
Qed.
Lemma elem_counted i : counted (elem v i).
Proof. by apply (counted_index v i). Qed.
Lemma measure_texts ix w ml ll : addChildValues_ w = true ->
  existsb (fun i => composite (elem v i)) ix = false ->
  exists ml' ll', measure_loop (writeValue st (S fuel)) w v ix ml ll =
    Ret (set_children w (childValues_ w ++ map (fun i => simple_text (elem v i)) ix), ml', ll').
Proof.
  revert w ml ll. induction ix as [|i ix IH]; intros w ml ll Ha.
  - intros _. exists ml, ll. cbn. rewrite app_nil_r. by destruct w.
  - cbn [existsb]. intros [Hi Hix]%orb_false_iff. cbn [measure_loop]. rewrite index_const_elem. cbn [obind].
    destruct (simple_both fuel (elem v i) Hi (elem_counted i)) as [-> _]. cbn [obind].
    unfold pushValue. rewrite Ha. edestruct (IH (set_children w (childValues_ w ++ [simple_text (elem v i)])))
      as (ml' & ll' & ->); [done|done|]. exists ml', ll'. cbn. by rewrite <-app_assoc.
Qed.
Lemma fast_elements_texts ix d : existsb (fun i => composite (elem v i)) ix = false ->
  Fast.elements_loop (Fast.writeValue self (S fuel)) d v ix = Ret (d ++ listed v ix).
Proof.
  revert d. induction ix as [|i ix IH]; intros d; [by rewrite app_nil_r|].
  cbn [existsb]. intros [Hi Hix]%orb_false_iff. cbn [Fast.elements_loop]. rewrite index_const_elem. cbn [obind].
  destruct (simple_both fuel (elem v i) Hi (elem_counted i)) as [_ ->]. cbn [obind]. rewrite IH by done.
  unfold listed. cbn [map concat]. destruct (0 <? i)%N; by rewrite <-?app_assoc.
Qed.
Lemma nth_text n i ts : (i < n)%nat -> ts = map (fun i => simple_text (elem v i)) (indices (N.of_nat n)) ->
  nth i ts [] = simple_text (elem v (N.of_nat i)).
Proof.
  intros Hi ->. unfold indices. rewrite Nat2N.id, map_map.
  rewrite (nth_indep _ [] (simple_text (elem v (N.of_nat 0)))) by (by rewrite length_map, length_seq).
  rewrite (map_nth (fun x => simple_text (elem v (N.of_nat x)))). by rewrite seq_nth.
Qed.
Lemma compact_texts rec' n w i k : addChildValues_ w = false -> (0 < k)%nat -> (i + k <= n)%nat ->
  childValues_ w = map (fun i => simple_text (elem v i)) (indices (N.of_nat n)) ->
  exists w', elements_loop st rec' w v true (map N.of_nat (seq i k)) = Ret w' /\
    sout_ w' = sout_ w ++ simple_text (elem v (N.of_nat i)) ++ listed v (map N.of_nat (seq (S i) (k - 1))) /\
    addChildValues_ w' = false.
Proof.
  revert w i. induction k as [|k IH]; [lia|]. intros w i Ha _ Hn Hc.
  cbn [seq map elements_loop]. rewrite index_const_elem. cbn [obind].
  change (writeCommentBeforeValue st w (elem v (N.of_nat i))) with w.
  rewrite Nat2N.id, (nth_text n i) by (done || lia). rewrite compact_with.
  set (w1 := set_indented (put w (simple_text (elem v (N.of_nat i)))) false).
  destruct k as [|k].
  - exists w1. cbn. by rewrite app_nil_r.
  - cbn [seq map]. change (N.of_nat (S i) :: map N.of_nat (seq (S (S i)) k)) with (map N.of_nat
    (seq (S i) (S k))).
    destruct (IH (put w1 #",") (S i)) as (w2 & H2 & Hs2 & Ha2); [done|lia|lia|done|].
    exists w2. split_and!; [exact H2| |done]. rewrite Hs2. cbn [sout_ put w1 set_indented].
    replace (S (S k) - 1)%nat with (S k) by lia. replace (S k - 1)%nat with k by lia.
    unfold listed. cbn [seq map concat]. assert ((0 <? N.of_nat (S i))%N = true) as -> by (apply N.ltb_lt; lia).
    by rewrite <-!app_assoc.
Qed.
Lemma compact_single n w : (0 < n)%nat ->
  childValues_ w = map (fun i => simple_text (elem v i)) (indices (N.of_nat n)) ->
  sout_ (single_line st w (indices (N.of_nat n))) =
    sout_ w ++ #"[" ++ listed v (indices (N.of_nat n)) ++ #"]" /\
  addChildValues_ (single_line st w (indices (N.of_nat n))) = addChildValues_ w.
Proof.
  intros Hn Hc. unfold single_line. cbn [indentation_ st].
  set (f := fun (w : Writer) i => put (if (0 <? i)%N then put w #"," else w) (nth (N.to_nat i)
    (childValues_ w) [])).
  assert (forall ix w', childValues_ w' = childValues_ w -> (forall i, In i ix -> (i < N.of_nat n)%N) ->
    sout_ (fold_left f ix w') = sout_ w' ++ listed v ix /\
    addChildValues_ (fold_left f ix w') = addChildValues_ w') as H.
  { induction ix as [|i ix IH]; intros w' Hc' Hix; [by rewrite app_nil_r|]. cbn [fold_left].
    destruct (IH (f w' i)) as [H1 H2].
    - unfold f. by destruct (0 <? i)%N.
    - intros j Hj. apply Hix. by right.
    - rewrite H1, H2. unfold f. rewrite Hc', Hc.
    rewrite (nth_text n) by (done || specialize (Hix i (or_introl eq_refl)); lia).
      rewrite N2Nat.id. unfold listed. cbn [map concat].
      destruct (0 <? i)%N; cbn; by rewrite <-!app_assoc. }
  destruct (H (indices (N.of_nat n)) (put (put w #"[") [])) as [H1 H2]; [done| |].
  { intros i Hi. unfold indices in Hi. apply in_map_iff in Hi as (j & <- & Hj%in_seq). lia. }
  cbn [sout_ put addChildValues_] in H1, H2 |- *. rewrite H1, H2. split; [|done].
  by rewrite !app_nil_r, <-!app_assoc.
Qed.
End Measured.

(** The elements one by one. *)
Lemma compact_one_by_one fuel m c a b n w w0 (v := mkValue (arrayValue m) c a b) :
  counted v -> (0 < n)%nat ->
  (forall w v, counted v -> addChildValues_ w = false ->
     same (Fast.writeValue self fuel (sout_ w) v) (writeValue st fuel w v)) ->
  sout_ w0 = sout_ w -> addChildValues_ w0 = false -> childValues_ w0 = [] ->
  same (let! d := Fast.elements_loop (Fast.writeValue self fuel) (sout_ w ++ #"[") v (indices (N.of_nat n)) in
        Ret (d ++ #"]"))
       (let! w1 := elements_loop st (writeValue st fuel) (indent st (writeWithIndent st w0 #"[")) v
                     (match childValues_ (indent st (writeWithIndent st w0 #"[")) with
                      | [] => false | _ => true end) (indices (N.of_nat n)) in
        Ret (writeWithIndent st (unindent st w1) #"]")).
Proof.
  intros Hv Hn Hrec Hs0 Ha0 Hc0. rewrite compact_with.
  change (childValues_ (indent st (set_indented (put w0 #"[") false))) with (childValues_ w0). rewrite Hc0.
  apply same_bind.
  - unfold indices. rewrite Nat2N.id. apply compact_elements; try done. cbn. by rewrite Hs0, app_nil_r.
  - intros d w1 <- Ha1. rewrite compact_with. by apply same_Ret.
Qed.
Lemma compact_array fuel m c a b w :
  counted (mkValue (arrayValue m) c a b) -> addChildValues_ w = false ->
  (forall w v, counted v -> addChildValues_ w = false ->
     same (Fast.writeValue self fuel (sout_ w) v) (writeValue st fuel w v)) ->
  same (Fast.writeValue self (S fuel) (sout_ w) (mkValue (arrayValue m) c a b))
    (writeValue st (S fuel) w (mkValue (arrayValue m) c a b)).
Proof.
  intros Hv Ha Hrec. set (v := mkValue (arrayValue m) c a b) in *.
  cbn [Fast.writeValue writeValue payload v]. fold v. cbv zeta. unfold writeArrayValue. cbv zeta.
  destruct (N.eqb_spec (size v) 0) as [E|E].
  { rewrite E. change (indices 0) with (@nil N). cbn [Fast.elements_loop obind]. rewrite <-app_assoc.
    by apply same_push. }
  set (n := N.to_nat (size v)). assert (0 < n)%nat as Hn by lia.
  assert (Hsize : size v = N.of_nat n) by lia. rewrite Hsize.
  change (bool_decide (cs_ st = CommentsAll)) with false. cbv iota.
  pose proof (fun w0 => compact_one_by_one fuel m c a b n w w0 Hv Hn Hrec) as Hone. fold v in Hone.
  unfold isMultilineArray. cbv zeta. rewrite Hsize.
  destruct (rightMargin_ <=? _); cbn [obind]; [by apply Hone|].
  pose proof (any_composite_elem m c a b (indices (N.of_nat n))) as Hany. fold v in Hany.
  rewrite Hany. cbn [obind]. clear Hany.
  destruct (existsb _ _) eqn:Hex; cbn [obind]; [by apply Hone|].
  destruct fuel as [|fuel].
  { unfold indices. rewrite Nat2N.id. destruct n as [|n]; [lia|]. done. }
  pose proof (fast_elements_texts m c a b fuel Hv (indices (N.of_nat n)) (sout_ w ++ #"[") Hex) as Hf.
  fold v in Hf. rewrite Hf. cbn [obind].
  edestruct (measure_texts m c a b fuel Hv (indices (N.of_nat n)) (set_add (set_children w []) true))
    as (ml & ll & Hm); [done|done|]. fold v in Hm. rewrite Hm. cbn [obind].
  set (w0 := set_add (set_children _ _) false).
  assert (sout_ w0 = sout_ w /\ addChildValues_ w0 = false /\
    childValues_ w0 = map (fun i => simple_text (elem v i)) (indices (N.of_nat n))) as (Hs0 & Ha0 &
      Hc0) by done.
  destruct (ml || _); cbn [obind].
  - rewrite compact_with. set (w1 := indent st (set_indented (put w0 #"[") false)).
    assert (match childValues_ w1 with [] => false | _ => true end = true) as ->.
    { change (childValues_ w1) with (childValues_ w0). rewrite Hc0. unfold indices. rewrite Nat2N.id.
      by destruct n; [lia|]. }
    destruct (compact_texts m c a b (writeValue st (S fuel)) n w1 0 n) as (w2 & H2 & Hs2 & Ha2);
      [done|lia|lia|done|].
    unfold indices at 2. rewrite Nat2N.id. fold v in H2. rewrite H2. cbn [obind]. rewrite compact_with.
    apply same_Ret; [|done]. cbn [sout_ set_indented put unindent set_indentString]. rewrite Hs2.
    fold v. cbn [w1 sout_ indent set_indentString set_indented put]. rewrite Hs0.
    unfold listed, indices. rewrite Nat2N.id. destruct n as [|n]; [lia|]. cbn [seq map concat].
    replace (S n - 1)%nat with n by lia. by rewrite <-!app_assoc.
  - destruct (compact_single m c a b n w0) as [H1 H2]; [done|done|].
    apply same_Ret; [|by rewrite H2]. fold v in H1. by rewrite H1, Hs0, <-!app_assoc.
Qed.
Lemma compact_value fuel w v : counted v -> addChildValues_ w = false ->
  same (Fast.writeValue self fuel (sout_ w) v) (writeValue st fuel w v).
Proof.
  revert w v. induction fuel as [|fuel IH]; intros w v Hv Ha; [done|].
  destruct v as [[|z|z|d|s|b|m|m] c x y]; try (by apply same_push).
  - cbn. destruct (Fast.dropNullPlaceholders_ self); [|by apply same_push].
    unfold pushValue. rewrite Ha. apply same_Ret; [cbn; by rewrite app_nil_r|done].
  - by apply compact_array.
  - cbn [Fast.writeValue writeValue payload]. by apply compact_object.
Qed.
Lemma compact_write fuel v : counted v -> Fast.write self fuel v = write st fuel v.
Proof.
  intros Hv. unfold Fast.write, write. set (w0 := mkWriter [] [] [] false true).
  change (set_indented _ true) with w0.
  pose proof (compact_value fuel w0 v Hv eq_refl) as H. change (sout_ w0) with (@nil ascii) in H.
  destruct (Fast.writeValue self fuel [] v) as [d| |]; cbn in H; [|by rewrite H..].
  destruct H as (w & -> & <- & _). cbn [obind]. unfold writeCommentAfterValueOnSameLine. cbn.
  by destruct (Fast.omitEndingLineFeed_ self); [rewrite app_nil_r|].
Qed.
End Fast.

(** ** Values without comments *)

(** Neither the value nor anything in it has a comment. *)
Fixpoint uncommented (v : Value) : Prop :=
  let 'mkValue p c _ _ := v in
  c = no_comments /\
  match p with
  | arrayValue m => foldr (fun kv P => uncommented (snd kv) /\ P) True m
  | objectValue m => foldr (fun kv P => uncommented (snd kv) /\ P) True m
  | _ => True
  end.
Lemma uncommented_no_comment v : uncommented v -> no_comment v.
Proof. destruct v. by intros [H _]. Qed.
Lemma uncommented_index v i u : uncommented v -> index_const v i = Ret u -> uncommented u.
Proof.
  intros Hv [->|(m & k & Hp & Hin)]%index_const_child; [done|]. destruct v as [p ? ? ?]. cbn in Hp. subst p.
  destruct Hv as [_ Hv%(foldr_Forall (fun kv => uncommented (snd kv)))].
  by apply (proj1 (List.Forall_forall _ m) Hv (k, u)).
Qed.
Lemma uncommented_member v n u : uncommented v -> member_const v n = Ret u -> uncommented u.
Proof.
  intros Hv [->|(m & k & Hp & Hin)]%member_const_child; [done|]. destruct v as [p ? ? ?]. cbn in Hp. subst p.
  destruct Hv as [_ Hv%(foldr_Forall (fun kv => uncommented (snd kv)))].
  by apply (proj1 (List.Forall_forall _ m) Hv (k, u)).
Qed.

(** Of them the writer writes the same with the comment styles [Most] and [None]. *)
Section Uncommented.
Context (indentation colon null ending ending' : str) (special : bool) (precision : Z) (type_ : PrecisionType).
Definition with_most : Style :=
  mkStyle indentation CommentsMost colon null ending special precision type_.
Definition with_none : Style :=
  mkStyle indentation CommentsNone colon null ending' special precision type_.
Section Loops.
Context (rec rec' : Writer -> Value -> outcome Writer) (v : Value).
Hypothesis Hv : uncommented v.
Hypothesis Hrec : forall w u, uncommented u -> rec w u = rec' w u.
Lemma most_members members : forall w,
  members_loop with_most rec w v members = members_loop with_none rec' w v members.
Proof using Hv Hrec.
  induction members as [|name members IH]; intros w; [done|]. cbn [members_loop].
  destruct (member_const v name) as [u| |] eqn:E; [|done..]. cbn [obind].
  pose proof (uncommented_member _ _ _ Hv E) as Hu. pose proof (uncommented_no_comment _ Hu) as Hc.
  rewrite !before_nothing, Hrec by done. change (writeWithIndent with_most) with (writeWithIndent with_none).
  destruct (rec' _ u) as [w1| |]; [|done..]. cbn [obind].
  rewrite !after_nothing by done. destruct members; [done|]. apply IH.
Qed.
Lemma most_measure ix : forall w b n, measure_loop rec w v ix b n = measure_loop rec' w v ix b n.
Proof using Hv Hrec.
  induction ix as [|i ix IH]; intros w b n; [done|]. cbn [measure_loop].
  destruct (index_const v i) as [u| |] eqn:E; [|done..]. cbn [obind]. cbv zeta.
  rewrite Hrec by by eapply uncommented_index. destruct (rec' w u); try done. apply IH.
Qed.
Lemma most_elements ix : forall w b,
  elements_loop with_most rec w v b ix = elements_loop with_none rec' w v b ix.
Proof using Hv Hrec.
  induction ix as [|i ix IH]; intros w b; [done|]. cbn [elements_loop].
  destruct (index_const v i) as [u| |] eqn:E; [|done..]. cbn [obind].
  pose proof (uncommented_index _ _ _ Hv E) as Hu. pose proof (uncommented_no_comment _ Hu) as Hc.
  rewrite !before_nothing, Hrec by done. change (writeWithIndent with_most) with (writeWithIndent with_none).
  change (unless_indented with_most) with (unless_indented with_none).
  match goal with |- obind ?m _ = obind ?m _ => destruct m as [w1| |]; [|done..] end. cbn [obind].
  rewrite !after_nothing by done. destruct ix; [done|]. apply IH.
Qed.
End Loops.
Lemma most_value fuel : forall w v, uncommented v ->
  writeValue with_most fuel w v = writeValue with_none fuel w v.
Proof.
  induction fuel as [|fuel IH]; intros w v Hv; [done|]. cbn [writeValue].
  destruct (payload v) eqn:Hp; try done.
  - unfold writeArrayValue. destruct (size v =? 0)%N; [done|]. cbn [cs_ with_most with_none].
    unfold isMultilineArray. cbv zeta. rewrite !bool_decide_eq_false_2 by done.
    match goal with |- obind ?m _ = obind ?m' _ => assert (m = m') as -> end.
    { destruct (if rightMargin_ <=? _ then _ else _) as [[]| |]; try done. cbn [obind].
      by rewrite (most_measure _ _ v Hv IH). }
    match goal with |- obind ?m _ = _ => destruct m as [[w1 []]| |]; [|done..] end. cbn [obind].
    rewrite (most_elements _ _ v Hv IH). done.
  - unfold writeObjectValue. destruct (getMemberNames v) as [members| |]; [|done..]. cbn [obind].
    destruct members as [|name members]; [done|]. cbv zeta.
    rewrite (most_members _ _ v Hv IH). done.
Qed.
Lemma most_write fuel v : uncommented v ->
  write with_most fuel v =
  let! t := write (mkStyle indentation CommentsNone colon null [] special precision type_) fuel v in
  Ret (t ++ ending).
Proof.
  intros Hv. pose proof (uncommented_no_comment _ Hv) as Hc. unfold write. cbv zeta.
  rewrite !before_nothing by done. rewrite most_value by done.
  set (st := mkStyle indentation CommentsNone colon null [] special precision type_).
  change (unless_indented with_most) with (unless_indented st).
  change (writeValue with_none) with (writeValue st).
  match goal with |- obind ?m _ = _ => destruct m as [w1| |]; [|done..] end. cbn [obind].
  rewrite !after_nothing by done. cbn. by rewrite app_nil_r.
Qed.
End Uncommented.

(** *** The settings of [StreamWriterBuilder] that the older writers correspond to *)
Definition stream_settings (indentation : str) : Value :=
  initBasic (objectValue
    [(#"commentStyle", initBasic (stringValue #"None"));
     (#"indentation", initBasic (stringValue indentation));
     (#"precision", Value_int 17); (#"precisionType", initBasic (stringValue #"significant"))]).
Definition fast_settings (self : Fast.FastWriter) : Value :=
  initBasic (objectValue
    [(#"commentStyle", initBasic (stringValue #"None"));
     (#"dropNullPlaceholders", Value_bool (Fast.dropNullPlaceholders_ self));
     (#"enableYAMLCompatibility", Value_bool (Fast.yamlCompatibilityEnabled_ self));
     (#"precision", Value_int 17); (#"precisionType", initBasic (stringValue #"significant"))]).
Lemma stream_settings_style c s : newStreamWriter (stream_settings (c :: s)) =
  Ret (mkStyle (c :: s) CommentsNone #" : " #"null" [] false 17 significantDigits).
Proof. vm_compute. reflexivity. Qed.
Lemma fast_settings_style self : newStreamWriter (fast_settings self) =
  Ret (mkStyle [] CommentsNone (if Fast.yamlCompatibilityEnabled_ self then #": " else #":")
         (if Fast.dropNullPlaceholders_ self then [] else #"null") [] false 17 significantDigits).
Proof. by destruct self as [[] [] []]; vm_compute. Qed.
Lemma compact_ending self fuel v :
  write (compact self) fuel v =
  let! t := write (mkStyle [] CommentsNone (if Fast.yamlCompatibilityEnabled_ self then #": " else #":")
      (if Fast.dropNullPlaceholders_ self then [] else #"null") [] false 17 significantDigits) fuel v in
  Ret (t ++ if Fast.omitEndingLineFeed_ self then [] else [LF]).
Proof.
  set (st := mkStyle _ _ _ _ [] _ _ _). unfold write. cbv zeta.
  change (writeCommentBeforeValue (compact self)) with (writeCommentBeforeValue st).
  change (unless_indented (compact self)) with (unless_indented st).
  change (writeValue (compact self)) with (writeValue st).
  match goal with |- obind ?m _ = _ => destruct m as [w1| |]; [|done..] end. cbn [obind].
  cbn. by rewrite app_nil_r.
Qed.

(** ** What the older writers promise *)


Lemma writable_counted v : writable v -> counted v.
Proof.
  induction v as [[p c a b] IH] using Value_depth_ind. intros [_ H]. destruct p as [| | | | | |m|m]; try done.
  - destruct H as (_ & _ & H%(foldr_Forall (fun kv => writable (snd kv)))). cbn. apply foldr_Forall.
    apply List.Forall_forall. intros kv Hin. apply IH; [by eapply depth_element|].
    by apply (proj1 (List.Forall_forall _ m) H).
  - destruct H as (_ & Hl & H%(foldr_Forall member_ok)). cbn. split; [done|]. apply foldr_Forall.
    apply List.Forall_forall. intros kv Hin. apply IH; [by eapply depth_member|].
    by apply (proj1 (List.Forall_forall _ m) H).
Qed.
Lemma compact_json self : Fast.dropNullPlaceholders_ self = false -> json_style (compact self).
Proof.
  intros Hd. destruct self as [[] ? []]; cbn in Hd; subst; split; try done; try (by left);
    try (by repeat constructor).
  1, 2: exists [], #" "; by split_and!; repeat constructor.
  all: exists [], []; by split_and!; repeat constructor.
Qed.
(** The text of a value depends on the style by its reals only. *)
Lemma json_of_real st st' v : (forall d, real_text st d = real_text st' d) -> json_of st v = json_of st' v.
Proof.
  intros Hr. induction v as [[p c a b] IH] using Value_depth_ind. destruct p as [| | |d| | |m|m]; try done; cbn.
  - by rewrite Hr.
  - f_equal. apply map_ext_in. intros kv Hin. apply IH. by eapply depth_element.
  - f_equal. apply map_ext_in. intros kv Hin. f_equal. apply IH. by eapply depth_member.
Qed.
Lemma styled_write v fuel : writable v -> whole_keys v -> (depth v <= fuel)%nat ->
  exists t, Styled.write fuel v = Ret (t ++ [LF]) /\ text (json_of default_style v) t.
Proof.
  intros Hw Hk Hd. unfold Styled.write. rewrite styled_before by auto with webcc.
  destruct (printer_writes styled v fuel (Styled.mkStyledWriter [] [] [] false)) as (w' & t & H & Ht & Hout);
    [done|done|done|split; [done|constructor]|done|].
  rewrite styled_writeValue, H. cbn [obind]. rewrite styled_after by auto with webcc.
  exists t. cbn [p_style styled] in Ht. rewrite (json_of_real _ default_style) in Ht by done.
  split; [|exact Ht]. cbn in *. by rewrite Hout.
Qed.
(** The older writers turn every value without comments whose keys have no NUL into the
    same JSON text up to blanks, which stands for the value, and a line feed. *)
Theorem older_writers_write_json (v : Value) (yaml : bool) (indentation : str) (fuel : nat) :
  writable v -> whole_keys v -> blank indentation -> indentation <> [] -> (depth v <= fuel)%nat ->
  exists t1 t2 t3,
    Fast.write (Fast.mkFastWriter yaml false false) fuel v = Ret (t1 ++ [LF]) /\
    Stream.write indentation fuel v = Ret (t2 ++ [LF]) /\
    Styled.write fuel v = Ret (t3 ++ [LF]) /\
    text (json_of default_style v) t1 /\ text (json_of default_style v) t2 /\
    text (json_of default_style v) t3 /\
    denote (json_of default_style v) = reread default_style v.
Proof.
  intros Hw Hk Hb Hne Hd. set (self := Fast.mkFastWriter yaml false false).
  destruct (write_text (compact self) v fuel) as (t1 & H1 & Ht1); [by apply compact_json|done|done|].
  destruct (write_text (stream_style indentation) v fuel) as (t2 & H2 & Ht2);
    [by apply stream_json_style|done|done|].
  destruct (styled_write v fuel Hw Hk Hd) as (t3 & H3 & Ht3).
  rewrite (json_of_real _ default_style) in Ht1 by done.
  rewrite (json_of_real _ default_style) in Ht2 by done.
  exists t1, t2, t3. rewrite compact_write, stream_write by (done || by apply writable_counted).
  split_and!; try done. apply denote_json_of; [apply default_json_style|done].
Qed.
Example older_writers_write_json_witness :
  exists t1 t2 t3,
    Fast.write (Fast.mkFastWriter true false false) 3 four_ways = Ret (t1 ++ [LF]) /\
    Stream.write #"  " 3 four_ways = Ret (t2 ++ [LF]) /\
    Styled.write 3 four_ways = Ret (t3 ++ [LF]) /\
    text (json_of default_style four_ways) t1 /\ text (json_of default_style four_ways) t2 /\
    text (json_of default_style four_ways) t3 /\
    denote (json_of default_style four_ways) = reread default_style four_ways.
Proof.
  apply older_writers_write_json; [|repeat split|by repeat constructor|done|by vm_compute; repeat constructor].
  assert (Hs : sorted CZString_ltb [(#"a", tt); (#"b", tt)]) by by repeat (constructor; cbn).
  rewrite (sorted_keys CZString_ltb) in Hs.
  cbn. rewrite !(sorted_keys CZString_ltb). unfold minInt64, maxInt64.
  split_and!; first [done|exact Hs|lia|by apply utf8_ascii; repeat constructor|by repeat constructor].
Defined.

(** A key with a NUL is cut: two members become one. *)
Example styled_cuts_keys :
  let v := initBasic (objectValue [(#"a" ++ [NUL] ++ #"x", Value_int 1);
    (#"a" ++ [NUL] ++ #"y", Value_int 2)]) in
  Styled.write 2 v = Ret (#"{" ++ [LF] ++ #"   " ++ [DQ] ++ #"a" ++ [DQ] ++ #" : 1," ++ [LF] ++ #"   " ++
                          [DQ] ++ #"a" ++ [DQ] ++ #" : 2" ++ [LF] ++ #"}" ++ [LF]).
Proof. vm_compute. reflexivity. Qed.
