(* ===== verification/JsonProps.v ===== *)
(** * JSON: the properties

    What the JSON library promises its clients: the reader comes to an end on
    every document, reads every JSON text and refuses deep nesting; the writer
    writes JSON; reading gives back what was written. *)
From Stdlib Require Import Ascii String.
From stdpp Require Import base tactics list numbers option strings.
From S2P Require Import Prelude Globals Double JsonText JsonValue JsonWriter JsonReader JsonLaws.
From S2P Require Import JsonReaderLaws JsonUtf8 JsonGrammar JsonLexis JsonAccepts JsonQuote JsonNumber JsonWritten JsonPrinter JsonWriterLaws.
Open Scope Z_scope.

(** The settings of a default-constructed [CharReaderBuilder] and
    [StreamWriterBuilder]. *)
Definition reader_settings : outcome Value := reader_setDefaults nullSingleton.
Definition writer_settings : outcome Value := setDefaults nullSingleton.
Lemma default_reader :
  (let! s := reader_settings in newCharReader s) = Ret (true, default_features).
Proof. vm_compute. reflexivity. Qed.
(** [parseFromStream] and [writeString] with default-constructed builders. *)
Definition parse_default (doc : str) (root : Value) : outcome (bool * Value * str) :=
  let! s := reader_settings in parseFromStream s doc root.
Definition write_default (root : Value) : outcome str :=
  let! s := writer_settings in writeString s root.
Lemma parse_default_eq doc root :
  parse_default doc root =
  let! (r, ok) := parse default_features true doc root in
  Ret (ok, root_ r, getFormattedErrorMessages doc r).
Proof.
  pose proof default_reader as H. unfold parse_default, parseFromStream.
  destruct reader_settings as [s| |]; [|done|done]. cbn [obind] in H |- *. by rewrite H.
Qed.
Lemma write_default_eq root : write_default root = write default_style (S (depth root)) root.
Proof.
  pose proof default_writer as H. unfold write_default, writeString, writer_settings.
  destruct (setDefaults nullSingleton) as [s| |]; [|done|done]. cbn [obind] in H |- *. by rewrite H.
Qed.

(** ** Reading *)

(** C8: The reader accepts every JSON text without comments, blanks around it
    allowed, whose nesting is at most 1000 levels, whose arrays have less than [2^31] elements and
    whose strings and names fit the lengths of the library, whatever the escape sequences,
    number formats, blanks and duplicate keys in it (the last one counts): it
    reports success and no message, and the value it stores is the one the text
    denotes. *)
Theorem reader_accepts_json j t w w' root :
  text j t -> blank w -> blank w' -> (jdepth j <= 1000)%nat ->
  exists v, parse_default (w ++ t ++ w') root = Ret (true, v, []) /\ plain v = denote j.
Proof.
  intros Ht Hw Hw' Hd. destruct (parse_text j t w w' root Ht Hw Hw' Hd) as (r & Hr & He & Hv).
  exists (root_ r). split; [|done]. rewrite parse_default_eq, Hr. cbn [obind].
  unfold getFormattedErrorMessages. by rewrite He.
Qed.
Example reader_accepts_json_witness :
  exists v, parse_default ([LF] ++ (#"[" ++ [SP] ++ #"true" ++ [] ++ #"," ++ [] ++ #"null" ++ [SP]
    ++ #"]") ++ [SP])
              nullSingleton = Ret (true, v, []) /\ plain v = denote (JArr [JBool true; JNull]).
Proof.
  apply reader_accepts_json; [|by repeat constructor|by repeat constructor|vm_compute; lia].
  apply t_arr; [|done]. apply e_cons; [by repeat constructor|apply t_true|constructor|].
  apply e_last; [constructor|apply t_null|by repeat constructor].
Defined.

(** C22: The reader comes to an end on every document, for every setting, every
    initial value of the root and every text: it returns, or throws an exception
    of the JSON library; none of its loops runs on. *)
Theorem reader_returns features collectComments doc root :
  ends json_exn (parse features collectComments doc root) (fun _ => True).
Proof. apply parse_ends. Qed.

(** *** Deep nesting *)
Definition stack_error : exn := JsonRuntimeError #"Exceeded stackLimit in readValue().".
Lemma deep_array begin_ fuel r v k s :
  at_text r v (repeat "["%char k ++ s) -> (1000 < k + length (nodes_ r))%nat ->
  (1000 < fuel + length (nodes_ r))%nat -> (0 < fuel)%nat ->
  readValue default_features true begin_ fuel r = Throw stack_error.
Proof.
  revert r v k. induction fuel as [|fuel IH]; intros r v k Hat Hk Hf Hf0; [lia|].
  cbn [readValue stackLimit_ default_features].
  destruct (1000 <? S (length (nodes_ r)))%nat eqn:E; [done|]. apply Nat.ltb_ge in E.
  destruct k as [|[|k]]; [lia|lia|]. pose proof Hat as (Hc & Hb & Hv).
  set (behind := repeat "["%char (S k) ++ s).
  change (repeat "["%char (S (S k)) ++ s) with ("["%char :: behind) in Hc, Hat.
  unfold skipCommentTokens. cbn [allowComments_ default_features].
  rewrite (next_token_of _ _ _ r (set_current r behind)
             (mkToken tokenArrayBegin ("["%char :: behind) behind))
    by (done || (apply readToken_punctuation; [cbn; tauto|done])).
  cbn [obind]. change (commentsBefore_ (set_current r behind)) with (commentsBefore_ r).
  rewrite Hb. cbn [obind]. unfold read_token_value, readArray. cbv zeta. cbn [type_].
  set (t := mkToken tokenArrayBegin _ behind).
  pose proof (start_container_result begin_ r v _ TArray t behind Hat) as H0.
  set (r0 := start_container begin_ _ TArray t) in *.
  destruct (at_result _ _ _ _ _ Hv H0) as (v0 & (_ & Hb0 & Hv0) & Hp0).
  change (current_ r0) with behind. change (skipSpaces behind) with behind.
  cbn [current_ set_current].
  change (match behind with c :: _ => ceqb c "]" | [] => false end) with false. cbv iota.
  cbn [array_loop]. unfold index_int. cbn [Z.leb Z.compare Z.to_N json_assert].
  rewrite (holds_current (set_current r0 behind) v0 Hv0).
  destruct (index_ref_stored v0 [] Hp0) as (v1 & u & Hi & Hu & _).
  cbn [length] in Hi, Hu. change (N.of_nat 0) with 0%N in Hi, Hu. rewrite Hi. cbn [obind].
  set (r1 := on_current (fun _ => v1) (set_current r0 behind)).
  assert (Hv1 : holds r1 v1).
  { unfold holds, r1, on_current, on_value in *. cbn in Hv0 |- *. by rewrite get_upd_path, Hv0. }
  rewrite (IH (push r1 (Index 0)) u (S k)); [done| | | |].
  - split_and!; [done|done|by apply (holds_push r1 v1)].
  - change (length (nodes_ (push r1 (Index 0)))) with (S (length (nodes_ r))). lia.
  - change (length (nodes_ (push r1 (Index 0)))) with (S (length (nodes_ r))). lia.
  - lia.
Qed.
(** A document nested deeper than 1000 levels makes the reader throw a
    [RuntimeError], not return an error: a client that does not catch it ends. *)
Theorem deep_nesting_throws n s root :
  (1000 < n)%nat -> parse_default (repeat "["%char n ++ s) root = Throw stack_error.
Proof.
  intros Hn. rewrite parse_default_eq. unfold parse.
  destruct n as [|n]; [lia|].
  rewrite (deep_array _ (S (stackLimit_ default_features)) _ root (S n) s); [done|done| | |lia].
  - change (length (nodes_ _)) with 0%nat. lia.
  - change (stackLimit_ default_features) with 1000%nat. change (length (nodes_ _)) with 0%nat. lia.
Qed.
Example deep_nesting_throws_witness :
  parse_default (repeat "["%char 1001 ++ []) nullSingleton = Throw stack_error.
Proof. apply deep_nesting_throws. lia. Defined.

(** Where single quotes are not allowed a quote is read as the start of a comment, at whose
    text [setComment] throws. *)
Example quote_starts_comment :
  parse_default #"'**/1" nullSingleton =
    Throw (JsonLogicError #"in Json::Value::setComment(): Comments must start with /").
Proof. vm_compute. reflexivity. Qed.

(** ** Writing *)

(** The style of a builder: no line feed at the end, and a colon with blanks around it. *)
Lemma newStreamWriter_style settings st : newStreamWriter settings = Ret st ->
  endingLineFeedSymbol_ st = [] /\
  exists w1 w2, colonSymbol_ st = w1 ++ #":" ++ w2 /\ blank w1 /\ blank w2.
Proof.
  unfold newStreamWriter. intros H.
  repeat match type of H with
         | obind ?o _ = _ => destruct o as [?| |]; [cbn [obind] in H|discriminate H..]
         end.
  injection H as <-. split; [done|]. cbn. destruct a2; [|destruct a].
  all: first [exists [], []; by split_and!; repeat constructor
             |exists [], #" "; by split_and!; repeat constructor
             |exists #" ", #" "; by split_and!; repeat constructor].
Qed.

(** A value with a member, an array, a string that is not ASCII, integers and a real. *)
Definition sample_value : Value :=
  initBasic (objectValue
    [(#"face", initBasic (arrayValue [(0%N, Value_int (-3)); (1%N, Value_uint 18446744073709551615);
                                      (2%N, Value_double (of_decimal false 15 (-1)))]));
     (#"id", initBasic (stringValue (utf8_bytes 233 ++ utf8_bytes 128512)))]).
Lemma sample_writable : writable sample_value.
Proof.
  assert (H1 : utf8 #"face") by (apply utf8_ascii; by repeat constructor).
  assert (H2 : utf8 #"id") by (apply utf8_ascii; by repeat constructor).
  assert (H3 : utf8 (utf8_bytes 233 ++ utf8_bytes 128512 ++ [])).
  { do 2 (apply utf8_cons; [split; lia|]). constructor. }
  assert (Hs : sorted CZString_ltb [(#"face", tt); (#"id", tt)]) by by repeat (constructor; cbn).
  rewrite (sorted_keys CZString_ltb) in Hs.
  cbn. rewrite (sorted_keys CZString_ltb). unfold minInt64, maxInt64, maxUInt64.
  split_and!; first [done|exact Hs|lia].
Qed.
(** Settings that give one line without blanks. *)
Definition compact_settings : Value :=
  initBasic (objectValue
    [(#"commentStyle", initBasic (stringValue #"None"));
     (#"precision", Value_int 5); (#"precisionType", initBasic (stringValue #"decimal"))]).
Definition compact_style : Style := mkStyle [] CommentsNone #":" #"null" [] false 5 decimalPlaces.
Lemma compact_json_style : json_style compact_style.
Proof.
  split; try done; [constructor| |constructor|by right]. exists [], []. by split_and!; constructor.
Qed.

(** C9: Reading what was written, with any such settings, gives the value back, up to the
    kind of integer (an integer up to [maxInt] is read as an [intValue], a larger one as a
    [uintValue]) and the digits of reals: for a value of at most 1000 levels without comments,
    with strings and keys in UTF-8 and arrays of less than [2^31] elements without gaps.  The text may
    have blanks around it. *)
Theorem json_roundtrip settings st v w w' root :
  newStreamWriter settings = Ret st -> json_style st ->
  writable v -> (depth v <= 1000)%nat -> blank w -> blank w' ->
  exists t v', writeString settings v = Ret t /\
    parse_default (w ++ t ++ w') root = Ret (true, v', []) /\ plain v' = reread st v.
Proof.
  intros Hs Hst Hw Hd Hb Hb'.
  destruct (write_text st v (S (depth v)) Hst Hw ltac:(lia)) as (t & Ht & Htext).
  destruct (newStreamWriter_style settings st Hs) as [He0 _]. rewrite He0, app_nil_r in Ht.
  destruct (parse_text (json_of st v) t w w' root Htext Hb Hb') as (r & Hr & He & Hv).
  { by rewrite jdepth_json_of. }
  exists t, (root_ r). split_and!; [unfold writeString; by rewrite Hs| |by rewrite Hv, denote_json_of].
  rewrite parse_default_eq, Hr. cbn [obind]. unfold getFormattedErrorMessages. by rewrite He.
Qed.
Example json_roundtrip_witness :
  exists t v', writeString compact_settings sample_value = Ret t /\
    parse_default ([] ++ t ++ [LF]) nullSingleton = Ret (true, v', []) /\
    plain v' = reread compact_style sample_value.
Proof.
  apply json_roundtrip; [vm_compute; reflexivity|apply compact_json_style|apply sample_writable
                        |vm_compute; lia|constructor|by repeat constructor].
Defined.

(** C35: Whatever bytes a string holds, [valueToQuotedStringN] writes one string token
    of visible ASCII characters, which the reader scans to its end and decodes
    without an error; a string in UTF-8 comes back unchanged. *)
Theorem quoted_string_reads_back s rest :
  exists b x, valueToQuotedStringN s = DQ :: b ++ [DQ] /\ Forall visible b /\
    readString DQ NUL (b ++ DQ :: rest) = (true, rest) /\
    decodeString (mkToken tokenString ((DQ :: b ++ [DQ]) ++ rest) rest) = Decoded x /\
    (utf8 s -> x = s).
Proof.
  assert (exists x, quoted (quote_loop 0 s) x /\ (utf8 s -> x = s)) as (x & Hq & Hx).
  { destruct (quote_loop_quoted 0 s) as [x Hq]. exists x. split; [done|]. intros Hu.
    pose proof (decode_quoted _ _ Hq (S (length (quote_loop 0 s))) [] [] ltac:(lia)) as H1.
    pose proof (decode_quoted _ _ (quote_loop_utf8 s Hu) (S (length (quote_loop 0 s))) [] []
                  ltac:(lia)) as H2.
    rewrite H1 in H2. by injection H2. }
  exists (quote_loop 0 s), x. split_and!; [apply valueToQuotedStringN_loop| | | |done].
  - apply quote_loop_visible.
  - by apply (readString_quoted _ x).
  - by apply decodeString_quoted.
Qed.

(** [utf8ToCodepoint] finds the code point that [codePointToUTF8] encoded, and
    moves the pointer to its last byte. *)
Theorem codepoint_roundtrip cp rest :
  scalar cp ->
  utf8ToCodepoint (codePointToUTF8 cp ++ rest) = (cp, (length (codePointToUTF8 cp) - 1)%nat).
Proof.
  intros [Hcp Hs]. destruct (Z.lt_ge_cases cp 0x80) as [Hlt|Hge].
  - rewrite utf8_one by lia. unfold utf8ToCodepoint. cbn [app hd length].
    rewrite code_chr by lia. by rewrite (proj2 (Z.ltb_lt _ _)).
  - destruct (utf8ToCodepoint_encoded cp rest (conj Hcp Hs) Hge) as (c & k & Hc & Hu).
    rewrite Hu, Hc. cbn [length]. f_equal. lia.
Qed.
Example codepoint_roundtrip_witness :
  utf8ToCodepoint (codePointToUTF8 128512 ++ #"x") =
  (128512, (length (codePointToUTF8 128512) - 1)%nat).
Proof. apply codepoint_roundtrip. split; lia. Defined.

(** ** Values *)

(** Objects and arrays as the library builds them: sorted by key. *)
Definition well_keyed (v : Value) : Prop :=
  match payload v with
  | arrayValue m => sorted N.ltb m
  | objectValue m => sorted CZString_ltb m
  | _ => True
  end.
Lemma same_key a b :
  (CZString_ltb a b = false /\ CZString_ltb b a = false) <-> a = b.
Proof.
  split; [intros [H1 H2]; by apply (ltb_total (ltb:=CZString_ltb))|].
  intros ->. by rewrite (ltb_irrefl (ltb:=CZString_ltb)).
Qed.
Lemma member_const_object v m k :
  payload v = objectValue m ->
  member_const v k = Ret (default nullSingleton (map_find CZString_ltb (CZString k) m)).
Proof.
  intros Hp. unfold member_const, find, isNull, isObject, type. rewrite Hp. cbn.
  unfold get_child. by rewrite Hp.
Qed.

(** C14: The members of an object, a null value counting as an empty one, form a map
    from names (cut to 30 bits of length) to values: assigning through
    the subscript operator changes the member of that name only, removing it makes it null
    again, and the order of the keys that [std::map] relies on is kept. *)
Theorem members_form_a_map v k x :
  well_keyed v -> isNull v || isObject v = true ->
  exists v', set_member v k x = Ret v' /\ well_keyed v' /\
    (forall k', member_const v' k' =
       if decide (CZString k = CZString k') then Ret x else member_const v k') /\
    well_keyed (snd (removeMember v k)) /\
    (forall k', member_const (snd (removeMember v k)) k' =
       if decide (CZString k = CZString k') then Ret nullSingleton else member_const v k').
Proof.
  intros Hk Ho.
  assert (Hm : exists m, null_to TObject v = mkValue (objectValue m) (comments_ (null_to TObject v))
                 (start_ (null_to TObject v)) (limit_ (null_to TObject v)) /\
    sorted CZString_ltb m /\
    (forall k', member_const v k' = Ret (default nullSingleton (map_find CZString_ltb (CZString k') m))) /\
    well_keyed (snd (removeMember v k)) /\
    forall k', member_const (snd (removeMember v k)) k' =
      Ret (default nullSingleton (map_find CZString_ltb (CZString k') (map_erase CZString_ltb
        (CZString k) m)))).
  { destruct v as [[| | | | | | |m] c a b]; try done.
    - exists []. split_and!; [done|constructor|done|done|done].
    - exists m. split_and!; [done|done|by intros; apply (member_const_object _ m)| |].
      + unfold removeMember. cbn. destruct (map_find CZString_ltb (CZString k) m); [|done].
        by apply (map_erase_sorted CZString_ltb).
      + intros k'. unfold removeMember. cbn.
        destruct (map_find CZString_ltb (CZString k) m) eqn:E.
        * by apply (member_const_object (set_payload _ _) (map_erase CZString_ltb (CZString k) m)).
        * rewrite (member_const_object _ m) by done.
          rewrite (map_find_erase CZString_ltb) by done. destruct (decide _) as [H%same_key|]; [|done].
          by rewrite <-H, E. }
  destruct Hm as (m & Hv & Hs & Hfind & Hrk & Hrem).
  set (m' := map_set CZString_ltb nullSingleton (CZString k) x m).
  exists (set_payload (null_to TObject v) (objectValue m')).
  split_and!; [|by apply (map_set_sorted CZString_ltb)| |done|].
  - unfold set_member, resolveReference. rewrite Ho. cbn [json_assert]. rewrite Hv. done.
  - intros k'. rewrite (member_const_object _ m') by done. unfold m'.
    rewrite (map_find_set CZString_ltb) by done. rewrite Hfind.
    destruct (decide (_ /\ _)) as [H|H]; rewrite same_key in H; by destruct (decide _).
  - intros k'. rewrite Hrem, (map_find_erase CZString_ltb), Hfind by done.
    destruct (decide (_ /\ _)) as [H|H]; rewrite same_key in H; by destruct (decide _).
Qed.
Example members_form_a_map_witness :
  exists v', set_member sample_value #"id" nullSingleton = Ret v' /\ well_keyed v' /\
    (forall k', member_const v' k' =
       if decide (CZString #"id" = CZString k') then Ret nullSingleton
       else member_const sample_value k') /\
    well_keyed (snd (removeMember sample_value #"id")) /\
    (forall k', member_const (snd (removeMember sample_value #"id")) k' =
       if decide (CZString #"id" = CZString k') then Ret nullSingleton
       else member_const sample_value k').
Proof. apply members_form_a_map; [apply sample_writable|reflexivity]. Defined.

(** An integer of 64 bits is written as a number of the grammar, and the reader
    decodes it to the same integer: an [intValue] up to [maxInt], a [uintValue]
    beyond; the overflow test of [decodeNumber] stops neither the smallest nor
    the largest one. *)
Theorem integers_read_back z rest :
  minInt64 <= z <= maxUInt64 ->
  let text := if z <=? maxInt64 then valueToString_int z else valueToString_uint z in
  number text /\
  decodeNumber (mkToken tokenNumber (text ++ rest) rest) =
  Decoded (if z <=? maxInt then Value_int z else Value_uint z).
Proof.
  intros Hz text.
  assert (number text /\ number_value text = read_integer z) as [Hn Hv].
  { subst text. destruct (z <=? maxInt64) eqn:E.
    - apply Z.leb_le in E. split; [apply valueToString_int_number|apply number_value_int; lia].
    - apply Z.leb_gt in E. unfold maxInt64 in E.
      split; [apply valueToString_uint_number|apply number_value_uint; lia]. }
  split; [done|]. rewrite decodeNumber_number by done. by rewrite Hv.
Qed.
Example integers_read_back_witness :
  let text := if minInt64 <=? maxInt64 then valueToString_int minInt64
              else valueToString_uint minInt64 in
  number text /\
  decodeNumber (mkToken tokenNumber (text ++ #",") #",") =
  Decoded (if minInt64 <=? maxInt then Value_int minInt64 else Value_uint minInt64).
Proof. apply integers_read_back. split; vm_compute; discriminate. Defined.
