(* ===== verification/JsonArrays.v ===== *)
(** * JSON: arrays

    What the operations of [class Value] on elements do to an array whose elements are
    numbered without gaps, which is an array that [append] built or the reader read: it is a
    list, and they are the operations of lists. *)
From Stdlib Require Import Ascii String.
From stdpp Require Import base tactics list numbers option strings.
From S2P Require Import Prelude Globals JsonValue JsonReader JsonLaws JsonGrammar JsonAccepts JsonWritten.

(** The array with the elements [l]. *)
Definition list_value (l : list Value) (c : Comments) (a b : Z) : Value :=
  mkValue (arrayValue (numbered 0 l)) c a b.

(** ** The map at one of its keys *)
Lemma numbered_app {A} i (l l' : list A) :
  numbered i (l ++ l') = numbered i l ++ numbered (i + N.of_nat (length l)) l'.
Proof.
  revert i. induction l as [|x l IH]; intros i; cbn [app numbered length]; [by rewrite N.add_0_r|].
  rewrite IH. do 2 f_equal. f_equal. lia.
Qed.
Lemma numbered_middle {A} (l l' : list A) x :
  numbered 0 (l ++ x :: l') =
  numbered 0 l ++ (N.of_nat (length l), x) :: numbered (N.of_nat (length l) + 1) l'.
Proof. rewrite numbered_app. cbn [numbered]. by rewrite N.add_0_l. Qed.
Section Entry.
Context {V : Type} (m1 m2 : list (N * V)) (k : N) (v : V).
Hypothesis before : Forall (fun kv => (fst kv <? k)%N = true) m1.
Lemma find_entry : map_find N.ltb k (m1 ++ (k, v) :: m2) = Some v.
Proof.
  clear -before. induction m1 as [|[k' v'] m IH]; cbn; [by rewrite N.ltb_irrefl|].
  apply Forall_cons in before as [Hk Hm]. cbn in Hk. rewrite Hk. by apply IH.
Qed.
Lemma insert_entry d : map_insert_new N.ltb k d (m1 ++ (k, v) :: m2) = m1 ++ (k, v) :: m2.
Proof.
  clear -before. induction m1 as [|[k' v'] m IH]; cbn; [by rewrite N.ltb_irrefl|].
  apply Forall_cons in before as [Hk Hm]. cbn in Hk. by rewrite Hk, IH.
Qed.
Lemma upd_entry f : map_upd N.ltb k f (m1 ++ (k, v) :: m2) = m1 ++ (k, f v) :: m2.
Proof.
  clear -before. induction m1 as [|[k' v'] m IH]; cbn; [by rewrite N.ltb_irrefl|].
  apply Forall_cons in before as [Hk Hm]. cbn in Hk. by rewrite Hk, IH.
Qed.
Lemma erase_entry : map_erase N.ltb k (m1 ++ (k, v) :: m2) = m1 ++ m2.
Proof.
  clear -before. induction m1 as [|[k' v'] m IH]; cbn; [by rewrite N.ltb_irrefl|].
  apply Forall_cons in before as [Hk Hm]. cbn in Hk. by rewrite Hk, IH.
Qed.
Lemma find_behind : map_find N.ltb k m1 = None.
Proof.
  clear -before. induction m1 as [|[k' v'] m IH]; cbn; [done|].
  apply Forall_cons in before as [Hk Hm]. cbn in Hk. rewrite Hk. by apply IH.
Qed.
Lemma insert_behind d : map_insert_new N.ltb k d m1 = m1 ++ [(k, d)].
Proof.
  clear -before. induction m1 as [|[k' v'] m IH]; cbn; [done|].
  apply Forall_cons in before as [Hk Hm]. cbn in Hk. by rewrite Hk, IH.
Qed.
End Entry.

(** ** A list as an array *)
Section Lists.
Context (c : Comments) (a b : Z).
Abbreviation arr m := (mkValue (arrayValue m) c a b).
Lemma index_ref_array m i :
  index_ref (arr m) i = Ret (arr (map_insert_new N.ltb i nullSingleton m)).
Proof. done. Qed.
Lemma upd_array m i f : upd_child (Index i) f (arr m) = arr (map_upd N.ltb i f m).
Proof. done. Qed.
Lemma index_const_array m i :
  index_const (arr m) i = Ret (default nullSingleton (map_find N.ltb i m)).
Proof. done. Qed.
Lemma size_list l : (N.of_nat (length l) <= 4294967295)%N -> size (list_value l c a b) = N.of_nat (length l).
Proof.
  intros Hl. unfold size, list_value. cbn [payload].
  destruct l as [|x l _] using rev_ind; [done|]. pose proof (size_numbered l x) as Hs.
  destruct (rev _) as [|[i z] m]; [done|]. unfold ArrayIndex_wrap. rewrite Hs, N.mod_small; lia.
Qed.
Lemma find_list (l : list Value) i : map_find N.ltb i (numbered 0 l) = l !! N.to_nat i.
Proof.
  destruct (l !! N.to_nat i) as [x|] eqn:E.
  - pose proof (take_drop_middle l _ _ E) as H. rewrite <- H, numbered_middle.
    assert (N.of_nat (length (take (N.to_nat i) l)) = i) as ->.
    { rewrite length_take. apply lookup_lt_Some in E. lia. }
    apply find_entry, numbered_below. rewrite length_take. lia.
  - apply lookup_ge_None in E. apply find_behind, numbered_below. lia.
Qed.
Lemma index_const_list l i :
  index_const (list_value l c a b) i = Ret (default nullSingleton (l !! N.to_nat i)).
Proof. unfold list_value. by rewrite index_const_array, find_list. Qed.
Lemma append_list (l : list Value) x : (N.of_nat (length l) < 4294967295)%N ->
  append (list_value l c a b) x = Ret (list_value (l ++ [x]) c a b).
Proof.
  intros Hl. unfold append. rewrite size_list by lia. unfold list_value.
  rewrite index_ref_array, insert_behind by (apply numbered_below; lia). cbn [obind].
  rewrite upd_array, upd_entry by (apply numbered_below; lia). by rewrite numbered_snoc.
Qed.
(** The reference to an element, and what is assigned through it. *)
Lemma index_list l i x : (N.to_nat i < length l)%nat ->
  index_ref (list_value l c a b) i = Ret (list_value l c a b) /\
  upd_child (Index i) (fun _ => x) (list_value l c a b) = list_value (<[N.to_nat i := x]> l) c a b.
Proof.
  intros Hi. destruct (lookup_lt_is_Some_2 l (N.to_nat i) Hi) as [y Hy].
  pose proof (take_drop_middle l _ _ Hy) as H.
  assert (N.of_nat (length (take (N.to_nat i) l)) = i) as Hlen by (rewrite length_take; lia).
  assert (Forall (fun kv => (fst kv <? i)%N = true) (numbered 0 (take (N.to_nat i) l))) as Hb
    by (apply numbered_below; lia).
  unfold list_value. rewrite index_ref_array, upd_array, insert_take_drop by done.
  rewrite <- H at 1 2 3. rewrite !numbered_middle, Hlen.
  by rewrite insert_entry, upd_entry by done.
Qed.

(** [removeIndex]: every element takes the place of the one in front of it. *)
Lemma last_next {A} (l : list A) x y : List.last (y :: l) x = List.last l y.
Proof. revert x y. induction l as [|z l IH]; intros x y; [done|].
  change (List.last (z :: l) x = List.last (z :: l) y). by rewrite !IH.
Qed.
Lemma shift_all (l' : list Value) : forall (l : list Value) x,
  fold_left shift_left (map N.of_nat (seq (length l) (length l'))) (numbered 0 (l ++ x :: l')) =
  numbered 0 (l ++ l' ++ [List.last l' x]).
Proof.
  induction l' as [|y l' IH]; intros l x; [done|]. cbn [length seq map fold_left].
  assert (shift_left (numbered 0 (l ++ x :: y :: l')) (N.of_nat (length l)) =
          numbered 0 ((l ++ [y]) ++ y :: l')) as ->.
  { unfold shift_left. cbv zeta.
    assert (numbered 0 (l ++ x :: y :: l') =
      (numbered 0 l ++ [(N.of_nat (length l), x)]) ++
      ((N.of_nat (length l) + 1)%N, y) :: numbered (N.of_nat (length l) + 1 + 1) l') as ->.
    { rewrite numbered_middle. cbn [numbered]. by rewrite <- app_assoc. }
    assert (Forall (fun kv => (fst kv <? N.of_nat (length l) + 1)%N = true)
      (numbered 0 l ++ [(N.of_nat (length l), x)])) as Hb.
    { apply Forall_app. split; [apply numbered_below; lia|]. apply Forall_singleton. cbn.
      apply N.ltb_lt. lia. }
    rewrite insert_entry, find_entry by done. rewrite <- app_assoc. cbn [app default].
    assert (Forall (fun kv => (fst kv <? N.of_nat (length l))%N = true) (numbered 0 l)) as Hb'
      by (apply numbered_below; lia).
    rewrite insert_entry, upd_entry by done. rewrite <- app_assoc. cbn [app].
    by rewrite numbered_middle. }
  specialize (IH (l ++ [y]) y). rewrite length_app, Nat.add_1_r in IH. rewrite IH, <- app_assoc.
  cbn [app]. by rewrite last_next.
Qed.
Lemma removeIndex_list l i : (N.of_nat (length l) <= 4294967295)%N ->
  removeIndex (list_value l c a b) i =
  match l !! N.to_nat i with
  | Some w => (Some w, list_value (delete (N.to_nat i) l) c a b)
  | None => (None, list_value l c a b)
  end.
Proof.
  intros Hl. unfold removeIndex. rewrite size_list by done. cbn [list_value payload].
  rewrite find_list. destruct (l !! N.to_nat i) as [w|] eqn:E; [|done].
  pose proof (take_drop_middle l _ _ E) as H. apply lookup_lt_Some in E.
  set (l1 := take (N.to_nat i) l) in *. set (l2 := drop (S (N.to_nat i)) l) in *.
  assert (length l1 = N.to_nat i) as Hl1 by (unfold l1; rewrite length_take; lia).
  assert (delete (N.to_nat i) l = l1 ++ l2) as -> by (by rewrite delete_take_drop).
  assert (length l = S (length l1 + length l2)) as Hlen.
  { rewrite <- H, length_app. cbn. lia. }
  assert (last_index (N.of_nat (length l)) = N.of_nat (length l1 + length l2)) as ->.
  { unfold last_index, ArrayIndex_wrap.
    replace (N.of_nat (length l) + 4294967295)%N
      with (N.of_nat (length l1 + length l2) + 1 * 4294967296)%N by lia.
    rewrite N.Div0.mod_add, N.mod_small; lia. }
  unfold indices_between. rewrite <- Hl1.
  replace (N.to_nat (N.of_nat (length l1 + length l2) - i)) with (length l2) by lia.
  assert (numbered 0 l = numbered 0 (l1 ++ w :: l2)) as -> by (by rewrite H). rewrite shift_all.
  cbn [set_payload list_value].
  rewrite app_assoc, numbered_snoc, N.add_0_l, length_app.
  by rewrite erase_entry, app_nil_r by (apply numbered_below; rewrite length_app; lia).
Qed.

(** [resize] to fewer elements drops those behind. *)
Lemma erase_all m (l : list Value) : forall n,
  Forall (fun kv => (fst kv <? N.of_nat n)%N = true) m ->
  fold_left (fun m i => map_erase N.ltb i m) (map N.of_nat (seq n (length l)))
    (m ++ numbered (N.of_nat n) l) = m.
Proof.
  induction l as [|x l IH]; intros n Hm; cbn [length seq map fold_left numbered]; [apply app_nil_r|].
  rewrite erase_entry by done. replace (N.of_nat n + 1)%N with (N.of_nat (S n)) by lia.
  apply IH. eapply Forall_impl; [exact Hm|]. intros kv Hkv. cbn in *. apply N.ltb_lt in Hkv.
  apply N.ltb_lt. lia.
Qed.
Lemma resize_shrinks l n : (N.of_nat (length l) <= 4294967295)%N -> (0 < n)%N -> (N.to_nat n <= length l)%nat ->
  resize (list_value l c a b) n = Ret (list_value (take (N.to_nat n) l) c a b).
Proof.
  intros Hl Hn Hnl. unfold resize. cbn [isNull isArray orb].
  change (null_to TArray (list_value l c a b)) with (list_value l c a b).
  change (isNull (list_value l c a b) || isArray (list_value l c a b)) with true.
  cbn [json_assert]. cbv zeta. rewrite size_list by done.
  assert ((n =? 0)%N = false) as -> by (apply N.eqb_neq; lia).
  assert ((N.of_nat (length l) <? n)%N = false) as -> by (apply N.ltb_ge; lia).
  cbn [list_value payload]. unfold indices_between.
  replace (N.to_nat (N.of_nat (length l) - n)) with (length (drop (N.to_nat n) l))
    by (rewrite length_drop; lia).
  assert (numbered 0 l = numbered 0 (take (N.to_nat n) l) ++
            numbered (N.of_nat (N.to_nat n)) (drop (N.to_nat n) l)) as ->.
  { rewrite <- (take_drop (N.to_nat n) l) at 1. rewrite numbered_app, length_take.
    do 2 f_equal. lia. }
  rewrite erase_all by (apply numbered_below; rewrite length_take; lia).
  change (set_payload _ _) with (list_value (take (N.to_nat n) l) c a b).
  rewrite size_list by (rewrite length_take; lia). rewrite length_take.
  by rewrite (proj2 (N.eqb_eq _ _)) by lia.
Qed.
(** To more: one element is made, the last; those between are missing and read as null. *)
Lemma resize_grows l n : (length l < N.to_nat n)%nat -> (n <= 4294967295)%N ->
  exists v, resize (list_value l c a b) n = Ret v /\ size v = n /\
    forall i, index_const v i = index_const (list_value l c a b) i.
Proof.
  intros Hl Hn. unfold resize.
  change (null_to TArray (list_value l c a b)) with (list_value l c a b).
  change (isNull (list_value l c a b) || isArray (list_value l c a b)) with true.
  cbn [json_assert]. cbv zeta. rewrite size_list by lia.
  assert ((n =? 0)%N = false) as -> by (apply N.eqb_neq; lia).
  assert ((N.of_nat (length l) <? n)%N = true) as -> by (apply N.ltb_lt; lia).
  assert (Forall (fun kv => (fst kv <? n - 1)%N = true) (numbered 0 l)) as Hb
    by (apply numbered_below; lia).
  unfold list_value. rewrite index_ref_array, (insert_behind _ _ Hb).
  eexists. split; [reflexivity|]. split.
  - unfold size. cbn [payload]. rewrite rev_app_distr. cbn [rev app]. unfold ArrayIndex_wrap. rewrite N.mod_small; lia.
  - intros i. rewrite !index_const_array. f_equal.
    destruct (map_find N.ltb i (numbered 0 l)) as [x|] eqn:E.
    + rewrite find_list in E.
      assert (Forall (fun kv => (fst kv <? i)%N = true) (numbered 0 (take (N.to_nat i) l))) as Hb2
        by (apply numbered_below; rewrite length_take; lia).
      pose proof (take_drop_middle l _ _ E) as H.
      rewrite <- H, numbered_middle.
      assert (N.of_nat (length (take (N.to_nat i) l)) = i) as ->.
      { rewrite length_take. apply lookup_lt_Some in E. lia. }
      rewrite <- app_assoc. cbn [app]. by rewrite find_entry.
    + assert (forall m : list (N * Value), map_find N.ltb i m = None ->
        default nullSingleton (map_find N.ltb i (m ++ [((n - 1)%N, nullSingleton)])) = nullSingleton) as Hd.
      { induction m as [|[k v] m IH]; cbn; intros Hm; [by repeat case_match|].
        destruct (k <? i)%N; [by apply IH|]. by destruct (i <? k)%N. }
      by apply Hd.
Qed.
End Lists.

(** C33: An array whose elements are numbered without gaps is a list: its size is the length, an element
    out of range reads as null, [append] adds behind, assignment replaces one element,
    [removeIndex] deletes one and hands it out, [resize] to fewer elements keeps the first ones,
    [resize] to more makes nulls, and [clear] drops all; comments stay. *)
Theorem arrays_are_lists l c a b : (N.of_nat (length l) <= 4294967295)%N ->
  let v := list_value l c a b in
  size v = N.of_nat (length l) /\
  (forall i, index_const v i = Ret (default nullSingleton (l !! N.to_nat i))) /\
  (forall x, (N.of_nat (length l) < 4294967295)%N -> append v x = Ret (list_value (l ++ [x]) c a b)) /\
  (forall i x, (N.to_nat i < length l)%nat ->
     index_ref v i = Ret v /\
     upd_child (Index i) (fun _ => x) v = list_value (<[N.to_nat i := x]> l) c a b) /\
  (forall i, removeIndex v i =
     match l !! N.to_nat i with
     | Some w => (Some w, list_value (delete (N.to_nat i) l) c a b)
     | None => (None, v)
     end) /\
  (forall n, (0 < n)%N -> (N.to_nat n <= length l)%nat ->
     resize v n = Ret (list_value (take (N.to_nat n) l) c a b)) /\
  (forall n, (length l < N.to_nat n)%nat -> (n <= 4294967295)%N ->
     exists v', resize v n = Ret v' /\ size v' = n /\ forall i, index_const v' i = index_const v i) /\
  clear v = Ret (list_value [] c 0 0) /\ resize v 0 = clear v.
Proof.
  intros Hl v. split_and!; [by apply size_list|apply index_const_list|intros; by apply append_list
    |intros; by apply index_list|intros; by apply removeIndex_list|intros; by apply resize_shrinks
    |intros; by apply resize_grows|done|done].
Qed.
Example arrays_are_lists_witness :
  let l := [Value_int 1; Value_int 2; Value_int 3] in
  removeIndex (list_value l no_comments 0 0) 1 =
    (Some (Value_int 2), list_value [Value_int 1; Value_int 3] no_comments 0 0).
Proof.
  intros l.
  exact (proj1 (proj2 (proj2 (proj2 (proj2 (arrays_are_lists l no_comments 0 0
    ltac:(cbn; lia)))))) 1%N).
Defined.
