(* ===== verification/FaceDetection.v ===== *)
(** * The application: the face-detection service

    Models [FaceDetectionService.h] and [FaceDetectionService.cpp], and the
    service that [facedetector.cpp] binds.  OpenCV (decoding, equalising, detecting) is a
    parameter whose functions may throw.  [Sleep] only delays. *)
From Stdlib Require Import Ascii String.
From stdpp Require Import base tactics list numbers option strings.
From S2P Require Import Prelude Globals Common Url Message Base64 Rest Double.
From S2P Require Import JsonText JsonValue JsonWriter JsonReader JsonProps.
Open Scope Z_scope.

(** [cv::Rect], with [int] members. *)
Record Rect := mkRect { rect_x : Z; rect_y : Z; rect_width : Z; rect_height : Z }.

(** ** JSON helpers *)

(** [StringToJson]: the value, whether the parser reported success or not, and
    what goes to [std::cerr]. *)
Definition StringToJson (s : str) : outcome (Value * str) :=
  let! builder := reader_setDefaults nullSingleton in
  let! (ok, json, errs) := parseFromStream builder s nullSingleton in
  Ret (json, if ok : bool then [] else errs ++ [LF]).

(** [JsonToString]. *)
Definition JsonToString (json : Value) : outcome str :=
  let! builder := setDefaults nullSingleton in writeString builder json.

(** [json[key].append(value)]. *)
Definition append_member (json : Value) (key : str) (value : Value) : outcome Value :=
  let! json := resolveReference json key in
  let! child := append (default nullSingleton (get_child json (Key (CZString key)))) value in
  Ret (upd_child (Key (CZString key)) (fun _ => child) json).

Section Application.
Context {Mat CascadeClassifier : Type}.
Context (Mat_new : Mat) (Mat_empty : Mat -> bool).
Context (imdecode : str -> outcome Mat) (equalizeHist : Mat -> outcome Mat).
Context (detectMultiScale : CascadeClassifier -> Mat -> outcome (list Rect)).

(** ** [class Image] *)
Record Image := mkImage { _faceId : str; _matInput : Mat }.
Definition Image_new (faceId : str) : Image := mkImage faceId Mat_new.
Definition getFaceId (i : Image) : str := _faceId i.
Definition setImageData (i : Image) (sImageDataBase64 : str) : outcome Image :=
  let sImageData := App.base64_decode sImageDataBase64 in
  let! mat := imdecode sImageData in
  Ret (mkImage (_faceId i) mat).
(** [faceDetect]: the image, equalised in place, and the faces. *)
Definition faceDetect (i : Image) (cascade : CascadeClassifier) (vFaces : list Rect)
    : outcome (Image * list Rect) :=
  if Mat_empty (_matInput i) then Ret (i, vFaces)
  else
    let! mat := equalizeHist (_matInput i) in
    let! vFaces := detectMultiScale cascade mat in
    Ret (mkImage (_faceId i) mat, vFaces).

Definition JsonToImage (json : Value) : outcome Image :=
  let! faceId := (let! v := member_const json #"faceId" in asString v) in
  let pImage := Image_new faceId in
  let! imageData := member_const json #"imageData" in
  if negb (isNull imageData) then
    let! s := asString imageData in setImageData pImage s
  else Ret pImage.
(** [JsonStringToImage]: [None] when it returns [false]. *)
Definition JsonStringToImage (sJson : str) : outcome (option Image) :=
  let! (json, _) := StringToJson sJson in
  if negb (to_bool json) then Ret None
  else let! image := JsonToImage json in Ret (Some image).

(** ** [class FaceDetectionService] *)
Record FaceDetectionService := mkFaceDetectionService {
  _iSleepSeconds_ : Z;
  _cascade : CascadeClassifier
}.

(** The body of the loop over the faces, and the loop. *)
Definition face_to_json (face : Rect) : outcome Value :=
  let! jsonFace := set_member nullSingleton #"width" (Value_int (rect_width face)) in
  let! jsonFace := set_member jsonFace #"height" (Value_int (rect_height face)) in
  let! jsonFace := set_member jsonFace #"x" (Value_int (rect_x face)) in
  set_member jsonFace #"y" (Value_int (rect_y face)).
Fixpoint add_faces (json : Value) (vFaces : list Rect) : outcome Value :=
  match vFaces with
  | [] => Ret json
  | face :: vFaces' =>
      let! jsonFace := face_to_json face in
      let! json := append_member json #"faces" jsonFace in
      add_faces json vFaces'
  end.

Definition Post (service : FaceDetectionService) (sRequestContent : str) (response : RestResponse)
    : outcome RestResponse :=
  match sRequestContent with
  | [] => Ret response
  | _ =>
      let! image := JsonStringToImage sRequestContent in
      match image with
      | Some pImage =>
          let! id := Value_String (getFaceId pImage) in
          let! json := set_member nullSingleton #"faceId" id in
          let! json := set_member json #"faces" (Value_make TArray) in
          let! (_, vFaces) := faceDetect pImage (_cascade service) [] in
          let! json := add_faces json vFaces in
          let! content := JsonToString json in
          Ret (mkRestResponse (Some kCreated) content kApplicationJson #"utf-8")
      | None =>
          Ret (mkRestResponse (Some kBadRequest) (rr_content response) (rr_media_type response)
                 (rr_charset response))
      end
  end.
Definition Get (service : FaceDetectionService) (query : UrlQuery) (response : RestResponse)
    : outcome RestResponse :=
  let! content := JsonToString (Value_make TArray) in
  Ret (mkRestResponse (Some kOK) content kApplicationJson #"utf-8").

(** The service as [webcc] sees it. *)
Definition list_service (service : FaceDetectionService) : ListService :=
  mkListService (Get service) (Post service).

(** ** [main] as a server *)
Definition port : Z := 444.
Definition server_workers : nat := 2.
Definition sleep_seconds : Z := 0.
(** What is bound to the server. *)
Definition bound_services {Regex} (compile : str -> option Regex) (cascade : CascadeClassifier)
    : list (@ServiceItem Regex) :=
  fst (AddService compile []
         (RestListService_Handle (list_service (mkFaceDetectionService sleep_seconds cascade)))
         #"/images" false).
(** What the server does with a request. *)
Definition serve {Regex} (compile : str -> option Regex) (regex_match : Regex -> str -> option (list str))
    (garbage : Z) (cascade : CascadeClassifier) (request : Request) : outcome Response :=
  HandleConnection regex_match garbage (bound_services compile cascade) request.
End Application.
