(* ===== verification/FaceProps.v ===== *)
(** * The application: properties

    What the service answers: the faces OpenCV finds, as JSON, for a JSON object
    with a face id and an image; a status for a null document; an exception, which
    ends the server, for any other JSON value. *)
From Stdlib Require Import Ascii String.
From stdpp Require Import base tactics list gmap numbers option strings.
From S2P Require Import Prelude Globals Common Url Message Base64 Parser Rest.
From S2P Require Import Connection Workers Server Double JsonText JsonValue JsonWriter JsonReader.
From S2P Require Import JsonLaws JsonReaderLaws JsonUtf8 JsonGrammar JsonLexis JsonAccepts JsonQuote JsonNumber JsonWritten JsonPrinter JsonWriterLaws JsonProps.
From S2P Require Import FaceDetection.
Open Scope Z_scope.

(** ** The JSON helpers *)
Lemma StringToJson_parse s :
  StringToJson s =
  let! (ok, json, errs) := parse_default s nullSingleton in
  Ret (json, if ok : bool then [] else errs ++ [LF]).
Proof.
  unfold StringToJson, parse_default, reader_settings.
  by destruct (reader_setDefaults nullSingleton).
Qed.
Lemma JsonToString_write v : JsonToString v = write_default v.
Proof. done. Qed.
(** A JSON text is read without a message. *)
Lemma StringToJson_text j t w w' :
  text j t -> blank w -> blank w' -> (jdepth j <= 1000)%nat ->
  exists v, StringToJson (w ++ t ++ w') = Ret (v, []) /\ plain v = denote j.
Proof.
  intros Ht Hw Hw' Hd.
  destruct (parse_text j t w w' nullSingleton Ht Hw Hw' Hd) as (r & Hr & _ & Hv).
  exists (root_ r). split; [|done]. by rewrite StringToJson_parse, parse_default_eq, Hr.
Qed.

(** *** The members of the document *)

(** The value of a member: the last one of that name counts. *)
Definition last_member (k : str) (l : list (str * json)) : json :=
  fold_left (fun j kj => if seqb (fst kj) k then snd kj else j) l JNull.

Lemma map_find_snd k (m : list (str * Value)) :
  map_find CZString_ltb k (map_snd plain m) = option_map plain (map_find CZString_ltb k m).
Proof.
  induction m as [|[k1 v1] m IH]; [done|]. cbn. destruct (CZString_ltb k1 k); [done|].
  by destruct (CZString_ltb k k1).
Qed.
Lemma find_store_members k acc l :
  sorted CZString_ltb acc ->
  map_find CZString_ltb k (store_members acc l) =
  fold_left (fun o kv => if seqb (fst kv) k then Some (snd kv) else o) l (map_find CZString_ltb k acc).
Proof.
  unfold store_members. revert acc. induction l as [|[k1 v1] l IH]; intros acc Hs; [done|]. cbn.
  rewrite IH by by apply (map_set_sorted CZString_ltb). f_equal.
  rewrite (map_find_set CZString_ltb) by done. cbn [fst snd].
  destruct (decide _) as [H%same_key|H]; rewrite same_key in H || subst k1.
  - by rewrite seqb_refl.
  - apply seqb_neq in H. by rewrite H.
Qed.
Lemma member_denoted v l k :
  plain v = denote (JObj l) -> (len k < 2 ^ 30)%N ->
  exists u, member_const v k = Ret u /\ plain u = denote (last_member k l).
Proof.
  intros Hv Hk. apply plain_payload_of in Hv.
  assert (exists m, payload v = objectValue m /\
    map_snd plain m = store_members [] (map (fun kj => (fst kj, denote (snd kj))) l)) as (m & Hp & Hm).
  { destruct (payload v); try done. injection Hv as Hv. eauto. }
  rewrite (member_const_object v m) by done. eexists. split; [done|].
  rewrite CZString_small by done.
  assert (map_find CZString_ltb k (map_snd plain m) =
    fold_left (fun o kv => if seqb (fst kv) k then Some (snd kv) else o)
      (map (fun kj => (fst kj, denote (snd kj))) l) None) as Hf.
  { rewrite Hm. by apply (find_store_members k []), Sorted.SSorted_nil. }
  rewrite map_find_snd in Hf.
  assert (Hlast : forall (o : option Value) j, plain (default nullSingleton o) = denote j ->
    forall o', option_map plain o = o' ->
    default nullSingleton (fold_left (fun o kv => if seqb (fst kv) k then Some (snd kv) else o)
      (map (fun kj => (fst kj, denote (snd kj))) l) o') =
    denote (fold_left (fun j kj => if seqb (fst kj) k then snd kj else j) l j)).
  { clear. intros o j Ho o' <-.
    assert (H : default nullSingleton (option_map plain o) = denote j).
    { rewrite <-Ho. by destruct o. }
    generalize dependent (option_map plain o). clear o Ho. revert j.
    induction l as [|[k1 j1] l IH]; intros j o H; [done|]. cbn. apply IH.
    by destruct (seqb k1 k). }
  specialize (Hlast None JNull eq_refl None eq_refl). unfold last_member. rewrite <-Hlast, <-Hf.
  by destruct (map_find CZString_ltb k m).
Qed.
Lemma plain_string u s : plain u = initBasic (stringValue s) -> payload u = stringValue s.
Proof. intros H%plain_payload_of. by destruct (payload u). Qed.
Lemma plain_type u : type (plain u) = type u.
Proof. by destruct u as [[] ? ? ?]. Qed.

(** ** The response *)
Definition face_json (r : Rect) : json :=
  JObj [(#"height", JNum (valueToString_int (rect_height r)));
        (#"width", JNum (valueToString_int (rect_width r)));
        (#"x", JNum (valueToString_int (rect_x r))); (#"y", JNum (valueToString_int (rect_y r)))].
(** The document that is sent for some faces. *)
Definition answer_json (id : str) (faces : list Rect) : json :=
  JObj [(#"faceId", JStr id); (#"faces", JArr (map face_json faces))].

Definition face_value (r : Rect) : Value :=
  initBasic (objectValue
    [(#"height", Value_int (rect_height r)); (#"width", Value_int (rect_width r));
     (#"x", Value_int (rect_x r)); (#"y", Value_int (rect_y r))]).
Definition answer_value (id : str) (faces : list Rect) : Value :=
  initBasic (objectValue
    [(#"faceId", initBasic (stringValue id));
     (#"faces", initBasic (arrayValue (numbered 0 (map face_value faces))))]).

Lemma face_to_json_value r : face_to_json r = Ret (face_value r).
Proof. reflexivity. Qed.
Lemma append_value l x :
  (N.of_nat (S (length l)) < 4294967296)%N ->
  append (initBasic (arrayValue (numbered 0 l))) x =
  Ret (initBasic (arrayValue (numbered 0 (l ++ [x])))).
Proof.
  intros Hl. unfold append.
  assert (size (initBasic (arrayValue (numbered 0 l))) = N.of_nat (length l)) as ->.
  { unfold size. cbn [payload initBasic]. destruct l as [|y l _] using rev_ind; [done|].
    pose proof (size_numbered l y) as Hs. destruct (rev _) as [|[i z] m]; [done|].
    unfold ArrayIndex_wrap. rewrite Hs, N.mod_small; lia. }
  unfold index_ref. cbn.
  change (Ret (initBasic (arrayValue
    (map_set N.ltb nullSingleton (N.of_nat (length l)) x (numbered 0 l)))) =
    Ret (initBasic (arrayValue (numbered 0 (l ++ [x]))))).
  rewrite (map_set_snoc N.ltb) by (apply numbered_below; lia). by rewrite numbered_snoc.
Qed.
Lemma append_face id faces face :
  (N.of_nat (S (length faces)) < 4294967296)%N ->
  append_member (answer_value id faces) #"faces" (face_value face) =
  Ret (answer_value id (faces ++ [face])).
Proof.
  intros Hl. unfold append_member.
  change (resolveReference (answer_value id faces) #"faces") with (Ret (answer_value id faces)).
  cbn [obind].
  change (default nullSingleton (get_child (answer_value id faces) (Key (CZString #"faces"))))
    with (initBasic (arrayValue (numbered 0 (map face_value faces)))).
  rewrite append_value by by rewrite length_map. cbn [obind].
  unfold answer_value at 2. rewrite map_app. reflexivity.
Qed.
Lemma add_faces_value id before faces :
  (N.of_nat (length (before ++ faces)) < 4294967296)%N ->
  add_faces (answer_value id before) faces = Ret (answer_value id (before ++ faces)).
Proof.
  revert before. induction faces as [|face faces IH]; intros before Hl; [by rewrite app_nil_r|].
  cbn [add_faces]. rewrite face_to_json_value. cbn [obind].
  change (before ++ face :: faces) with (before ++ [face] ++ faces) in *.
  rewrite app_assoc in *. rewrite append_face by (rewrite !length_app in Hl; cbn in Hl; lia).
  cbn [obind]. by apply IH.
Qed.

(** Coordinates are of type [int]. *)
Definition int_rect (r : Rect) : Prop :=
  Forall (fun z => minInt <= z <= maxInt) [rect_x r; rect_y r; rect_width r; rect_height r].
Lemma sorted_by_keys (m : list (str * Value)) :
  sorted CZString_ltb (map (fun kv => (fst kv, tt)) m) -> sorted CZString_ltb m.
Proof. rewrite !(sorted_keys CZString_ltb), map_map. done. Qed.
Ltac sorted_now := apply sorted_by_keys; by repeat (constructor; cbn).
Ltac utf8_now := apply utf8_ascii; by repeat constructor.
Lemma face_writable r : int_rect r -> writable (face_value r).
Proof.
  intros (Hx & (Hy & (Hw & (Hh & _)%Forall_cons)%Forall_cons)%Forall_cons)%Forall_cons.
  unfold minInt, maxInt in *.
  split; [done|]. split; [sorted_now|]. cbn [foldr fst snd]. unfold Value_int, initBasic, writable.
  unfold minInt64, maxInt64. split_and!; first [done|lia|utf8_now].
Qed.
Lemma answer_writable id faces :
  utf8 id -> (len id <= 2147483642)%N -> Forall int_rect faces ->
  (N.of_nat (length faces) <= 2147483647)%N -> writable (answer_value id faces).
Proof.
  intros Hu Hl Hf Hn. split; [done|]. split; [sorted_now|].
  assert (Hsnd : forall i, map snd (numbered i (map face_value faces)) = map face_value faces).
  { intros i. generalize (map face_value faces). intros l. revert i.
    induction l as [|x l IH]; intros i; [done|]. cbn. by rewrite IH. }
  split; [done|]. cbn [foldr fst snd]. split; [|split; [|done]].
  - split; [utf8_now|]. split; [done|]. by split.
  - split; [utf8_now|]. split; [done|]. split; [done|]. split; [by rewrite Hsnd|]. split.
    + rewrite <-(length_map snd), Hsnd, length_map. done.
    + apply (foldr_Forall (fun kv => writable (snd kv))). rewrite <-Forall_map, Hsnd, Forall_map.
      eapply Forall_impl; [exact Hf|]. apply face_writable.
Qed.
Lemma answer_json_of id faces : json_of default_style (answer_value id faces) = answer_json id faces.
Proof.
  unfold answer_json. cbn. do 6 f_equal.
  generalize 0%N. induction faces as [|f faces IH]; intros i; [done|]. cbn. by rewrite IH.
Qed.
Lemma answer_text id faces :
  utf8 id -> (len id <= 2147483642)%N -> Forall int_rect faces ->
  (N.of_nat (length faces) <= 2147483647)%N ->
  exists c, JsonToString (answer_value id faces) = Ret c /\ text (answer_json id faces) c.
Proof.
  intros Hu Hl Hf Hn. rewrite JsonToString_write, <-answer_json_of, write_default_eq.
  destruct (write_text default_style (answer_value id faces) (S (depth (answer_value id faces))))
    as (t & Ht & Htext); [apply default_json_style|by apply answer_writable|lia|].
  rewrite app_nil_r in Ht. by exists t.
Qed.

(** ** [Post] *)
Section Service.
Context {Mat CascadeClassifier : Type}.
Context (Mat_new : Mat) (Mat_empty : Mat -> bool).
Context (imdecode : str -> outcome Mat) (equalizeHist : Mat -> outcome Mat).
Context (detectMultiScale : CascadeClassifier -> Mat -> outcome (list Rect)).
(** A default-constructed [cv::Mat] is empty. *)
Context (Mat_new_empty : Mat_empty Mat_new = true).
Abbreviation Post := (Post Mat_new Mat_empty imdecode equalizeHist detectMultiScale).
Abbreviation JsonToImage := (JsonToImage Mat_new imdecode).
Abbreviation FaceDetectionService := (@FaceDetectionService CascadeClassifier).

(** What OpenCV finds in an image given in base64; without an image, or when it
    cannot be decoded, there are no faces. *)
Definition detect_in (cascade : CascadeClassifier) (data : json) : outcome (list Rect) :=
  match data with
  | JStr b =>
      let! mat := imdecode (App.base64_decode b) in
      if Mat_empty mat then Ret []
      else let! mat := equalizeHist mat in detectMultiScale cascade mat
  | _ => Ret []
  end.

Lemma Post_nonempty service content response :
  content <> [] ->
  Post service content response =
  let! image := JsonStringToImage Mat_new imdecode content in
  match image with
  | Some pImage =>
      let! id := Value_String (getFaceId pImage) in
      let! (_, vFaces) := faceDetect Mat_empty equalizeHist detectMultiScale pImage (_cascade service) [] in
      let! json := add_faces (answer_value (match id with mkValue (stringValue s) _ _ _ => s | _ => [] end) [])
                     vFaces in
      let! content := JsonToString json in
      Ret (mkRestResponse (Some kCreated) content kApplicationJson #"utf-8")
  | None =>
      Ret (mkRestResponse (Some kBadRequest) (rr_content response) (rr_media_type response)
             (rr_charset response))
  end.
Proof.
  destruct content as [|c content]; [done|]. intros _. unfold FaceDetection.Post.
  destruct (JsonStringToImage Mat_new imdecode (c :: content)) as [[i|]| |]; try done. cbn [obind].
  unfold Value_String. destruct (duplicateAndPrefixStringValue (getFaceId i)); done.
Qed.
Lemma text_nonempty j t w w' : text j t -> w ++ t ++ w' <> [].
Proof.
  intros Ht. destruct (text_starts _ _ Ht) as (c & t' & -> & _). by destruct w.
Qed.
(** The image of a document that was read to [v]. *)
Lemma JsonStringToImage_text j t w w' :
  text j t -> blank w -> blank w' -> (jdepth j <= 1000)%nat ->
  exists v, plain v = denote j /\
    JsonStringToImage Mat_new imdecode (w ++ t ++ w') =
    if isNull v then Ret None else let! image := JsonToImage v in Ret (Some image).
Proof.
  intros Ht Hw Hw' Hd. destruct (StringToJson_text j t w w' Ht Hw Hw' Hd) as (v & Hv & Hp).
  exists v. split; [done|]. unfold JsonStringToImage. rewrite Hv. cbn [obind]. unfold to_bool.
  by rewrite negb_involutive.
Qed.
Lemma JsonToImage_object v l id :
  plain v = denote (JObj l) -> last_member #"faceId" l = JStr id ->
  (exists b, last_member #"imageData" l = JStr b) \/ last_member #"imageData" l = JNull ->
  JsonToImage v =
  match last_member #"imageData" l with
  | JStr b => setImageData imdecode (Image_new Mat_new id) b
  | _ => Ret (Image_new Mat_new id)
  end.
Proof.
  intros Hv Hid Hdata. unfold FaceDetection.JsonToImage.
  destruct (member_denoted v l #"faceId" Hv) as (u & -> & Hu); [done|].
  rewrite Hid in Hu. apply plain_string in Hu. cbn [obind]. unfold asString at 1. rewrite Hu.
  cbn [obind]. destruct (member_denoted v l #"imageData" Hv) as (u2 & -> & Hu2); [done|].
  cbn [obind]. unfold isNull. destruct Hdata as [[b Hb]|Hb]; rewrite Hb in Hu2 |- *.
  - rewrite <-plain_type, Hu2. cbn.
    apply plain_string in Hu2. unfold asString. by rewrite Hu2.
  - by rewrite <-plain_type, Hu2.
Qed.
(** Detecting in the image of a document. *)
Lemma detect_image id data cascade (k : list Rect -> outcome RestResponse) :
  (let! image := match data with
                 | JStr b => setImageData imdecode (Image_new Mat_new id) b
                 | _ => Ret (Image_new Mat_new id)
                 end in
   let! (_, faces) := faceDetect Mat_empty equalizeHist detectMultiScale image cascade [] in
   k faces) = let! faces := detect_in cascade data in k faces.
Proof.
  destruct data; cbn; unfold setImageData, faceDetect; cbn; rewrite ?Mat_new_empty; try done.
  destruct (imdecode _) as [m| |]; [|done|done]. cbn. destruct (Mat_empty m); [done|].
  destruct (equalizeHist m) as [m'| |]; [|done|done]. cbn.
  by destruct (detectMultiScale cascade m').
Qed.
Lemma Post_object service l t w w' response id :
  text (JObj l) t -> blank w -> blank w' -> (jdepth (JObj l) <= 1000)%nat ->
  last_member #"faceId" l = JStr id ->
  (exists b, last_member #"imageData" l = JStr b) \/ last_member #"imageData" l = JNull ->
  (len id <= 2147483642)%N ->
  Post service (w ++ t ++ w') response =
  let! faces := detect_in (_cascade service) (last_member #"imageData" l) in
  let! json := add_faces (answer_value id []) faces in
  let! content := JsonToString json in
  Ret (mkRestResponse (Some kCreated) content kApplicationJson #"utf-8").
Proof.
  intros Ht Hw Hw' Hd Hid Hdata Hlen. rewrite Post_nonempty by by eapply text_nonempty.
  destruct (JsonStringToImage_text _ t w w' Ht Hw Hw' Hd) as (v & Hv & ->).
  assert (isNull v = false) as ->.
  { unfold isNull. by rewrite <-plain_type, Hv. }
  rewrite (JsonToImage_object v l id) by done.
  rewrite <-(detect_image id).
  destruct (match last_member #"imageData" l with JStr b => _ | _ => _ end) as [i| |] eqn:E; [|done|done].
  cbn [obind].
  assert (getFaceId i = id) as ->.
  { destruct (last_member #"imageData" l); try (by injection E as <-). unfold setImageData in E.
    destruct (imdecode _); [|done|done]. by injection E as <-. }
  by rewrite Value_String_small.
Qed.

(** A JSON object with a face id and a base64 image (or none), with any other
    members, blanks and escapes, is answered with 201 and the JSON text of the
    face id and of the rectangles OpenCV found in the decoded image, in order. *)
Theorem post_answers_faces service l t w w' response id faces :
  text (JObj l) t -> blank w -> blank w' -> (jdepth (JObj l) <= 1000)%nat ->
  last_member #"faceId" l = JStr id -> utf8 id -> (len id <= 2147483642)%N ->
  (exists b, last_member #"imageData" l = JStr b) \/ last_member #"imageData" l = JNull ->
  detect_in (_cascade service) (last_member #"imageData" l) = Ret faces ->
  Forall int_rect faces -> (N.of_nat (length faces) <= 2147483647)%N ->
  exists c, Post service (w ++ t ++ w') response =
      Ret (mkRestResponse (Some kCreated) c kApplicationJson #"utf-8") /\
    text (answer_json id faces) c.
Proof.
  intros Ht Hw Hw' Hd Hid Hu Hlen Hdata Hdet Hf Hn.
  rewrite (Post_object service l t w w' response id) by done. rewrite Hdet. cbn [obind].
  rewrite add_faces_value by (cbn [app]; lia). cbn [obind app].
  destruct (answer_text id faces) as (c & -> & Hc); [done|done|done|lia|]. by exists c.
Qed.

Lemma text_scalar_type j t :
  text j t -> j <> JNull -> (forall l, j <> JObj l) -> type (denote j) <> TNull /\ type (denote j) <> TObject.
Proof.
  destruct 1 as [| | |s Hs| | | | |]; intros H1 H2; try (by destruct (H2 _ eq_refl));
    try done; try by split.
  by apply number_value_number.
Qed.
(** What makes [Post] throw: a JSON value that is neither an object nor null, a
    face id that is an array or an object, and whatever OpenCV throws.  Nothing
    in the service catches it. *)
Theorem post_throws service j t w w' response :
  text j t -> blank w -> blank w' -> (jdepth j <= 1000)%nat ->
  (j <> JNull -> (forall l, j <> JObj l) ->
     exists msg, Post service (w ++ t ++ w') response = Throw (JsonLogicError msg)) /\
  (forall l, j = JObj l ->
     (exists x, last_member #"faceId" l = JArr x) \/ (exists x, last_member #"faceId" l = JObj x) ->
     Post service (w ++ t ++ w') response =
     Throw (JsonLogicError #"Type is not convertible to string")) /\
  (forall l id b e, j = JObj l -> last_member #"faceId" l = JStr id -> (len id <= 2147483642)%N ->
     last_member #"imageData" l = JStr b -> detect_in (_cascade service) (JStr b) = Throw e ->
     Post service (w ++ t ++ w') response = Throw e).
Proof.
  intros Ht Hw Hw' Hd. split_and!.
  - intros Hn Ho. rewrite Post_nonempty by by eapply text_nonempty.
    destruct (JsonStringToImage_text _ t w w' Ht Hw Hw' Hd) as (v & Hv & ->).
    destruct (text_scalar_type _ _ Ht Hn Ho) as [H1 H2]. rewrite <-Hv, plain_type in H1, H2.
    eexists. unfold isNull. rewrite bool_decide_false by done.
    unfold FaceDetection.JsonToImage, member_const, find, isNull, isObject.
    rewrite !bool_decide_false by done. reflexivity.
  - intros l -> Hid. rewrite Post_nonempty by by eapply text_nonempty.
    destruct (JsonStringToImage_text _ t w w' Ht Hw Hw' Hd) as (v & Hv & ->).
    assert (isNull v = false) as -> by (unfold isNull; by rewrite <-plain_type, Hv).
    unfold FaceDetection.JsonToImage.
    destruct (member_denoted v l #"faceId" Hv) as (u & -> & Hu); [done|]. cbn [obind].
    assert (asString u = throwLogicError #"Type is not convertible to string") as ->; [|done].
    assert (Ht2 : type u = TArray \/ type u = TObject).
    { rewrite <-plain_type, Hu. destruct Hid as [[x ->]|[x ->]]; [by left|by right]. }
    unfold asString, type in *. by destruct (payload u), Ht2.
  - intros l id b e -> Hid Hlen Hb He.
    rewrite (Post_object service l t w w' response id); try done; [|by left; exists b].
    by rewrite Hb, He.
Qed.

(** A null document, and one with nothing but blanks, is answered with 400; an
    empty body is not answered at all: the status stays uninitialised. *)
Theorem post_null_rejected service w w' response :
  blank w -> blank w' ->
  Post service (w ++ #"null" ++ w') response =
    Ret (mkRestResponse (Some kBadRequest) (rr_content response) (rr_media_type response)
           (rr_charset response)) /\
  (w <> [] -> Post service w response =
     Ret (mkRestResponse (Some kBadRequest) (rr_content response) (rr_media_type response)
            (rr_charset response))) /\
  Post service [] response = Ret response.
Proof.
  intros Hw Hw'. split_and!; [| |done].
  - rewrite Post_nonempty by by apply (text_nonempty JNull), t_null.
    destruct (JsonStringToImage_text JNull #"null" w w') as (v & Hv & ->);
      [apply t_null|done|done|cbn; lia|].
    assert (isNull v = true) as -> by (unfold isNull; by rewrite <-plain_type, Hv). done.
  - intros Hne. rewrite Post_nonempty by done.
    assert (exists v errs, StringToJson w = Ret (v, errs) /\ isNull v = true) as (v & errs & Hs & Hn).
    { rewrite StringToJson_parse, parse_default_eq. unfold parse.
      set (r0 := mkReader _ _ _ _ _ _).
      assert (Htok : forall r, skipSpaces (current_ r) = [] ->
        next_token default_features true w r = Ret (set_current r [], mkToken tokenEndOfStream [] [])).
      { intros r Hr. apply next_token_of; [|done]. unfold readToken. by rewrite Hr. }
      assert (Hblank : skipSpaces w = []).
      { rewrite <-(app_nil_r w), skipSpaces_blank by done. done. }
      cbn [readValue]. change (stackLimit_ default_features <? _)%nat with false. cbv iota.
      unfold skipCommentTokens. cbn [allowComments_ default_features].
      rewrite Htok by done. cbn. rewrite Htok by done. cbn. eexists _, _. by split. }
    unfold JsonStringToImage. rewrite Hs. cbn [obind]. unfold to_bool. by rewrite Hn.
Qed.

(** A text that ends behind its first member. *)
Definition cut_off_body : str :=
  #"{" ++ [DQ] ++ #"faceId" ++ [DQ] ++ #":" ++ [DQ] ++ #"7" ++ [DQ].
(** A body that is cut off behind its first member is not JSON, and the parser
    says so; the service does not look at what the parser returns and answers
    with 201 from the part that was read. *)
Theorem post_accepts_cut_off service response :
  (exists v errs, parse_default cut_off_body nullSingleton = Ret (false, v, errs) /\ errs <> []) /\
  exists c, Post service cut_off_body response =
      Ret (mkRestResponse (Some kCreated) c kApplicationJson #"utf-8") /\
    text (answer_json #"7" []) c.
Proof.
  split.
  - eexists _, _. split; [vm_compute; reflexivity|done].
  - rewrite Post_nonempty by done.
    assert (JsonStringToImage Mat_new imdecode cut_off_body = Ret (Some (Image_new Mat_new #"7")))
      as -> by (vm_compute; reflexivity).
    cbn [obind]. rewrite Value_String_small by done. cbn [obind]. unfold faceDetect. cbn [_matInput Image_new].
    rewrite Mat_new_empty. cbn [obind add_faces].
    destruct (answer_text #"7" []) as (c & Hc & Ht); [utf8_now|done|done|done|].
    exists c. change (answer_value _ []) with (answer_value #"7" []). by rewrite Hc.
Qed.

(** ** The server *)
Context {Regex : Type} (compile : str -> option Regex).
Context (regex_match : Regex -> str -> option (list str)).
Abbreviation serve := (serve Mat_new Mat_empty imdecode equalizeHist detectMultiScale compile regex_match).

(** What the service does with a request for [/images]. *)
Definition images_handle (cascade : CascadeClassifier) (request : Request) : outcome RestResponse :=
  RestListService_Handle (list_service Mat_new Mat_empty imdecode equalizeHist detectMultiScale
    (mkFaceDetectionService sleep_seconds cascade)) (mkRestRequest request []) RestResponse_new.
Lemma serve_throws garbage cascade request e :
  path_ (url_ request) = #"images" -> images_handle cascade request = Throw e ->
  serve garbage cascade request = Throw e.
Proof.
  intros Hp H. unfold FaceDetection.serve, HandleConnection. rewrite Hp.
  cbn [GetService bound_services AddService fst app negb item_match si_is_regex si_url si_service].
  change (seqb #"/images" (#"/" ++ #"images")) with true. cbv iota. unfold images_handle in H. cbn [app].
  by rewrite H.
Qed.
Lemma serve_returns garbage cascade request rr :
  path_ (url_ request) = #"images" -> images_handle cascade request = Ret rr ->
  exists response, serve garbage cascade request = Ret response /\
    status_ response = match rr_status rr with Some s => status_int s | None => garbage end /\
    content_ (resp_message response) = rr_content rr /\
    (rr_content rr <> [] -> rr_media_type rr = kApplicationJson -> rr_charset rr = #"utf-8" ->
     Msg.GetHeader (resp_message response) kContentLength = to_dec (len (rr_content rr)) /\
     Msg.GetHeader (resp_message response) kContentType = #"application/json;charset=utf-8").
Proof.
  intros Hp H. unfold FaceDetection.serve, HandleConnection. rewrite Hp.
  cbn [GetService bound_services AddService fst app negb item_match si_is_regex si_url si_service].
  change (seqb #"/images" (#"/" ++ #"images")) with true. cbv iota. unfold images_handle in H. cbn [app].
  rewrite H. cbn [obind]. eexists. split; [reflexivity|].
  destruct rr as [st [|c content] [|x media] charset]; split_and!; try done.
  intros _ Hmedia Hcharset. cbn [rr_media_type rr_charset] in Hmedia, Hcharset. rewrite Hmedia, Hcharset.
  by split.
Qed.

(** The response to a request for the faces. *)
Definition answer_response (content : str) : Response :=
  mkResponse (Msg.SetContent (Msg.SetContentType2 Message_new kApplicationJson #"utf-8") content true)
    (status_int kCreated).
Lemma post_served garbage cascade request l t w w' id faces :
  path_ (url_ request) = #"images" -> method_ request = kPost ->
  content_ (req_message request) = w ++ t ++ w' ->
  text (JObj l) t -> blank w -> blank w' -> (jdepth (JObj l) <= 1000)%nat ->
  last_member #"faceId" l = JStr id -> utf8 id -> (len id <= 2147483642)%N ->
  (exists b, last_member #"imageData" l = JStr b) \/ last_member #"imageData" l = JNull ->
  detect_in cascade (last_member #"imageData" l) = Ret faces ->
  Forall int_rect faces -> (N.of_nat (length faces) <= 2147483647)%N ->
  exists c, serve garbage cascade request = Ret (answer_response c) /\ text (answer_json id faces) c.
Proof.
  intros Hp Hm Hc Ht Hw Hw' Hd Hid Hu Hlen Hdata Hdet Hf Hn.
  pose proof (Post_object (mkFaceDetectionService sleep_seconds cascade) l t w w'
                RestResponse_new id Ht Hw Hw' Hd Hid Hdata Hlen) as HP.
  cbn [_cascade] in HP. rewrite Hdet in HP. cbn [obind] in HP.
  rewrite add_faces_value in HP by (cbn [app]; lia). cbn [obind app] in HP.
  destruct (answer_text id faces) as (c & Hcont & Htext); [done|done|done|lia|].
  rewrite Hcont in HP. cbn [obind] in HP. exists c. split; [|done].
  unfold FaceDetection.serve, HandleConnection. rewrite Hp.
  cbn [GetService bound_services AddService fst app negb item_match si_is_regex si_url si_service].
  change (seqb #"/images" (#"/" ++ #"images")) with true. cbv iota. cbn [app].
  unfold RestListService_Handle. cbn [http list_service list_Get list_Post].
  rewrite Hm. change (seqb kPost kGet) with false. change (seqb kPost kPost) with true. cbv iota.
  unfold request_content. cbn [http]. rewrite Hc, HP. cbn [obind rr_status rr_content rr_media_type rr_charset].
  by destruct (text_starts _ _ Htext) as (x & c' & -> & _).
Qed.

(** C6: What the server answers to a request for [/images].  To a POST of a JSON object of at most
    1000 levels whose last member faceId is a UTF-8 string and whose last imageData is a string or
    null, when OpenCV detects faces in the image without an exception: status 201, the JSON text of
    the face id and the rectangles, with exact content headers.  To a GET: an empty array with 200
    and its content headers.  To any other method: a response without content, with whatever
    status its memory held.  To a request for any other path: 404. *)
Theorem server_answers garbage cascade request :
  (forall l t w w' id faces,
     path_ (url_ request) = #"images" -> method_ request = kPost ->
     content_ (req_message request) = w ++ t ++ w' ->
     text (JObj l) t -> blank w -> blank w' -> (jdepth (JObj l) <= 1000)%nat ->
     last_member #"faceId" l = JStr id -> utf8 id -> (len id <= 2147483642)%N ->
     (exists b, last_member #"imageData" l = JStr b) \/ last_member #"imageData" l = JNull ->
     detect_in cascade (last_member #"imageData" l) = Ret faces ->
     Forall int_rect faces -> (N.of_nat (length faces) <= 2147483647)%N ->
     exists response, serve garbage cascade request = Ret response /\ status_ response = 201%Z /\
       text (answer_json id faces) (content_ (resp_message response)) /\
       Msg.GetHeader (resp_message response) kContentLength =
         to_dec (len (content_ (resp_message response))) /\
       Msg.GetHeader (resp_message response) kContentType = #"application/json;charset=utf-8") /\
  (path_ (url_ request) = #"images" -> method_ request = kGet ->
     exists response, serve garbage cascade request = Ret response /\ status_ response = 200%Z /\
       content_ (resp_message response) = #"[]" /\
       Msg.GetHeader (resp_message response) kContentLength = #"2" /\
       Msg.GetHeader (resp_message response) kContentType = #"application/json;charset=utf-8") /\
  (path_ (url_ request) = #"images" -> method_ request ∉ [kGet; kPost] ->
     exists response, serve garbage cascade request = Ret response /\ status_ response = garbage /\
       content_ (resp_message response) = []) /\
  (path_ (url_ request) <> #"images" -> serve garbage cascade request = Ret (Resp.make 404)).
Proof.
  split_and!.
  - intros l t w w' id faces Hp Hm Hc Ht Hw Hw' Hd Hid Hu Hlen Hdata Hdet Hf Hn.
    destruct (post_served garbage cascade request l t w w' id faces) as (c & Hs & Htext); try done.
    by exists (answer_response c).
  - intros Hp Hm.
    destruct (serve_returns garbage cascade request
                (mkRestResponse (Some kOK) #"[]" kApplicationJson #"utf-8") Hp)
      as (response & Hs & Hst & Hcon & Hh).
    { unfold images_handle, RestListService_Handle. cbn [http]. rewrite Hm. vm_compute. reflexivity. }
    destruct Hh as [H1 H2]; [done..|]. by exists response.
  - intros Hp Hm. rewrite !not_elem_of_cons in Hm. destruct Hm as (H1 & H2 & _).
    destruct (serve_returns garbage cascade request RestResponse_new Hp)
      as (response & Hs & Hst & Hcon & _).
    { unfold images_handle, RestListService_Handle. cbn [http].
      apply seqb_neq in H1, H2. by rewrite H1, H2. }
    by exists response.
  - intros Hp. unfold FaceDetection.serve, HandleConnection.
    cbn [GetService bound_services AddService fst app negb item_match si_is_regex si_url].
    assert (seqb #"/images" (#"/" ++ path_ (url_ request)) = false) as ->; [|done].
    apply seqb_neq. intros [= H]. by apply Hp.
Qed.

(** C38: A request for [/images] with a JSON body that is neither an object nor null
    ends the server: the worker that handles it can only finish by an exception
    nobody catches, and behind that no step of any connection or worker is left. *)
Theorem bad_body_ends_server garbage cascade can_alloc date s i c sc j t w w' :
  crashed_ s = false -> workers_ (handler_ s) !! i = Some (Handling c) -> conns s !! c = Some sc ->
  path_ (url_ (request (conn sc))) = #"images" -> method_ (request (conn sc)) = kPost ->
  content_ (req_message (request (conn sc))) = w ++ t ++ w' ->
  text j t -> blank w -> blank w' -> (jdepth j <= 1000)%nat ->
  j <> JNull -> (forall l, j <> JObj l) ->
  (forall response, serve garbage cascade (request (conn sc)) <> Ret response) /\
  sstep can_alloc date (serve garbage cascade) s (crash s) /\
  (forall s', ~ sstep can_alloc date (serve garbage cascade) (crash s) s').
Proof.
  intros Hcr Hi Hsc Hp Hm Hc Ht Hw Hw' Hd Hn Ho.
  assert (exists e, serve garbage cascade (request (conn sc)) = Throw e) as [e He].
  { destruct (JsonStringToImage_text _ t w w' Ht Hw Hw' Hd) as (v & Hv & Him).
    destruct (text_scalar_type _ _ Ht Hn Ho) as [H1 H2]. rewrite <-Hv, plain_type in H1, H2.
    eexists. apply serve_throws; [done|].
    unfold images_handle, RestListService_Handle. cbn [http list_service list_Get list_Post].
    rewrite Hm. change (seqb kPost kGet) with false. change (seqb kPost kPost) with true. cbv iota.
    unfold request_content. cbn [http]. rewrite Hc, Post_nonempty by by eapply text_nonempty.
    rewrite Him. unfold isNull. rewrite bool_decide_false by done.
    unfold FaceDetection.JsonToImage, member_const, find, isNull, isObject.
    rewrite !bool_decide_false by done. reflexivity. }
  split_and!.
  - intros response. by rewrite He.
  - eapply s_done_throws; [done|by apply w_done|done|done].
  - intros s' H. by inversion H.
Qed.
End Service.

(** ** Witnesses, with a toy OpenCV

    An image is its bytes, and a face is found in every image that is not empty. *)
Definition toy_empty (m : str) : bool := match m with [] => true | _ => false end.
Definition toy_detect (_ : unit) (m : str) : outcome (list Rect) :=
  if seqb m #"bad" then Throw (LibraryException #"cv::Exception") else Ret [mkRect 1 2 30 40].
Definition toy_Post := Post [] toy_empty Ret Ret toy_detect (mkFaceDetectionService 0 tt).
Definition toy_serve :=
  serve [] toy_empty Ret Ret toy_detect any_compile any_match 0 tt.
Definition quote (s : str) : str := DQ :: s ++ [DQ].
(** The members of a request with the image in base64. *)
Definition toy_members (image : str) : list (str * json) :=
  [(#"faceId", JStr #"7"); (#"imageData", JStr image)].
Definition toy_text (image : str) : str :=
  #"{" ++ ([] ++ quote #"faceId" ++ [] ++ #":" ++ [SP] ++ quote #"7" ++ [] ++ #"," ++
    ([LF] ++ quote #"imageData" ++ [] ++ #":" ++ [] ++ quote image ++ [] ++ #"}")).
Lemma quoted_plain s : Forall (fun c => c <> DQ /\ c <> "\"%char) s -> quoted s s.
Proof. induction 1 as [|c s [H1 H2] _ IH]; [constructor|]. by apply q_char. Qed.
Ltac plain_now := apply quoted_plain; repeat (constructor; [split; discriminate|]); constructor.
Lemma toy_text_ok image :
  Forall (fun c => c <> DQ /\ c <> "\"%char) image -> (len image <= 2147483642)%N ->
  text (JObj (toy_members image)) (toy_text image).
Proof.
  intros Hi Hl. apply t_obj.
  apply m_cons; [constructor|plain_now|done|constructor|by repeat constructor| |constructor|].
  - apply t_str; [plain_now|done].
  - apply m_last; [by repeat constructor|plain_now|done|constructor|constructor| |constructor].
    apply t_str; [by apply quoted_plain|done].
Qed.
(** ["AQID"] is the base64 of three bytes, ["YmFk"] that of ["bad"]. *)
Lemma toy_good : text (JObj (toy_members #"AQID")) (toy_text #"AQID").
Proof. apply toy_text_ok; [|done]. repeat (constructor; [split; discriminate|]); constructor. Qed.
Lemma toy_bad : text (JObj (toy_members #"YmFk")) (toy_text #"YmFk").
Proof. apply toy_text_ok; [|done]. repeat (constructor; [split; discriminate|]); constructor. Qed.
Lemma toy_rect : Forall int_rect [mkRect 1 2 30 40].
Proof. repeat constructor; discriminate. Qed.

Example post_answers_faces_witness :
  exists c, toy_Post ([LF] ++ toy_text #"AQID" ++ []) RestResponse_new =
      Ret (mkRestResponse (Some kCreated) c kApplicationJson #"utf-8") /\
    text (answer_json #"7" [mkRect 1 2 30 40]) c.
Proof.
  eapply (post_answers_faces [] toy_empty Ret Ret toy_detect eq_refl
            (mkFaceDetectionService 0 tt) (toy_members #"AQID")).
  - exact toy_good.
  - by repeat constructor.
  - constructor.
  - apply (bool_decide_unpack _). vm_compute. exact I.
  - reflexivity.
  - utf8_now.
  - done.
  - left. eexists. reflexivity.
  - vm_compute. reflexivity.
  - exact toy_rect.
  - done.
Defined.
Example post_throws_witness :
  (exists msg, toy_Post ([] ++ #"true" ++ []) RestResponse_new = Throw (JsonLogicError msg)) /\
  toy_Post ([] ++ toy_text #"YmFk" ++ []) RestResponse_new =
    Throw (LibraryException #"cv::Exception").
Proof.
  split.
  - refine (proj1 (post_throws [] toy_empty Ret Ret toy_detect eq_refl (mkFaceDetectionService 0 tt)
             (JBool true) #"true" [] [] RestResponse_new t_true _ _ _) _ _);
      [constructor|constructor|cbn; lia|done|done].
  - refine (proj2 (proj2 (post_throws [] toy_empty Ret Ret toy_detect eq_refl
      (mkFaceDetectionService 0 tt) _ _ [] [] RestResponse_new toy_bad _ _ _))
      (toy_members #"YmFk") #"7" #"YmFk" _ eq_refl eq_refl _ eq_refl _);
      [constructor|constructor| |done|vm_compute; reflexivity].
    apply (bool_decide_unpack _). vm_compute. exact I.
Defined.
Example post_null_rejected_witness :
  toy_Post ([SP] ++ #"null" ++ []) RestResponse_new =
  Ret (mkRestResponse (Some kBadRequest) [] [] []).
Proof.
  exact (proj1 (post_null_rejected [] toy_empty Ret Ret toy_detect (mkFaceDetectionService 0 tt)
    [SP] [] RestResponse_new ltac:(by repeat constructor) ltac:(constructor))).
Defined.
Example post_accepts_cut_off_witness :
  exists c, toy_Post cut_off_body RestResponse_new =
      Ret (mkRestResponse (Some kCreated) c kApplicationJson #"utf-8") /\
    text (answer_json #"7" []) c.
Proof.
  exact (proj2 (post_accepts_cut_off [] toy_empty Ret Ret toy_detect eq_refl
    (mkFaceDetectionService 0 tt) RestResponse_new)).
Defined.

(** A POST of a body to [/images]. *)
Definition toy_request (body : str) : Request :=
  let r := Req.make #"POST" #"http://localhost/images" in
  with_message r (Msg.set_content (req_message r) body).
Example server_answers_witness :
  (exists response, toy_serve (toy_request ([] ++ toy_text #"AQID" ++ [])) = Ret response /\
    status_ response = 201 /\
    text (answer_json #"7" [mkRect 1 2 30 40]) (content_ (resp_message response))).
Proof.
  destruct (server_answers [] toy_empty Ret Ret toy_detect eq_refl any_compile any_match 0 tt
    (toy_request ([] ++ toy_text #"AQID" ++ []))) as (H & _).
  destruct (H (toy_members #"AQID") (toy_text #"AQID") [] [] #"7" [mkRect 1 2 30 40])
    as (response & H1 & H2 & H3 & _).
  - vm_compute. reflexivity.
  - reflexivity.
  - reflexivity.
  - exact toy_good.
  - constructor.
  - constructor.
  - apply (bool_decide_unpack _). vm_compute. exact I.
  - reflexivity.
  - utf8_now.
  - done.
  - left. eexists. reflexivity.
  - vm_compute. reflexivity.
  - exact toy_rect.
  - done.
  - exists response. split; [exact H1|]. split; [exact H2|exact H3].
Defined.

(** A server whose first worker handles connection 5. *)
Definition handling (r : Request) : Server :=
  let conn := mkConn (ReqParser.make r) None in
  mkServer {[5%nat := mkSConn conn 0 [] true]} {[5%nat]}
    (mkHandler [] [Handling 5; Idle] Running [5%nat] [5%nat] []) true false false.
Example bad_body_ends_server_witness :
  let s := handling (toy_request ([] ++ #"true" ++ [])) in
  sstep (fun _ => true) [] toy_serve s (crash s) /\
  forall s', ~ sstep (fun _ => true) [] toy_serve (crash s) s'.
Proof.
  intros s.
  eapply (bad_body_ends_server [] toy_empty Ret Ret toy_detect any_compile any_match 0 tt
            (fun _ => true) [] s 0 5 _ (JBool true) #"true" [] []).
  - reflexivity.
  - reflexivity.
  - reflexivity.
  - vm_compute. reflexivity.
  - reflexivity.
  - reflexivity.
  - apply t_true.
  - constructor.
  - constructor.
  - cbn. lia.
  - done.
  - done.
Defined.
