(* ===== verification/EndToEnd.v ===== *)
(** * From the client's request to the client's response

    The components put together: a client prepares a request for the faces of an
    image, the server reads its bytes from the network in any pieces, a worker
    asks the face-detection service, the connection sends the response, the
    client reads it in any pieces and parses the JSON in it. *)
From Stdlib Require Import Ascii String.
From stdpp Require Import base tactics list numbers option strings.
From S2P Require Import Prelude Globals Common Url Message Parser ParserLaws ParserProps Rest.
From S2P Require Import Connection Workers Server ServerSpec ServerLive.
From S2P Require Import Client Double JsonText JsonValue JsonReader.
From S2P Require Import JsonLaws JsonUtf8 JsonGrammar JsonAccepts JsonQuote JsonWritten JsonPrinter JsonWriterLaws JsonProps.
From S2P Require Import FaceDetection FaceProps.
Open Scope Z_scope.

(** ** The reads of a connection *)

(** [OnRead] for each of the pieces that arrive, until the connection starts
    something else than the next read. *)
Fixpoint OnReads (can_alloc : N -> bool) (date : str) (c : Conn) (ds : list str)
    : outcome (Conn * list Action) :=
  match ds with
  | [] => Ret (c, [AsyncRead])
  | d :: ds' =>
      let! (c, l) := Connection.OnRead can_alloc date c Success d in
      if decide (l = [AsyncRead]) then OnReads can_alloc date c ds' else Ret (c, l)
  end.
Lemma OnReads_parse can_alloc date ds : forall c p,
  finished_ (request_parser_ c) = false ->
  ParseAll can_alloc (request_parser_ c) ds = Ret (p, true) -> finished_ p = true ->
  OnReads can_alloc date c ds = Ret (mkConn p (response_ c), [EnqueueSelf]).
Proof.
  induction ds as [|d ds IH]; intros c p Hc Hp Hf; cbn [ParseAll OnReads] in *.
  { injection Hp as <-. congruence. }
  apply obind_Ret in Hp as ([q ok] & Hq & Hp). cbn [Connection.OnRead]. rewrite Hq. cbn [obind].
  destruct ok; cbn [negb orb] in *; [|by injection Hp].
  destruct (finished_ q) eqn:Hfq; cbn [negb obind Connection.DoRead] in *.
  - by injection Hp as <-.
  - by apply (IH (mkConn q (response_ c)) p).
Qed.

(** ** The response on the wire *)

(** The headers of a response of the service. *)
Lemma answer_headers date ka content :
  let r := Resp.Prepare date (Resp.SetHeader (answer_response content) kConnection
             (if ka : bool then #"Keep-Alive" else #"Close")) in
  headers_ (resp_message r) =
    [(kContentType, #"application/json;charset=utf-8"); (kContentLength, to_dec (len content));
     (kConnection, if ka then #"Keep-Alive" else #"Close"); (kServer, UserAgent); (kDate, date)].
Proof. by destruct ka. Qed.
Lemma digits_sendable n : CR ∉ to_dec n /\ trimmed isspace (to_dec n).
Proof.
  split; [|apply to_dec_trimmed]. pose proof (to_dec_all n) as H. rewrite Forall_forall in H.
  intros Hin%H. discriminate.
Qed.
Lemma answer_sendable can_alloc date ka content :
  CR ∉ date -> trimmed isspace date -> can_alloc (len content) = true -> (len content <= max_size)%N ->
  sendable can_alloc
    [(kContentType, #"application/json;charset=utf-8"); (kContentLength, to_dec (len content));
     (kConnection, if ka : bool then #"Keep-Alive" else #"Close"); (kServer, UserAgent); (kDate, date)]
    content.
Proof.
  intros Hd Ht Ha Hn. destruct (digits_sendable (len content)) as [Hc Hct].
  split_and!; [done|done| | |decide_now|done].
  - destruct ka; repeat apply Forall_cons_2; try apply Forall_nil_2; unfold header_ok; cbn [fst snd];
      split_and!; first [done|discriminate|decide_now|by (split; vm_compute)].
  - destruct ka; repeat apply Forall_cons_2; try apply Forall_nil_2; unfold header_fits; cbn [fst snd];
      split_and!; intros H; first [done|vm_compute in H; discriminate|by (split; vm_compute)].
Qed.

Lemma answer_depth id faces : (jdepth (answer_json id faces) <= 1000)%nat.
Proof.
  assert (list_max (map jdepth (map face_json faces)) <= 2)%nat as H.
  { apply list_max_le. induction faces as [|f faces IH]; by constructor. }
  unfold answer_json. cbn [jdepth map list_max foldr snd fold_right]. lia.
Qed.

Section EndToEnd.
Context {Mat CascadeClassifier : Type}.
Context (Mat_new : Mat) (Mat_empty : Mat -> bool).
Context (imdecode : str -> outcome Mat) (equalizeHist : Mat -> outcome Mat).
Context (detectMultiScale : CascadeClassifier -> Mat -> outcome (list Rect)).
Context (Mat_new_empty : Mat_empty Mat_new = true).
Context {Regex : Type} (compile : str -> option Regex).
Context (regex_match : Regex -> str -> option (list str)).
Abbreviation serve := (serve Mat_new Mat_empty imdecode equalizeHist detectMultiScale compile regex_match).
Abbreviation detect_in := (detect_in Mat_empty imdecode equalizeHist detectMultiScale).

(** The client reads the answer to its request: however the bytes are cut, it gets the
    status and the document. *)
Lemma client_gets_answer can_alloc date client r id faces content ka es :
  let sent := Resp.SetHeader (answer_response content) kConnection
                (if ka : bool then #"Keep-Alive" else #"Close") in
  (forall n, (n <= max_size)%N -> can_alloc n = true) -> CR ∉ date -> trimmed isspace date ->
  text (answer_json id faces) content -> (len content <= max_size)%N ->
  Forall (fun e => e <> []) es ->
  concat es = Msg.CopyPayload (resp_message (Resp.Prepare date sent)) ->
  exists client' v,
    Client.Request_ can_alloc (mkNet true true true (map Received es)) client r true =
      (client', Ret true) /\
    status_ (cl_response client') = status_int kCreated /\
    parse_default (content_ (resp_message (cl_response client'))) nullSingleton = Ret (true, v, []) /\
    plain v = denote (answer_json id faces).
Proof.
  intros sent Ha Hdc Hdt Htext Hmax Hes Hcat.
  destruct (client_receives can_alloc client r date sent kCreated es)
    as (client' & Hreq & Hst & _ & Hco & _); [done|done| |done|done|].
  { unfold sent. rewrite answer_headers. by apply answer_sendable; [..|apply Ha|]. }
  destruct (parse_text (answer_json id faces) content [] [] nullSingleton Htext)
    as (reader & Hr & He & Hv); [constructor|constructor|apply answer_depth|].
  exists client', (root_ reader). split_and!; [done|done| |done].
  rewrite Hco. change (content_ (resp_message sent)) with content.
  rewrite app_nil_r in Hr. cbn [app] in Hr. rewrite parse_default_eq, Hr. cbn [obind].
  unfold getFormattedErrorMessages. by rewrite He.
Qed.

(** C1: A client posts a JSON object with a face id and an image to [/images].  However
    the network cuts the bytes, the connection reads them to a complete request,
    the service answers it, and the client, however the bytes of the response are
    cut, gets status 201 and a document that parses to the face id and the rectangles that OpenCV
    found in the decoded image. *)
Theorem faces_over_the_wire can_alloc uuid date garbage cascade client r r' l t w w' id faces ds :
  (forall n, (n <= max_size)%N -> can_alloc n = true) -> CR ∉ date -> trimmed isspace date ->
  start_line_ (req_message r) = [] -> form_parts_ r = [] -> method_ r = kPost ->
  path_ (url_ r) = #"images" -> plain_target (path_ (url_ r)) (query_ (url_ r)) ->
  Req.Prepare uuid r = Ret r' ->
  sendable can_alloc (headers_ (req_message r')) (content_ (req_message r)) ->
  concat ds = Msg.CopyPayload (req_message r') ->
  content_ (req_message r) = w ++ t ++ w' ->
  text (JObj l) t -> blank w -> blank w' -> (jdepth (JObj l) <= 1000)%nat ->
  last_member #"faceId" l = JStr id -> utf8 id -> (len id <= 2147483642)%N ->
  (exists b, last_member #"imageData" l = JStr b) \/ last_member #"imageData" l = JNull ->
  detect_in cascade (last_member #"imageData" l) = Ret faces ->
  Forall int_rect faces -> (N.of_nat (length faces) <= 2147483647)%N ->
  exists c1 response c2 bytes,
    OnReads can_alloc date (fst (Connection.Start Connection.make)) ds = Ret (c1, [EnqueueSelf]) /\
    serve garbage cascade (request c1) = Ret response /\
    Connection.SendResponse date c1 response = (c2, [AsyncWrite bytes]) /\
    ((len (content_ (resp_message response)) <= max_size)%N ->
     forall es, Forall (fun e => e <> []) es -> concat es = bytes ->
     exists client' v,
       Client.Request_ can_alloc (mkNet true true true (map Received es)) client r true =
         (client', Ret true) /\
       status_ (cl_response client') = status_int kCreated /\
       parse_default (content_ (resp_message (cl_response client'))) nullSingleton = Ret (true, v, []) /\
       plain v = denote (answer_json id faces)).
Proof.
  intros Ha Hdc Hdt Hs Hfp Hm Hp Htarget Hprep Hsend Hds Hc Ht Hw Hw' Hd Hid Hu Hlen Hdata Hdet Hf Hn.
  destruct (request_parsed can_alloc uuid r r' ds) as (p & Hparse & Hfin & Hpm & Hpu & Hph & Hpc);
    [done|done|rewrite Hm; split_and!; decide_now|done|done|done|done|].
  set (c1 := mkConn p None).
  destruct (post_served Mat_new Mat_empty imdecode equalizeHist detectMultiScale Mat_new_empty compile
    regex_match garbage cascade (request c1) l t w w' id faces) as (content & Hserve & Htext); try done.
  { unfold request, c1. cbn [request_parser_]. by rewrite Hpu. }
  { unfold request, c1. cbn [request_parser_]. by rewrite Hpm. }
  { unfold request, c1. cbn [request_parser_]. by rewrite Hpc. }
  set (ka := Msg.IsConnectionKeepAlive (req_message (request c1))).
  set (sent := Resp.SetHeader (answer_response content) kConnection
                 (if ka then #"Keep-Alive" else #"Close")).
  exists c1, (answer_response content), (mkConn p (Some (Resp.Prepare date sent))),
    (Msg.CopyPayload (resp_message (Resp.Prepare date sent))).
  split_and!; [by apply OnReads_parse|done|done|].
  intros Hmax es Hes Hcat. by apply (client_gets_answer can_alloc date client r id faces content ka).
Qed.
(** C2: The whole system: a server with workers, in a fair run without the stop signal,
    whatever its other connections do, answers a session that received the bytes of a client's
    request for the faces of an image, cut into any reads: it comes to a write in flight on this
    connection, and whatever reads the bytes this write was given reach the client in, the
    client gets status 201 and a document that parses to the face id and the rectangles that
    OpenCV found in the decoded image. *)
Theorem faces_served can_alloc uuid date garbage cascade n run k c p client r r' l t w w' id faces ds :
  (0 < n)%nat -> sreach can_alloc date (serve garbage cascade) n (run 0%nat) ->
  run_of can_alloc date (serve garbage cascade) run -> fair run -> keeps_running run ->
  sessions (sessions_of (run k)) !! c = Some (ServerSpec.Received p) ->
  ParseAll can_alloc (ReqParser.make Req.new) ds = Ret (p, true) ->
  (forall n, (n <= max_size)%N -> can_alloc n = true) -> CR ∉ date -> trimmed isspace date ->
  start_line_ (req_message r) = [] -> form_parts_ r = [] -> method_ r = kPost ->
  path_ (url_ r) = #"images" -> plain_target (path_ (url_ r)) (query_ (url_ r)) ->
  Req.Prepare uuid r = Ret r' ->
  sendable can_alloc (headers_ (req_message r')) (content_ (req_message r)) ->
  concat ds = Msg.CopyPayload (req_message r') ->
  content_ (req_message r) = w ++ t ++ w' ->
  text (JObj l) t -> blank w -> blank w' -> (jdepth (JObj l) <= 1000)%nat ->
  last_member #"faceId" l = JStr id -> utf8 id -> (len id <= 2147483642)%N ->
  (exists b, last_member #"imageData" l = JStr b) \/ last_member #"imageData" l = JNull ->
  detect_in cascade (last_member #"imageData" l) = Ret faces ->
  Forall int_rect faces -> (N.of_nat (length faces) <= 2147483647)%N ->
  exists k' bytes, (k < k')%nat /\
    sending c p bytes (run k') /\
    ((len bytes <= max_size)%N -> forall es, Forall (fun e => e <> []) es -> concat es = bytes ->
     exists client' v,
       Client.Request_ can_alloc (mkNet true true true (map Received es)) client r true =
         (client', Ret true) /\
       status_ (cl_response client') = status_int kCreated /\
       parse_default (content_ (resp_message (cl_response client'))) nullSingleton = Ret (true, v, []) /\
       plain v = denote (answer_json id faces)).
Proof.
  intros Hworkers Hreach Hrun Hfair Hrunning Hc Hparse Ha Hdc Hdt Hs Hfp Hm Hp Htarget Hprep Hsend Hds
    Hcon Ht Hw Hw' Hd Hid Hu Hlen Hdata Hdet Hf Hn.
  destruct (request_parsed can_alloc uuid r r' ds) as (p' & Hparse' & Hfin & Hpm & Hpu & Hph & Hpc);
    [done|done|rewrite Hm; split_and!; decide_now|done|done|done|done|].
  assert (p' = p) as -> by congruence.
  destruct (post_served Mat_new Mat_empty imdecode equalizeHist detectMultiScale Mat_new_empty compile
    regex_match garbage cascade (message_ p) l t w w' id faces) as (content & Hserve & Htext);
    try congruence; try done; [by rewrite Hpu|].
  destruct (received_answered can_alloc date _ n run Hworkers Hreach Hrun Hfair Hrunning c p k Hc)
    as (k' & response & Hk & Hresponse & Hanswer).
  assert (response = answer_response content) as -> by congruence.
  exists k', (answer_bytes date p (answer_response content)). split_and!; [done|done|].
  intros Hmax es Hes Hcat.
  apply (client_gets_answer can_alloc date client r id faces content (kept p)); try done.
  etransitivity; [|exact Hmax]. unfold answer_bytes. rewrite (Resp_Prepare_message date) by done.
  rewrite CopyPayload_Prepare. unfold wire. rewrite !len_app.
  change (content_ _) with content. lia.
Qed.
End EndToEnd.

(** *** Witness: a client asks for the faces of an image of three bytes *)
Definition post_request (body : str) : Request :=
  let r := Req.make #"POST" #"http://localhost/images" in
  with_message r (Msg.SetContent (req_message r) body true).
Definition prepared (r : Request) : Request := match Req.Prepare [] r with Ret r' => r' | _ => r end.
Example faces_over_the_wire_witness :
  let r := post_request ([SP] ++ toy_text #"AQID" ++ []) in
  let out := Msg.CopyPayload (req_message (prepared r)) in
  exists c1 response c2 bytes,
    OnReads (fun _ => true) #"now" (fst (Connection.Start Connection.make)) [take 40 out; drop 40 out] =
      Ret (c1, [EnqueueSelf]) /\
    toy_serve (request c1) = Ret response /\
    Connection.SendResponse #"now" c1 response = (c2, [AsyncWrite bytes]).
Proof.
  intros r out.
  destruct (faces_over_the_wire [] toy_empty Ret Ret toy_detect eq_refl any_compile any_match
    (fun _ => true) [] #"now" 0 tt Client.make r (prepared r) (toy_members #"AQID")
    (toy_text #"AQID") [SP] [] #"7" [mkRect 1 2 30 40] [take 40 out; drop 40 out])
    as (c1 & response & c2 & bytes & H1 & H2 & H3 & _).
  - done.
  - decide_now.
  - by split; vm_compute.
  - reflexivity.
  - reflexivity.
  - reflexivity.
  - vm_compute. reflexivity.
  - split_and!; decide_now.
  - vm_compute. reflexivity.
  - sendable_now.
  - cbn [concat]. rewrite app_nil_r. apply take_drop.
  - reflexivity.
  - exact toy_good.
  - by repeat constructor.
  - constructor.
  - apply (bool_decide_unpack _). vm_compute. exact I.
  - reflexivity.
  - utf8_now.
  - done.
  - left. eexists. reflexivity.
  - vm_compute. reflexivity.
  - exact toy_rect.
  - done.
  - exists c1, response, c2, bytes. by split_and!.
Defined.

(** *** Witness: this client's request reaches a server with two workers in one read *)
Definition face_request : Request := post_request ([SP] ++ toy_text #"AQID" ++ []).
Definition face_bytes : str := Msg.CopyPayload (req_message (prepared face_request)).
Definition face_asked : Server := reads one_client 5 face_bytes.
Definition face_parser : RequestParser := request_parser_ (conn (conn_at face_asked 5)).
Definition face_answer : Response :=
  match toy_serve (message_ face_parser) with Ret r => r | _ => Resp.make 500 end.
Lemma face_asked_received : one_received face_asked (conn_at face_asked 5).
Proof. split_and!; vm_compute; reflexivity. Qed.
Lemma face_asked_reached : sreach (fun _ => true) [] toy_serve 2 face_asked.
Proof.
  eapply sr_step; [apply one_client_reached|]. unfold face_asked, reads.
  destruct (Connection.OnRead _ _ _ _ _) as [r| |] eqn:E; [|vm_compute in E; discriminate..].
  by apply (s_read _ _ _ one_client 5 (conn (conn_at one_client 5)) 0 [] true Success face_bytes r).
Qed.
Lemma face_answer_ok : toy_serve (request (conn (conn_at face_asked 5))) = Ret face_answer.
Proof. vm_compute. reflexivity. Qed.
Example faces_served_witness :
  exists k' bytes,
    sending 5 face_parser bytes (one_request face_asked face_answer k').
Proof.
  destruct (faces_served [] toy_empty Ret Ret toy_detect eq_refl any_compile any_match
    (fun _ => true) [] [] 0 tt 2 (one_request face_asked face_answer) 0 5 face_parser Client.make
    face_request (prepared face_request) (toy_members #"AQID") (toy_text #"AQID") [SP] [] #"7"
    [mkRect 1 2 30 40] [face_bytes] ltac:(lia) face_asked_reached
    (one_request_runs _ _ _ _ _ face_asked_received face_answer_ok)
    (one_request_fair _ _ _ face_asked_received)
    (one_request_keeps_running _ _ _ face_asked_received))
    as (k' & bytes & _ & H & _).
  - vm_compute. reflexivity.
  - vm_compute. reflexivity.
  - done.
  - decide_now.
  - by split.
  - reflexivity.
  - reflexivity.
  - reflexivity.
  - vm_compute. reflexivity.
  - split_and!; decide_now.
  - vm_compute. reflexivity.
  - sendable_now.
  - apply app_nil_r.
  - reflexivity.
  - exact toy_good.
  - by repeat constructor.
  - constructor.
  - apply (bool_decide_unpack _). vm_compute. exact I.
  - reflexivity.
  - utf8_now.
  - done.
  - left. eexists. reflexivity.
  - vm_compute. reflexivity.
  - exact toy_rect.
  - done.
  - exists k', bytes. exact H.
Defined.
