(* ===== verification/Facedetector.v ===== *)
(** * The program: [main] and the database

    Models [facedetector.cpp], [DB.h] and [DB.cpp].  A command [Cmd A] has the
    calls made so far and adds its own; it ends with a value, with an exception that
    nobody catches, or in undefined behaviour, and the calls it made until then stay
    made.  OpenCV and the MySQL driver are parameters; whether a call
    that changes something outside throws may depend on all the calls before it. *)
From Stdlib Require Import Ascii String.
From stdpp Require Import base tactics list gmap numbers option strings.
From S2P Require Import Prelude Globals Common Url Message Rest Connection Workers Server Logger.
From S2P Require Import FaceDetection.
Open Scope Z_scope.

(** ** Commands *)

(** How a command ends; [NoReturn] is a call that never returns. *)
Inductive Ending (A : Type) :=
  | Done (a : A)
  | Uncaught (e : exn)
  | Undefined
  | NoReturn.
Arguments Done {A} a.
Arguments Uncaught {A} e.
Arguments Undefined {A}.
Arguments NoReturn {A}.

(** The calls to the outside: a line on [std::cout] or [std::cerr], [LOG_INIT]
    and [LOG_ERRO] of the logger, [cv::imwrite] and [executeUpdate]. *)
Inductive Effect {Mat : Type} :=
  | Cout (line : str)
  | Cerr (line : str)
  | InitLog (path : str) (modes : Z)
  | LogErro (message : str)
  | ImWrite (path : str) (m : Mat)
  | ExecuteUpdate (sql : str).
Arguments Effect Mat : clear implicits.

Section Cmd.
Context {Mat : Type}.
Definition Cmd (A : Type) : Type := list (Effect Mat) -> list (Effect Mat) * Ending A.
Definition ret {A} (a : A) : Cmd A := fun calls => (calls, Done a).
Definition undefined {A} : Cmd A := fun calls => (calls, Undefined).
Definition bind {A B} (m : Cmd A) (k : A -> Cmd B) : Cmd B := fun calls =>
  match m calls with
  | (calls, Done a) => k a calls
  | (calls, Uncaught e) => (calls, Uncaught e)
  | (calls, Undefined) => (calls, Undefined)
  | (calls, NoReturn) => (calls, NoReturn)
  end.
(** A computation that changes nothing outside. *)
Definition lift {A} (m : outcome A) : Cmd A := fun calls =>
  (calls, match m with Ret a => Done a | Throw e => Uncaught e | OutOfFuel => NoReturn end).
(** Calls that do not throw. *)
Definition emit (e : Effect Mat) : Cmd unit := fun calls => (calls ++ [e], Done tt).
(** Calls that may throw, depending on the calls so far, this one included. *)
Definition call (throws : list (Effect Mat) -> option exn) (e : Effect Mat) : Cmd unit := fun calls =>
  (calls ++ [e], match throws (calls ++ [e]) with Some x => Uncaught x | None => Done tt end).
End Cmd.
Arguments Cmd Mat A : clear implicits.
Notation "'do!' x := m 'in' k" := (bind m (fun x => k))
  (at level 10, x pattern, m at level 100, k at level 200) : webcc_scope.

(** ** [class DB] *)

(** A [sql::SQLException], and the calls of the driver that may throw one. *)
Record SQLException := mkSQLException { what : str; getErrorCode : Z; getSQLState : str }.
Inductive DriverCall := get_driver_instance | connect | setSchema | createStatement.

(** The pointers are [None] as long as nothing is assigned to them. *)
Record DB := mkDB {
  _bFaceFound : bool;
  _iFaceWidth : Z;
  _iFaceHeight : Z;
  _driver : option unit;
  _con : option unit;
  _stmt : option unit;
  _res : option unit
}.

Section Program.
Context {Mat CascadeClassifier : Type}.
Context (throws : list (Effect Mat) -> option exn).
Context (driver_fails : DriverCall -> option SQLException) (file__ : str).
Abbreviation Cmd := (Cmd Mat).

(** What the constructor prints when it catches [e]; [file__] is [__FILE__]. *)
Definition sql_error (e : SQLException) : str :=
  #"# ERR: SQLException in " ++ file__ ++ #"# ERR: " ++ what e ++ #" (MySQL error code: " ++
  int_to_string (getErrorCode e) ++ #", SQLState: " ++ getSQLState e ++ #" )".
(** The constructor.  [_driver], [_con] and [_stmt] are assigned one after the other until
    the driver throws; the exception is caught, and [_res] is never assigned. *)
Definition DB_new : Cmd DB :=
  let db := mkDB false (-1) (-1) in
  let caught db e := do! _ := emit (Cout (sql_error e)) in ret db in
  match driver_fails get_driver_instance with
  | Some e => caught (db None None None None) e
  | None =>
      match driver_fails connect with
      | Some e => caught (db (Some tt) None None None) e
      | None =>
          match driver_fails setSchema, driver_fails createStatement with
          | Some e, _ | None, Some e => caught (db (Some tt) (Some tt) None None) e
          | None, None => ret (db (Some tt) (Some tt) (Some tt) None)
          end
      end
  end.
(** [delete] of a member, and the destructor; [main] never deletes its [DB]. *)
Definition delete_member (p : option unit) : Cmd unit :=
  match p with Some _ => ret tt | None => undefined end.
Definition DB_delete (db : DB) : Cmd unit :=
  do! _ := delete_member (_res db) in
  do! _ := delete_member (_stmt db) in
  delete_member (_con db).

Definition sSQLUpdate (sFaceID sFaceFound sFaceWidth sFaceHeight : str) : str :=
  #"UPDATE fimage64s SET faceFound = " ++ sFaceFound ++ #" , faceWidth =" ++ sFaceWidth ++
  #", faceHeight=" ++ sFaceHeight ++ #" WHERE ID = " ++ sFaceID ++ #";".
(** The statement is printed, and executed as a C string. *)
Definition updateFaceInfo (db : DB) (sFaceID sFaceFound sFaceWidth sFaceHeight : str) : Cmd unit :=
  let sql := sSQLUpdate sFaceID sFaceFound sFaceWidth sFaceHeight in
  do! _ := emit (Cout (#"sSQLUpdate" ++ sql)) in
  match _stmt db with
  | Some _ => call throws (ExecuteUpdate (c_str sql))
  | None => undefined
  end.

(** ** [main] on the command line *)

(** [string(argv[i])]: [argv[argc]] is a null pointer, and nothing lies behind it. *)
Definition argv_at (argv : list str) (i : nat) : Cmd str :=
  match argv !! i with Some s => ret s | None => undefined end.

Definition sFixedPath : str :=
  #"/home/jednipat/works/devops_workshop/facedetection_webapp/public".
Definition sFullPath (sFilePath : str) : str := sFixedPath ++ sFilePath.
(** [sFilePath.substr(0, sFilePath.find("image.png"))]. *)
Definition path_prefix (sFilePath : str) : str :=
  match find_str #"image.png" sFilePath with Some n => take n sFilePath | None => sFilePath end.
Definition sFaceFilePath (sFilePath : str) : str :=
  sFixedPath ++ path_prefix sFilePath ++ #"face.jpg".

(** OpenCV: a classifier with the file [load] read, reading an image, converting,
    equalising, detecting, and the part of an image with its size. *)
Context (load : str -> CascadeClassifier) (cascade_empty : CascadeClassifier -> bool).
Context (imread : str -> outcome Mat) (cvtColor equalizeHist : Mat -> outcome Mat).
Context (detectMultiScale : CascadeClassifier -> Mat -> outcome (list Rect)).
Context (Mat_at : Mat -> Rect -> outcome Mat) (cols rows : Mat -> Z).

Fixpoint face_loop (db : DB) (sFaceId path : str) (mInput : Mat) (faces : list Rect) : Cmd unit :=
  match faces with
  | [] => ret tt
  | face :: faces' =>
      do! mCroppedFace := lift (Mat_at mInput face) in
      do! _ := call throws (ImWrite path mCroppedFace) in
      do! _ := updateFaceInfo db sFaceId #"true" (int_to_string (cols mCroppedFace))
                 (int_to_string (rows mCroppedFace)) in
      face_loop db sFaceId path mInput faces'
  end.

Definition face_cascade : CascadeClassifier :=
  load #"/home/jednipat/works/devops_workshop/facedetection_va/haarcascade_frontalface_alt.xml".
Definition main_command_line (argv : list str) : Cmd Z :=
  do! sFilePath := argv_at argv 1 in
  do! sFaceId := argv_at argv 2 in
  let path := sFaceFilePath sFilePath in
  do! _ := emit (Cout (#"sFaceFilePath: " ++ path)) in
  do! pDB := DB_new in
  do! mInput := lift (imread (sFullPath sFilePath)) in
  do! mInputGray := lift (cvtColor mInput) in
  do! mInputGray := lift (equalizeHist mInputGray) in
  do! faces := lift (detectMultiScale face_cascade mInputGray) in
  do! _ := face_loop pDB sFaceId path mInput faces in
  do! _ := emit (Cout (to_dec (N.of_nat (length faces)))) in
  ret 0.

(** ** [main] as a server *)

(** How [main] goes on: it returns its exit code, or the server is in the
    state in which [io_context_.run()] begins. *)
Inductive Main := Exit (code : Z) | Serves (s : Server).
(** [construct] is what the constructor of [RestServer] throws, if it does (Asio's
    services, or the option of the acceptor), or the acceptor it leaves. *)
Context (construct : str + Acceptor).

Definition server_cascade : CascadeClassifier :=
  load #"/home/dev/devops_workshop/facedetection_va/haarcascade_frontalface_alt.xml".
Definition main_server : Cmd Main :=
  do! _ := emit (InitLog [] LOG_CONSOLE) in
  if cascade_empty server_cascade then
    do! _ := emit (LogErro #"Cascade is empty!") in ret (Exit 1)
  else
    match construct with
    | inl e => do! _ := emit (Cerr (#"Exception: " ++ e)) in ret (Exit 1)
    | inr acceptor_ =>
        match Run acceptor_ server_workers with
        | Some s => ret (Serves s)
        | None => ret (Exit 0)
        end
    end.

(** The condition of the first [if]; [argc] is the number of arguments. *)
Definition is_server (argv : list str) : Cmd bool :=
  if (0 <? length argv)%nat then do! a := argv_at argv 1 in ret (seqb a #"server") else ret false.
Definition main (argv : list str) : Cmd Main :=
  do! server := is_server argv in
  if server : bool then main_server
  else do! code := main_command_line argv in ret (Exit code).
End Program.

(** ** What a command has done when a call throws *)

(** [m] does what [m'] does, or an exception ends it earlier; [m'] only adds calls. *)
Definition cut_short {Mat A} (m m' : Cmd Mat A) : Prop := forall calls,
  calls `prefix_of` fst (m' calls) /\
  (m calls = m' calls \/
   exists e, snd (m calls) = Uncaught e /\ fst (m calls) `prefix_of` fst (m' calls)).
Section CutShort.
Context {Mat : Type}.
Lemma cut_ret {A} (a : A) : cut_short (Mat := Mat) (ret a) (ret a).
Proof. intros calls. by split; [|left]. Qed.
Lemma cut_undefined {A} : cut_short (Mat := Mat) (undefined (A := A)) undefined.
Proof. intros calls. by split; [|left]. Qed.
Lemma cut_lift {A} (m : outcome A) : cut_short (Mat := Mat) (lift m) (lift m).
Proof. intros calls. by split; [|left]. Qed.
Lemma cut_emit (e : Effect Mat) : cut_short (emit e) (emit e).
Proof. intros calls. split; [by apply prefix_app_r|by left]. Qed.
Lemma cut_call throws (e : Effect Mat) : cut_short (call throws e) (call (fun _ => None) e).
Proof.
  intros calls. split; [by apply prefix_app_r|]. unfold call.
  destruct (throws _) as [x|]; [right; by exists x|by left].
Qed.
Lemma cut_bind {A B} (m m' : Cmd Mat A) (k k' : A -> Cmd Mat B) :
  cut_short m m' -> (forall a, cut_short (k a) (k' a)) -> cut_short (bind m k) (bind m' k').
Proof.
  intros Hm Hk calls. destruct (Hm calls) as [Hp Hc]. unfold bind.
  assert (forall calls r, calls `prefix_of`
    fst (match r with
         | Done a => k' a calls | Uncaught e => (calls, Uncaught e)
         | Undefined => (calls, Undefined) | NoReturn => (calls, NoReturn) end)) as Hgrow.
  { intros calls' [a| | |]; [apply Hk|done..]. }
  destruct (m' calls) as [calls' r'] eqn:E'. cbn [fst] in Hp, Hc.
  split; [etrans; [exact Hp|]; specialize (Hgrow calls' r'); by destruct r'|].
  destruct Hc as [->|(e & He & Hpe)].
  - destruct r' as [a| | |]; [apply Hk|by left..].
  - right. exists e. destruct (m calls) as [c r]. cbn [fst snd] in He, Hpe. subst r. split; [done|].
    etrans; [exact Hpe|]. specialize (Hgrow calls' r'). by destruct r'.
Qed.
End CutShort.
Create HintDb cuts.
#[export] Hint Resolve cut_ret cut_undefined cut_lift cut_emit cut_call : cuts.
Ltac cut_tac := repeat first [apply cut_bind; [|intros ?]|solve [eauto with cuts]|case_match].

(** ** Properties *)
Section Properties.
Context {Mat CascadeClassifier : Type}.
Context (driver_fails : DriverCall -> option SQLException) (file__ : str).
Context (load : str -> CascadeClassifier) (cascade_empty : CascadeClassifier -> bool).
Context (imread : str -> outcome Mat) (cvtColor equalizeHist : Mat -> outcome Mat).
Context (detectMultiScale : CascadeClassifier -> Mat -> outcome (list Rect)).
Context (Mat_at : Mat -> Rect -> outcome Mat) (cols rows : Mat -> Z) (construct : str + Acceptor).
Abbreviation run_main throws := (main throws driver_fails file__ load cascade_empty imread cvtColor
  equalizeHist detectMultiScale Mat_at cols rows construct).

Lemma cut_face_loop throws db sFaceId path mInput faces :
  cut_short (face_loop throws Mat_at cols rows db sFaceId path mInput faces)
    (face_loop (fun _ => None) Mat_at cols rows db sFaceId path mInput faces).
Proof. induction faces as [|face faces IH]; cbn [face_loop]; unfold updateFaceInfo; cut_tac. Qed.
#[local] Hint Resolve cut_face_loop : cuts.
(** Whatever call throws, the calls made are the first ones of the run in which none throws. *)
Lemma main_cut throws argv : cut_short (run_main throws argv) (run_main (fun _ => None) argv).
Proof.
  unfold main, is_server, main_server, main_command_line, DB_new, argv_at. cut_tac.
Qed.

(** The first exception of the driver, and the members the constructor leaves. *)
Definition database_error : option SQLException :=
  head (omap driver_fails [get_driver_instance; connect; setSchema; createStatement]).
Lemma DB_new_calls calls :
  match database_error with
  | None => exists db, DB_new driver_fails file__ calls = (calls, Done db) /\ _stmt db = Some tt
  | Some e => exists db, DB_new (Mat := Mat) driver_fails file__ calls =
      (calls ++ [Cout (sql_error file__ e)], Done db) /\ _stmt db = None
  end.
Proof.
  unfold database_error, DB_new. cbn [omap list_omap].
  repeat (destruct (driver_fails _); [cbn; eexists; split; reflexivity|]).
  cbn. eexists; split; reflexivity.
Qed.
(** Whatever the constructor did, the destructor would free a pointer that was never assigned. *)
Lemma DB_delete_undefined calls calls' db :
  DB_new (Mat := Mat) driver_fails file__ calls = (calls', Done db) ->
  DB_delete (Mat := Mat) db calls' = (calls', Undefined).
Proof. unfold DB_new. intros H. cbv [bind emit ret] in H. repeat case_match; by simplify_eq. Qed.

(** The calls for one face. *)
Definition update_of (sFaceId : str) (crop : Mat) : str :=
  sSQLUpdate sFaceId #"true" (int_to_string (cols crop)) (int_to_string (rows crop)).
Definition face_calls (sFaceId path : str) (crop : Mat) : list (Effect Mat) :=
  [ImWrite path crop; Cout (#"sSQLUpdate" ++ update_of sFaceId crop);
   ExecuteUpdate (update_of sFaceId crop)].
Lemma face_loop_calls db sFaceId path m faces crops calls :
  _stmt db = Some tt -> NUL ∉ sFaceId ->
  Forall2 (fun face crop => Mat_at m face = Ret crop) faces crops ->
  face_loop (fun _ => None) Mat_at cols rows db sFaceId path m faces calls =
  (calls ++ concat (map (face_calls sFaceId path) crops), Done tt).
Proof.
  intros Hdb Hid Hf. revert calls.
  induction Hf as [|face crop faces crops Hc _ IH]; intros calls; cbn [face_loop map concat].
  { by rewrite app_nil_r. }
  unfold bind at 1, lift. rewrite Hc. unfold bind at 1, call at 1. unfold bind at 1, updateFaceInfo.
  unfold bind at 1, emit. rewrite Hdb. unfold call. fold (update_of sFaceId crop).
  rewrite IH, c_str_no_nul; [by rewrite <-!app_assoc|]. unfold update_of, sSQLUpdate.
  rewrite !not_elem_of_app.
  split_and!; try apply int_to_string_no_nul; try done; apply (bool_decide_unpack _); vm_compute; exact I.
Qed.
Lemma face_loop_undefined db sFaceId path m face faces crop calls :
  _stmt db = None -> Mat_at m face = Ret crop ->
  face_loop (fun _ => None) Mat_at cols rows db sFaceId path m (face :: faces) calls =
  (calls ++ [ImWrite path crop; Cout (#"sSQLUpdate" ++ update_of sFaceId crop)], Undefined).
Proof.
  intros Hdb Hc. cbn [face_loop]. unfold bind, lift, call, updateFaceInfo, emit. rewrite Hc, Hdb.
  cbn. by rewrite <-app_assoc.
Qed.

(** C39: The calls of the program on the command line, with the paths of an image it can read.
    It prints the path of the face image, writes the part of each face, in the
    order OpenCV found them, to this one path, prints and executes the update of the row of the
    face id with its size, and prints the number of faces last.  When a call throws,
    the first of these calls were made and no others.  Without a database it prints why,
    and its behaviour is undefined behind the first face; without the second argument it is
    undefined from the start. *)
Theorem command_line_run program sFilePath sFaceId m gray equalized faces crops :
  let run throws := run_main throws [program; sFilePath; sFaceId] [] in
  let start := Cout (#"sFaceFilePath: " ++ sFaceFilePath sFilePath) in
  let finish := Cout (to_dec (N.of_nat (length faces))) in
  sFilePath <> #"server" -> NUL ∉ sFaceId ->
  imread (sFullPath sFilePath) = Ret m -> cvtColor m = Ret gray ->
  equalizeHist gray = Ret equalized ->
  detectMultiScale (face_cascade load) equalized = Ret faces ->
  Forall2 (fun face crop => Mat_at m face = Ret crop) faces crops ->
  match database_error with
  | None =>
      run (fun _ => None) =
        (start :: concat (map (face_calls sFaceId (sFaceFilePath sFilePath)) crops) ++ [finish],
         Done (Exit 0))
  | Some e =>
      run (fun _ => None) =
        (start :: Cout (sql_error file__ e) ::
           match crops with
           | [] => [finish]
           | crop :: _ => take 2 (face_calls sFaceId (sFaceFilePath sFilePath) crop)
           end,
         match crops with [] => Done (Exit 0) | _ => Undefined end)
  end /\
  (forall throws, run throws = run (fun _ => None) \/
     exists e, snd (run throws) = Uncaught e /\ fst (run throws) `prefix_of` fst (run (fun _ => None))) /\
  (forall throws, run_main throws [program; sFilePath] [] = ([], Undefined)).
Proof.
  intros run start finish Hp Hid Him Hcv Heq Hdet Hcrops.
  assert (seqb sFilePath #"server" = false) as Hseq by by apply seqb_neq.
  split_and!; [|intros throws; apply main_cut|].
  2: { intros throws. unfold main, is_server, argv_at, bind. cbn [length Nat.ltb Nat.leb lookup list_lookup ret].
       by rewrite Hseq. }
  assert (run (fun _ => None) =
    bind (DB_new driver_fails file__) (fun db =>
      bind (face_loop (fun _ => None) Mat_at cols rows db sFaceId (sFaceFilePath sFilePath) m faces) (fun _ =>
        bind (emit finish) (fun _ => ret (Exit 0)))) [start]) as ->.
  { cbv [run main is_server main_command_line argv_at bind lift emit ret lookup list_lookup length
         Nat.ltb Nat.leb].
    rewrite Hseq, Him, Hcv, Heq, Hdet. cbn [app].
    destruct (DB_new _ _ _) as [calls [db| | |]]; try done.
    by destruct (face_loop _ _ _ _ _ _ _ _ _ _) as [calls' [[]| | |]]. }
  pose proof (DB_new_calls [start]) as Hdb.
  destruct database_error as [e|]; destruct Hdb as (db & Hdb & Hstmt); unfold bind at 1; rewrite Hdb.
  - unfold bind at 1. destruct Hcrops as [|face crop faces crops Hc _]; [done|].
    by rewrite (face_loop_undefined _ _ _ _ _ _ crop).
  - unfold bind at 1. by rewrite (face_loop_calls _ _ _ _ _ crops).
Qed.

(** As a server the program serves with two workers unless the classifier is empty, the
    constructor throws or the acceptor could not be opened; the last is no error to [main]. *)
Theorem main_as_server throws program arguments :
  let run := run_main throws (program :: #"server" :: arguments) [] in
  let init := InitLog [] LOG_CONSOLE in
  if cascade_empty (server_cascade load) then
    run = ([init; LogErro #"Cascade is empty!"], Done (Exit 1))
  else
    match construct with
    | inl e => run = ([init; Cerr (#"Exception: " ++ e)], Done (Exit 1))
    | inr acceptor_ =>
        run = ([init], Done (if acc_is_open acceptor_ then Serves (Server_Run 2) else Exit 0))
    end.
Proof.
  cbv zeta. unfold main, is_server, main_server, argv_at, Run.
  cbv [bind lookup list_lookup length Nat.ltb Nat.leb ret emit].
  change (seqb #"server" #"server") with true. cbv iota.
  destruct (cascade_empty _); [done|]. by destruct construct as [e|a]; [|destruct (acc_is_open a)].
Qed.
End Properties.

Example face_path :
  sFaceFilePath #"/uploads/fimage64/image/21/image.png" =
  sFixedPath ++ #"/uploads/fimage64/image/21/face.jpg".
Proof. vm_compute. reflexivity. Qed.

(** ** Witness: an image is its bytes, and one face is found in it *)
Definition toy_main (driver_fails : DriverCall -> option SQLException) throws : list str -> Cmd str Main :=
  main throws driver_fails #"DB.cpp" (fun _ => tt) (fun _ => false) (fun _ => Ret #"x") Ret Ret
    (fun _ _ => Ret [mkRect 1 2 30 40]) (fun m _ => Ret m) (fun _ => 30) (fun _ => 40)
    (inr (Server_make false false false)).
Definition toy_arguments : list str := [ #"facedetector"; #"/21/image.png"; #"7"].
Example command_line_run_witness :
  let update :=
    #"UPDATE fimage64s SET faceFound = true , faceWidth =30, faceHeight=40 WHERE ID = 7;" in
  toy_main (fun _ => None) (fun _ => None) toy_arguments [] =
    ([Cout (#"sFaceFilePath: " ++ sFaceFilePath #"/21/image.png");
      ImWrite (sFaceFilePath #"/21/image.png") #"x"; Cout (#"sSQLUpdate" ++ update);
      ExecuteUpdate update; Cout #"1"], Done (Exit 0)).
Proof.
  intros update.
  refine (proj1 (command_line_run (fun _ => None) #"DB.cpp" (fun _ => tt) (fun _ => false)
    (fun _ => Ret #"x") Ret Ret (fun _ _ => Ret [mkRect 1 2 30 40]) (fun m _ => Ret m)
    (fun _ => 30) (fun _ => 40) (inr (Server_make false false false)) #"facedetector" #"/21/image.png"
    #"7" #"x" #"x" #"x" [mkRect 1 2 30 40] [ #"x"] _ _ _ _ _ _ _)); try reflexivity; try done.
  - apply (bool_decide_unpack _). vm_compute. exact I.
  - by repeat constructor.
Defined.
(** Without a database the first face ends the defined behaviour. *)
Example command_line_without_database :
  let e := mkSQLException #"Unknown database" 1049 #"42000" in
  toy_main (fun d => match d with setSchema => Some e | _ => None end) (fun _ => None)
      toy_arguments [] =
    ([Cout (#"sFaceFilePath: " ++ sFaceFilePath #"/21/image.png");
      Cout #"# ERR: SQLException in DB.cpp# ERR: Unknown database (MySQL error code: 1049, SQLState: 42000 )";
      ImWrite (sFaceFilePath #"/21/image.png") #"x";
      Cout #"sSQLUpdateUPDATE fimage64s SET faceFound = true , faceWidth =30, faceHeight=40 WHERE ID = 7;"],
     Undefined).
Proof. vm_compute. reflexivity. Qed.
