(* ===== verification/ServiceTests.v ===== *)
(** * The unit tests of the service

    Models [test/TestFaceDetectionService.cpp]: what its two tests do and what
    they expect, run on the definitions of [FaceDetection] and [Logger].  The
    expectation [MatchesRegex(".*s.*")] is that the text contains [s].  The
    class [TestFaceDetectionService] only makes [Get] and [Post] public. *)
From Stdlib Require Import Ascii String.
From stdpp Require Import base tactics list numbers option strings.
From S2P Require Import Prelude Globals Common Url Message Rest Logger LoggerProps JsonValue FaceDetection.
Open Scope Z_scope.

Section Tests.
Context {Mat CascadeClassifier : Type}.
Context (Mat_new : Mat) (Mat_empty : Mat -> bool).
Context (imdecode : str -> outcome Mat) (equalizeHist : Mat -> outcome Mat).
Context (detectMultiScale : CascadeClassifier -> Mat -> outcome (list Rect)).
Abbreviation Post := (Post Mat_new Mat_empty imdecode equalizeHist detectMultiScale).

(** ** What the service logs *)

(** The calls of [LOG_ERRO], as line and message. *)
Definition faceDetect_errors (i : @Image Mat) : list (Z * str) :=
  if Mat_empty (_matInput i) then [(80, #"Input image is empty!")] else [].
(** Those of [Post], when it returns. *)
Definition Post_errors (sRequestContent : str) : outcome (list (Z * str)) :=
  match sRequestContent with
  | [] => Ret [(93, #"Got empty request.")]
  | _ =>
      let! image := JsonStringToImage Mat_new imdecode sRequestContent in
      Ret (match image with Some i => faceDetect_errors i | None => [] end)
  end.
(** The calls one after the other, on one thread. *)
Fixpoint log_errors (pl : Platform) (l : Logger) (timestamp thread_id : str) (calls : list (Z * str))
    : option (list LogAction) :=
  match calls with
  | [] => Some []
  | (line, message) :: calls' =>
      option_app (LOG_ERRO pl l timestamp thread_id #"FaceDetectionService.cpp" line message [])
        (log_errors pl l timestamp thread_id calls')
  end.

(** ** The tests *)
Definition contains (s text : str) : bool := bool_decide (is_Some (find_str s text)).
Definition service (cascadeClassifier : CascadeClassifier) : FaceDetectionService :=
  mkFaceDetectionService 0 cascadeClassifier.

(** [TEST(FaceDetectionService, Get)]. *)
Definition test_Get (cascadeClassifier : CascadeClassifier) : outcome bool :=
  let! response := Get (service cascadeClassifier) (mkUrlQuery []) RestResponse_new in
  Ret (bool_decide (rr_status response = Some kOK)).
(** [TEST(FaceDetectionService, Post)], which captures [stderr] from an empty one on. *)
Definition test_Post (pl : Platform) (timestamp thread_id : str)
    (cascadeClassifier : CascadeClassifier) : outcome bool :=
  let! l := LogInit pl (Logger_new (mkStream [] 0)) thread_id [] LOG_CONSOLE in
  let! response := Post (service cascadeClassifier) [] RestResponse_new in
  let! errors := Post_errors [] in
  match log_errors pl l timestamp (GetThreadID l thread_id) errors with
  | Some actions =>
      Ret (contains #"Got empty request" (s_bytes (snd (do_actions (file l, err l) actions))))
  | None => Ret false
  end.

(** ** The tests pass *)
Lemma contains_app s a b : contains s (a ++ s ++ b) = true.
Proof.
  apply bool_decide_eq_true. induction a as [|c a IH]; cbn [app].
  - destruct (s ++ b) eqn:E; cbn [find_str]; rewrite <-E, prefixb_app; by eexists.
  - cbn [find_str]. destruct (prefixb _ _); [by eexists|]. by apply fmap_is_Some.
Qed.

(** Both tests pass, on every platform and at any time, whatever OpenCV does. *)
Theorem tests_pass pl timestamp thread_id cascadeClassifier :
  test_Get cascadeClassifier = Ret true /\
  test_Post pl timestamp thread_id cascadeClassifier = Ret true.
Proof.
  split; [vm_compute; reflexivity|].
  unfold test_Post, LogInit. change (has_mode LOG_CONSOLE LOG_FILE) with false. cbn [obind].
  change (file (Logger_Init _ _ _ _)) with (@None Stream). cbn [FaceDetection.Post Post_errors obind].
  set (l := mkLogger _ _ _ _). set (id := GetThreadID l thread_id).
  unfold log_errors, LOG_ERRO, LOG_at. change (WEBCC_LOG_LEVEL <=? WEBCC_ERRO)%nat with true.
  unfold Log, Log_file. change (file l) with (@None Stream). unfold Log_console.
  change (has_mode (modes l) LOG_CONSOLE) with true.
  change (kLevelNames !! WEBCC_ERRO) with (Some #"ERRO").
  change (printf #"Got empty request." []) with (Some #"Got empty request.").
  change (WEBCC_ERRO <? WEBCC_WARN)%nat with false. cbn [mbind option_bind].
  destruct (g_colorlogtostderr && g_terminal_has_color pl).
  - rewrite printf_color2, printf_line. cbn [mbind option_bind option_app app].
    unfold flush_action. change (has_mode (modes l) LOG_FLUSH) with false.
    cbn [app locked do_actions fold_left do_action on_target snd fst s_bytes fwrite].
    f_equal. rewrite <-app_assoc. apply (contains_app #"Got empty request" _ (#"." ++ _)).
  - rewrite printf_console. cbn [mbind option_bind option_app app].
    unfold flush_action. change (has_mode (modes l) LOG_FLUSH) with false.
    cbn [app locked do_actions fold_left do_action on_target snd fst s_bytes fwrite].
    f_equal. rewrite <-app_assoc. apply (contains_app #"Got empty request" _ (#"." ++ _)).
Qed.
End Tests.
